(* ===== verification/_CoqProject ===== *)
-Q . S2P
Prelude.v
GoStrings.v
Utf8.v
Uris.v
Pool.v
PoolSpec.v
Trie.v
TrieSpec.v
TraversalSpec.v
Registry.v
RegistrySpec.v
PruneSpec.v
PoolTheorems.v
RegistryTheorems.v
Heap.v
HeapSpec.v
DualHeap.v
ActiveApps.v
ActiveAppsSpec.v
TopApps.v
TopAppsSpec.v
Floats.v
Strconv.v
Base64.v
Http.v
Durations.v
Times.v
TimeTheorems.v
Json.v
Uuid.v
LogText.v
JsonSpec.v
JsonDecode.v
JsonDecodeSpec.v
FloatText.v
MessageJson.v
RegistryJson.v
LogCounter.v
RouteService.v
SignatureJson.v
RouteServiceTheorems.v
AccessLog.v
Proxy.v
ProxyServe.v
ProxySpec.v
Interleaving.v
ProxyForward.v
ProxyUpgrade.v
ProxyServeSpec.v
ProxyTheorems.v
Cookies.v
ProxySessions.v
ProxyExamples.v
RegistryInterface.v
RouterMessages.v
NatsParser.v
NatsParserSpec.v
NatsStream.v
NatsConn.v
NatsBus.v
NatsReconnect.v
RouteFetcher.v
RouteFetcherSpec.v
Sse.v
SseSpec.v
Connections.v
Shutdown.v
ShutdownSpec.v
Reporters.v
ReportersSpec.v
Config.v
ConfigSpec.v
StatusServer.v
VarzJson.v
VarzJsonSpec.v
AccessLogger.v
AccessLoggerSpec.v
System.v
ProcessGroup.v
Main.v
