(* ===== verification/Prelude.v ===== *)
(** * gorouter: a verified model of the Cloud Foundry HTTP router

    gorouter takes HTTP requests for host names and paths and passes them to the
    instances of the applications that are registered for them.  This library
    translates the Go sources under [src/] into Rocq functions and relations and
    proves what makes them correct.

    ** The program and its parts

    - Routes are learnt from messages on the NATS bus ([src/router]) and from
      the routing API ([src/route_fetcher]); both write to the registry
      ([src/registry]), a trie of URI segments whose nodes hold pools of
      endpoints ([src/route]).
    - The proxy ([src/proxy]) looks up the pool of a request, sends the request
      to an endpoint of it with up to three attempts, through a route service
      ([src/route_service]) where the route has one, and keeps sessions sticky.
    - Requests are counted ([src/varz], [src/metrics], [src/stats]) and written to
      the access log ([src/access_log]).
    - The router ([src/router], [src/main.go]) is assembled from a
      configuration ([src/config]), tracks its client connections, drains and
      stops them, and has a status server ([src/common]).
    - Of the packages the repository carries along under [Godeps], those that
      stand between the network and the routing table or around the life of
      the process are modelled too: the client of the NATS bus, the event
      stream of the routing API, the logger (whose fatal messages panic), the
      round tripper of dropsonde, the group of processes the router runs in,
      and the generator of identifiers.

    ** Files

    Shared by all:
    - [Prelude]: results of Go code ([res]: a value, a panic, or a loop of the
      model cut off), machine integers, time, heaps of objects, shared lemmas.
    - [GoStrings], [Base64], [Http], [Utf8]: what the sources use of the
      standard library (strings, base64, headers, URLs, cookies, response
      writers, runes).
    - [Floats], [Strconv], [FloatText], [LogText]: binary64 arithmetic, and
      numbers and quoted strings as text ([strconv] of Go 1.4).
    - [Durations], [Times], [TimeTheorems]
      (common/duration.go on models of [time.ParseDuration], [time.Format] and
      [time.Parse]): both types survive their JSON to the second.
    - [Json], [JsonSpec], [JsonDecode], [JsonDecodeSpec]: the grammar of
      [encoding/json], printing, parsing and storing into Go values; what is
      printed is read back.

    Routes:
    - [Uris] (route/uris.go), [Pool] (route/endpoint.go, route/pool.go),
      [Trie] (registry/trie.go), [Registry] (registry/registry.go): data and
      operations.  Pool elements, trie nodes and pools are objects on heaps
      with explicit pointers, as the code shares and mutates them; the order in
      which Go ranges over a map is an argument.
    - [PoolSpec], [TrieSpec], [TraversalSpec], [RegistrySpec], [PruneSpec]: the
      invariants and the contract of each operation.  [PoolTheorems] and
      [RegistryTheorems]: histories refine operations on a finite map from
      addresses to endpoints and on a routing table; lookups find the most
      specific route; the iterator is fair, avoids failed endpoints and honours
      sticky sessions; pruning removes exactly what is stale.  Private instance
      ids are assumed to have no colon, which the router does not check: such
      an id can be the address of another endpoint, and then the wrong endpoint
      is removed, or a slice is indexed out of range ([colon_id_panics]).  The
      theorems on histories of the table, wherever they are, state this
      condition on the ids and guids that come from the bus and the routing API.
    - [RegistryInterface]: the registry as its writers see it, a class of
      operations with laws that [RouteRegistry] implements.
    - [MessageJson] (the texts of router/registry_message.go and of the start
      message), [RegistryJson] ([MarshalJSON] of endpoints, pools and the
      registry): messages survive their text, and the routes page lists the
      routing table, if every path begins with a host ([slash_uri_hidden] shows
      what happens otherwise).
    - [RouterMessages] (router/registry_message.go, the subscriptions of
      router/router.go) and [RouteFetcher], [RouteFetcherSpec]
      (route_fetcher/route_fetcher.go): both writers, verified against that
      class.  Messages and polls have exactly their effect on the table, and
      polling mirrors the last answer of the routing API.
    - [NatsParser], [NatsParserSpec], [NatsStream] (apcera/nats/parser.go): the
      parser of the bus protocol, whose slices share the read buffer and a
      scratch space, performs the operations the server sent, however the
      reads cut them; a machine that reads byte by byte is the reference.
    - [NatsConn], [NatsBus] (apcera/nats/nats.go): subscriptions with their
      channels and goroutines, the flushing one included; from the bytes of the
      bus to the routing table, with every message for a subscription that
      keeps up.  [NatsReconnect]: a lost connection is found again, with every
      subscription and what was published in between, after any number of
      attempts that reach no server ([publication_lost]: not after a handshake
      that fails).
    - [Sse], [SseSpec] (vito/go-sse, routing-api/event_source.go):
      events survive their text, and over connections that break anywhere the
      fetcher sees every event that was sent completely, once and in order.

    Requests:
    - [RouteService] (route_service, common/secure), [RouteServiceTheorems]:
      signatures round-trip, are accepted only for their time and their URL as
      JSON carries it (bytes that are not UTF-8 are replaced), and only when the
      router issued them, for an authentic AEAD; a nonce of the wrong length
      makes validation panic.  [SignatureJson]: their JSON, an instance of the
      codec the theorems are stated for.
    - [AccessLog] (the log record), [Proxy] (proxy/responsewriter.go,
      proxy/request_handler.go), [ProxyServe] (proxy/proxy.go,
      proxy/proxy_round_tripper.go, dropsonde's round tripper around the
      transport and the reverse proxy of the standard library): handlers in a state monad whose state survives a panic; clock,
      random numbers, network and back ends are asked of an environment.
    - [ProxySpec], [ProxyForward], [ProxyUpgrade], [ProxyServeSpec]: a
      weakest-precondition calculus and the contracts of the handlers.
      [ProxyTheorems]: every request is logged once, and answered unless a
      signature makes it panic; what is sent to back ends and route services,
      and what comes back; a request for a route with a service passes the
      service first, unless it is an upgrade, which by-passes it.  [Cookies],
      [ProxySessions]: sticky sessions and the accounts of the response writer.
      [ProxyExamples]: the theorems at work on a small router.
    - [Interleaving]: lookups and the iterators of any number of requests,
      interleaved with the writers of the table at the granularity of the
      registry's and the pools' locks; an endpoint handed out is registered
      at that very step.

    Statistics and logs:
    - [Heap], [HeapSpec], [DualHeap] (stats/heap.go and container/heap),
      [ActiveApps], [ActiveAppsSpec], [TopApps], [TopAppsSpec]: two heaps over the
      same entries, kept consistent; reports are sorted and exact.
    - [Reporters], [ReportersSpec] (varz/varz.go, metrics): the counters of
      the status page and of dropsonde count the reports, and agree.
    - [VarzJson], [VarzJsonSpec] (the JSON of varz/varz.go and
      common/varz.go): every number passes through a [float64], and the page
      shows the counters.  [LogCounter] (common/log_counter.go,
      common/process_status.go, and the levels of the gosteno logger): records
      per level, the process's usage, and which messages panic.
    - [AccessLogger], [AccessLoggerSpec] (access_log): records are written in
      order, each once, and as one line unless the application's id has a line
      break.

    The process:
    - [Config], [ConfigSpec] (config/config.go): which configurations are
      accepted and what is derived from them.
    - [Connections] (the connection table of router/router.go): the idle and
      active sets, and the signal that ends draining.
    - [Shutdown], [ShutdownSpec] (goroutines of router/router.go and
      common/component.go): interleaved steps; nothing panics but a listener
      that fails at the start, nothing deadlocks, and stopping ends.
    - [StatusServer] (common): basic authentication guards the pages.
    - [ProcessGroup] (tedsuo/ifrit/grouper, [launchRouter] of main.go): members
      are stopped in the reverse of the order of starting, and what a second
      signal does.  [Uuid] (common/common.go, nu7hatch/gouuid): identifiers
      have their form and are read back.
    - [Main] (main.go): the assembled system is consistent with its
      configuration; a log file that cannot be opened ends in a panic.
    - [System]: messages, polls, event streams, pruning passes and requests
      take turns on one registry; whatever a request contacts was announced
      for its URI and has not been withdrawn, by a poll that no longer lists it
      among others.  Each of these runs to its end
      before the next one starts; what may happen between a request's lookup
      and its attempts is the subject of [Interleaving].

    ** Conventions

    State is passed explicitly; a Go function that mutates its receiver
    returns the new one.  A method that runs under a lock is one atomic
    operation; goroutines that interleave are step relations.  [int], [int64]
    and [time.Duration] are [Z] with wrap-around written out where it
    matters.  Loops that are not structural have fuel chosen from the data (the
    number of elements, of nodes, of labels of a host name plus one), and the
    theorems show that it is never exhausted; the JSON parser's is twice the
    length of the text, the event reader's its length plus one, and that of an
    event source the number of answers plus two.  Where numbers go through a
    [float64] the theorems ask for less than 2^53; a control line of the bus
    is at most as long as the parser's scratch space, 1024 bytes, beyond which
    the code panics.  What the network and the operating system do (dialing,
    reads, answers, signals, random bytes) and what a [select] chooses are
    arguments.  Packages that are not modelled (ciphers, YAML, the HTTP client
    of the routing API, the rates and percentiles of go-metrics), the offset of
    the local time zone and the table of printable runes above U+00FF are
    parameters; what is assumed of them is a named hypothesis, and concrete
    instances satisfy it.

    ** Not modelled

    YAML texts, log messages, the events dropsonde emits and its handler around
    the proxy (it sets [X-CF-RequestID] of the incoming request; the theorems
    hold for any incoming headers), [strings.ToLower] beyond ASCII, the moving averages and percentiles of go-metrics
    (vendored), what the debug server of [main.go] answers, [isValidUrl] of the
    access log (nothing calls it), test helpers, fakes and sample applications.
    Of the bus client: the first connection and its handshake, the timer that
    sends pings, and what the router does not call.  Of the routing API's
    client: its HTTP requests and the token fetcher.  The other vendored packages
    under [Godeps]. *)

From stdpp Require Export base tactics option list numbers strings pretty gmap fin_maps.
From Stdlib Require Export Ascii ZArith Lia.

(** ** Results of Go code

    A Go computation either returns, panics with a message (nil dereference,
    index out of range, an explicit [panic]), or is cut off because the fuel
    of a model loop ran out.  The theorems show that the last case never
    happens for the fuel the definitions use. *)

Inductive res (A : Type) : Type :=
| Ok (a : A)
| Panic (msg : string)
| NoFuel.
Arguments Ok {A} _.
Arguments Panic {A} _.
Arguments NoFuel {A}.

#[export] Instance res_mret : MRet res := fun A a => Ok a.
#[export] Instance res_mbind : MBind res := fun A B f m =>
  match m with
  | Ok a => f a
  | Panic s => Panic s
  | NoFuel => NoFuel
  end.

(** Reading a pointer or a slice slot: a missing target is a run-time panic. *)
Definition or_panic {A} (msg : string) (o : option A) : res A :=
  match o with
  | Some a => Ok a
  | None => Panic msg
  end.

Definition nil_deref : string := "invalid memory address or nil pointer dereference".
Definition out_of_range : string := "index out of range".

Definition is_Ok {A} (m : res A) : Prop := ∃ a, m = Ok a.

Lemma bind_Ok {A B} (m : res A) (f : A → res B) b :
  m ≫= f = Ok b ↔ ∃ a, m = Ok a ∧ f a = Ok b.
Proof.
  split.
  - destruct m as [a| |]; simpl; [|done|done]. eauto.
  - intros (a & -> & H). exact H.
Qed.

Lemma or_panic_Ok {A} msg (o : option A) a : or_panic msg o = Ok a ↔ o = Some a.
Proof. destruct o; simpl; split; congruence. Qed.

Lemma bind_Ok_r {A B} (a : A) (f : A → res B) : Ok a ≫= f = f a.
Proof. done. Qed.

Lemma bind_assoc {A B C} (m : res A) (f : A → res B) (g : B → res C) :
  (m ≫= f) ≫= g = m ≫= (λ a, f a ≫= g).
Proof. by destruct m. Qed.

Lemma bind_ext {A B} (m : res A) (f g : A → res B) : (∀ a, f a = g a) → m ≫= f = m ≫= g.
Proof. intros H. destruct m; simpl; auto. Qed.

(** Running a callback over a slice, in order. *)
Fixpoint foldM {S X} (f : S → X → res S) (s : S) (l : list X) : res S :=
  match l with
  | [] => Ok s
  | x :: l' => f s x ≫= λ s', foldM f s' l'
  end.

Lemma foldM_app {S X} (f : S → X → res S) s l1 l2 :
  foldM f s (l1 ++ l2) = foldM f s l1 ≫= λ s', foldM f s' l2.
Proof.
  revert s; induction l1 as [|x l1 IH]; intros s; simpl; [done|].
  rewrite bind_assoc. destruct (f s x); simpl; [apply IH|done|done].
Qed.

(** A property kept by every step of a loop is kept by the loop. *)
Lemma foldM_inv {S X} (I : S → Prop) (f : S → X → res S) (l : list X) s :
  I s →
  (∀ s x, x ∈ l → I s → ∃ s', f s x = Ok s' ∧ I s') →
  ∃ s', foldM f s l = Ok s' ∧ I s'.
Proof.
  revert s; induction l as [|x l IH]; intros s Hs Hstep; simpl; [eauto|].
  destruct (Hstep s x) as (s' & -> & Hs'); [by left|done|]. simpl.
  apply IH; [done|]. intros s0 y Hy. apply Hstep. by right.
Qed.

(** What every step keeps, the loop keeps. *)
Lemma foldM_keeps {S X Y} (π : S → Y) (f : S → X → res S) (l : list X) s s' :
  (∀ s x s', f s x = Ok s' → π s' = π s) → foldM f s l = Ok s' → π s' = π s.
Proof.
  intros Hstep. revert s; induction l as [|x l IH]; intros s; simpl; [by intros [= <-]|].
  destruct (f s x) as [s1| |] eqn:Hf; [|done..]. simpl. intros H. rewrite (IH s1 H). by eapply Hstep.
Qed.

(** Inverting a hypothesis that a monadic computation returned. *)
Ltac res_inv :=
  repeat match goal with
  | H : _ ≫= _ = Ok _ |- _ => apply bind_Ok in H as (? & ? & ?)
  | H : or_panic _ _ = Ok _ |- _ => apply or_panic_Ok in H
  | H : Ok _ = Ok _ |- _ => injection H as H; subst
  | H : Panic _ = Ok _ |- _ => discriminate H
  | H : NoFuel = Ok _ |- _ => discriminate H
  end.

(** ** Machine integers

    Go's [int] and [time.Duration] are 64-bit two's-complement integers. *)

Definition wrap64 (z : Z) : Z := (z + 2 ^ 63) `mod` 2 ^ 64 - 2 ^ 63.
Definition wrap16u (z : Z) : Z := z `mod` 2 ^ 16.
Definition min_int64 : Z := - 2 ^ 63.
Definition max_int64 : Z := 2 ^ 63 - 1.
Definition in_int64 (z : Z) : Prop := (- 2 ^ 63 ≤ z < 2 ^ 63)%Z.

Lemma wrap64_id z : in_int64 z → wrap64 z = z.
Proof.
  unfold in_int64, wrap64. intros H.
  rewrite Z.mod_small; lia.
Qed.

Lemma wrap64_range z : in_int64 (wrap64 z).
Proof.
  unfold in_int64, wrap64.
  pose proof (Z.mod_pos_bound (z + 2 ^ 63) (2 ^ 64)). lia.
Qed.

(** ** Time

    [time.Time] is an instant in nanoseconds; [time.Duration] is an [int64]
    count of nanoseconds, so that products by [time.Second] wrap.
    [Time.Sub] saturates instead of wrapping. *)

Definition Second : Z := 1000000000.
Definition Minute : Z := 60 * Second.
Definition Millisecond : Z := 1000000.
Definition seconds_to_duration (n : Z) : Z := wrap64 (n * Second).
Definition time_Add (t d : Z) : Z := t + d.
Definition time_Sub (t u : Z) : Z := Z.max min_int64 (Z.min max_int64 (t - u)).
Definition time_Before (t u : Z) : bool := (t <? u)%Z.
Definition time_Unix (t : Z) : Z := t `div` Second.

(** ** Lists *)

Lemma prefix_of_snoc {A} (p q : list A) s :
  p `prefix_of` q ++ [s] ↔ p `prefix_of` q ∨ p = q ++ [s].
Proof.
  split.
  - intros [k Hk]. destruct k as [|x k _] using rev_ind.
    + right. by rewrite app_nil_r in Hk.
    + left. rewrite app_assoc in Hk. apply app_inj_tail in Hk as [-> _]. by exists k.
  - intros [[k ->]| ->]; [|done]. exists (k ++ [s]). by rewrite app_assoc.
Qed.

(** ** Heaps of Go objects

    A pointer is a [positive]; objects of one type live in a [gmap].  The
    allocator picks a pointer above every allocated one. *)

Definition fresh_ptr {A} (h : gmap positive A) : positive :=
  map_fold (λ k _ acc, Pos.max (Pos.succ k) acc) 1%positive h.

Lemma fresh_ptr_above {A} (h : gmap positive A) p :
  is_Some (h !! p) → (p < fresh_ptr h)%positive.
Proof.
  unfold fresh_ptr. revert p.
  apply (map_fold_weak_ind (λ r (m : gmap positive A), ∀ p, is_Some (m !! p) → (p < r)%positive)).
  - intros p [x Hx]. by rewrite lookup_empty in Hx.
  - intros i x m r Hi IH p [y Hy].
    destruct (decide (i = p)) as [->|Hne]; [lia|].
    rewrite lookup_insert_ne in Hy by done.
    specialize (IH p (ex_intro _ y Hy)). lia.
Qed.

Lemma fresh_ptr_None {A} (h : gmap positive A) : h !! fresh_ptr h = None.
Proof.
  destruct (h !! fresh_ptr h) eqn:E; [|done].
  pose proof (fresh_ptr_above h (fresh_ptr h)) as H. rewrite E in H.
  specialize (H (ex_intro _ _ eq_refl)). lia.
Qed.

Create HintDb gorouter.
#[export] Hint Resolve fresh_ptr_None wrap64_range : gorouter.

(** Concatenation reduces on a constructor. *)
#[global] Arguments String.append : simpl nomatch.
