(* ===== verification/GoStrings.v ===== *)
(** * The parts of Go's [strings] package the router uses

    A Go string is a byte string, modelled by [string] (a list of 8-bit
    characters).  All separators the router searches for are single bytes, so
    [Index], [Split] and [SplitN] take an [ascii].  [ToLower] is the ASCII
    part of Go's mapping (bytes from 128 on are left alone); the router
    applies it to host names, paths and header values. *)

From S2P Require Import Prelude.

Fixpoint str_take (n : nat) (s : string) : string :=
  match n, s with
  | S n', String c s' => String c (str_take n' s')
  | _, _ => EmptyString
  end.

Fixpoint str_drop (n : nat) (s : string) : string :=
  match n, s with
  | S n', String _ s' => str_drop n' s'
  | O, _ => s
  | _, EmptyString => EmptyString
  end.

Fixpoint strings_HasPrefix (s pre : string) : bool :=
  match pre, s with
  | EmptyString, _ => true
  | String p pre', String c s' => Ascii.eqb c p && strings_HasPrefix s' pre'
  | String _ _, EmptyString => false
  end.

Definition strings_HasSuffix (s suf : string) : bool :=
  (String.length suf <=? String.length s)%nat
  && String.eqb (str_drop (String.length s - String.length suf) s) suf.

Definition strings_TrimPrefix (s pre : string) : string :=
  if strings_HasPrefix s pre then str_drop (String.length pre) s else s.

Definition strings_TrimSuffix (s suf : string) : string :=
  if strings_HasSuffix s suf
  then str_take (String.length s - String.length suf) s else s.

(** [strings.Index] for a one-byte separator; [None] stands for [-1]. *)
Fixpoint strings_IndexByte (s : string) (c : ascii) : option nat :=
  match s with
  | EmptyString => None
  | String a s' => if Ascii.eqb a c then Some O else S <$> strings_IndexByte s' c
  end.

Fixpoint strings_Contains (s sub : string) : bool :=
  strings_HasPrefix s sub ||
  match s with
  | EmptyString => false
  | String _ s' => strings_Contains s' sub
  end.

Definition lower_ascii (c : ascii) : ascii :=
  let n := nat_of_ascii c in
  if (65 <=? n)%nat && (n <=? 90)%nat then ascii_of_nat (n + 32) else c.

Fixpoint strings_ToLower (s : string) : string :=
  match s with
  | EmptyString => EmptyString
  | String c s' => String (lower_ascii c) (strings_ToLower s')
  end.

(** [strings.Split(s, sep)] for a one-byte separator. *)
Fixpoint strings_Split (s : string) (sep : ascii) : list string :=
  match s with
  | EmptyString => [EmptyString]
  | String c s' =>
      if Ascii.eqb c sep then EmptyString :: strings_Split s' sep
      else match strings_Split s' sep with
           | [] => [String c EmptyString]
           | x :: xs => String c x :: xs
           end
  end.

(** [strings.SplitN(s, sep, 2)]: at most one cut, at the first separator. *)
Definition strings_SplitN2 (s : string) (sep : ascii) : list string :=
  match strings_IndexByte s sep with
  | None => [s]
  | Some i => [str_take i s; str_drop (S i) s]
  end.

Fixpoint strings_Join (l : list string) (sep : string) : string :=
  match l with
  | [] => EmptyString
  | [x] => x
  | x :: l' => x +:+ sep +:+ strings_Join l' sep
  end.

(** [strings.Replace(s, old, new, -1)] for one byte. *)
Fixpoint strings_ReplaceByte (s : string) (old new : ascii) : string :=
  match s with
  | EmptyString => EmptyString
  | String c s' => String (if Ascii.eqb c old then new else c) (strings_ReplaceByte s' old new)
  end.

(** ** Lemmas *)

Fixpoint str_in (c : ascii) (s : string) : bool :=
  match s with
  | EmptyString => false
  | String a s' => Ascii.eqb a c || str_in c s'
  end.

Fixpoint str_forall (f : ascii → bool) (s : string) : bool :=
  match s with
  | EmptyString => true
  | String c s' => f c && str_forall f s'
  end.

Fixpoint str_count (c : ascii) (s : string) : nat :=
  match s with
  | EmptyString => O
  | String a s' => (if Ascii.eqb a c then 1 else 0) + str_count c s'
  end.

Lemma str_length_app s t : String.length (s +:+ t) = String.length s + String.length t.
Proof. induction s; simpl; lia. Qed.

Lemma str_length_take n s : String.length (str_take n s) = Nat.min n (String.length s).
Proof. revert s; induction n; intros [|c s]; simpl; auto. Qed.

Lemma str_length_drop n s : String.length (str_drop n s) = String.length s - n.
Proof. revert s; induction n; intros [|c s]; simpl; auto. Qed.

Lemma str_take_drop n s : str_take n s +:+ str_drop n s = s.
Proof. revert s; induction n as [|n IH]; intros [|c s]; simpl; [done..|]. by rewrite IH. Qed.

Lemma str_drop_app n s t : n = String.length s → str_drop n (s +:+ t) = t.
Proof. intros ->. induction s; simpl; auto. Qed.

Lemma str_take_app n s t : n = String.length s → str_take n (s +:+ t) = s.
Proof. intros ->. induction s as [|c s IH]; simpl; [by destruct t|]. by rewrite IH. Qed.

Lemma str_app_nil_r s : s +:+ "" = s.
Proof. induction s as [|c s IH]; simpl; [done|]. by rewrite IH. Qed.

Lemma str_app_assoc s t u : (s +:+ t) +:+ u = s +:+ (t +:+ u).
Proof. induction s as [|c s IH]; simpl; [done|]. by rewrite IH. Qed.

Lemma str_in_app c s t : str_in c (s +:+ t) = str_in c s || str_in c t.
Proof. induction s as [|a s IH]; simpl; [done|]. rewrite IH. by rewrite orb_assoc. Qed.

Lemma str_count_app c s t : str_count c (s +:+ t) = str_count c s + str_count c t.
Proof. induction s as [|a s IH]; simpl; [done|]. lia. Qed.

Lemma str_count_in c s : str_in c s = false ↔ str_count c s = 0.
Proof.
  induction s as [|a s IH]; simpl; [done|].
  destruct (Ascii.eqb a c); simpl; [split; [done|lia]|exact IH].
Qed.

Lemma HasPrefix_app s t : strings_HasPrefix (s +:+ t) s = true.
Proof. induction s; simpl; [by destruct t|]. by rewrite Ascii.eqb_refl. Qed.

Lemma HasPrefix_spec s pre :
  strings_HasPrefix s pre = true → s = pre +:+ str_drop (String.length pre) s.
Proof.
  revert s; induction pre as [|p pre IH]; intros [|c s]; simpl; try done.
  intros [->%Ascii.eqb_eq H]%andb_true_iff. by rewrite <- IH.
Qed.

Lemma TrimPrefix_app pre s : strings_TrimPrefix (pre +:+ s) pre = s.
Proof. unfold strings_TrimPrefix. rewrite HasPrefix_app. by apply str_drop_app. Qed.

Lemma TrimPrefix_count c s pre : str_count c (strings_TrimPrefix s pre) ≤ str_count c s.
Proof.
  unfold strings_TrimPrefix. destruct (strings_HasPrefix s pre) eqn:E; [|lia].
  apply HasPrefix_spec in E. rewrite E at 2. rewrite str_count_app. lia.
Qed.

Lemma HasSuffix_spec s suf :
  strings_HasSuffix s suf = true →
  s = str_take (String.length s - String.length suf) s +:+ suf.
Proof.
  unfold strings_HasSuffix. intros [_ H%String.eqb_eq]%andb_true_iff.
  rewrite <- H at 2. by rewrite str_take_drop.
Qed.

Lemma HasSuffix_app s suf : strings_HasSuffix (s +:+ suf) suf = true.
Proof.
  unfold strings_HasSuffix. rewrite str_length_app.
  replace (String.length s + String.length suf - String.length suf) with (String.length s) by lia.
  rewrite str_drop_app by done. rewrite String.eqb_refl, andb_true_r.
  apply Nat.leb_le. lia.
Qed.

Lemma TrimSuffix_app s suf : strings_TrimSuffix (s +:+ suf) suf = s.
Proof.
  unfold strings_TrimSuffix. rewrite HasSuffix_app.
  rewrite str_length_app. apply str_take_app. lia.
Qed.

Lemma TrimSuffix_spec s suf :
  strings_TrimSuffix s suf = s ∨ s = strings_TrimSuffix s suf +:+ suf.
Proof.
  unfold strings_TrimSuffix. destruct (strings_HasSuffix s suf) eqn:E; [|by left].
  right. by apply HasSuffix_spec.
Qed.

Lemma TrimSuffix_count c s suf : str_count c (strings_TrimSuffix s suf) ≤ str_count c s.
Proof.
  destruct (TrimSuffix_spec s suf) as [->|H]; [lia|].
  rewrite H at 2. rewrite str_count_app. lia.
Qed.

Lemma IndexByte_None s c : strings_IndexByte s c = None ↔ str_in c s = false.
Proof.
  induction s as [|a s IH]; simpl; [done|].
  destruct (Ascii.eqb a c); simpl; [done|].
  rewrite fmap_None. exact IH.
Qed.

(** The text before the first occurrence has no separator. *)
Lemma IndexByte_Some s c i :
  strings_IndexByte s c = Some i →
  s = str_take i s +:+ String c (str_drop (S i) s) ∧ str_in c (str_take i s) = false
  ∧ i < String.length s.
Proof.
  revert i; induction s as [|a s IH]; intros i; simpl; [done|].
  destruct (Ascii.eqb a c) eqn:E.
  - intros [= <-]. apply Ascii.eqb_eq in E as ->. simpl. repeat split. lia.
  - intros (j & Hj & ->)%fmap_Some. destruct (IH j Hj) as (H1 & H2 & H3). simpl.
    rewrite E, H2. split_and!; [by f_equal|done|lia].
Qed.

Lemma strings_Split_cons s sep : ∃ x xs, strings_Split s sep = x :: xs.
Proof.
  destruct s as [|c s]; simpl; [eauto|].
  destruct (Ascii.eqb c sep); [eauto|]. destruct (strings_Split s sep); eauto.
Qed.

Lemma strings_Split_app x s sep :
  str_in sep x = false →
  strings_Split (x +:+ String sep s) sep = x :: strings_Split s sep.
Proof.
  induction x as [|c x IH]; simpl.
  - by rewrite Ascii.eqb_refl.
  - intros [-> H]%orb_false_iff. by rewrite IH.
Qed.

Lemma strings_Split_single x sep : str_in sep x = false → strings_Split x sep = [x].
Proof.
  induction x as [|c x IH]; simpl; [done|].
  intros [-> H]%orb_false_iff. by rewrite IH.
Qed.

Lemma str_in_Join c l sep : Forall (λ x, str_in c x = false) l → str_in c sep = false → str_in c (strings_Join l sep) = false.
Proof.
  intros Hl Hsep. induction Hl as [|x l Hx Hl IH]; [done|]. destruct l as [|y l]; [done|].
  change (str_in c (x +:+ sep +:+ strings_Join (y :: l) sep) = false). by rewrite !str_in_app, Hx, Hsep, IH.
Qed.

(** Joining what [Split] returns gives the string back. *)
Lemma strings_Split_Join s sep : strings_Join (strings_Split s sep) (String sep "") = s.
Proof.
  induction s as [|c s IH]; [done|]. simpl.
  destruct (strings_Split_cons s sep) as (x & xs & E). rewrite E in *.
  destruct (Ascii.eqb c sep) eqn:Ec.
  - apply Ascii.eqb_eq in Ec as ->. simpl in *. by rewrite IH.
  - destruct xs; simpl in *; by rewrite IH.
Qed.

Lemma strings_Split_no_sep s sep : Forall (λ x, str_in sep x = false) (strings_Split s sep).
Proof.
  induction s as [|c s IH]; simpl; [by repeat constructor|].
  destruct (Ascii.eqb c sep) eqn:Ec; [by constructor|].
  destruct (strings_Split s sep) as [|x xs]; [by repeat constructor; simpl; rewrite Ec|].
  inversion IH; subst. constructor; [|done]. simpl. by rewrite Ec.
Qed.

Lemma strings_Split_of_Join l sep :
  l ≠ [] → Forall (λ x, str_in sep x = false) l →
  strings_Split (strings_Join l (String sep "")) sep = l.
Proof.
  intros Hne Hl. induction Hl as [|x l Hx Hl IH]; [done|]. destruct l as [|y l].
  - by apply strings_Split_single.
  - change (strings_Join (x :: y :: l) (String sep ""))
      with (x +:+ String sep (strings_Join (y :: l) (String sep ""))).
    rewrite strings_Split_app by done. by rewrite IH.
Qed.

(** [SplitN(s, sep, 2)] is the first step of [Split]. *)
Lemma SplitN2_spec s sep :
  (strings_SplitN2 s sep = [s] ∧ strings_Split s sep = [s]) ∨
  (∃ x y, strings_SplitN2 s sep = [x; y] ∧ strings_Split s sep = x :: strings_Split y sep
          ∧ String.length y < String.length s).
Proof.
  unfold strings_SplitN2. destruct (strings_IndexByte s sep) as [i|] eqn:E.
  - right. apply IndexByte_Some in E as (Hs & Hi & Hlt).
    exists (str_take i s), (str_drop (S i) s). split; [done|]. split.
    + rewrite Hs at 1. by apply strings_Split_app.
    + rewrite str_length_drop. lia.
  - left. apply IndexByte_None in E. by rewrite strings_Split_single.
Qed.

Lemma lower_ascii_idemp c : lower_ascii (lower_ascii c) = lower_ascii c.
Proof. destruct c as [[] [] [] [] [] [] [] []]; reflexivity. Qed.

Lemma strings_ToLower_idemp s : strings_ToLower (strings_ToLower s) = strings_ToLower s.
Proof. induction s as [|c s IH]; simpl; [done|]. by rewrite lower_ascii_idemp, IH. Qed.

Lemma strings_ToLower_app s t :
  strings_ToLower (s +:+ t) = strings_ToLower s +:+ strings_ToLower t.
Proof. induction s as [|c s IH]; simpl; [done|]. by rewrite IH. Qed.

Lemma strings_ToLower_take n s : strings_ToLower (str_take n s) = str_take n (strings_ToLower s).
Proof. revert s; induction n as [|n IH]; intros [|c s]; simpl; [done..|]. by rewrite IH. Qed.

(** Two parts come from one separator. *)
Lemma strings_Split_pair s sep a b :
  strings_Split s sep = [a; b] ↔ s = a +:+ String sep b ∧ str_in sep a = false ∧ str_in sep b = false.
Proof.
  split.
  - intros Hs. pose proof (strings_Split_no_sep s sep) as Hn. pose proof (strings_Split_Join s sep) as Hj.
    rewrite Hs in Hn, Hj. rewrite !Forall_cons in Hn. destruct Hn as (Ha & Hb & _). simpl in Hj. by rewrite <- Hj.
  - intros (-> & Ha & Hb). rewrite strings_Split_app by done. by rewrite strings_Split_single.
Qed.

(** ** Positions *)

Lemma str_drop_drop n m s : str_drop n (str_drop m s) = str_drop (m + n) s.
Proof. revert s; induction m as [|m IH]; intros s; cbn; [done|]. destruct s; cbn; [by destruct n|apply IH]. Qed.

Lemma str_take_take n m s : n ≤ m → str_take n (str_take m s) = str_take n s.
Proof. revert m s; induction n as [|n IH]; intros m s Hle; [by destruct m, s|]. destruct m; [lia|]. destruct s; cbn; [done|]. f_equal. apply IH. lia. Qed.

Lemma str_drop_take n m s : str_drop n (str_take m s) = str_take (m - n) (str_drop n s).
Proof. revert m s; induction n as [|n IH]; intros m s; [by rewrite Nat.sub_0_r|]. destruct m, s; cbn; [done..| |]; [by destruct (_ - _)|apply IH]. Qed.

Lemma str_take_all n s : String.length s ≤ n → str_take n s = s.
Proof. revert n; induction s as [|c s IH]; intros n Hle; [by destruct n|]. cbn in Hle. destruct n; [lia|]. cbn. f_equal. apply IH. lia. Qed.

Lemma str_drop_all n s : String.length s ≤ n → str_drop n s = "".
Proof. revert n; induction s as [|c s IH]; intros n Hle; [by destruct n|]. cbn in Hle. destruct n; [lia|]. apply IH. lia. Qed.

Lemma str_take_app_le n s t : n ≤ String.length s → str_take n (s +:+ t) = str_take n s.
Proof. revert n; induction s as [|c s IH]; intros n Hle; cbn in Hle; [by assert (n = 0) as -> by lia; destruct t|]. destruct n; [done|]. cbn. f_equal. apply IH. lia. Qed.

Lemma str_drop_app_le n s t : n ≤ String.length s → str_drop n (s +:+ t) = str_drop n s +:+ t.
Proof. revert n; induction s as [|c s IH]; intros n Hle; cbn in Hle; [by assert (n = 0) as -> by lia|]. destruct n; [done|]. apply IH. lia. Qed.

Lemma str_app_inj s t u : s +:+ t = s +:+ u → t = u.
Proof. induction s as [|c s IH]; cbn; [done|]. intros [= Heq]. by apply IH. Qed.

Lemma str_take_snoc n s b t : str_drop n s = String b t → str_take (S n) s = str_take n s +:+ String b "".
Proof.
  revert s; induction n as [|n IH]; intros s Hd; destruct s as [|c s]; cbn in *; [done| |done|].
  - injection Hd as -> ->. by destruct t.
  - f_equal. by apply IH.
Qed.

Lemma str_drop_S n s b t : str_drop n s = String b t → str_drop (S n) s = t.
Proof. intros Hd. replace (S n) with (n + 1) by lia. rewrite <- str_drop_drop, Hd. done. Qed.

Lemma str_drop_lt n s b t : str_drop n s = String b t → n < String.length s.
Proof. intros Hd. apply (f_equal String.length) in Hd. rewrite str_length_drop in Hd. cbn in Hd. lia. Qed.

Lemma str_drop_app_plus n s t : str_drop (String.length s + n) (s +:+ t) = str_drop n t.
Proof. induction s as [|c s IH]; cbn; [done|]. exact IH. Qed.

Lemma str_take_app_plus n s t : str_take (String.length s + n) (s +:+ t) = s +:+ str_take n t.
Proof. induction s as [|c s IH]; cbn; [done|]. by rewrite IH. Qed.
