(* ===== verification/Utf8.v ===== *)
(** * UTF-8 (package [unicode/utf8])

    Go strings are bytes; what reads them rune by rune takes a byte that
    starts no valid encoding for a rune of its own, U+FFFD. *)

From S2P Require Import Prelude GoStrings.

Local Open Scope Z_scope.

Definition byte_val (c : ascii) : Z := Z.of_N (N_of_ascii c).
Definition byte_of (n : Z) : ascii := ascii_of_N (Z.to_N n).

Definition is_continuation (c : ascii) : bool := (0x80 <=? byte_val c) && (byte_val c <? 0xC0).
Definition is_surrogate (r : Z) : bool := (0xD800 <=? r) && (r <=? 0xDFFF).
Definition MaxRune : Z := 0x10FFFF.
Definition RuneError : Z := 0xFFFD.

(** [DecodeRune]: the rune and the number of its bytes.  [None] stands for
    [RuneError] with the size 1. *)
Definition DecodeRune (s : string) : option (Z * nat) :=
  match s with
  | EmptyString => None
  | String a s1 =>
      let c0 := byte_val a in
      if c0 <? 0x80 then Some (c0, 1%nat)
      else if c0 <? 0xC0 then None
      else
        match s1 with
        | EmptyString => None
        | String b s2 =>
            let c1 := byte_val b - 0x80 in
            if negb (is_continuation b) then None
            else if c0 <? 0xE0 then
              let r := (c0 - 0xC0) * 64 + c1 in
              if r <=? 0x7F then None else Some (r, 2%nat)
            else
              match s2 with
              | EmptyString => None
              | String c s3 =>
                  let c2 := byte_val c - 0x80 in
                  if negb (is_continuation c) then None
                  else if c0 <? 0xF0 then
                    let r := ((c0 - 0xE0) * 64 + c1) * 64 + c2 in
                    if (r <=? 0x7FF) || is_surrogate r then None else Some (r, 3%nat)
                  else
                    match s3 with
                    | EmptyString => None
                    | String d _ =>
                        let c3 := byte_val d - 0x80 in
                        if negb (is_continuation d) then None
                        else if c0 <? 0xF8 then
                          let r := (((c0 - 0xF0) * 64 + c1) * 64 + c2) * 64 + c3 in
                          if (r <=? 0xFFFF) || (MaxRune <? r) then None else Some (r, 4%nat)
                        else None
                    end
              end
        end
  end.

(** [EncodeRune]; what is not a rune is written as [RuneError]. *)
Definition valid_rune (r : Z) : Z := if (r <? 0) || (MaxRune <? r) || is_surrogate r then RuneError else r.
Definition EncodeRune (r : Z) : string :=
  let r := valid_rune r in
  if r <=? 0x7F then String (byte_of r) ""
  else if r <=? 0x7FF then String (byte_of (0xC0 + r `div` 64)) (String (byte_of (0x80 + r `mod` 64)) "")
  else if r <=? 0xFFFF then
    String (byte_of (0xE0 + r `div` 4096)) (String (byte_of (0x80 + r `div` 64 `mod` 64)) (String (byte_of (0x80 + r `mod` 64)) ""))
  else
    String (byte_of (0xF0 + r `div` 262144)) (String (byte_of (0x80 + r `div` 4096 `mod` 64))
      (String (byte_of (0x80 + r `div` 64 `mod` 64)) (String (byte_of (0x80 + r `mod` 64)) ""))).

(** ** Bytes *)

Lemma byte_val_range c : 0 ≤ byte_val c < 256.
Proof. unfold byte_val. pose proof (N_ascii_bounded c). lia. Qed.

Lemma byte_of_val c : byte_of (byte_val c) = c.
Proof. unfold byte_of, byte_val. by rewrite N2Z.id, ascii_N_embedding. Qed.

Lemma byte_of_val_eq c n : byte_val c = n → byte_of n = c.
Proof. intros <-. apply byte_of_val. Qed.

Lemma byte_val_of n : 0 ≤ n < 256 → byte_val (byte_of n) = n.
Proof. intros Hn. unfold byte_of, byte_val. rewrite N_ascii_embedding by lia. lia. Qed.

Lemma is_continuation_spec c : is_continuation c = true ↔ 0x80 ≤ byte_val c < 0xC0.
Proof. unfold is_continuation. rewrite andb_true_iff, Z.leb_le, Z.ltb_lt. done. Qed.

(** ** Encoding inverts decoding *)

Lemma valid_rune_id r : 0 ≤ r ≤ MaxRune → is_surrogate r = false → valid_rune r = r.
Proof.
  intros Hr Hs. unfold valid_rune. rewrite Hs. destruct (Z.ltb_spec r 0); [lia|]. by destruct (Z.ltb_spec MaxRune r); [lia|].
Qed.

Lemma not_surrogate r : r < 0xD800 ∨ 0xDFFF < r → is_surrogate r = false.
Proof. intros H. unfold is_surrogate. destruct (Z.leb_spec 0xD800 r); [|done]. by destruct (Z.leb_spec r 0xDFFF); [lia|]. Qed.

(** The length of the encoding, decided by [lia]. *)
Ltac encode_cases :=
  unfold EncodeRune; cbv zeta; rewrite valid_rune_id by (unfold MaxRune in *; first [done|lia|apply not_surrogate; lia]);
  repeat match goal with |- context [?x <=? ?y] => destruct (Z.leb_spec x y); [try lia|try lia] end.

Lemma EncodeRune_1 a : byte_val a < 0x80 → EncodeRune (byte_val a) = String a "".
Proof. intros Ha. pose proof (byte_val_range a). encode_cases. by rewrite byte_of_val. Qed.

Lemma EncodeRune_2 a b r : 0xC0 ≤ byte_val a < 0xE0 → 0x80 ≤ byte_val b < 0xC0 →
  r = (byte_val a - 0xC0) * 64 + (byte_val b - 0x80) → 0x7F < r → EncodeRune r = String a (String b "").
Proof.
  intros Ha Hb Hr Hmin. assert (r ≤ 0x7FF) by lia. encode_cases.
  rewrite (byte_of_val_eq a), (byte_of_val_eq b); [done|Z.to_euclidean_division_equations; lia..].
Qed.

Lemma EncodeRune_3 a b c r : 0xE0 ≤ byte_val a < 0xF0 → 0x80 ≤ byte_val b < 0xC0 → 0x80 ≤ byte_val c < 0xC0 →
  r = ((byte_val a - 0xE0) * 64 + (byte_val b - 0x80)) * 64 + (byte_val c - 0x80) → 0x7FF < r → is_surrogate r = false →
  EncodeRune r = String a (String b (String c "")).
Proof.
  intros Ha Hb Hc Hr Hmin Hs. assert (r ≤ 0xFFFF) by lia. encode_cases.
  rewrite (byte_of_val_eq a), (byte_of_val_eq b), (byte_of_val_eq c); [done|Z.to_euclidean_division_equations; lia..].
Qed.

Lemma EncodeRune_4 a b c d r : 0xF0 ≤ byte_val a < 0xF8 → 0x80 ≤ byte_val b < 0xC0 → 0x80 ≤ byte_val c < 0xC0 →
  0x80 ≤ byte_val d < 0xC0 →
  r = (((byte_val a - 0xF0) * 64 + (byte_val b - 0x80)) * 64 + (byte_val c - 0x80)) * 64 + (byte_val d - 0x80) →
  0xFFFF < r ≤ MaxRune → EncodeRune r = String a (String b (String c (String d ""))).
Proof.
  intros Ha Hb Hc Hd Hr Hmin. unfold MaxRune in Hmin. encode_cases.
  rewrite (byte_of_val_eq a), (byte_of_val_eq b), (byte_of_val_eq c), (byte_of_val_eq d);
    [done|Z.to_euclidean_division_equations; lia..].
Qed.

(** Takes the branches of [DecodeRune] that are known. *)
Ltac decode_again :=
  repeat match goal with
  | H : is_continuation ?c = true |- context [is_continuation ?c] => rewrite H
  | |- context [?x <? ?y] => destruct (Z.ltb_spec x y); try lia
  | |- context [?x <=? ?y] => destruct (Z.leb_spec x y); try lia
  end; done.

(** A rune is written with the bytes it was read from, and they are read
    alike whatever follows. *)
Lemma DecodeRune_spec s r n : DecodeRune s = Some (r, n) →
  ∃ t, s = EncodeRune r +:+ t ∧ String.length (EncodeRune r) = n ∧ 0 ≤ r ≤ MaxRune ∧ (r < 0x80 ↔ n = 1%nat)
    ∧ ∀ t', DecodeRune (EncodeRune r +:+ t') = Some (r, n).
Proof.
  destruct s as [|a s1]; [done|]. cbn [DecodeRune]. pose proof (byte_val_range a).
  destruct (Z.ltb_spec (byte_val a) 0x80) as [Ha|Ha].
  { intros [= <- <-]. exists s1. rewrite EncodeRune_1 by done. split_and!; try done; try (unfold MaxRune; lia).
    intros t'. cbn [String.append DecodeRune]. destruct (Z.ltb_spec (byte_val a) 0x80); [done|lia]. }
  destruct (Z.ltb_spec (byte_val a) 0xC0) as [|Ha0]; [done|]. destruct s1 as [|b s2]; [done|].
  destruct (is_continuation b) eqn:Hb; [|done]. cbn [negb]. pose proof (proj1 (is_continuation_spec b) Hb) as Rb.
  destruct (Z.ltb_spec (byte_val a) 0xE0) as [Ha1|Ha1].
  { destruct (Z.leb_spec ((byte_val a - 0xC0) * 64 + (byte_val b - 0x80)) 0x7F) as [|Hr]; [done|]. intros [= <- <-]. exists s2.
    rewrite (EncodeRune_2 a b) by lia. split_and!; try done; try (unfold MaxRune; lia).
    intros t'. cbn [String.append DecodeRune]. decode_again. }
  destruct s2 as [|c s3]; [done|].
  destruct (is_continuation c) eqn:Hc; [|done]. cbn [negb]. pose proof (proj1 (is_continuation_spec c) Hc) as Rc.
  destruct (Z.ltb_spec (byte_val a) 0xF0) as [Ha2|Ha2].
  { set (r0 := (_ * 64 + _) * 64 + _). destruct (Z.leb_spec r0 0x7FF) as [|Hr]; [done|]. cbn [orb].
    destruct (is_surrogate r0) eqn:Hs; [done|]. intros [= <- <-]. exists s3.
    rewrite (EncodeRune_3 a b c) by (done || lia). split_and!; try done; try (unfold MaxRune; lia).
    intros t'. cbn [String.append DecodeRune]. fold r0. rewrite Hs. decode_again. }
  destruct s3 as [|d s4]; [done|].
  destruct (is_continuation d) eqn:Hd; [|done]. cbn [negb]. pose proof (proj1 (is_continuation_spec d) Hd) as Rd.
  destruct (Z.ltb_spec (byte_val a) 0xF8) as [Ha3|Ha3]; [|done].
  set (r0 := ((_ * 64 + _) * 64 + _) * 64 + _). destruct (Z.leb_spec r0 0xFFFF) as [|Hr]; [done|]. cbn [orb].
  destruct (Z.ltb_spec MaxRune r0) as [|Hmax]; [done|]. intros [= <- <-]. exists s4.
  rewrite (EncodeRune_4 a b c d) by (done || lia). split_and!; try done; try (unfold MaxRune in *; lia).
  intros t'. cbn [String.append DecodeRune]. fold r0. decode_again.
Qed.

Lemma EncodeRune_length r : (1 ≤ String.length (EncodeRune r) ≤ 4)%nat.
Proof. unfold EncodeRune. cbv zeta. repeat case_match; cbn; lia. Qed.

(** ** Strings rune by rune *)

(** [for range] over a string, from its end. *)
Section range.
Context {A : Type} (nil : A) (bad : ascii → A → A) (good : Z → A → A).

Fixpoint rune_fold (s : string) : A :=
  match s with
  | EmptyString => nil
  | String a s1 =>
      match DecodeRune s with
      | None => bad a (rune_fold s1)
      | Some (r, n) =>
          good r
            match n, s1 with
            | 1%nat, _ => rune_fold s1
            | 2%nat, String _ s2 => rune_fold s2
            | 3%nat, String _ (String _ s3) => rune_fold s3
            | 4%nat, String _ (String _ (String _ s4)) => rune_fold s4
            | _, _ => nil
            end
      end
  end.

Lemma rune_fold_rune r n t : DecodeRune (EncodeRune r +:+ t) = Some (r, n) → String.length (EncodeRune r) = n →
  rune_fold (EncodeRune r +:+ t) = good r (rune_fold t).
Proof.
  intros Hd Hn. pose proof (EncodeRune_length r) as Hl.
  destruct (EncodeRune r) as [|a [|b [|c [|d [|]]]]]; cbn in Hl, Hn; [lia| | | | |lia]; subst n; cbn [String.append] in *.
  all: cbn [rune_fold]; by rewrite Hd.
Qed.

Lemma rune_fold_bad a s : DecodeRune (String a s) = None → rune_fold (String a s) = bad a (rune_fold s).
Proof. intros Hd. cbn [rune_fold]. by rewrite Hd. Qed.
End range.

(** Every byte starts a rune. *)
Definition valid_utf8 : string → bool := rune_fold true (λ _ _, false) (λ _ b, b).

Lemma utf8_ind (P : string → Prop) :
  P "" →
  (∀ a s, DecodeRune (String a s) = None → P s → P (String a s)) →
  (∀ r n s, (∀ t, DecodeRune (EncodeRune r +:+ t) = Some (r, n)) → String.length (EncodeRune r) = n → 0 ≤ r ≤ MaxRune →
     (r < 0x80 ↔ n = 1%nat) → P s → P (EncodeRune r +:+ s)) →
  ∀ s, P s.
Proof.
  intros H0 Hbad Hgood s. remember (String.length s) as k eqn:Hk. revert s Hk.
  induction (lt_wf k) as [k _ IH]. intros s ->. destruct s as [|a s1]; [done|].
  destruct (DecodeRune (String a s1)) as [[r n]|] eqn:Hd.
  - destruct (DecodeRune_spec _ _ _ Hd) as (t & Ht & Hn & Hr & H1 & Hall). rewrite Ht. eapply Hgood; try done.
    eapply IH; [|done]. rewrite Ht, str_length_app. pose proof (EncodeRune_length r). lia.
  - apply Hbad; [done|]. eapply IH; [|done]. cbn. lia.
Qed.

Lemma valid_utf8_rune r n s : (∀ t, DecodeRune (EncodeRune r +:+ t) = Some (r, n)) → String.length (EncodeRune r) = n →
  valid_utf8 (EncodeRune r +:+ s) = valid_utf8 s.
Proof. intros Hd Hn. unfold valid_utf8. by rewrite (rune_fold_rune _ _ _ r n). Qed.

Lemma valid_utf8_ascii s : str_forall (λ c, (nat_of_ascii c <? 128)%nat) s = true → valid_utf8 s = true.
Proof.
  induction s as [|c s IH]; [done|]. cbn [str_forall]. intros [Hc Hs]%andb_true_iff.
  assert (byte_val c <? 0x80 = true) as Hb.
  { apply Z.ltb_lt. apply Nat.ltb_lt in Hc. unfold byte_val, nat_of_ascii in *. lia. }
  unfold valid_utf8 in *. cbn [rune_fold DecodeRune]. rewrite Hb. by apply IH.
Qed.
