(* ===== verification/Uris.v ===== *)
(** * Route URIs (src/route/uris.go)

    A [Uri] is a host name with an optional path, for example
    ["api.example.com/v2"] or the wildcard ["*.example.com"].  This file
    models the normalisation of a URI to its route key and the enumeration of
    the wildcards that cover it, and shows that the enumeration ends. *)

From S2P Require Import Prelude GoStrings.

Abbreviation Uri := string (only parsing).

Definition Uri_String (u : Uri) : string := strings_TrimSuffix u "/".

Definition Uri_ToLower (u : Uri) : Uri := strings_ToLower (Uri_String u).

Definition no_next_wildcard : string := "no next wildcard available".

(** The second component is the [error] result, [None] for [nil]. *)
Definition NextWildcard (u : Uri) : Uri * option string :=
  let uri := strings_TrimPrefix (Uri_String u) "*." in
  match strings_IndexByte uri "." with
  | None => (u, Some no_next_wildcard)
  | Some i => ("*." +:+ str_drop (S i) uri, None)
  end.

Definition RouteKey (u : Uri) : Uri :=
  let key := Uri_ToLower u in
  match strings_IndexByte key "?" with
  | Some idx => str_take idx key
  | None => key
  end.

(** ** Normalisation *)

Lemma HasPrefix_length s pre : strings_HasPrefix s pre = true → String.length pre ≤ String.length s.
Proof. intros E%HasPrefix_spec. rewrite E, str_length_app. lia. Qed.

Lemma strings_ToLower_length s : String.length (strings_ToLower s) = String.length s.
Proof. induction s; simpl; auto. Qed.

Lemma lower_ascii_fixed c d :
  lower_ascii d = d → lower_ascii c = d → c = d ∨ (∃ n, d = ascii_of_nat (n + 32) ∧ 65 ≤ n ≤ 90).
Proof.
  intros _. unfold lower_ascii.
  destruct ((65 <=? nat_of_ascii c) && (nat_of_ascii c <=? 90)) eqn:E; [|auto].
  apply andb_true_iff in E as [?%Nat.leb_le ?%Nat.leb_le]. right. eauto.
Qed.

(** A byte that is not a letter is found at the same place after lowering. *)
Lemma lower_ascii_eqb c d : In d ["/"; "?"; "."; ":"; "*"]%char →
  Ascii.eqb (lower_ascii c) d = Ascii.eqb c d.
Proof.
  intros Hd. repeat (destruct Hd as [<-|Hd]; [by destruct c as [[] [] [] [] [] [] [] []]|]).
  done.
Qed.

Lemma IndexByte_ToLower s d : In d ["/"; "?"; "."; ":"; "*"]%char →
  strings_IndexByte (strings_ToLower s) d = strings_IndexByte s d.
Proof.
  intros Hd. induction s as [|c s IH]; simpl; [done|].
  by rewrite lower_ascii_eqb, IH.
Qed.

Lemma strings_ToLower_drop n s : strings_ToLower (str_drop n s) = str_drop n (strings_ToLower s).
Proof. revert s; induction n as [|n IH]; intros [|c s]; simpl; auto. Qed.

Lemma str_eqb_ToLower_slash s : String.eqb (strings_ToLower s) "/" = String.eqb s "/".
Proof.
  destruct s as [|c [|d s]]; simpl; [done| |].
  - rewrite lower_ascii_eqb by (simpl; auto). done.
  - by destruct (Ascii.eqb (lower_ascii c) "/"), (Ascii.eqb c "/").
Qed.

Lemma Uri_String_ToLower u : Uri_String (strings_ToLower u) = strings_ToLower (Uri_String u).
Proof.
  unfold Uri_String, strings_TrimSuffix, strings_HasSuffix.
  rewrite strings_ToLower_length, <- strings_ToLower_drop, str_eqb_ToLower_slash.
  destruct (_ && _); [by rewrite strings_ToLower_take|done].
Qed.

Lemma RouteKey_unfold u :
  RouteKey u = strings_ToLower
    (match strings_IndexByte (Uri_String u) "?" with
     | Some i => str_take i (Uri_String u) | None => Uri_String u end).
Proof.
  unfold RouteKey, Uri_ToLower. rewrite IndexByte_ToLower by (simpl; auto).
  destruct (strings_IndexByte _ _); [by rewrite strings_ToLower_take|done].
Qed.

Lemma RouteKey_lower u : strings_ToLower (RouteKey u) = RouteKey u.
Proof. rewrite RouteKey_unfold. apply strings_ToLower_idemp. Qed.

Lemma str_in_ToLower d s : In d ["/"; "?"; "."; ":"; "*"]%char →
  str_in d (strings_ToLower s) = str_in d s.
Proof.
  intros Hd. induction s as [|c s IH]; simpl; [done|].
  by rewrite lower_ascii_eqb, IH.
Qed.

Lemma RouteKey_no_query u : str_in "?" (RouteKey u) = false.
Proof.
  rewrite RouteKey_unfold, str_in_ToLower by (simpl; auto).
  destruct (strings_IndexByte (Uri_String u) "?") eqn:E.
  - by apply IndexByte_Some in E as (_ & ? & _).
  - by apply IndexByte_None in E.
Qed.

Lemma RouteKey_case u v : strings_ToLower u = strings_ToLower v → RouteKey u = RouteKey v.
Proof.
  intros H. unfold RouteKey, Uri_ToLower. by rewrite <- !Uri_String_ToLower, H.
Qed.

Lemma RouteKey_plain u :
  strings_ToLower u = u → str_in "?" u = false → strings_HasSuffix u "/" = false →
  RouteKey u = u.
Proof.
  intros Hl Hq Hs. rewrite RouteKey_unfold. unfold Uri_String, strings_TrimSuffix.
  rewrite Hs. apply IndexByte_None in Hq. by rewrite Hq.
Qed.

Lemma IndexByte_app x c y : str_in c x = false →
  strings_IndexByte (x +:+ String c y) c = Some (String.length x).
Proof.
  induction x as [|a x IH]; simpl; [by rewrite Ascii.eqb_refl|].
  intros [-> H]%orb_false_iff. by rewrite IH.
Qed.

(** [TrimSuffix] on ["/"] only looks at the last byte, so a query in front of
    it survives the trimming. *)
Lemma Uri_String_query u q : ∃ q', Uri_String (u +:+ String "?" q) = u +:+ String "?" q'.
Proof.
  unfold Uri_String. destruct (TrimSuffix_spec (u +:+ String "?" q) "/") as [->|H]; [eauto|].
  revert H. generalize (strings_TrimSuffix (u +:+ String "?" q) "/"). intros t H.
  destruct (str_in "?" t) eqn:E.
  - assert (∃ q', t = u +:+ String "?" q') as [q' ->]; [|eauto].
    clear E. revert t H. induction u as [|c u IH]; simpl; intros [|d t]; simpl.
    + destruct q; [done|done].
    + intros [= <- ->]. eauto.
    + intros [= -> H]. by destruct u.
    + intros [= <- H]. destruct (IH t H) as [q' ->]. eauto.
  - exfalso. apply (f_equal (str_in "?")) in H. rewrite !str_in_app in H.
    simpl in H. rewrite E, orb_true_r in H. done.
Qed.

Lemma RouteKey_query u q : str_in "?" u = false → RouteKey (u +:+ String "?" q) = strings_ToLower u.
Proof.
  intros Hu. rewrite RouteKey_unfold.
  destruct (Uri_String_query u q) as [q' ->].
  rewrite IndexByte_app by done. by rewrite str_take_app.
Qed.

(** ** The wildcard chain *)

(** The labels [NextWildcard] has left to drop. *)
Definition wildcard_measure (u : Uri) : nat :=
  str_count "." (strings_TrimPrefix (Uri_String u) "*.").

Lemma wildcard_measure_star w : wildcard_measure ("*." +:+ w) ≤ str_count "." w.
Proof.
  unfold wildcard_measure, Uri_String.
  destruct (TrimSuffix_spec ("*." +:+ w) "/") as [->|H]; [by rewrite TrimPrefix_app|].
  revert H. generalize (strings_TrimSuffix ("*." +:+ w) "/").
  intros [|a [|b t]]; simpl; [done|done|]. intros [= <- <- ->].
  change (String "*" (String "." t)) with ("*." +:+ t).
  rewrite TrimPrefix_app, str_count_app. lia.
Qed.

(** A successful step drops at least one label, which is why the lookup loop
    ends. *)
Lemma NextWildcard_decreases u u' :
  NextWildcard u = (u', None) → wildcard_measure u' < wildcard_measure u.
Proof.
  unfold NextWildcard. unfold wildcard_measure at 2.
  set (uri := strings_TrimPrefix (Uri_String u) "*.").
  destruct (strings_IndexByte uri ".") as [i|] eqn:E; [|done]. intros Heq.
  assert (u' = "*." +:+ str_drop (S i) uri) as -> by congruence.
  apply IndexByte_Some in E as (E & _ & _).
  pose proof (wildcard_measure_star (str_drop (S i) uri)).
  apply (f_equal (str_count ".")) in E. rewrite str_count_app in E.
  cbn [str_count] in E. rewrite Ascii.eqb_refl in E. lia.
Qed.

Lemma NextWildcard_error u : snd (NextWildcard u) = Some no_next_wildcard → fst (NextWildcard u) = u.
Proof. unfold NextWildcard. by destruct (strings_IndexByte _ _). Qed.

(** The wildcards that cover a URI, most specific first. *)
Fixpoint wildcard_chain (fuel : nat) (u : Uri) : list Uri :=
  match fuel with
  | O => []
  | S fuel' =>
      match NextWildcard u with
      | (u', None) => u' :: wildcard_chain fuel' u'
      | (_, Some _) => []
      end
  end.

Definition wildcards (u : Uri) : list Uri := wildcard_chain (S (wildcard_measure u)) u.

Lemma wildcard_chain_fuel n m u :
  wildcard_measure u < n → wildcard_measure u < m → wildcard_chain n u = wildcard_chain m u.
Proof.
  revert m u; induction n as [|n IH]; intros m u Hn Hm; [lia|].
  destruct m as [|m]; [lia|]. simpl. destruct (NextWildcard u) as [u' [e|]] eqn:E; [done|].
  apply NextWildcard_decreases in E. f_equal. apply IH; lia.
Qed.

Lemma wildcards_step u :
  wildcards u = match NextWildcard u with
                | (u', None) => u' :: wildcards u'
                | (_, Some _) => []
                end.
Proof.
  unfold wildcards at 1. cbn [wildcard_chain].
  destruct (NextWildcard u) as [u' [e|]] eqn:E; [done|].
  apply NextWildcard_decreases in E. f_equal. apply wildcard_chain_fuel; lia.
Qed.

(** ** Host names *)

(** The labels of a plain host name: no empty host, no separator inside a
    label, and not already a wildcard. *)
Definition plain_label (l : string) : Prop :=
  str_in "." l = false ∧ str_in "/" l = false ∧ l ≠ "*".

Definition host_name (ls : list string) : string := strings_Join ls ".".

Fixpoint proper_suffixes {A} (ls : list A) : list (list A) :=
  match ls with
  | [] => []
  | _ :: rest => match rest with [] => [] | _ => rest :: proper_suffixes rest end
  end.

Lemma host_name_cons l m ls : host_name (l :: m :: ls) = l +:+ String "." (host_name (m :: ls)).
Proof. done. Qed.

Lemma Join_not_in c ls : c ≠ "."%char → Forall (λ l, str_in c l = false) ls → str_in c (host_name ls) = false.
Proof.
  intros Hc. induction 1 as [|l ls Hl Hls IH]; [done|]. destruct ls as [|m ls]; [done|].
  rewrite host_name_cons, str_in_app, Hl. cbn [str_in]. rewrite IH.
  destruct (Ascii.eqb_spec "." c); [congruence|done].
Qed.

Lemma Uri_String_no_slash u : str_in "/" u = false → Uri_String u = u.
Proof.
  intros H. unfold Uri_String. destruct (TrimSuffix_spec u "/") as [|Hs]; [done|].
  rewrite Hs, str_in_app in H. simpl in H. by rewrite orb_true_r in H.
Qed.

Lemma NextWildcard_strip u t :
  str_in "/" u = false → strings_TrimPrefix u "*." = t →
  NextWildcard u = match strings_IndexByte t "." with
                   | Some i => ("*." +:+ str_drop (S i) t, None)
                   | None => (u, Some no_next_wildcard)
                   end.
Proof. intros Hs <-. unfold NextWildcard. by rewrite Uri_String_no_slash. Qed.

Lemma NextWildcard_labels u l ls :
  str_in "/" u = false → strings_TrimPrefix u "*." = host_name (l :: ls) → str_in "." l = false →
  NextWildcard u = match ls with
                   | [] => (u, Some no_next_wildcard)
                   | _ => ("*." +:+ host_name ls, None)
                   end.
Proof.
  intros Hs Ht Hl. rewrite (NextWildcard_strip u _ Hs Ht). destruct ls as [|m ls].
  - cbn [host_name strings_Join]. apply IndexByte_None in Hl. by rewrite Hl.
  - rewrite host_name_cons, IndexByte_app by done.
    change (l +:+ String "." (host_name (m :: ls))) with (l +:+ ("." +:+ host_name (m :: ls))).
    rewrite <- str_app_assoc, str_drop_app; [done|]. rewrite str_length_app. simpl. lia.
Qed.

(** All wildcards below a name whose labels are [l :: ls]. *)
Lemma wildcards_labels ls : ∀ u l,
  str_in "/" u = false → strings_TrimPrefix u "*." = host_name (l :: ls) →
  Forall (λ l, str_in "." l = false ∧ str_in "/" l = false) (l :: ls) →
  wildcards u = map (λ s, "*." +:+ host_name s) (proper_suffixes (l :: ls)).
Proof.
  induction ls as [|m ls IH]; intros u l Hs Ht HF; inversion HF as [|? ? [Hdot _] HF']; subst;
    rewrite wildcards_step, (NextWildcard_labels u l _ Hs Ht Hdot); [done|].
  cbn [map proper_suffixes]. f_equal. apply (IH _ m); [|by rewrite TrimPrefix_app|done].
  rewrite str_in_app. simpl. apply Join_not_in; [done|]. eapply Forall_impl; [done|]. by intros x [_ ?].
Qed.

Lemma TrimPrefix_plain l ls : plain_label l → strings_TrimPrefix (host_name (l :: ls)) "*." = host_name (l :: ls).
Proof.
  intros (Hd & _ & Hstar). unfold strings_TrimPrefix.
  destruct (strings_HasPrefix (host_name (l :: ls)) "*.") eqn:E; [|done]. exfalso.
  apply HasPrefix_spec in E. destruct l as [|a [|b l]].
  - destruct ls as [|m ls]; [done|]. rewrite host_name_cons in E. simpl in E. congruence.
  - destruct ls as [|m ls]; [done|]. rewrite host_name_cons in E. simpl in E. congruence.
  - simpl in Hd. destruct ls as [|m ls].
    + simpl in E. injection E as -> ->. simpl in Hd. done.
    + rewrite host_name_cons in E. simpl in E. injection E as -> ->. simpl in Hd. done.
Qed.

(** A plain host name is covered by the wildcards of its proper suffixes. *)
Lemma wildcards_host l ls :
  Forall plain_label (l :: ls) →
  wildcards (host_name (l :: ls)) = map (λ s, "*." +:+ host_name s) (proper_suffixes (l :: ls)).
Proof.
  intros HF. assert (Forall (λ l, str_in "." l = false ∧ str_in "/" l = false) (l :: ls)) as HF'.
  { eapply Forall_impl; [done|]. by intros x (? & ? & _). }
  apply wildcards_labels; [|apply TrimPrefix_plain; by inversion HF|done].
  apply Join_not_in; [done|]. eapply Forall_impl; [done|]. by intros x [_ ?].
Qed.
