(* ===== verification/Pool.v ===== *)
(** * Endpoints and endpoint pools (src/route/endpoint.go, src/route/pool.go)

    A [Pool] holds the back ends of one route.  In Go it is a slice of
    pointers to [endpointElem] structs and a map from strings to the same
    pointers, keyed by the address and by the private instance id.  The model
    keeps the structs in a heap [elems], so that the aliasing between the
    slice and the map is explicit.

    Time is an argument of the operations that call [time.Now]; the draw of
    [random.Intn] is an argument of [next]. *)

From S2P Require Import Prelude GoStrings.

Record Endpoint := mkEndpoint {
  ApplicationId : string;
  addr : string;
  Tags : gmap string string;
  PrivateInstanceId : string;
  staleThreshold : Z;
  RouteServiceUrl : string;
}.

(** A [*Endpoint]: the address of the allocation and the struct behind it.
    No code writes to an [Endpoint] after [NewEndpoint], so the struct can be
    kept beside its address; Go's [==] on the pointers compares [ep_ptr]. *)
Record EndpointRef := mkRef {
  ep_ptr : positive;
  ep :> Endpoint;
}.

(** [port] is a [uint16]; [ptr] is the address the allocation returns. *)
Definition NewEndpoint (ptr : positive) (appId host : string) (port : Z)
    (privateInstanceId : string) (tags : gmap string string)
    (staleThresholdInSeconds : Z) (routeServiceUrl : string) : EndpointRef :=
  mkRef ptr {|
    ApplicationId := appId;
    addr := host +:+ ":" +:+ pretty port;
    Tags := tags;
    PrivateInstanceId := privateInstanceId;
    staleThreshold := seconds_to_duration staleThresholdInSeconds;
    RouteServiceUrl := routeServiceUrl
  |}.

Definition CanonicalAddr (e : Endpoint) : string := addr e.

Record endpointElem := mkElem {
  el_endpoint : EndpointRef;
  el_index : nat;
  updated : Z;
  failedAt : option Z;
}.

Record Pool := mkPool {
  elems : gmap positive endpointElem;
  endpoints : list positive;
  index : gmap string positive;
  contextPath : string;
  retryAfterFailure : Z;
  nextIdx : Z;
}.

Definition NewPool (retryAfterFailure : Z) (contextPath : string) : Pool := {|
  elems := ∅;
  endpoints := [];
  index := ∅;
  contextPath := contextPath;
  retryAfterFailure := retryAfterFailure;
  nextIdx := -1
|}.

Definition ContextPath (p : Pool) : string := contextPath p.

(** Field updates. *)
Definition set_endpoint (r : EndpointRef) (e : endpointElem) : endpointElem :=
  mkElem r (el_index e) (updated e) (failedAt e).
Definition set_index (i : nat) (e : endpointElem) : endpointElem :=
  mkElem (el_endpoint e) i (updated e) (failedAt e).
Definition set_updated (t : Z) (e : endpointElem) : endpointElem :=
  mkElem (el_endpoint e) (el_index e) t (failedAt e).
Definition set_failedAt (t : option Z) (e : endpointElem) : endpointElem :=
  mkElem (el_endpoint e) (el_index e) (updated e) t.
Definition with_elems (m : gmap positive endpointElem) (p : Pool) : Pool :=
  mkPool m (endpoints p) (index p) (contextPath p) (retryAfterFailure p) (nextIdx p).
Definition with_slice (l : list positive) (p : Pool) : Pool :=
  mkPool (elems p) l (index p) (contextPath p) (retryAfterFailure p) (nextIdx p).
Definition with_index (m : gmap string positive) (p : Pool) : Pool :=
  mkPool (elems p) (endpoints p) m (contextPath p) (retryAfterFailure p) (nextIdx p).
Definition with_nextIdx (i : Z) (p : Pool) : Pool :=
  mkPool (elems p) (endpoints p) (index p) (contextPath p) (retryAfterFailure p) i.

Definition deref (p : Pool) (ptr : positive) : res endpointElem :=
  or_panic nil_deref (elems p !! ptr).

(** [Put] reports whether the endpoint is new to the pool. *)
Definition Put (now : Z) (endpoint : EndpointRef) (p : Pool) : res (bool * Pool) :=
  match index p !! CanonicalAddr endpoint with
  | Some ptr =>
      e ← deref p ptr;
      if bool_decide (ep_ptr (el_endpoint e) = ep_ptr endpoint) then Ok (false, p)
      else
        let oldEndpoint := el_endpoint e in
        let idx :=
          if String.eqb (PrivateInstanceId oldEndpoint) (PrivateInstanceId endpoint)
          then index p
          else <[PrivateInstanceId endpoint := ptr]>
                 (delete (PrivateInstanceId oldEndpoint) (index p)) in
        let e' := set_updated now (set_endpoint endpoint e) in
        Ok (false, with_elems (<[ptr := e']> (elems p)) (with_index idx p))
  | None =>
      let ptr := fresh_ptr (elems p) in
      let e := mkElem endpoint (length (endpoints p)) now None in
      Ok (true,
          with_elems (<[ptr := e]> (elems p))
            (with_slice (endpoints p ++ [ptr])
              (with_index (<[PrivateInstanceId endpoint := ptr]>
                             (<[CanonicalAddr endpoint := ptr]> (index p))) p)))
  end.

Definition Pool_RouteServiceUrl (p : Pool) : res string :=
  match endpoints p with
  | ptr :: _ => endpt ← deref p ptr; Ok (RouteServiceUrl (el_endpoint endpt))
  | [] => Ok EmptyString
  end.

(** The re-ordering delete: the last slot moves into the freed one. *)
Definition removeEndpoint (ptr : positive) (p : Pool) : res Pool :=
  e ← deref p ptr;
  let i := el_index e in
  let es := endpoints p in
  let last := length es in
  moved ← or_panic out_of_range (es !! (last - 1));
  _ ← or_panic out_of_range (es !! i);
  let es' := take (last - 1) (<[i := moved]> es) in
  m ← (if (i <? last - 1)%nat
       then e2 ← deref p moved; Ok (<[moved := set_index i e2]> (elems p))
       else Ok (elems p));
  let idx := delete (PrivateInstanceId (el_endpoint e))
               (delete (CanonicalAddr (el_endpoint e)) (index p)) in
  Ok (with_elems m (with_slice es' (with_index idx p))).

(** The instant before which an element counts as stale. *)
Definition staleTime (now defaultThreshold : Z) (e : endpointElem) : Z :=
  let thr := staleThreshold (el_endpoint e) in
  if (0 <? thr)%Z && (thr <? defaultThreshold)%Z
  then time_Add now (wrap64 (- thr))
  else time_Add now (wrap64 (- defaultThreshold)).

(** The loop of [PruneEndpoints]; [fuel] counts the slots still to visit. *)
Fixpoint prune_loop (fuel : nat) (now defaultThreshold : Z) (i last : nat) (p : Pool) : res Pool :=
  if (i <? last)%nat then
    match fuel with
    | O => NoFuel
    | S fuel' =>
        ptr ← or_panic out_of_range (endpoints p !! i);
        e ← deref p ptr;
        if time_Before (updated e) (staleTime now defaultThreshold e)
        then p' ← removeEndpoint ptr p;
             prune_loop fuel' now defaultThreshold i (last - 1) p'
        else prune_loop fuel' now defaultThreshold (S i) last p
    end
  else Ok p.

Definition PruneEndpoints (now defaultThreshold : Z) (p : Pool) : res Pool :=
  let last := length (endpoints p) in
  prune_loop last now defaultThreshold 0 last p.

(** [Remove] reports whether the endpoint was in the pool. *)
Definition Remove (endpoint : EndpointRef) (p : Pool) : res (bool * Pool) :=
  match endpoints p with
  | [] => Ok (false, p)
  | _ :: _ =>
      match index p !! CanonicalAddr endpoint with
      | Some ptr => p' ← removeEndpoint ptr p; Ok (true, p')
      | None => Ok (false, p)
      end
  end.

Definition reset_failures (p : Pool) : Pool :=
  with_elems (foldr (alter (set_failedAt None)) (elems p) (endpoints p)) p.

(** Body of the loop of [next] at slot [cur]: the failure mark is dropped when
    its window has passed. *)
Definition expire_failure (now : Z) (retry : Z) (e : endpointElem) : endpointElem :=
  match failedAt e with
  | Some t => if (retry <? time_Sub now t)%Z then set_failedAt None e else e
  | None => e
  end.

Fixpoint next_loop (fuel : nat) (clock : nat → Z) (start cur : nat) (p : Pool)
    : res (EndpointRef * Pool) :=
  match fuel with
  | O => NoFuel
  | S fuel' =>
      ptr ← or_panic out_of_range (endpoints p !! cur);
      e0 ← deref p ptr;
      let cur' := if bool_decide (S cur = length (endpoints p)) then O else S cur in
      let e := expire_failure (clock fuel') (retryAfterFailure p) e0 in
      let p1 := with_elems (<[ptr := e]> (elems p)) p in
      match failedAt e with
      | None => Ok (el_endpoint e, with_nextIdx (Z.of_nat cur') p1)
      | Some _ =>
          let p2 := if bool_decide (cur' = start) then reset_failures p1 else p1 in
          next_loop fuel' clock start cur' p2
      end
  end.

(** [next] returns [nil] on an empty pool.  [draw] is the random draw, reduced
    to the range of [random.Intn]; [clock] gives the successive values of
    [time.Now]. *)
Definition next (clock : nat → Z) (draw : nat) (p : Pool) : res (option EndpointRef * Pool) :=
  let last := length (endpoints p) in
  if bool_decide (last = 0) then Ok (None, p)
  else
    let nextIdx' :=
      if (nextIdx p =? -1)%Z then Z.of_nat (draw mod last)
      else if (Z.of_nat last <=? nextIdx p)%Z then 0%Z
      else nextIdx p in
    if (nextIdx' <? 0)%Z then Panic out_of_range
    else
      r ← next_loop (S last) clock (Z.to_nat nextIdx') (Z.to_nat nextIdx') (with_nextIdx nextIdx' p);
      Ok (Some (fst r), snd r).

Definition findById (id : string) (p : Pool) : res (option EndpointRef) :=
  match index p !! id with
  | Some ptr => e ← deref p ptr; Ok (Some (el_endpoint e))
  | None => Ok None
  end.

Definition IsEmpty (p : Pool) : bool := bool_decide (length (endpoints p) = 0).

Definition MarkUpdated (t : Z) (p : Pool) : Pool :=
  with_elems (foldr (alter (set_updated t)) (elems p) (endpoints p)) p.

Definition endpointFailed (now : Z) (endpoint : EndpointRef) (p : Pool) : res Pool :=
  match index p !! CanonicalAddr endpoint with
  | Some ptr =>
      e ← deref p ptr;
      Ok (with_elems (<[ptr := set_failedAt (Some now) e]> (elems p)) p)
  | None => Ok p
  end.

(** The endpoints [Each] hands to its callback, in order. *)
Definition Each (p : Pool) : res (list EndpointRef) :=
  foldM (λ acc ptr, e ← deref p ptr; Ok (acc ++ [el_endpoint e])) [] (endpoints p).

(** ** The iterator of a request *)

Record endpointIterator := mkIter {
  initialEndpoint : string;
  lastEndpoint : option EndpointRef;
}.

Definition newEndpointIterator (initial : string) : endpointIterator := mkIter initial None.

Definition Endpoints (initial : string) : endpointIterator := newEndpointIterator initial.

Definition Next (clock : nat → Z) (draw : nat) (it : endpointIterator) (p : Pool)
    : res (option EndpointRef * endpointIterator * Pool) :=
  e ← (if String.eqb (initialEndpoint it) "" then Ok None else findById (initialEndpoint it) p);
  r ← (match e with
       | Some r => Ok (Some r, p)
       | None => next clock draw p
       end);
  Ok (fst r, mkIter EmptyString (fst r), snd r).

Definition EndpointFailed (now : Z) (it : endpointIterator) (p : Pool) : res Pool :=
  match lastEndpoint it with
  | Some e => endpointFailed now e p
  | None => Ok p
  end.
