(* ===== verification/PoolSpec.v ===== *)
(** * Invariant and contract of endpoint pools

    [pool_wf] relates the slice, the map and the heap of a pool.
    [contents] is what a pool means to its clients: a finite map from
    addresses to the registered endpoint, the time of its last registration
    and its failure mark.  Each operation of [Pool] refines an operation on
    [contents]. *)

From S2P Require Import Prelude GoStrings Pool.

(** Addresses are [host:port], and a private instance id has no colon; so the
    two kinds of keys of the map never clash. *)
Definition wf_endpoint (e : Endpoint) : Prop :=
  str_in ":" (addr e) = true ∧ str_in ":" (PrivateInstanceId e) = false.

#[export] Instance wf_endpoint_dec e : Decision (wf_endpoint e).
Proof. unfold wf_endpoint. apply _. Defined.

Lemma NewEndpoint_wf ptr app host port id tags stale url :
  str_in ":" id = false → wf_endpoint (NewEndpoint ptr app host port id tags stale url).
Proof.
  intros H. split; [|done]. simpl. rewrite !str_in_app. simpl. by rewrite orb_true_r.
Qed.

Record pool_wf (p : Pool) : Prop := {
  wf_slice : ∀ i ptr, endpoints p !! i = Some ptr →
    ∃ e, elems p !! ptr = Some e ∧ el_index e = i ∧ wf_endpoint (el_endpoint e)
         ∧ index p !! addr (el_endpoint e) = Some ptr;
  wf_index : ∀ k ptr, index p !! k = Some ptr →
    ∃ e, elems p !! ptr = Some e ∧ endpoints p !! el_index e = Some ptr
         ∧ (k = addr (el_endpoint e) ∨ k = PrivateInstanceId (el_endpoint e));
  wf_next : (-1 ≤ nextIdx p)%Z;
}.

Abbreviation view := (EndpointRef * Z * option Z)%type.
Definition view_of (e : endpointElem) : view := (el_endpoint e, updated e, failedAt e).

Definition contents (p : Pool) : gmap string view :=
  map_imap (λ a ptr,
    e ← elems p !! ptr;
    if bool_decide (addr (el_endpoint e) = a) then Some (view_of e) else None) (index p).

(** ** Reading the invariant *)

Section wf_facts.
Context (p : Pool) (Hwf : pool_wf p).

Lemma slice_NoDup : NoDup (endpoints p).
Proof.
  apply NoDup_alt. intros i j ptr Hi Hj.
  apply (wf_slice p Hwf) in Hi as (e & He & <- & _).
  apply (wf_slice p Hwf) in Hj as (e' & He' & <- & _). congruence.
Qed.

Lemma slice_elem ptr :
  ptr ∈ endpoints p →
  ∃ e, elems p !! ptr = Some e ∧ endpoints p !! el_index e = Some ptr
    ∧ wf_endpoint (el_endpoint e) ∧ index p !! addr (el_endpoint e) = Some ptr.
Proof.
  intros (i & Hi)%list_elem_of_lookup.
  destruct (wf_slice p Hwf i ptr Hi) as (e & ? & <- & ? & ?). eauto 10.
Qed.

Lemma index_elem k ptr :
  index p !! k = Some ptr →
  ∃ e, elems p !! ptr = Some e ∧ endpoints p !! el_index e = Some ptr
    ∧ wf_endpoint (el_endpoint e) ∧ index p !! addr (el_endpoint e) = Some ptr
    ∧ (k = addr (el_endpoint e) ∨ k = PrivateInstanceId (el_endpoint e)).
Proof.
  intros (e & He & Hi & Hk)%(wf_index p Hwf).
  destruct (wf_slice p Hwf _ _ Hi) as (e' & ? & ? & ? & ?). simplify_eq. eauto 10.
Qed.

(** A key with a colon is an address. *)
Lemma index_addr k ptr e :
  index p !! k = Some ptr → elems p !! ptr = Some e → str_in ":" k = true →
  k = addr (el_endpoint e).
Proof.
  intros H He Hk. apply index_elem in H as (e' & He' & _ & [_ Hid] & _ & [?| ->]); congruence.
Qed.

Lemma contents_lookup a v :
  contents p !! a = Some v ↔
  ∃ ptr e, ptr ∈ endpoints p ∧ elems p !! ptr = Some e ∧ addr (el_endpoint e) = a ∧ view_of e = v.
Proof.
  unfold contents. rewrite map_lookup_imap. split.
  - destruct (index p !! a) as [ptr|] eqn:E; [|done]. simpl.
    apply index_elem in E as (e & He & Hi & _). rewrite He. simpl.
    case_bool_decide; [|done]. intros [= <-].
    exists ptr, e. split_and!; try done. by eapply list_elem_of_lookup_2.
  - intros (ptr & e & Hin & He & <- & <-).
    apply slice_elem in Hin as (e' & He' & _ & _ & Hidx).
    rewrite He in He'. injection He' as <-. rewrite Hidx. simpl. rewrite He. simpl. by rewrite bool_decide_true.
Qed.

Lemma contents_index a v :
  contents p !! a = Some v → is_Some (index p !! a).
Proof.
  unfold contents. rewrite map_lookup_imap. destruct (index p !! a); [eauto|done].
Qed.

Lemma contents_addr a ptr e :
  str_in ":" a = true → index p !! a = Some ptr → elems p !! ptr = Some e →
  contents p !! a = Some (view_of e).
Proof.
  intros Ha Hi He. rewrite (index_addr a ptr e Hi He Ha).
  apply contents_lookup. destruct (index_elem _ _ Hi) as (e' & He' & Hs & _). simplify_eq.
  exists ptr, e. split_and!; try done. by eapply list_elem_of_lookup_2.
Qed.

Lemma contents_None a : str_in ":" a = true → index p !! a = None → contents p !! a = None.
Proof.
  intros Ha Hi. destruct (contents p !! a) eqn:E; [|done].
  apply contents_index in E as [? ?]. congruence.
Qed.

Lemma contents_not_addr a : str_in ":" a = false → contents p !! a = None.
Proof.
  intros Ha. destruct (contents p !! a) as [v|] eqn:E; [|done].
  apply contents_lookup in E as (ptr & e & Hin & He & <- & _).
  apply slice_elem in Hin as (e' & He' & _ & [H _] & _). congruence.
Qed.
End wf_facts.

(** Two pools with the same slice members and the same views have the same
    contents. *)
Lemma contents_ext p q :
  pool_wf p → pool_wf q →
  (∀ ptr, ptr ∈ endpoints p ↔ ptr ∈ endpoints q) →
  (∀ ptr, ptr ∈ endpoints p → view_of <$> elems p !! ptr = view_of <$> elems q !! ptr) →
  contents p = contents q.
Proof.
  assert (∀ p q, pool_wf p → pool_wf q →
    (∀ ptr, ptr ∈ endpoints p → ptr ∈ endpoints q) →
    (∀ ptr, ptr ∈ endpoints p → view_of <$> elems p !! ptr = view_of <$> elems q !! ptr) →
    ∀ a v, contents p !! a = Some v → contents q !! a = Some v) as H.
  { intros p' q' Hp Hq Hs Hv a v (ptr & e & Hin & He & <- & <-)%(contents_lookup p' Hp).
    specialize (Hv ptr Hin). rewrite He in Hv. simpl in Hv.
    symmetry in Hv. apply fmap_Some in Hv as (e' & He' & Hve).
    apply (contents_lookup q' Hq). exists ptr, e'. split_and!; auto.
    unfold view_of in Hve. congruence. }
  intros Hp Hq Hs Hv. apply map_eq. intros a. apply option_eq. intros v. split.
  - apply H; auto. intros ptr. apply Hs.
  - apply H; auto; [intros ptr; apply Hs|]. intros ptr Hin. symmetry. apply Hv. by apply Hs.
Qed.

(** ** Construction *)

Lemma NewPool_wf retry path : pool_wf (NewPool retry path).
Proof. split; simpl; [done|intros k ptr; by rewrite lookup_empty|lia]. Qed.

Lemma NewPool_contents retry path : contents (NewPool retry path) = ∅.
Proof. apply map_eq. intros a. unfold contents. by rewrite map_lookup_imap, !lookup_empty. Qed.

(** ** Updates that keep the links

    The invariant reads an element only through its endpoint and its slot. *)

Definition links (e : endpointElem) : EndpointRef * nat := (el_endpoint e, el_index e).

Lemma links_fmap (m m' : gmap positive endpointElem) ptr e' :
  links <$> m' !! ptr = links <$> m !! ptr → m' !! ptr = Some e' →
  ∃ e, m !! ptr = Some e ∧ el_endpoint e' = el_endpoint e ∧ el_index e' = el_index e.
Proof.
  intros H He. rewrite He in H. symmetry in H. apply fmap_Some in H as (e & -> & Hl).
  unfold links in Hl. simplify_eq. eauto.
Qed.

Lemma wf_same_links p m' n :
  pool_wf p → (∀ ptr, links <$> m' !! ptr = links <$> elems p !! ptr) → (-1 ≤ n)%Z →
  pool_wf (with_nextIdx n (with_elems m' p)).
Proof.
  intros Hwf Hm Hn. split; simpl; [| |done].
  - intros i ptr (e & He & <- & ? & ?)%(wf_slice p Hwf).
    symmetry in He. destruct (links_fmap m' (elems p) ptr e) as (e' & ? & Heq & ?); [done|done|].
    exists e'. rewrite <- Heq. eauto.
  - intros k ptr (e & He & ? & ?)%(wf_index p Hwf).
    symmetry in He. destruct (links_fmap m' (elems p) ptr e) as (e' & ? & Heq & Hi); [done|done|].
    exists e'. rewrite <- Heq, <- Hi. eauto.
Qed.

Lemma with_elems_wf p m' :
  pool_wf p → (∀ ptr, links <$> m' !! ptr = links <$> elems p !! ptr) → pool_wf (with_elems m' p).
Proof. intros Hwf Hm. exact (wf_same_links p m' (nextIdx p) Hwf Hm (wf_next p Hwf)). Qed.

(** Changing elements without touching their links changes the views only. *)
Lemma with_elems_contents p m' (f : view → view) :
  pool_wf p → (∀ ptr, links <$> m' !! ptr = links <$> elems p !! ptr) →
  (∀ ptr, ptr ∈ endpoints p →
     view_of <$> m' !! ptr = (f ∘ view_of) <$> elems p !! ptr) →
  contents (with_elems m' p) = f <$> contents p.
Proof.
  intros Hwf Hm Hv. apply map_eq. intros a. rewrite lookup_fmap.
  unfold contents. rewrite !map_lookup_imap. simpl.
  destruct (index p !! a) as [ptr|] eqn:Hi; [|done]. simpl.
  destruct (index_elem p Hwf a ptr Hi) as (e & He & Hs & _).
  specialize (Hv ptr (list_elem_of_lookup_2 _ _ _ Hs)).
  specialize (Hm ptr). rewrite He in *. simpl in *.
  destruct (m' !! ptr) as [e'|]; simpl in *; [|done].
  assert (el_endpoint e' = el_endpoint e) as -> by (unfold links in Hm; congruence).
  injection Hv as Hv. case_bool_decide; [|done]. simpl. by rewrite Hv.
Qed.

Lemma lookup_foldr_alter {A} (f : A → A) (m : gmap positive A) l ptr :
  NoDup l →
  foldr (alter f) m l !! ptr = if bool_decide (ptr ∈ l) then f <$> m !! ptr else m !! ptr.
Proof.
  induction 1 as [|x l Hx Hnd IH]; cbn [foldr]; [by rewrite bool_decide_false by inversion 1|].
  rewrite lookup_alter. destruct (decide (x = ptr)) as [->|Hd].
  - rewrite IH, bool_decide_false by done. rewrite bool_decide_true; [done|by left].
  - rewrite IH, (bool_decide_ext (ptr ∈ x :: l) (ptr ∈ l)); [done|].
    rewrite elem_of_cons. split; [by intros [->|?]|by right].
Qed.

Lemma foldr_alter_links (f : endpointElem → endpointElem)
    (m : gmap positive endpointElem) (l : list positive) ptr :
  (∀ e, links (f e) = links e) →
  links <$> foldr (alter f) m l !! ptr = links <$> m !! ptr.
Proof.
  intros Hf. induction l as [|x l IH]; simpl; [done|].
  rewrite lookup_alter. destruct (decide (x = ptr)) as [->|Hd]; [|done].
  rewrite <- IH. destruct (foldr _ _ _ !! ptr); simpl; [by rewrite Hf|done].
Qed.

(** ** Writing and dropping members *)

(** Writing one member of the slice, old or new, writes its address. *)
Lemma contents_write p p' ptr e' :
  pool_wf p → pool_wf p' →
  (∀ q, q ∈ endpoints p' ↔ q ∈ endpoints p ∨ q = ptr) →
  elems p' !! ptr = Some e' →
  (∀ q, q ≠ ptr → view_of <$> elems p' !! q = view_of <$> elems p !! q) →
  (∀ e, ptr ∈ endpoints p → elems p !! ptr = Some e → addr (el_endpoint e) = addr (el_endpoint e')) →
  contents p' = <[addr (el_endpoint e') := view_of e']> (contents p).
Proof.
  intros Hp Hp' Hm He' Hv Ha. apply map_eq. intros a.
  destruct (decide (a = addr (el_endpoint e'))) as [->|Hne].
  { rewrite lookup_insert_eq. apply contents_lookup; [done|].
    exists ptr, e'. split_and!; try done. apply Hm. by right. }
  rewrite lookup_insert_ne by done. apply option_eq. intros v.
  rewrite !contents_lookup by done. split; intros (q & eq & Hin & Heq & <- & <-).
  - assert (q ≠ ptr) as Hq by (intros ->; congruence).
    specialize (Hv q Hq). rewrite Heq in Hv. symmetry in Hv.
    apply fmap_Some in Hv as (e & He & Hve). unfold view_of in Hve.
    exists q, e. split_and!; [|done|congruence|unfold view_of; congruence].
    apply Hm in Hin as [?| ->]; done.
  - assert (q ≠ ptr) as Hq by (intros ->; specialize (Ha eq Hin Heq); congruence).
    specialize (Hv q Hq). rewrite Heq in Hv.
    apply fmap_Some in Hv as (e & He & Hve). unfold view_of in Hve.
    exists q, e. split_and!; [apply Hm; by left|done|congruence|unfold view_of; congruence].
Qed.

(** Dropping one member of the slice drops its address. *)
Lemma contents_drop p p' ptr e :
  pool_wf p → pool_wf p' →
  (∀ q, q ∈ endpoints p' ↔ q ∈ endpoints p ∧ q ≠ ptr) →
  index p !! addr (el_endpoint e) = Some ptr →
  elems p !! ptr = Some e →
  (∀ q, q ≠ ptr → view_of <$> elems p' !! q = view_of <$> elems p !! q) →
  contents p' = delete (addr (el_endpoint e)) (contents p).
Proof.
  intros Hp Hp' Hm Hi He Hv. apply map_eq. intros a. apply option_eq. intros v.
  rewrite lookup_delete_Some, !contents_lookup by done. split.
  - intros (q & eq & [Hin Hq]%Hm & Heq & <- & <-).
    specialize (Hv q Hq). rewrite Heq in Hv. symmetry in Hv.
    apply fmap_Some in Hv as (e0 & He0 & Hve). unfold view_of in Hve.
    destruct (slice_elem p Hp q Hin) as (e1 & He1 & _ & _ & Hi1).
    split; [congruence|].
    exists q, e0. split_and!; [done|done|congruence|unfold view_of; congruence].
  - intros (Hne & q & eq & Hin & Heq & <- & <-).
    assert (q ≠ ptr) as Hq by congruence.
    specialize (Hv q Hq). rewrite Heq in Hv.
    apply fmap_Some in Hv as (e0 & He0 & Hve). unfold view_of in Hve.
    exists q, e0. split_and!; [by apply Hm|done|congruence|unfold view_of; congruence].
Qed.

(** ** Put *)

(** A new address. *)
Lemma Put_new now (r : EndpointRef) p :
  pool_wf p → wf_endpoint r → index p !! addr r = None →
  ∃ p', Put now r p = Ok (true, p') ∧ pool_wf p'
    ∧ contents p' = <[addr r := (r, now, None)]> (contents p)
    ∧ endpoints p' = endpoints p ++ [fresh_ptr (elems p)]
    ∧ retryAfterFailure p' = retryAfterFailure p ∧ contextPath p' = contextPath p.
Proof.
  intros Hwf Hr Hnone. unfold Put, CanonicalAddr. rewrite Hnone. eexists. split; [done|].
  set (ptr := fresh_ptr (elems p)). set (e := mkElem r (length (endpoints p)) now None).
  assert (∀ q eq, elems p !! q = Some eq → q ≠ ptr) as Hfresh.
  { intros q eq Hq ->. unfold ptr in Hq. by rewrite fresh_ptr_None in Hq. }
  assert (addr r ≠ PrivateInstanceId r) as Hne by (intros Heq; destruct Hr; congruence).
  match goal with |- pool_wf ?q ∧ _ => assert (pool_wf q) as Hwf' end.
  - split; cbn [endpoints elems index nextIdx with_elems with_slice with_index].
    + intros i q Hq. apply lookup_snoc_Some in Hq as [[Hi Hq]|[-> <-]].
      * apply (wf_slice p Hwf) in Hq as (eq & Heq & <- & Hweq & Hia). exists eq.
        rewrite lookup_insert_ne by (apply not_eq_sym; eauto). split_and!; try done.
        destruct Hweq as [Hc Hd], Hr as [Hc' Hd'].
        by rewrite !lookup_insert_ne by congruence.
      * exists e. rewrite lookup_insert_eq. split_and!; try done. simpl.
        rewrite lookup_insert_ne by done. by rewrite lookup_insert_eq.
    + intros k q Hk.
      assert (Hfull : (endpoints p ++ [ptr]) !! length (endpoints p) = Some ptr)
        by (rewrite lookup_app_r, Nat.sub_diag; [done|lia]).
      apply lookup_insert_Some in Hk as [[<- <-]|[Hk1 Hk]].
      { exists e. rewrite lookup_insert_eq. eauto. }
      apply lookup_insert_Some in Hk as [[<- <-]|[Hk2 Hk]].
      { exists e. rewrite lookup_insert_eq. eauto. }
      apply (wf_index p Hwf) in Hk as (eq & Heq & Hs & Hor). exists eq.
      rewrite lookup_insert_ne by (apply not_eq_sym; eauto). split_and!; try done.
      by apply lookup_app_l_Some.
    + apply (wf_next p Hwf).
  - split_and!; [done| |done..].
    apply (contents_write p _ ptr e); try done; simpl.
    + intros q. by rewrite elem_of_app, list_elem_of_singleton.
    + by rewrite lookup_insert_eq.
    + intros q Hq. by rewrite lookup_insert_ne.
    + intros e0 _ He0. by apply Hfresh in He0.
Qed.

(** A known address with the same endpoint object: nothing happens, not even
    the update of the registration time. *)
Lemma Put_same now (r : EndpointRef) p ptr e :
  index p !! addr r = Some ptr → elems p !! ptr = Some e → ep_ptr (el_endpoint e) = ep_ptr r →
  Put now r p = Ok (false, p).
Proof.
  intros Hi He Hp. unfold Put, CanonicalAddr, deref. rewrite Hi, He. simpl.
  by rewrite bool_decide_true.
Qed.

(** The part of the map that [Put] rewrites for a known address. *)
Lemma Put_reindex (idx : gmap string positive) old new ptr k q :
  (if String.eqb old new then idx else <[new := ptr]> (delete old idx)) !! k = Some q →
  (k = new ∧ q = ptr ∧ old ≠ new) ∨ (idx !! k = Some q ∧ (k = old → old = new)).
Proof.
  destruct (String.eqb_spec old new) as [->|Hne]; [by right|].
  intros [[<- <-]|[Hk Hq]]%lookup_insert_Some; [by left|].
  apply lookup_delete_Some in Hq as [Hq1 Hq2]. right. split; [done|]. congruence.
Qed.

Lemma Put_reindex_addr (idx : gmap string positive) old new ptr a :
  a ≠ old → a ≠ new →
  (if String.eqb old new then idx else <[new := ptr]> (delete old idx)) !! a = idx !! a.
Proof.
  intros H1 H2. destruct (String.eqb old new); [done|].
  by rewrite lookup_insert_ne, lookup_delete_ne.
Qed.

(** A known address with another endpoint object: the object is replaced, the
    registration time refreshed, the failure mark kept. *)
Lemma Put_known now (r : EndpointRef) p ptr e :
  pool_wf p → wf_endpoint r → index p !! addr r = Some ptr → elems p !! ptr = Some e →
  ep_ptr (el_endpoint e) ≠ ep_ptr r →
  ∃ p', Put now r p = Ok (false, p') ∧ pool_wf p'
    ∧ contents p' = <[addr r := (r, now, failedAt e)]> (contents p)
    ∧ endpoints p' = endpoints p
    ∧ retryAfterFailure p' = retryAfterFailure p ∧ contextPath p' = contextPath p.
Proof.
  intros Hwf Hr Hi He Hp. unfold Put, CanonicalAddr, deref. rewrite Hi, He. simpl.
  rewrite bool_decide_false by done. eexists. split; [done|].
  destruct (index_elem p Hwf _ _ Hi) as (e0 & He0 & Hs & Hwe & _ & _).
  rewrite He in He0. injection He0 as <-.
  pose proof (index_addr p Hwf _ _ _ Hi He (proj1 Hr)) as Haddr.
  assert (∀ a, str_in ":" a = true →
    a ≠ PrivateInstanceId (el_endpoint e) ∧ a ≠ PrivateInstanceId r) as Hcol.
  { intros a Ha. destruct Hr, Hwe. split; congruence. }
  match goal with |- pool_wf ?q ∧ _ => assert (pool_wf q) as Hwf' end.
  - split; cbn [endpoints elems index nextIdx with_elems with_index].
    + intros i q Hq. destruct (wf_slice p Hwf _ _ Hq) as (eq & Heq & Hiq & Hweq & Hia).
      destruct (decide (q = ptr)) as [->|Hne].
      * simplify_eq. eexists. rewrite lookup_insert_eq. split_and!; try done; simpl.
        destruct (Hcol _ (proj1 Hr)). by rewrite Put_reindex_addr.
      * exists eq. rewrite lookup_insert_ne by done. split_and!; try done.
        destruct (Hcol _ (proj1 Hweq)). by rewrite Put_reindex_addr.
    + intros k q [(-> & -> & _)|[Hk Hold]]%Put_reindex.
      * eexists. rewrite lookup_insert_eq. split_and!; [done|done|by right].
      * apply (wf_index p Hwf) in Hk as (eq & Heq & Hsq & Hor).
        destruct (decide (q = ptr)) as [->|Hne]; [|exists eq; by rewrite lookup_insert_ne].
        simplify_eq. eexists. rewrite lookup_insert_eq. split_and!; [done|done|]. simpl.
        destruct Hor as [-> | ->]; [left; congruence|right; auto].
    + apply (wf_next p Hwf).
  - split_and!; [done| |done..].
    apply (contents_write p _ ptr (set_updated now (set_endpoint r e))); try done; simpl.
    + intros q. split; [by left|intros [?| ->]; [done|by eapply list_elem_of_lookup_2]].
    + by rewrite lookup_insert_eq.
    + intros q Hq. by rewrite lookup_insert_ne.
    + intros e0 _ He0. congruence.
Qed.

(** ** Removal *)

(** The slots after the re-ordering delete of slot [i]. *)
Lemma swap_delete_lookup (es : list positive) i moved j :
  i < length es → es !! (length es - 1) = Some moved →
  take (length es - 1) (<[i := moved]> es) !! j =
    if (j <? length es - 1) then (if (j =? i) then Some moved else es !! j) else None.
Proof.
  intros Hi Hm. destruct (Nat.ltb_spec j (length es - 1)) as [Hj|Hj].
  - rewrite lookup_take_lt by done. destruct (Nat.eqb_spec j i) as [->|Hne].
    + by apply list_lookup_insert_eq.
    + by rewrite list_lookup_insert_ne.
  - by rewrite lookup_take_ge.
Qed.

Lemma swap_delete_elem_of (es : list positive) i ptr moved q :
  NoDup es → es !! i = Some ptr → es !! (length es - 1) = Some moved →
  q ∈ take (length es - 1) (<[i := moved]> es) ↔ q ∈ es ∧ q ≠ ptr.
Proof.
  intros Hnd Hs Hm. pose proof (lookup_lt_Some _ _ _ Hs) as Hlt.
  rewrite !list_elem_of_lookup. split.
  - intros [j Hj]. rewrite swap_delete_lookup in Hj by done.
    destruct (Nat.ltb_spec j (length es - 1)); [|done].
    destruct (Nat.eqb_spec j i) as [Hji|Hne].
    + injection Hj as <-. split; [eauto|]. intros ->.
      assert (i = length es - 1) by (by eapply NoDup_lookup). lia.
    + split; [eauto|]. intros ->. apply Hne. by eapply NoDup_lookup.
  - intros [[j Hj] Hq]. pose proof (lookup_lt_Some _ _ _ Hj).
    destruct (decide (j = length es - 1)) as [->|Hne].
    + exists i. rewrite swap_delete_lookup, Nat.eqb_refl by done.
      assert (i ≠ length es - 1) by (intros ->; congruence).
      destruct (Nat.ltb_spec i (length es - 1)); [congruence|lia].
    + exists j. rewrite swap_delete_lookup by done.
      destruct (Nat.ltb_spec j (length es - 1)); [|lia].
      destruct (Nat.eqb_spec j i) as [->|]; [congruence|done].
Qed.

(** What [removeEndpoint] leaves in the heap: the moved element changes slot. *)
Definition reslot (i last : nat) (moved : positive) (m : gmap positive endpointElem) :=
  if (i <? last - 1)%nat then alter (set_index i) moved m else m.

Lemma removeEndpoint_unfold p ptr e moved :
  pool_wf p → elems p !! ptr = Some e → endpoints p !! el_index e = Some ptr →
  endpoints p !! (length (endpoints p) - 1) = Some moved →
  removeEndpoint ptr p = Ok
    (with_elems (reslot (el_index e) (length (endpoints p)) moved (elems p))
      (with_slice (take (length (endpoints p) - 1) (<[el_index e := moved]> (endpoints p)))
        (with_index (delete (PrivateInstanceId (el_endpoint e))
                      (delete (addr (el_endpoint e)) (index p))) p))).
Proof.
  intros Hwf He Hs Hm. unfold removeEndpoint, deref, CanonicalAddr, reslot.
  rewrite He. simpl. rewrite Hm. simpl. rewrite Hs. simpl.
  destruct (el_index e <? _)%nat; [|done].
  destruct (wf_slice p Hwf _ _ Hm) as (e2 & He2 & _). rewrite He2. simpl.
  do 2 f_equal. apply map_eq. intros q. rewrite lookup_alter.
  destruct (decide (moved = q)) as [<-|Hne].
  - by rewrite lookup_insert_eq, He2.
  - by rewrite lookup_insert_ne.
Qed.

Lemma reslot_lookup i last moved m q :
  reslot i last moved m !! q =
    if bool_decide (q = moved ∧ i < last - 1) then set_index i <$> m !! q else m !! q.
Proof.
  unfold reslot. destruct (Nat.ltb_spec i (last - 1)) as [Hi|Hi].
  - rewrite lookup_alter. destruct (decide (moved = q)) as [<-|Hne].
    + by rewrite bool_decide_true.
    + rewrite bool_decide_false; [done|naive_solver].
  - rewrite bool_decide_false; [done|lia].
Qed.

Lemma reslot_view i last moved m q :
  view_of <$> reslot i last moved m !! q = view_of <$> m !! q.
Proof. rewrite reslot_lookup. case_bool_decide; [|done]. by destruct (m !! q). Qed.

Lemma removed_wf p ptr e moved :
  pool_wf p → elems p !! ptr = Some e → endpoints p !! el_index e = Some ptr →
  endpoints p !! (length (endpoints p) - 1) = Some moved →
  pool_wf
    (with_elems (reslot (el_index e) (length (endpoints p)) moved (elems p))
      (with_slice (take (length (endpoints p) - 1) (<[el_index e := moved]> (endpoints p)))
        (with_index (delete (PrivateInstanceId (el_endpoint e))
                      (delete (addr (el_endpoint e)) (index p))) p))).
Proof.
  intros Hwf He Hs Hm. pose proof (lookup_lt_Some _ _ _ Hs) as Hlt.
  pose proof (slice_NoDup p Hwf) as Hnd.
  destruct (wf_slice p Hwf _ _ Hs) as (e0 & He0 & _ & Hwe & Hie).
  rewrite He in He0. injection He0 as <-.
  destruct (wf_slice p Hwf _ _ Hm) as (em & Hem & Hmi & Hwm & Him).
  (* members other than [ptr] keep their address in the map *)
  assert (∀ q eq, index p !! addr (el_endpoint eq) = Some q → wf_endpoint (el_endpoint eq) → q ≠ ptr →
    delete (PrivateInstanceId (el_endpoint e))
      (delete (addr (el_endpoint e)) (index p)) !! addr (el_endpoint eq) = Some q) as Hkeep.
  { intros q eq Hi [Hc _] Hq. rewrite !lookup_delete_ne; [done| |].
    - intros Heq. rewrite Heq in Hie. congruence.
    - intros Heq. destruct Hwe as [_ Hd]. congruence. }
  split; cbn [endpoints elems index nextIdx with_elems with_slice with_index]; [| |apply (wf_next p Hwf)].
  - intros j q Hj. rewrite swap_delete_lookup in Hj by done.
    destruct (Nat.ltb_spec j (length (endpoints p) - 1)) as [Hjl|]; [|done].
    setoid_rewrite reslot_lookup. destruct (Nat.eqb_spec j (el_index e)) as [->|Hne].
    + injection Hj as <-. exists (set_index (el_index e) em).
      rewrite bool_decide_true, Hem by done. split_and!; try done. apply Hkeep; try done.
      intros ->. rewrite He in Hem. injection Hem as <-. lia.
    + destruct (wf_slice p Hwf _ _ Hj) as (eq & Heq & <- & Hweq & Hiq). exists eq.
      rewrite bool_decide_false by (intros [-> _]; congruence || (rewrite Hem in Heq; injection Heq as <-; lia)).
      split_and!; try done. apply Hkeep; try done. intros ->. congruence.
  - intros k q (Hk1 & (Hk2 & Hk)%lookup_delete_Some)%lookup_delete_Some.
    apply (wf_index p Hwf) in Hk as (eq & Heq & Hsq & Hor).
    assert (q ≠ ptr) as Hq by (intros ->; rewrite He in Heq; injection Heq as <-; naive_solver).
    pose proof (lookup_lt_Some _ _ _ Hsq).
    setoid_rewrite reslot_lookup. destruct (decide (q = moved)) as [->|Hqm].
    + assert (el_index e ≠ length (endpoints p) - 1) by (intros Heq'; rewrite Heq' in Hs; congruence).
      exists (set_index (el_index e) eq). rewrite bool_decide_true, Heq by (split; [done|lia]).
      split_and!; try done. simpl. rewrite swap_delete_lookup, Nat.eqb_refl by done.
      destruct (Nat.ltb_spec (el_index e) (length (endpoints p) - 1)); [done|lia].
    + exists eq. rewrite bool_decide_false by naive_solver. split_and!; try done.
      rewrite swap_delete_lookup by done.
      assert (el_index eq ≠ length (endpoints p) - 1) by (intros Heq'; rewrite Heq' in Hsq; congruence).
      assert (el_index eq ≠ el_index e) by (intros Heq'; rewrite Heq' in Hsq; congruence).
      destruct (Nat.ltb_spec (el_index eq) (length (endpoints p) - 1)); [|lia].
      destruct (Nat.eqb_spec (el_index eq) (el_index e)); done.
Qed.

Lemma removeEndpoint_spec p ptr e :
  pool_wf p → elems p !! ptr = Some e → endpoints p !! el_index e = Some ptr →
  ∃ p', removeEndpoint ptr p = Ok p' ∧ pool_wf p'
    ∧ contents p' = delete (addr (el_endpoint e)) (contents p)
    ∧ S (length (endpoints p')) = length (endpoints p)
    ∧ (∀ j, j < el_index e → endpoints p' !! j = endpoints p !! j)
    ∧ (∀ q, view_of <$> elems p' !! q = view_of <$> elems p !! q)
    ∧ (∀ q, q ∈ endpoints p' ↔ q ∈ endpoints p ∧ q ≠ ptr)
    ∧ retryAfterFailure p' = retryAfterFailure p ∧ contextPath p' = contextPath p.
Proof.
  intros Hwf He Hs. pose proof (lookup_lt_Some _ _ _ Hs) as Hlt.
  destruct (lookup_lt_is_Some_2 (endpoints p) (length (endpoints p) - 1)) as [moved Hm]; [lia|].
  rewrite (removeEndpoint_unfold p ptr e moved) by done.
  pose proof (removed_wf p ptr e moved Hwf He Hs Hm) as Hwf'.
  pose proof (slice_NoDup p Hwf) as Hnd.
  eexists. split; [done|]. split; [done|]. split_and!; try done; simpl.
  - apply (contents_drop p _ ptr e); try done; simpl.
    + intros q. by apply swap_delete_elem_of.
    + by destruct (wf_slice p Hwf _ _ Hs) as (e0 & He0 & _ & _ & ?); simplify_eq.
    + intros q _. apply reslot_view.
  - rewrite length_take, length_insert. lia.
  - intros j Hj. rewrite swap_delete_lookup by done.
    destruct (Nat.ltb_spec j (length (endpoints p) - 1)); [|lia].
    destruct (Nat.eqb_spec j (el_index e)); [lia|done].
  - intros q. apply reslot_view.
  - intros q. by apply swap_delete_elem_of.
Qed.

Lemma Remove_spec (r : EndpointRef) p :
  pool_wf p → wf_endpoint r →
  ∃ p', Remove r p = Ok (bool_decide (is_Some (contents p !! addr r)), p') ∧ pool_wf p'
    ∧ contents p' = delete (addr r) (contents p)
    ∧ retryAfterFailure p' = retryAfterFailure p ∧ contextPath p' = contextPath p.
Proof.
  intros Hwf [Hc _]. unfold Remove, CanonicalAddr.
  assert (index p !! addr r = None → contents p !! addr r = None) as HNone
    by (by apply contents_None).
  destruct (index p !! addr r) as [ptr|] eqn:Hi.
  - destruct (index_elem p Hwf _ _ Hi) as (e & He & Hs & _).
    pose proof (index_addr p Hwf _ _ _ Hi He Hc) as Ha.
    rewrite (contents_addr p Hwf (addr r) ptr e) by done. rewrite bool_decide_true by eauto.
    destruct (removeEndpoint_spec p ptr e Hwf He Hs) as (p' & Hr & Hwf' & Hcon & _ & _ & _ & _ & ? & ?).
    rewrite <- Ha in Hcon. destruct (endpoints p); [done|].
    rewrite Hr. simpl. eauto 10.
  - rewrite HNone by done. rewrite bool_decide_false by (by intros [? ?]).
    exists p. rewrite delete_id by auto. destruct (endpoints p); auto.
Qed.

(** ** Pruning *)

Definition view_stale (now thr : Z) (v : view) : bool :=
  let '(r, u, f) := v in time_Before u (staleTime now thr (mkElem r 0 u f)).

Lemma view_stale_spec now thr e :
  view_stale now thr (view_of e) = time_Before (updated e) (staleTime now thr e).
Proof. done. Qed.

(** A pool whose first [i] slots are fresh. *)
Definition fresh_upto (now thr : Z) (i : nat) (p : Pool) : Prop :=
  ∀ j ptr e, j < i → endpoints p !! j = Some ptr → elems p !! ptr = Some e →
    view_stale now thr (view_of e) = false.

Lemma prune_loop_spec now thr fuel : ∀ i p,
  pool_wf p → fresh_upto now thr i p → length (endpoints p) - i ≤ fuel →
  ∃ p', prune_loop fuel now thr i (length (endpoints p)) p = Ok p' ∧ pool_wf p'
    ∧ contents p' = filter (λ kv, view_stale now thr (snd kv) = false) (contents p)
    ∧ retryAfterFailure p' = retryAfterFailure p ∧ contextPath p' = contextPath p.
Proof.
  assert (∀ i p, pool_wf p → fresh_upto now thr i p → length (endpoints p) ≤ i →
    filter (λ kv, view_stale now thr (snd kv) = false) (contents p) = contents p) as Hdone.
  { intros i p Hwf Hf Hi. apply map_filter_id. intros a v.
    rewrite contents_lookup by done.
    intros (ptr & e & (j & Hj)%list_elem_of_lookup & He & _ & <-).
    apply (Hf j ptr e); try done. apply lookup_lt_Some in Hj. lia. }
  induction fuel as [|fuel IH]; intros i p Hwf Hf Hfuel; simpl;
    (destruct (Nat.ltb_spec i (length (endpoints p))) as [Hi|Hi];
      [try lia|by exists p; rewrite (Hdone i) by done]).
  destruct (lookup_lt_is_Some_2 _ _ Hi) as [ptr Hptr].
  destruct (wf_slice p Hwf _ _ Hptr) as (e & He & Hei & _ & Hia).
  rewrite Hptr. simpl. unfold deref. rewrite He. simpl.
  rewrite <- view_stale_spec. destruct (view_stale now thr (view_of e)) eqn:Hst.
  - rewrite <- Hei in Hptr.
    destruct (removeEndpoint_spec p ptr e Hwf He Hptr)
      as (p1 & Hr & Hwf1 & Hc1 & Hlen & Hpre & Hview & _ & Hret & Hctx).
    rewrite Hr. simpl. replace (length (endpoints p) - 1) with (length (endpoints p1)) by lia.
    destruct (IH i p1) as (p' & -> & ? & Hc' & ? & ?); [done| |lia|].
    { intros j q eq Hj Hq Heq. rewrite Hpre in Hq by lia.
      specialize (Hview q). rewrite Heq in Hview. symmetry in Hview.
      apply fmap_Some in Hview as (e0 & He0 & ->). by apply (Hf j q). }
    exists p'. split_and!; try done; [|congruence..]. rewrite Hc', Hc1.
    apply map_filter_delete_not. intros v (q & eq & Hin & Heq & Ha & <-)%contents_lookup; [|done].
    destruct (slice_elem p Hwf q Hin) as (e1 & He1 & _ & _ & Hi1).
    assert (q = ptr) as -> by congruence. assert (eq = e) as -> by congruence.
    cbn [snd]. by rewrite Hst.
  - destruct (IH (S i) p) as (p' & -> & Hrest); [done| |lia|eauto].
    intros j q eq Hj Hq Heq. destruct (decide (j = i)) as [Hji|]; [by simplify_eq|].
    apply (Hf j q); [lia|done..].
Qed.

Lemma PruneEndpoints_spec now thr p :
  pool_wf p →
  ∃ p', PruneEndpoints now thr p = Ok p' ∧ pool_wf p'
    ∧ contents p' = filter (λ kv, view_stale now thr (snd kv) = false) (contents p)
    ∧ retryAfterFailure p' = retryAfterFailure p ∧ contextPath p' = contextPath p.
Proof. intros Hwf. apply prune_loop_spec; [done| |lia]. intros j ptr e Hj. lia. Qed.

(** ** Marking *)

Lemma MarkUpdated_spec t p :
  pool_wf p →
  pool_wf (MarkUpdated t p) ∧
  contents (MarkUpdated t p) = (λ v, (fst (fst v), t, snd v)) <$> contents p.
Proof.
  intros Hwf. assert (Hl := λ ptr, foldr_alter_links (set_updated t) (elems p) (endpoints p) ptr (λ e, eq_refl)).
  split; [by apply with_elems_wf|]. apply with_elems_contents; [done..|].
  intros ptr Hin. rewrite lookup_foldr_alter by (by apply slice_NoDup).
  rewrite bool_decide_true by done. by destruct (elems p !! ptr).
Qed.

Lemma reset_failures_spec p :
  pool_wf p →
  pool_wf (reset_failures p) ∧
  contents (reset_failures p) = (λ v, (fst v, None)) <$> contents p.
Proof.
  intros Hwf. assert (Hl := λ ptr, foldr_alter_links (set_failedAt None) (elems p) (endpoints p) ptr (λ e, eq_refl)).
  split; [by apply with_elems_wf|]. apply with_elems_contents; [done..|].
  intros ptr Hin. rewrite lookup_foldr_alter by (by apply slice_NoDup).
  rewrite bool_decide_true by done. by destruct (elems p !! ptr).
Qed.

(** Overwriting one element without touching its links. *)
Lemma write_elem_wf p ptr e e' :
  pool_wf p → elems p !! ptr = Some e → links e' = links e →
  pool_wf (with_elems (<[ptr := e']> (elems p)) p).
Proof.
  intros Hwf He Hl. apply with_elems_wf; [done|]. intros q.
  destruct (decide (ptr = q)) as [<-|Hne].
  - rewrite lookup_insert_eq, He. simpl. by rewrite Hl.
  - by rewrite lookup_insert_ne.
Qed.

Lemma write_elem_contents p ptr e e' :
  pool_wf p → elems p !! ptr = Some e → ptr ∈ endpoints p → links e' = links e →
  contents (with_elems (<[ptr := e']> (elems p)) p)
  = <[addr (el_endpoint e) := view_of e']> (contents p).
Proof.
  intros Hwf He Hin Hl. replace (el_endpoint e) with (el_endpoint e') by (unfold links in Hl; congruence).
  apply (contents_write p _ ptr e'); simpl; try done.
  - by eapply write_elem_wf.
  - intros q. split; [by left|intros [?| ->]; done].
  - by rewrite lookup_insert_eq.
  - intros q Hq. by rewrite lookup_insert_ne.
  - intros e0 _ He0. unfold links in Hl. congruence.
Qed.

Lemma endpointFailed_spec now (r : EndpointRef) p :
  pool_wf p → wf_endpoint r →
  ∃ p', endpointFailed now r p = Ok p' ∧ pool_wf p'
    ∧ contents p' = alter (λ v, (fst v, Some now)) (addr r) (contents p)
    ∧ endpoints p' = endpoints p ∧ nextIdx p' = nextIdx p
    ∧ retryAfterFailure p' = retryAfterFailure p.
Proof.
  intros Hwf [Hc _]. unfold endpointFailed, CanonicalAddr.
  destruct (index p !! addr r) as [ptr|] eqn:Hi.
  - destruct (index_elem p Hwf _ _ Hi) as (e & He & Hs & _). unfold deref. rewrite He. simpl.
    pose proof (index_addr p Hwf _ _ _ Hi He Hc) as Ha.
    eexists. split; [done|]. split; [by eapply write_elem_wf|]. split_and!; try done.
    rewrite (write_elem_contents p ptr e) by (done || by eapply list_elem_of_lookup_2).
    rewrite Ha. apply map_eq. intros a. rewrite lookup_alter, lookup_insert.
    destruct (decide (addr (el_endpoint e) = a)) as [<-|]; [|done].
    rewrite <- Ha. by rewrite (contents_addr p Hwf _ ptr e).
  - exists p. split_and!; try done. apply map_eq. intros a. rewrite lookup_alter.
    destruct (decide (addr r = a)) as [<-|]; [|done]. by rewrite contents_None.
Qed.

(** ** Round robin *)

(** An element [next] may return: not marked failed, or marked longer ago than
    the retry window. *)
Definition available (now retry : Z) (e : endpointElem) : bool :=
  match failedAt e with
  | Some t => (retry <? time_Sub now t)%Z
  | None => true
  end.

Lemma expire_failure_available now retry e :
  expire_failure now retry e = if available now retry e then set_failedAt None e else e.
Proof.
  unfold expire_failure, available. destruct e as [r i u [t|]]; simpl; [|done].
  by destruct (retry <? _)%Z.
Qed.

(** The slot [k] places after [s] in a slice of [n] slots, and the successor of
    a slot. *)
Definition rr_slot (n s k : nat) : nat := if (s + k <? n)%nat then s + k else s + k - n.
Definition rr_succ (n c : nat) : nat := if bool_decide (S c = n) then O else S c.

Lemma rr_slot_lt n s k : s < n → k ≤ n → rr_slot n s k < n.
Proof. unfold rr_slot. intros. destruct (Nat.ltb_spec (s + k) n); lia. Qed.

Lemma rr_slot_S n s k : s < n → k < n → rr_slot n s (S k) = rr_succ n (rr_slot n s k).
Proof.
  unfold rr_slot, rr_succ. intros.
  destruct (Nat.ltb_spec (s + S k) n), (Nat.ltb_spec (s + k) n); case_bool_decide; lia.
Qed.

Lemma rr_slot_start n s k : s < n → 0 < k ≤ n → rr_slot n s k = s ↔ k = n.
Proof. unfold rr_slot. intros. destruct (Nat.ltb_spec (s + k) n); lia. Qed.

Lemma with_elems_id p ptr e : elems p !! ptr = Some e → with_elems (<[ptr := e]> (elems p)) p = p.
Proof. intros He. destruct p. unfold with_elems. simpl in *. by rewrite insert_id. Qed.

(** One round of the loop, at a slot that cannot be used and at one that can. *)
Lemma next_loop_miss fuel clock s c p ptr e :
  endpoints p !! c = Some ptr → elems p !! ptr = Some e →
  available (clock fuel) (retryAfterFailure p) e = false →
  next_loop (S fuel) clock s c p
  = next_loop fuel clock s (rr_succ (length (endpoints p)) c)
      (if bool_decide (rr_succ (length (endpoints p)) c = s) then reset_failures p else p).
Proof.
  intros Hs He Ha. cbn [next_loop]. unfold deref. rewrite Hs. simpl. rewrite He. simpl.
  rewrite expire_failure_available, Ha. rewrite with_elems_id by done.
  unfold available in Ha. destruct (failedAt e); done.
Qed.

Lemma next_loop_hit fuel clock s c p ptr e :
  endpoints p !! c = Some ptr → elems p !! ptr = Some e →
  available (clock fuel) (retryAfterFailure p) e = true →
  next_loop (S fuel) clock s c p
  = Ok (el_endpoint e,
        with_nextIdx (Z.of_nat (rr_succ (length (endpoints p)) c))
          (with_elems (<[ptr := set_failedAt None e]> (elems p)) p)).
Proof.
  intros Hs He Ha. cbn [next_loop]. unfold deref. rewrite Hs. simpl. rewrite He. simpl.
  by rewrite expire_failure_available, Ha.
Qed.

(** What a call of [next] on [p] with start slot [s] does, as a relation: it
    passes over [k] unusable slots and returns the endpoint of the next one;
    when a whole round found nothing, every failure mark is cleared and the
    endpoint of the start slot is returned. *)
Definition rr_result (clock : nat → Z) (s : nat) (p : Pool) (k : nat) (r : EndpointRef) (p' : Pool) : Prop :=
  let n := length (endpoints p) in
  ∃ ptr e, endpoints p !! rr_slot n s k = Some ptr ∧ elems p !! ptr = Some e
    ∧ r = el_endpoint e
    ∧ (k < n → available (clock (n - k)) (retryAfterFailure p) e = true)
    ∧ nextIdx p' = Z.of_nat (rr_succ n (rr_slot n s k))
    ∧ endpoints p' = endpoints p ∧ pool_wf p'
    ∧ contents p' = if bool_decide (k = n)
                    then (λ v, (fst v, None)) <$> contents p
                    else alter (λ v, (fst v, None)) (addr (el_endpoint e)) (contents p).

Definition unavailable_at (clock : nat → Z) (s : nat) (p : Pool) (k : nat) : Prop :=
  let n := length (endpoints p) in
  ∃ ptr e, endpoints p !! rr_slot n s k = Some ptr ∧ elems p !! ptr = Some e
    ∧ available (clock (n - k)) (retryAfterFailure p) e = false.

Lemma unmark_contents p ptr e :
  pool_wf p → elems p !! ptr = Some e → ptr ∈ endpoints p →
  contents (with_elems (<[ptr := set_failedAt None e]> (elems p)) p)
  = alter (λ v, (fst v, None)) (addr (el_endpoint e)) (contents p).
Proof.
  intros Hwf He Hin. rewrite (write_elem_contents p ptr e) by done.
  apply map_eq. intros a. rewrite lookup_alter, lookup_insert.
  destruct (decide (addr (el_endpoint e) = a)) as [<-|]; [|done].
  rewrite (proj2 (contents_lookup p Hwf (addr (el_endpoint e)) (view_of e))); [done|].
  by exists ptr, e.
Qed.

(** After a fruitless round everything is unmarked, and the start slot wins. *)
Lemma next_loop_reset clock s p :
  pool_wf p → s < length (endpoints p) →
  ∃ r p', next_loop 1 clock s s (reset_failures p) = Ok (r, p')
    ∧ rr_result clock s p (length (endpoints p)) r p'.
Proof.
  intros Hwf Hs. destruct (reset_failures_spec p Hwf) as [Hwf' Hc'].
  destruct (lookup_lt_is_Some_2 (endpoints p) s Hs) as [ptr Hptr].
  destruct (wf_slice p Hwf _ _ Hptr) as (e & He & _).
  assert (elems (reset_failures p) !! ptr = Some (set_failedAt None e)) as He'.
  { simpl. rewrite lookup_foldr_alter by (by apply slice_NoDup).
    rewrite bool_decide_true by (by eapply list_elem_of_lookup_2). by rewrite He. }
  rewrite (next_loop_hit 0 clock s s (reset_failures p) ptr (set_failedAt None e)) by done.
  do 2 eexists. split; [done|]. unfold rr_result.
  assert (rr_slot (length (endpoints p)) s (length (endpoints p)) = s) as Hslot
    by (apply rr_slot_start; lia).
  exists ptr, e. rewrite Hslot, bool_decide_true by done. split_and!; try done; [lia| |].
  - apply wf_same_links; [done| |lia]. intros q.
    destruct (decide (ptr = q)) as [<-|]; [by rewrite lookup_insert_eq, He'|by rewrite lookup_insert_ne].
  - rewrite <- Hc'. change (contents (with_nextIdx ?i ?q)) with (contents q).
    by rewrite with_elems_id.
Qed.

Lemma next_loop_spec clock s p : ∀ m k,
  pool_wf p → s < length (endpoints p) → k + m = length (endpoints p) → 0 < m →
  ∃ k' r p', next_loop (S m) clock s (rr_slot (length (endpoints p)) s k) p = Ok (r, p')
    ∧ k ≤ k' ≤ length (endpoints p)
    ∧ (∀ j, k ≤ j < k' → unavailable_at clock s p j)
    ∧ rr_result clock s p k' r p'.
Proof.
  intros m. induction m as [|m IH]; intros k Hwf Hs Hk Hm; [lia|].
  set (n := length (endpoints p)) in *.
  assert (rr_slot n s k < n) as Hlt by (apply rr_slot_lt; lia).
  destruct (lookup_lt_is_Some_2 (endpoints p) _ Hlt) as [ptr Hptr].
  destruct (wf_slice p Hwf _ _ Hptr) as (e & He & _).
  destruct (available (clock (S m)) (retryAfterFailure p) e) eqn:Ha.
  - exists k. rewrite (next_loop_hit _ _ _ _ p ptr e) by done. do 2 eexists. split; [done|].
    split; [lia|]. split; [lia|]. exists ptr, e. fold n.
    replace (n - k) with (S m) by lia. rewrite bool_decide_false by lia.
    split_and!; try done.
    + apply wf_same_links; [done| |lia]. intros q.
      destruct (decide (ptr = q)) as [<-|]; [by rewrite lookup_insert_eq, He|by rewrite lookup_insert_ne].
    + apply unmark_contents; try done. by eapply list_elem_of_lookup_2.
  - rewrite (next_loop_miss _ _ _ _ p ptr e) by done. fold n. rewrite <- rr_slot_S by lia.
    assert (unavailable_at clock s p k) as Hun.
    { exists ptr, e. fold n. by replace (n - k) with (S m) by lia. }
    destruct (decide (m = 0)) as [->|Hm'].
    + assert (rr_slot n s (S k) = s) as -> by (apply rr_slot_start; lia).
      rewrite bool_decide_true by done.
      destruct (next_loop_reset clock s p Hwf Hs) as (r & p' & -> & Hr).
      exists n, r, p'. split_and!; try done; [lia|]. intros j Hj. by assert (j = k) as -> by lia.
    + rewrite bool_decide_false by (rewrite rr_slot_start by lia; lia).
      destruct (IH (S k) Hwf Hs) as (k' & r & p' & -> & Hk' & Hbetween & Hr); [lia|lia|].
      exists k', r, p'. split_and!; try done; [lia|lia|]. intros j Hj.
      destruct (decide (j = k)) as [->|]; [done|]. apply Hbetween. lia.
Qed.

(** The slot [next] looks at first. *)
Definition start_slot (draw : nat) (p : Pool) : nat :=
  let n := length (endpoints p) in
  if (nextIdx p =? -1)%Z then draw mod n
  else if (Z.of_nat n <=? nextIdx p)%Z then 0
  else Z.to_nat (nextIdx p).

Lemma start_slot_lt draw p :
  (-1 ≤ nextIdx p)%Z → endpoints p ≠ [] → start_slot draw p < length (endpoints p).
Proof.
  intros Hn Hne. unfold start_slot. assert (length (endpoints p) ≠ 0) by (by destruct (endpoints p)).
  destruct (Z.eqb_spec (nextIdx p) (-1)); [by apply Nat.mod_upper_bound|].
  destruct (Z.leb_spec (Z.of_nat (length (endpoints p))) (nextIdx p)); lia.
Qed.

(** [next] runs its loop from the start slot. *)
Lemma next_unfold clock draw p :
  (-1 ≤ nextIdx p)%Z → endpoints p ≠ [] →
  next clock draw p =
    next_loop (S (length (endpoints p))) clock (start_slot draw p) (start_slot draw p)
      (with_nextIdx (Z.of_nat (start_slot draw p)) p) ≫= λ r, Ok (Some (fst r), snd r).
Proof.
  intros Hn Hne. unfold next. rewrite bool_decide_false by (by destruct (endpoints p)).
  set (i := if (nextIdx p =? -1)%Z then _ else _).
  assert (i = Z.of_nat (start_slot draw p)) as ->.
  { unfold i, start_slot. destruct (Z.eqb_spec (nextIdx p) (-1)); [done|].
    destruct (Z.leb_spec (Z.of_nat (length (endpoints p))) (nextIdx p)); lia. }
  destruct (Z.ltb_spec (Z.of_nat (start_slot draw p)) 0); [lia|]. by rewrite Nat2Z.id.
Qed.

Lemma next_spec clock draw p :
  pool_wf p → endpoints p ≠ [] →
  ∃ k r p', next clock draw p = Ok (Some r, p') ∧ k ≤ length (endpoints p)
    ∧ (∀ j, j < k → unavailable_at clock (start_slot draw p) p j)
    ∧ rr_result clock (start_slot draw p) p k r p'.
Proof.
  intros Hwf Hne. pose proof (start_slot_lt draw p (wf_next p Hwf) Hne) as Hs.
  rewrite next_unfold by (done || apply Hwf).
  generalize dependent (start_slot draw p). intros s Hs.
  set (q := with_nextIdx (Z.of_nat s) p).
  assert (pool_wf q) as Hq by (apply (wf_same_links p (elems p)); [done..|lia]).
  destruct (next_loop_spec clock s q (length (endpoints p)) 0 Hq Hs) as (k & r & p' & Hloop & Hk & Hb & Hr);
    [done|lia|].
  assert (rr_slot (length (endpoints q)) s 0 = s) as Hslot.
  { unfold rr_slot. simpl. destruct (Nat.ltb_spec (s + 0) (length (endpoints p))); lia. }
  rewrite Hslot in Hloop. rewrite Hloop. simpl.
  exists k, r, p'. split_and!; try done; [exact (proj2 Hk)|]. intros j Hj. apply Hb. lia.
Qed.

(** ** The contract of [Put] in one equation *)

Definition put_view (now : Z) (r : EndpointRef) (m : gmap string view) : gmap string view :=
  match m !! addr r with
  | Some (r0, _, f) =>
      if bool_decide (ep_ptr r0 = ep_ptr r) then m else <[addr r := (r, now, f)]> m
  | None => <[addr r := (r, now, None)]> m
  end.

Lemma Put_spec now (r : EndpointRef) p :
  pool_wf p → wf_endpoint r →
  ∃ p', Put now r p = Ok (bool_decide (contents p !! addr r = None), p') ∧ pool_wf p'
    ∧ contents p' = put_view now r (contents p)
    ∧ retryAfterFailure p' = retryAfterFailure p ∧ contextPath p' = contextPath p.
Proof.
  intros Hwf Hr. unfold put_view. destruct (index p !! addr r) as [ptr|] eqn:Hi.
  - destruct (index_elem p Hwf _ _ Hi) as (e & He & _).
    rewrite (contents_addr p Hwf (addr r) ptr e (proj1 Hr) Hi He). simpl.
    case_bool_decide as Hp.
    + exists p. rewrite (Put_same now r p ptr e) by done. done.
    + destruct (Put_known now r p ptr e) as (p' & -> & ? & ? & _ & ? & ?); [done..|]. eauto 10.
  - rewrite (contents_None p (addr r)) by (done || apply Hr).
    rewrite bool_decide_true by done.
    destruct (Put_new now r p) as (p' & -> & ? & ? & _ & ? & ?); [done..|]. eauto 10.
Qed.

Lemma IsEmpty_spec p : pool_wf p → IsEmpty p = true ↔ contents p = ∅.
Proof.
  intros Hwf. unfold IsEmpty. rewrite bool_decide_eq_true. split.
  - intros Hl%nil_length_inv. apply map_empty. intros a.
    destruct (contents p !! a) as [v|] eqn:Hc; [|done].
    apply contents_lookup in Hc as (ptr & e & Hin & _); [|done]. rewrite Hl in Hin. by apply not_elem_of_nil in Hin.
  - intros Hc. destruct (endpoints p) as [|ptr l] eqn:Hl; [done|]. exfalso.
    destruct (slice_elem p Hwf ptr) as (e & He & _); [rewrite Hl; by left|].
    assert (contents p !! addr (el_endpoint e) = Some (view_of e)) as H.
    { apply contents_lookup; [done|]. exists ptr, e. rewrite Hl. split_and!; try done. by left. }
    rewrite Hc in H. by rewrite lookup_empty in H.
Qed.

Lemma deref_Some p ptr e : elems p !! ptr = Some e → deref p ptr = Ok e.
Proof. unfold deref. by intros ->. Qed.

(** The endpoints of a pool in slice order. *)
Lemma Each_spec p :
  pool_wf p →
  ∃ l, Each p = Ok l ∧ length l = length (endpoints p) ∧
    ∀ i ptr e, endpoints p !! i = Some ptr → elems p !! ptr = Some e → l !! i = Some (el_endpoint e).
Proof.
  intros Hwf. unfold Each.
  assert (∀ es acc, (∀ ptr, ptr ∈ es → is_Some (elems p !! ptr)) →
    ∃ l, foldM (λ acc ptr, e ← deref p ptr; Ok (acc ++ [el_endpoint e])) acc es = Ok (acc ++ l)
      ∧ length l = length es
      ∧ ∀ i ptr e, es !! i = Some ptr → elems p !! ptr = Some e → l !! i = Some (el_endpoint e)) as H.
  { induction es as [|ptr es IH]; intros acc Hall.
    - exists []. rewrite app_nil_r. done.
    - destruct (Hall ptr) as [e He]; [by left|]. cbn [foldM]. rewrite (deref_Some p ptr e He). simpl.
      destruct (IH (acc ++ [el_endpoint e])) as (l & -> & Hlen & Hl); [intros q Hq; apply Hall; by right|].
      exists (el_endpoint e :: l). rewrite <- app_assoc. simpl. split_and!; [done|congruence|].
      intros [|i] q e' Hq He'; simpl in *; [by simplify_eq|by eapply Hl]. }
  destruct (H (endpoints p) []) as (l & Hl & ? & ?); [|eauto].
  intros ptr Hin. destruct (slice_elem p Hwf ptr Hin) as (e & ? & _). eauto.
Qed.

(** The addresses [Each] goes through are those of the contents. *)
Lemma Each_addrs p l a :
  pool_wf p → Each p = Ok l → a ∈ map (λ r : EndpointRef, addr r) l ↔ is_Some (contents p !! a).
Proof.
  intros Hwf Hl. destruct (Each_spec p Hwf) as (l0 & Hl0 & Hlen & Hs). assert (l0 = l) as -> by congruence.
  rewrite list_elem_of_fmap. split.
  - intros (r & -> & (i & Hi)%list_elem_of_lookup).
    destruct (lookup_lt_is_Some_2 (endpoints p) i) as [ptr Hptr]; [rewrite <- Hlen; by eapply lookup_lt_Some|].
    destruct (wf_slice p Hwf _ _ Hptr) as (e & He & _). pose proof (Hs _ _ _ Hptr He) as Hi'.
    exists (view_of e). apply contents_lookup; [done|]. exists ptr, e.
    split_and!; [by eapply list_elem_of_lookup_2|done|congruence|done].
  - intros [v (ptr & e & (i & Hi)%list_elem_of_lookup & He & Ha & _)%contents_lookup]; [|done].
    exists (el_endpoint e). split; [done|]. eapply list_elem_of_lookup_2. by eapply Hs.
Qed.
