(* ===== verification/Trie.v ===== *)
(** * The routing trie (src/registry/trie.go)

    A trie node is a heap object with a segment, an optional pool, a map of
    child pointers and a parent pointer.  The model keeps the nodes in a
    [gmap] from pointers to structs and every operation updates that heap in
    the order of the Go statements, so parent and child links are explicit.

    [V] is the type of pool references.  Go ranges over a map in an
    unspecified order: the traversals take that order as an argument. *)

From S2P Require Import Prelude GoStrings Uris.

Section trie.
Context {V : Type}.

Record Trie := mkTrie {
  Segment : string;
  TPool : option V;
  ChildNodes : gmap string positive;
  Parent : option positive;
}.

Definition NewTrie : Trie := mkTrie EmptyString None ∅ None.

Definition with_TPool (v : option V) (n : Trie) : Trie :=
  mkTrie (Segment n) v (ChildNodes n) (Parent n).
Definition with_ChildNodes (m : gmap string positive) (n : Trie) : Trie :=
  mkTrie (Segment n) (TPool n) m (Parent n).
Definition with_Parent (q : option positive) (n : Trie) : Trie :=
  mkTrie (Segment n) (TPool n) (ChildNodes n) q.

Definition node_at (h : gmap positive Trie) (n : positive) : res Trie :=
  or_panic nil_deref (h !! n).

Definition parts (key : string) : list string := strings_SplitN2 key "/".

Definition trie_key (uri : Uri) : string := strings_TrimPrefix (Uri_String uri) "/".

(** The first segment of the key and, if there is one, the rest of it. *)
Definition head_part (pathParts : list string) : res string :=
  or_panic out_of_range (pathParts !! 0).
Definition rest_part (pathParts : list string) : res string :=
  or_panic out_of_range (pathParts !! 1).

Definition isRoot (n : Trie) : bool := bool_decide (Parent n = None).
Definition isLeaf (n : Trie) : bool := bool_decide (size (ChildNodes n) = 0).

(** ** Find *)

Fixpoint Find_loop (fuel : nat) (h : gmap positive Trie) (node : positive) (key : string)
    : res (option positive) :=
  match fuel with
  | O => NoFuel
  | S fuel' =>
      let pathParts := parts key in
      SegmentValue ← head_part pathParts;
      nd ← node_at h node;
      match ChildNodes nd !! SegmentValue with
      | None => Ok None
      | Some matchingChild =>
          if (length pathParts <=? 1)%nat then Ok (Some matchingChild)
          else key' ← rest_part pathParts; Find_loop fuel' h matchingChild key'
      end
  end.

Definition Find (h : gmap positive Trie) (r : positive) (uri : Uri) : res (option V) :=
  let key := trie_key uri in
  found ← Find_loop (S (String.length key)) h r key;
  match found with
  | None => Ok None
  | Some node => nd ← node_at h node; Ok (TPool nd)
  end.

(** ** MatchUri: the deepest pool on the path *)

Fixpoint MatchUri_loop (fuel : nat) (h : gmap positive Trie) (node : positive)
    (lastPool : option V) (key : string) : res (positive * option V) :=
  match fuel with
  | O => NoFuel
  | S fuel' =>
      let pathParts := parts key in
      SegmentValue ← head_part pathParts;
      nd ← node_at h node;
      match ChildNodes nd !! SegmentValue with
      | None => Ok (node, lastPool)
      | Some matchingChild =>
          cd ← node_at h matchingChild;
          let lastPool' := match TPool cd with Some v => Some v | None => lastPool end in
          if (length pathParts <=? 1)%nat then Ok (matchingChild, lastPool')
          else key' ← rest_part pathParts; MatchUri_loop fuel' h matchingChild lastPool' key'
      end
  end.

Definition MatchUri (h : gmap positive Trie) (r : positive) (uri : Uri) : res (option V) :=
  let key := trie_key uri in
  out ← MatchUri_loop (S (String.length key)) h r None key;
  nd ← node_at h (fst out);
  match TPool nd with
  | Some v => Ok (Some v)
  | None => Ok (snd out)
  end.

(** ** Insert *)

Definition add_child (h : gmap positive Trie) (node : positive) (nd : Trie) (seg : string)
    : gmap positive Trie * positive :=
  let c := fresh_ptr h in
  (<[node := with_ChildNodes (<[seg := c]> (ChildNodes nd)) nd]>
     (<[c := mkTrie seg None ∅ (Some node)]> h), c).

Fixpoint Insert_loop (fuel : nat) (h : gmap positive Trie) (node : positive) (key : string)
    : res (gmap positive Trie * positive) :=
  match fuel with
  | O => NoFuel
  | S fuel' =>
      let pathParts := parts key in
      SegmentValue ← head_part pathParts;
      nd ← node_at h node;
      let hc := match ChildNodes nd !! SegmentValue with
                | Some c => (h, c)
                | None => add_child h node nd SegmentValue
                end in
      if bool_decide (length pathParts = 2)
      then key' ← rest_part pathParts; Insert_loop fuel' (fst hc) (snd hc) key'
      else Ok hc
  end.

Definition Insert (h : gmap positive Trie) (r : positive) (uri : Uri) (value : V)
    : res (gmap positive Trie * positive) :=
  let key := trie_key uri in
  hn ← Insert_loop (S (String.length key)) h r key;
  nd ← node_at (fst hn) (snd hn);
  Ok (<[snd hn := with_TPool (Some value) nd]> (fst hn), snd hn).

(** ** Delete *)

(** The walk of [Delete].  A missing child becomes a nil pointer, which the
    next access dereferences. *)
Fixpoint Delete_loop (fuel : nat) (h : gmap positive Trie) (node : positive) (key : string)
    : res positive :=
  match fuel with
  | O => NoFuel
  | S fuel' =>
      let pathParts := parts key in
      SegmentValue ← head_part pathParts;
      nd ← node_at h node;
      matchingChild ← or_panic nil_deref (ChildNodes nd !! SegmentValue);
      if (length pathParts <=? 1)%nat then Ok matchingChild
      else key' ← rest_part pathParts; Delete_loop fuel' h matchingChild key'
  end.

(** One step of [deleteEmptyNodes] at [child]: the new [nodeToKeep] and
    [nodeToRemove]. *)
Definition keep_or_remove (child : positive) (cd : Trie)
    (nodeToKeep : positive) (nodeToRemove : option positive) : positive * option positive :=
  if bool_decide (nodeToRemove = None) && bool_decide (TPool cd = None)%type
     && (size (ChildNodes cd) <? 2)%nat
  then (nodeToKeep, Some child)
  else if negb (bool_decide (TPool cd = None)%type) || (1 <? size (ChildNodes cd))%nat
  then (child, None)
  else (nodeToKeep, nodeToRemove).

Fixpoint deleteEmptyNodes_loop (fuel : nat) (h : gmap positive Trie) (node nodeToKeep : positive)
    (nodeToRemove : option positive) (key : string)
    : res (positive * positive * option positive) :=
  match fuel with
  | O => NoFuel
  | S fuel' =>
      let pathParts := parts key in
      SegmentValue ← head_part pathParts;
      nd ← node_at h node;
      matchingChild ← or_panic nil_deref (ChildNodes nd !! SegmentValue);
      cd ← node_at h matchingChild;
      let kr := keep_or_remove matchingChild cd nodeToKeep nodeToRemove in
      if (length pathParts <=? 1)%nat then Ok (matchingChild, fst kr, snd kr)
      else key' ← rest_part pathParts;
           deleteEmptyNodes_loop fuel' h matchingChild (fst kr) (snd kr) key'
  end.

Definition deleteEmptyNodes (h : gmap positive Trie) (r : positive) (key : string)
    : res (gmap positive Trie) :=
  out ← deleteEmptyNodes_loop (S (String.length key)) h r r None key;
  let '(node, nodeToKeep, nodeToRemove) := out in
  nd ← node_at h node;
  if isLeaf nd then
    rm ← or_panic nil_deref nodeToRemove;
    rd ← node_at h rm;
    let h1 := <[rm := with_Parent None rd]> h in
    kd ← node_at h1 nodeToKeep;
    Ok (<[nodeToKeep := with_ChildNodes (delete (Segment rd) (ChildNodes kd)) kd]> h1)
  else Ok h.

Definition Delete (h : gmap positive Trie) (r : positive) (uri : Uri)
    : res (bool * gmap positive Trie) :=
  let key := trie_key uri in
  node ← Delete_loop (S (String.length key)) h r key;
  nd ← node_at h node;
  h' ← deleteEmptyNodes (<[node := with_TPool None nd]> h) r key;
  Ok (true, h').

(** ** Snip: cut a dead leaf and the dead nodes above it *)

(** [pool_empty] is [Pool.IsEmpty] of the referenced pool. *)
Fixpoint Snip_loop (fuel : nat) (pool_empty : V → bool) (r : positive) (h : gmap positive Trie)
    : res (gmap positive Trie) :=
  match fuel with
  | O => NoFuel
  | S fuel' =>
      nd ← node_at h r;
      if match TPool nd with Some v => negb (pool_empty v) | None => false end
         || isRoot nd || negb (isLeaf nd)
      then Ok h
      else
        parent ← or_panic nil_deref (Parent nd);
        pd ← node_at h parent;
        Snip_loop fuel' pool_empty parent
          (<[parent := with_ChildNodes (delete (Segment nd) (ChildNodes pd)) pd]> h)
  end.

Definition Snip (pool_empty : V → bool) (r : positive) (h : gmap positive Trie)
    : res (gmap positive Trie) :=
  Snip_loop (S (size h)) pool_empty r h.

(** ** Traversals *)

Section traversal.
(** The order in which Go ranges over a map of children. *)
Context (range : gmap string positive → list (string * positive)).

Section each.
Context {St : Type} (heap_of : St → gmap positive Trie).

(** [for _, child := range r.ChildNodes { body(child) }].  An entry removed
    by the body before it is reached is not produced. *)
Definition range_children (r : positive) (body : St → positive → res St) (s : St) : res St :=
  nd ← node_at (heap_of s) r;
  foldM (λ s' kc,
    nd' ← node_at (heap_of s') r;
    match ChildNodes nd' !! fst kc with
    | Some child => body s' child
    | None => Ok s'
    end) s (range (ChildNodes nd)).

Fixpoint EachNodeWithPool (fuel : nat) (f : St → positive → res St) (s : St) (r : positive) : res St :=
  match fuel with
  | O => NoFuel
  | S fuel' =>
      nd ← node_at (heap_of s) r;
      s1 ← match TPool nd with Some _ => f s r | None => Ok s end;
      range_children r (EachNodeWithPool fuel' f) s1
  end.

Fixpoint PruneDeadLeaves (fuel : nat) (snip : St → positive → res St) (s : St) (r : positive) : res St :=
  match fuel with
  | O => NoFuel
  | S fuel' =>
      nd ← node_at (heap_of s) r;
      s1 ← (if isLeaf nd then snip s r else Ok s);
      range_children r (PruneDeadLeaves fuel' snip) s1
  end.
End each.

Definition PoolCount (h : gmap positive Trie) (r : positive) : res nat :=
  out ← EachNodeWithPool fst (S (size h)) (λ s _, Ok (fst s, S (snd s))) (h, 0) r;
  Ok (snd out).

(** [pool_addrs v] are the addresses [Pool.Each] visits in pool [v]. *)
Fixpoint endpointCount (fuel : nat) (pool_addrs : V → res (list string))
    (s : gmap positive Trie * gset string) (r : positive) : res (gmap positive Trie * gset string) :=
  match fuel with
  | O => NoFuel
  | S fuel' =>
      nd ← node_at (fst s) r;
      s1 ← match TPool nd with
           | Some v => l ← pool_addrs v; Ok (fst s, snd s ∪ list_to_set l)
           | None => Ok s
           end;
      range_children fst r (endpointCount fuel' pool_addrs) s1
  end.

Definition EndpointCount (pool_addrs : V → res (list string)) (h : gmap positive Trie) (r : positive) : res nat :=
  out ← endpointCount (S (size h)) pool_addrs (h, ∅) r;
  Ok (size (snd out)).

(** [toMap] writes the pools of a subtree into the map [m] it is given. *)
Fixpoint toMap (fuel : nat) (h : gmap positive Trie) (r : positive) (segment : string)
    (m : gmap string V) : res (gmap string V) :=
  match fuel with
  | O => NoFuel
  | S fuel' =>
      nd ← node_at h r;
      let m1 := match TPool nd with Some v => <[segment := v]> m | None => m end in
      foldM (λ m' kc,
        cd ← node_at h (snd kc);
        let newseg := if bool_decide (String.length segment = 0)
                      then segment +:+ Segment cd
                      else segment +:+ "/" +:+ Segment cd in
        toMap fuel' h (snd kc) newseg m') m1 (range (ChildNodes nd))
  end.

Definition ToMap (h : gmap positive Trie) (r : positive) : res (gmap string V) :=
  nd ← node_at h r;
  toMap (S (size h)) h r (Segment nd) ∅.
End traversal.
End trie.
Arguments Trie : clear implicits.
