(* ===== verification/TrieSpec.v ===== *)
(** * Invariant and contract of the routing trie

    [walk] follows child pointers along a list of segments; [pool_at] is the
    pool at the end of the walk, so that a trie means a partial function from
    paths to pools.  [trie_wf] says that child and parent pointers agree,
    which makes the heap a tree; [trie_tidy] says that no leaf is dead.  The
    operations of [Trie] are shown to be lookup, longest-prefix match, update
    and removal on [pool_at]. *)

From S2P Require Import Prelude GoStrings Uris Trie.

Section spec.
Context {V : Type}.
Implicit Types (h : gmap positive (Trie V)) (r n : positive) (p q : list string).

Definition child h n (s : string) : option positive :=
  nd ← h !! n; ChildNodes nd !! s.

Fixpoint walk h n p : option positive :=
  match p with
  | [] => Some n
  | s :: p' => c ← child h n s; walk h c p'
  end.

Definition pool_at h r p : option V :=
  n ← walk h r p; nd ← h !! n; TPool nd.

(** Segments of a URI in the trie. *)
Definition segments (uri : Uri) : list string := strings_Split (trie_key uri) "/".

Record trie_wf h r : Prop := {
  wf_root : ∃ nd, h !! r = Some nd ∧ Parent nd = None ∧ TPool nd = None ∧ Segment nd = "";
  wf_child : ∀ n s c, child h n s = Some c →
    ∃ cd, h !! c = Some cd ∧ Parent cd = Some n ∧ Segment cd = s;
}.

(** No dead leaf below the root. *)
Definition trie_tidy h r : Prop := ∀ p n nd,
  walk h r p = Some n → p ≠ [] → h !! n = Some nd → ChildNodes nd = ∅ → is_Some (TPool nd).

Lemma app_snoc_neq {A} (p : list A) s : p ++ [s] ≠ p.
Proof. intros H%(f_equal length). rewrite length_app in H. simpl in H. lia. Qed.

Lemma snoc_prefix_inj {A} (p : list A) s s' (q : list A) : p ++ [s] `prefix_of` q → p ++ [s'] `prefix_of` q → s = s'.
Proof.
  intros [t ->] [t' Heq]. rewrite <- !app_assoc in Heq. apply app_inv_head in Heq. simpl in Heq. congruence.
Qed.

Lemma snoc_not_prefix {A} (p : list A) s : ¬ p ++ [s] `prefix_of` p.
Proof. intros [t Ht]. apply (f_equal length) in Ht. rewrite !length_app in Ht. simpl in Ht. lia. Qed.

(** ** Walking *)

Lemma walk_app h n p q : walk h n (p ++ q) = walk h n p ≫= λ m, walk h m q.
Proof.
  revert n; induction p as [|s p IH]; intros n; simpl; [done|].
  destruct (child h n s); simpl; [apply IH|done].
Qed.

Lemma walk_snoc h n p s : walk h n (p ++ [s]) = walk h n p ≫= λ m, child h m s.
Proof.
  rewrite walk_app. destruct (walk h n p) as [m|]; simpl; [|done].
  by destruct (child h m s).
Qed.

Lemma node_at_Some h n nd : h !! n = Some nd → node_at h n = Ok nd.
Proof. unfold node_at. by intros ->. Qed.

Lemma pool_at_Some h r p v :
  pool_at h r p = Some v ↔ ∃ n nd, walk h r p = Some n ∧ h !! n = Some nd ∧ TPool nd = Some v.
Proof.
  unfold pool_at. rewrite bind_Some. split.
  - intros (n & ? & (nd & ? & ?)%bind_Some). eauto.
  - intros (n & nd & ? & ? & ?). exists n. rewrite bind_Some. eauto.
Qed.

Section wf.
Context h r (Hwf : trie_wf h r).

Lemma walk_alloc p n : walk h r p = Some n → ∃ nd, h !! n = Some nd.
Proof.
  destruct p as [|s p] using rev_ind; simpl.
  - intros [= <-]. destruct (wf_root h r Hwf) as (nd & ? & _). eauto.
  - rewrite walk_snoc, bind_Some. intros (m & _ & Hc).
    destruct (wf_child h r Hwf _ _ _ Hc) as (cd & ? & _). eauto.
Qed.

Lemma walk_parent p s n nd :
  walk h r (p ++ [s]) = Some n → h !! n = Some nd →
  ∃ m, walk h r p = Some m ∧ Parent nd = Some m ∧ Segment nd = s.
Proof.
  rewrite walk_snoc, bind_Some. intros (m & Hm & Hc) Hnd.
  destruct (wf_child h r Hwf _ _ _ Hc) as (cd & Hcd & Hpar & Hseg).
  rewrite Hnd in Hcd. injection Hcd as <-. eauto.
Qed.

Lemma walk_root_Parent p nd : walk h r p = Some r → h !! r = Some nd → p = [].
Proof.
  destruct p as [|s p _] using rev_ind; [done|]. intros Hw Hnd.
  destruct (walk_parent p s r nd Hw Hnd) as (m & _ & Hpar & _).
  destruct (wf_root h r Hwf) as (nd' & Hnd' & ? & _). congruence.
Qed.

(** The heap reachable from the root is a tree: a node has one path. *)
Lemma walk_inj p q n : walk h r p = Some n → walk h r q = Some n → p = q.
Proof.
  revert q n. induction p as [|s p IH] using rev_ind; intros q n Hp Hq.
  - injection Hp as <-. destruct (wf_root h r Hwf) as (nd & Hnd & _).
    symmetry. by eapply walk_root_Parent.
  - destruct (walk_alloc _ _ Hp) as [nd Hnd].
    destruct (walk_parent p s n nd Hp Hnd) as (m & Hm & Hpar & Hseg).
    destruct q as [|s' q _] using rev_ind.
    + injection Hq as <-. destruct (wf_root h r Hwf) as (nd' & Hnd' & ? & _). congruence.
    + destruct (walk_parent q s' n nd Hq Hnd) as (m' & Hm' & Hpar' & Hseg').
      assert (m' = m) as -> by congruence. rewrite (IH q m) by done. congruence.
Qed.
End wf.

(** ** The three heap updates, seen through [walk] *)

(** Updates that keep the child maps keep every walk. *)
Lemma walk_same_children h h' n p :
  (∀ m s, child h' m s = child h m s) → walk h' n p = walk h n p.
Proof.
  intros Hc. revert n; induction p as [|s p IH]; intros n; simpl; [done|].
  rewrite Hc. destruct (child h n s); simpl; auto.
Qed.

Lemma child_insert_same h n nd nd' m s :
  h !! n = Some nd → ChildNodes nd' = ChildNodes nd → child (<[n := nd']> h) m s = child h m s.
Proof.
  intros Hn Hc. unfold child. destruct (decide (n = m)) as [<-|Hne].
  - rewrite lookup_insert_eq, Hn. simpl. by rewrite Hc.
  - by rewrite lookup_insert_ne.
Qed.

(** The heap after [add_child]. *)
Lemma walk_add_child h r p n nd seg q :
  trie_wf h r → walk h r p = Some n → h !! n = Some nd → ChildNodes nd !! seg = None →
  walk (fst (add_child h n nd seg)) r q =
    if bool_decide (q = p ++ [seg]) then Some (snd (add_child h n nd seg)) else walk h r q.
Proof.
  intros Hwf Hp Hn Hseg. cbn [add_child fst snd]. set (c := fresh_ptr h).
  assert (h !! c = None) as Hc by apply fresh_ptr_None.
  assert (n ≠ c) as Hnc by congruence.
  induction q as [|s q IH] using rev_ind.
  { rewrite bool_decide_false; [done|]. by destruct p. }
  rewrite walk_snoc, IH. case_bool_decide as Hq.
  - subst q. rewrite bool_decide_false by (intros [H _]%app_inj_tail; by apply app_snoc_neq in H).
    rewrite !walk_snoc, Hp. simpl. unfold child.
    rewrite lookup_insert_ne, lookup_insert_eq by done. simpl. rewrite lookup_empty.
    rewrite Hn. simpl. by rewrite Hseg.
  - rewrite walk_snoc. destruct (walk h r q) as [m|] eqn:Hm; simpl.
    + destruct (walk_alloc h r Hwf _ _ Hm) as [md Hmd].
      assert (m ≠ c) as Hmc by congruence. unfold child.
      destruct (decide (m = n)) as [->|Hmn].
      * rewrite (walk_inj h r Hwf q p n) by done.
        rewrite lookup_insert_eq, Hn. simpl. rewrite lookup_insert.
        destruct (decide (seg = s)) as [<-|Hs]; [by rewrite bool_decide_true|].
        rewrite bool_decide_false; [done|]. intros [_ ?]%app_inj_tail. congruence.
      * rewrite !lookup_insert_ne by done.
        rewrite bool_decide_false; [done|]. intros [-> _]%app_inj_tail. congruence.
    + rewrite bool_decide_false; [done|]. intros [-> _]%app_inj_tail. congruence.
Qed.

Lemma add_child_wf h r p n nd seg :
  trie_wf h r → walk h r p = Some n → h !! n = Some nd → ChildNodes nd !! seg = None →
  trie_wf (fst (add_child h n nd seg)) r.
Proof.
  intros Hwf Hp Hn Hseg. cbn [add_child fst]. set (c := fresh_ptr h).
  assert (h !! c = None) as Hc by apply fresh_ptr_None.
  assert (n ≠ c) as Hnc by congruence. split.
  - destruct (wf_root h r Hwf) as (rd & Hr & ? & ? & ?).
    destruct (decide (n = r)) as [->|Hne].
    + simplify_eq. eexists. by rewrite lookup_insert_eq.
    + exists rd. rewrite !lookup_insert_ne by congruence. done.
  - intros m s d Hd. unfold child in Hd.
    assert (child h m s = Some d ∨ (m = n ∧ s = seg ∧ d = c)) as [Hold|(-> & -> & ->)].
    { destruct (decide (m = n)) as [->|Hmn].
      - rewrite lookup_insert_eq in Hd. simpl in Hd.
        apply lookup_insert_Some in Hd as [[<- <-]|[_ Hd]]; [by right|].
        left. unfold child. by rewrite Hn.
      - rewrite lookup_insert_ne in Hd by done. left. unfold child.
        destruct (decide (m = c)) as [->|]; [|by rewrite lookup_insert_ne in Hd].
        rewrite lookup_insert_eq in Hd. simpl in Hd. by rewrite lookup_empty in Hd. }
    + destruct (wf_child h r Hwf _ _ _ Hold) as (cd & Hcd & Hpar & Hsg).
      destruct (decide (d = n)) as [->|Hdn].
      * simplify_eq. eexists. by rewrite lookup_insert_eq.
      * exists cd. rewrite !lookup_insert_ne by congruence. done.
    + eexists. rewrite lookup_insert_ne, lookup_insert_eq by done. done.
Qed.

Definition cut_child h n (nd : Trie V) (seg : string) : gmap positive (Trie V) :=
  <[n := with_ChildNodes (delete seg (ChildNodes nd)) nd]> h.

Lemma child_cut h n nd seg m s :
  h !! n = Some nd →
  child (cut_child h n nd seg) m s = if bool_decide (m = n ∧ s = seg) then None else child h m s.
Proof.
  intros Hn. unfold child, cut_child. destruct (decide (n = m)) as [<-|Hne].
  - rewrite lookup_insert_eq, Hn. simpl. rewrite lookup_delete.
    destruct (decide (seg = s)) as [<-|]; [by rewrite bool_decide_true|].
    rewrite bool_decide_false; [done|]. by intros [_ ->].
  - rewrite lookup_insert_ne by done. rewrite bool_decide_false; [done|]. by intros [-> _].
Qed.

Lemma walk_cut_child h r p n nd seg q :
  trie_wf h r → walk h r p = Some n → h !! n = Some nd →
  walk (cut_child h n nd seg) r q =
    if bool_decide (p ++ [seg] `prefix_of` q) then None else walk h r q.
Proof.
  intros Hwf Hp Hn. induction q as [|s q IH] using rev_ind.
  { rewrite bool_decide_false; [done|]. intros [k Hk]. by destruct p. }
  rewrite walk_snoc, IH. case_bool_decide as Hq.
  { rewrite bool_decide_true; [done|]. apply prefix_of_snoc. by left. }
  rewrite walk_snoc. destruct (walk h r q) as [m|] eqn:Hm; simpl; [|by case_bool_decide].
  rewrite child_cut by done.
  rewrite (bool_decide_ext (m = n ∧ s = seg) (p ++ [seg] `prefix_of` q ++ [s])); [done|].
  rewrite prefix_of_snoc. split.
  - intros [-> ->]. right. by rewrite (walk_inj h r Hwf p q n).
  - intros [?|[-> ->]%app_inj_tail]; [done|]. split; congruence.
Qed.

Lemma cut_child_wf h r n nd seg :
  trie_wf h r → h !! n = Some nd → trie_wf (cut_child h n nd seg) r.
Proof.
  intros Hwf Hn. split.
  - destruct (wf_root h r Hwf) as (rd & Hr & ? & ? & ?). unfold cut_child.
    destruct (decide (n = r)) as [->|Hne].
    + simplify_eq. eexists. by rewrite lookup_insert_eq.
    + exists rd. by rewrite lookup_insert_ne.
  - intros m s c Hc. rewrite child_cut in Hc by done. case_bool_decide; [done|].
    destruct (wf_child h r Hwf _ _ _ Hc) as (cd & Hcd & ? & ?). unfold cut_child.
    destruct (decide (n = c)) as [<-|Hne].
    + simplify_eq. eexists. by rewrite lookup_insert_eq.
    + exists cd. by rewrite lookup_insert_ne.
Qed.

(** Writing the pool of a node other than the root. *)
Lemma set_pool_wf h r n nd v :
  trie_wf h r → h !! n = Some nd → n ≠ r → trie_wf (<[n := with_TPool v nd]> h) r.
Proof.
  intros Hwf Hn Hne. split.
  - destruct (wf_root h r Hwf) as (rd & Hr & ?). exists rd. by rewrite lookup_insert_ne.
  - intros m s c. rewrite (child_insert_same h n nd) by done. intros Hc.
    destruct (wf_child h r Hwf _ _ _ Hc) as (cd & Hcd & ? & ?).
    destruct (decide (n = c)) as [<-|].
    + simplify_eq. eexists. by rewrite lookup_insert_eq.
    + exists cd. by rewrite lookup_insert_ne.
Qed.

Lemma walk_set_pool h r n nd v q :
  h !! n = Some nd → walk (<[n := with_TPool v nd]> h) r q = walk h r q.
Proof. intros Hn. apply walk_same_children. intros m s. by apply child_insert_same with nd. Qed.

Lemma pool_at_set_pool h r p n nd v q :
  trie_wf h r → walk h r p = Some n → h !! n = Some nd →
  pool_at (<[n := with_TPool v nd]> h) r q = if bool_decide (q = p) then v else pool_at h r q.
Proof.
  intros Hwf Hp Hn. unfold pool_at. rewrite walk_set_pool by done.
  destruct (walk h r q) as [m|] eqn:Hq; simpl.
  - destruct (decide (n = m)) as [<-|Hne].
    + rewrite bool_decide_true by (by eapply walk_inj). by rewrite lookup_insert_eq.
    + rewrite lookup_insert_ne by done. rewrite bool_decide_false; [done|]. congruence.
  - rewrite bool_decide_false; [done|]. congruence.
Qed.

(** ** Lookup *)

(** The loops cut one segment off the key per round. *)
Lemma parts_cases key :
  (parts key = [key] ∧ strings_Split key "/" = [key]) ∨
  (∃ x y, parts key = [x; y] ∧ strings_Split key "/" = x :: strings_Split y "/"
          ∧ String.length y < String.length key).
Proof. apply SplitN2_spec. Qed.

Lemma Find_loop_spec h r fuel : ∀ p n key,
  trie_wf h r → walk h r p = Some n → String.length key < fuel →
  Find_loop fuel h n key = Ok (walk h n (strings_Split key "/")).
Proof.
  induction fuel as [|fuel IH]; intros p n key Hwf Hp Hfuel; [lia|]. cbn [Find_loop].
  destruct (walk_alloc h r Hwf _ _ Hp) as [nd Hnd].
  destruct (parts_cases key) as [[-> ->]|(x & y & -> & -> & Hlen)]; simpl;
    unfold node_at, child; rewrite Hnd; simpl.
  - by destruct (ChildNodes nd !! key).
  - destruct (ChildNodes nd !! x) as [c|] eqn:Hc; [|done]. simpl.
    apply (IH (p ++ [x])); [done| |lia].
    rewrite walk_snoc, Hp. simpl. unfold child. by rewrite Hnd.
Qed.

Lemma Find_spec h r uri : trie_wf h r → Find h r uri = Ok (pool_at h r (segments uri)).
Proof.
  intros Hwf. unfold Find, pool_at, segments.
  rewrite (Find_loop_spec h r _ [] r) by (done || lia). simpl.
  destruct (walk h r (strings_Split (trie_key uri) "/")) as [n|] eqn:Hn; [|done]. simpl.
  destruct (walk_alloc h r Hwf _ _ Hn) as [nd Hnd]. unfold node_at. by rewrite Hnd.
Qed.

(** Longest-prefix match in a routing table: [best f pre segs] looks at the
    extensions of [pre] by non-empty prefixes of [segs], longest first. *)
Fixpoint best (f : list string → option V) (pre segs : list string) : option V :=
  match segs with
  | [] => None
  | s :: rest =>
      match best f (pre ++ [s]) rest with
      | Some v => Some v
      | None => f (pre ++ [s])
      end
  end.

Lemma best_None f pre segs :
  best f pre segs = None ↔ (∀ q rest, segs = q ++ rest → q ≠ [] → f (pre ++ q) = None).
Proof.
  revert pre; induction segs as [|s segs IH]; intros pre; simpl.
  { split; [|done]. intros _ q rest H Hq. by destruct q. }
  destruct (best f (pre ++ [s]) segs) as [w|] eqn:Hb.
  - split; [done|]. intros Hf. exfalso. assert (best f (pre ++ [s]) segs = None) as H; [|congruence].
    apply IH. intros q rest -> Hq. rewrite <- app_assoc. by apply (Hf (s :: q) rest).
  - pose proof (proj1 (IH _) Hb) as Hrest. split.
    + intros Hs q rest Heq Hq. destruct q as [|s' q]; [done|]. injection Heq as <- ->.
      destruct q as [|s2 q]; [done|].
      specialize (Hrest (s2 :: q) rest eq_refl ltac:(done)). by rewrite <- app_assoc in Hrest.
    + intros Hf. by apply (Hf [s] segs).
Qed.

Lemma best_Some f pre segs v :
  best f pre segs = Some v →
  ∃ q rest, segs = q ++ rest ∧ q ≠ [] ∧ f (pre ++ q) = Some v
    ∧ ∀ q' rest', rest = q' ++ rest' → q' ≠ [] → f (pre ++ q ++ q') = None.
Proof.
  revert pre; induction segs as [|s segs IH]; intros pre; simpl; [done|].
  destruct (best f (pre ++ [s]) segs) as [w|] eqn:Hb.
  - intros [= ->]. apply IH in Hb as (q & rest & -> & Hq & Hf & Hlong).
    exists (s :: q), rest. rewrite <- app_assoc in Hf. split_and!; try done.
    intros q' rest' -> Hq'. specialize (Hlong q' rest' eq_refl Hq'). by rewrite <- app_assoc in Hlong.
  - intros Hf. exists [s], segs. split_and!; try done. intros q' rest' -> Hq'.
    pose proof (proj1 (best_None f _ _) Hb q' rest' eq_refl Hq') as H. by rewrite <- app_assoc in H.
Qed.

Lemma best_ext f g pre segs : (∀ q, f q = g q) → best f pre segs = best g pre segs.
Proof.
  intros H. revert pre; induction segs as [|s segs IH]; intros pre; simpl; [done|].
  by rewrite IH, H.
Qed.

Lemma pool_at_walk_None h r p q : walk h r p = None → pool_at h r (p ++ q) = None.
Proof. intros H. unfold pool_at. by rewrite walk_app, H. Qed.

(** The loop ends at some node of the path with the last pool it passed. *)
Lemma MatchUri_loop_spec h r fuel : ∀ p n last key,
  trie_wf h r → walk h r p = Some n → String.length key < fuel →
  (∀ v, pool_at h r p = Some v → last = Some v) →
  ∃ m nd l, MatchUri_loop fuel h n last key = Ok (m, l) ∧ h !! m = Some nd
    ∧ (∀ v, TPool nd = Some v → l = Some v)
    ∧ l = match best (pool_at h r) p (strings_Split key "/") with
          | Some v => Some v | None => last end.
Proof.
  induction fuel as [|fuel IH]; intros p n last key Hwf Hp Hfuel Hlast; [lia|].
  cbn [MatchUri_loop]. destruct (walk_alloc h r Hwf _ _ Hp) as [nd Hnd].
  assert (∀ v, TPool nd = Some v → last = Some v) as Hlast'.
  { intros v Hv. apply Hlast. apply pool_at_Some. eauto. }
  assert (∀ s, walk h r (p ++ [s]) = ChildNodes nd !! s) as Hstep.
  { intros s. rewrite walk_snoc, Hp. simpl. unfold child. by rewrite Hnd. }
  assert (∀ s segs, ChildNodes nd !! s = None → best (pool_at h r) p (s :: segs) = None) as Hmiss.
  { intros s segs Hs. apply best_None. intros q rest Heq Hq. destruct q as [|s' q]; [done|].
    injection Heq as <- _. change (s :: q) with ([s] ++ q). rewrite app_assoc.
    apply pool_at_walk_None. by rewrite Hstep. }
  assert (∀ s c cd, ChildNodes nd !! s = Some c → h !! c = Some cd →
    pool_at h r (p ++ [s]) = TPool cd) as Hpool.
  { intros s c cd Hc Hcd. unfold pool_at. rewrite Hstep, Hc. simpl. by rewrite Hcd. }
  destruct (parts_cases key) as [[-> ->]|(x & y & -> & -> & Hlen)]; cbn [head_part rest_part];
    unfold node_at; rewrite Hnd; cbn -[best];
    match goal with |- context [ChildNodes nd !! ?k] => destruct (ChildNodes nd !! k) as [c|] eqn:Hc end.
  - destruct (walk_alloc h r Hwf (p ++ [key]) c) as [cd Hcd]; [by rewrite Hstep|]. rewrite Hcd.
    do 3 eexists. split; [done|]. split; [done|]. simpl. rewrite (Hpool key c cd) by done.
    by destruct (TPool cd).
  - exists n, nd, last. rewrite Hmiss by done. done.
  - destruct (walk_alloc h r Hwf (p ++ [x]) c) as [cd Hcd]; [by rewrite Hstep|]. rewrite Hcd. cbn -[best].
    destruct (IH (p ++ [x]) c (match TPool cd with Some v => Some v | None => last end) y)
      as (m & md & l & -> & Hmd & Hl & ->); [done|by rewrite Hstep|lia| |].
    { intros v. rewrite (Hpool x c cd) by done. by intros ->. }
    do 3 eexists. split; [done|]. split; [done|]. split; [done|]. simpl.
    rewrite (Hpool x c cd) by done.
    by destruct (best (pool_at h r) (p ++ [x]) (strings_Split y "/")), (TPool cd).
  - exists n, nd, last. rewrite Hmiss by done. done.
Qed.

Lemma MatchUri_spec h r uri :
  trie_wf h r → MatchUri h r uri = Ok (best (pool_at h r) [] (segments uri)).
Proof.
  intros Hwf. unfold MatchUri, segments. destruct (wf_root h r Hwf) as (rd & Hr & _ & Hrp & _).
  destruct (MatchUri_loop_spec h r (S (String.length (trie_key uri))) [] r None (trie_key uri))
    as (m & nd & l & -> & Hnd & Hl & Heq); [done|done|lia| |].
  { intros v (n & nd & [= <-] & Hnd & Hv)%pool_at_Some. congruence. }
  simpl. unfold node_at. rewrite Hnd. simpl.
  destruct (TPool nd) as [v|] eqn:Hv; [rewrite <- (Hl v eq_refl)|]; rewrite Heq; by destruct (best _ _ _).
Qed.

(** ** Insertion *)

(** [h'] extends [h] by nodes without a pool on the way to [path]. *)
Record extends h h' r (path : list string) : Prop := {
  ext_walk : ∀ q n, walk h r q = Some n → walk h' r q = Some n;
  ext_new : ∀ q n, walk h' r q = Some n → walk h r q = Some n ∨ q `prefix_of` path;
  ext_pool : ∀ q, pool_at h' r q = pool_at h r q;
  ext_node : ∀ q n nd', walk h r q = Some n → h' !! n = Some nd' →
    ∃ nd, h !! n = Some nd ∧ TPool nd = TPool nd' ∧ (ChildNodes nd' = ∅ → ChildNodes nd = ∅);
}.

Lemma extends_refl h r path : extends h h r path.
Proof. split; eauto. Qed.

Lemma extends_trans h1 h2 h3 r path : extends h1 h2 r path → extends h2 h3 r path → extends h1 h3 r path.
Proof.
  intros [w1 n1 p1 d1] [w2 n2 p2 d2]. split.
  - eauto.
  - intros q n [H|H]%n2; eauto.
  - intros q. by rewrite p2, p1.
  - intros q n nd3 Hq Hn. destruct (d2 q n nd3) as (nd2 & Hn2 & Hp2 & Hc2); [auto|done|].
    destruct (d1 q n nd2) as (nd1 & Hn1 & Hp1 & Hc1); [done|done|].
    exists nd1. split_and!; [done|congruence|auto].
Qed.

Lemma add_child_extends h r p n nd seg path :
  trie_wf h r → walk h r p = Some n → h !! n = Some nd → ChildNodes nd !! seg = None →
  p ++ [seg] `prefix_of` path →
  extends h (fst (add_child h n nd seg)) r path.
Proof.
  intros Hwf Hp Hn Hseg Hpre.
  assert (walk h r (p ++ [seg]) = None) as Hnone.
  { rewrite walk_snoc, Hp. simpl. unfold child. by rewrite Hn. }
  assert (h !! fresh_ptr h = None) as Hc by apply fresh_ptr_None.
  pose proof (λ q, walk_add_child h r p n nd seg q Hwf Hp Hn Hseg) as Hw.
  assert (∀ q m md', walk h r q = Some m → fst (add_child h n nd seg) !! m = Some md' →
    ∃ md, h !! m = Some md ∧ TPool md = TPool md' ∧ (ChildNodes md' = ∅ → ChildNodes md = ∅)) as Hnode.
  { intros q m md' Hq Hm. destruct (walk_alloc h r Hwf _ _ Hq) as [md Hmd]. exists md.
    split; [done|]. cbn [add_child fst] in Hm. destruct (decide (n = m)) as [<-|Hne].
    - rewrite lookup_insert_eq in Hm. simplify_eq. split; [done|]. simpl.
      intros H. by apply insert_non_empty in H.
    - rewrite !lookup_insert_ne in Hm by congruence. simplify_eq. done. }
  split; [| | |done].
  - intros q m Hq. rewrite Hw, bool_decide_false; [done|]. congruence.
  - intros q m. rewrite Hw. case_bool_decide as Hq; [subst q; by right|by left].
  - intros q. unfold pool_at. rewrite Hw. case_bool_decide as Hq.
    + subst q. rewrite Hnone. cbn [add_child fst snd mbind option_bind].
      rewrite lookup_insert_ne by congruence. by rewrite lookup_insert_eq.
    + destruct (walk h r q) as [m|] eqn:Hm; [|done]. cbn [mbind option_bind].
      destruct (walk_alloc _ r (add_child_wf h r p n nd seg Hwf Hp Hn Hseg) q m) as [md' Hmd'].
      { rewrite Hw, bool_decide_false by done. done. }
      destruct (Hnode q m md' Hm Hmd') as (md & Hmd & Ht & _). by rewrite Hmd, Hmd'; simpl.
Qed.

Lemma Insert_loop_spec r path fuel : ∀ h p n key,
  trie_wf h r → walk h r p = Some n → String.length key < fuel →
  path = p ++ strings_Split key "/" →
  ∃ h' m, Insert_loop fuel h n key = Ok (h', m) ∧ trie_wf h' r
    ∧ walk h' r path = Some m ∧ extends h h' r path.
Proof.
  induction fuel as [|fuel IH]; intros h p n key Hwf Hp Hfuel Hpath; [lia|].
  cbn [Insert_loop]. destruct (walk_alloc h r Hwf _ _ Hp) as [nd Hnd].
  (* one step down, creating the child if needed *)
  assert (∀ s rest, path = p ++ s :: rest → ∃ h1 c,
    match ChildNodes nd !! s with Some c => (h, c) | None => add_child h n nd s end = (h1, c)
    ∧ trie_wf h1 r ∧ walk h1 r (p ++ [s]) = Some c ∧ extends h h1 r path) as Hstep.
  { intros s rest ->. destruct (ChildNodes nd !! s) as [c|] eqn:Hc.
    - exists h, c. split_and!; try done; [|apply extends_refl].
      rewrite walk_snoc, Hp. simpl. unfold child. by rewrite Hnd.
    - exists (fst (add_child h n nd s)), (snd (add_child h n nd s)). split; [done|].
      split; [by eapply add_child_wf|]. split.
      + erewrite walk_add_child by done. by rewrite bool_decide_true.
      + eapply add_child_extends; try done. exists rest. by rewrite <- app_assoc. }
  destruct (parts_cases key) as [[-> Hsp]|(x & y & -> & Hsp & Hlen)]; rewrite Hsp in Hpath;
    unfold head_part, rest_part, node_at; cbn; rewrite Hnd; cbn.
  - destruct (Hstep key [] Hpath) as (h1 & c & -> & Hwf1 & Hw1 & Hext). exists h1, c. by subst path.
  - destruct (Hstep x (strings_Split y "/") Hpath) as (h1 & c & -> & Hwf1 & Hw1 & Hext).
    destruct (IH h1 (p ++ [x]) c y) as (h' & m & Hi & Hwf' & Hw' & Hext'); [done|done|lia| |].
    { by rewrite <- app_assoc. }
    cbn [fst snd]. exists h', m. split_and!; try done. by eapply extends_trans.
Qed.

Lemma segments_nonempty uri : segments uri ≠ [].
Proof. unfold segments. destruct (strings_Split_cons (trie_key uri) "/") as (x & xs & ->). done. Qed.

Lemma Insert_spec h r uri v :
  trie_wf h r →
  ∃ h' n, Insert h r uri v = Ok (h', n) ∧ trie_wf h' r
    ∧ (∀ q, pool_at h' r q = if bool_decide (q = segments uri) then Some v else pool_at h r q)
    ∧ (trie_tidy h r → trie_tidy h' r).
Proof.
  intros Hwf. unfold Insert.
  destruct (Insert_loop_spec r (segments uri) (S (String.length (trie_key uri))) h [] r (trie_key uri))
    as (h1 & m & -> & Hwf1 & Hw1 & Hext); [done|done|lia|done|].
  destruct (walk_alloc h1 r Hwf1 _ _ Hw1) as [md Hmd]. simpl. unfold node_at. rewrite Hmd. simpl.
  assert (m ≠ r) as Hmr.
  { intros ->. apply (segments_nonempty uri). by eapply (walk_root_Parent h1 r). }
  do 2 eexists. split; [done|]. split; [by apply set_pool_wf|]. split.
  - intros q. erewrite pool_at_set_pool by done. by rewrite (ext_pool _ _ _ _ Hext).
  - intros Htidy q n nd Hq Hne Hn Hleaf. rewrite walk_set_pool in Hq by done.
    destruct (decide (m = n)) as [<-|Hmn]; [rewrite lookup_insert_eq in Hn; by simplify_eq; eexists|].
    rewrite lookup_insert_ne in Hn by done.
    destruct (ext_new _ _ _ _ Hext _ _ Hq) as [Hold|[rest Hrest]].
    + destruct (ext_node _ _ _ _ Hext _ _ _ Hold Hn) as (nd0 & Hn0 & <- & Hc).
      apply (Htidy q n); auto.
    + destruct rest as [|s rest]; [rewrite app_nil_r in Hrest; congruence|].
      rewrite Hrest, walk_app, Hq in Hw1. simpl in Hw1. unfold child in Hw1.
      rewrite Hn in Hw1. simpl in Hw1. by rewrite Hleaf, lookup_empty in Hw1.
Qed.

(** ** Deletion *)

Lemma Delete_loop_spec h r fuel : ∀ p n key,
  trie_wf h r → walk h r p = Some n → String.length key < fuel →
  Delete_loop fuel h n key = or_panic nil_deref (walk h n (strings_Split key "/")).
Proof.
  induction fuel as [|fuel IH]; intros p n key Hwf Hp Hfuel; [lia|]. cbn [Delete_loop].
  destruct (walk_alloc h r Hwf _ _ Hp) as [nd Hnd].
  destruct (parts_cases key) as [[-> ->]|(x & y & -> & -> & Hlen)]; simpl;
    unfold node_at, child; rewrite Hnd; simpl.
  - by destruct (ChildNodes nd !! key).
  - destruct (ChildNodes nd !! x) as [c|] eqn:Hc; [|done]. simpl.
    apply (IH (p ++ [x])); [done| |lia].
    rewrite walk_snoc, Hp. simpl. unfold child. by rewrite Hnd.
Qed.

(** A node that carries nothing but at most one link down. *)
Definition dead (nd : Trie V) : Prop := TPool nd = None ∧ size (ChildNodes nd) < 2.

Lemma keep_or_remove_spec c (cd : Trie V) keep rm :
  (dead cd ∧ rm = None ∧ keep_or_remove c cd keep rm = (keep, Some c)) ∨
  (dead cd ∧ is_Some rm ∧ keep_or_remove c cd keep rm = (keep, rm)) ∨
  (¬ dead cd ∧ keep_or_remove c cd keep rm = (c, None)).
Proof.
  unfold keep_or_remove, dead.
  destruct (TPool cd) as [v|].
  { right. right. rewrite (bool_decide_false (Some v = None)), andb_false_r by done. by split; [intros [? _]|]. }
  rewrite (bool_decide_true (None = None)), andb_true_r by done. simpl.
  destruct (Nat.ltb_spec (size (ChildNodes cd)) 2), (Nat.ltb_spec 1 (size (ChildNodes cd))); try lia.
  - destruct rm as [x|]; [right; left|left]; simpl; eauto.
  - right. right. split; [lia|]. by rewrite andb_false_r.
Qed.

(** State of the loop of [deleteEmptyNodes] after it has reached path [p]:
    [kp] leads to [nodeToKeep], and every node of the path below it is dead. *)
Record scan h r (p : list string) (keep : positive) (rm : option positive) (kp : list string) : Prop := {
  scan_keep : walk h r kp = Some keep;
  scan_alive : kp = [] ∨ ∃ nd, h !! keep = Some nd ∧ ¬ dead nd;
  scan_rm : match rm with
            | None => p = kp
            | Some x => ∃ s rest, p = kp ++ s :: rest ∧ walk h r (kp ++ [s]) = Some x
            end;
  scan_dead : ∀ t1 t2, p = kp ++ t1 ++ t2 → t1 ≠ [] →
    ∃ n nd, walk h r (kp ++ t1) = Some n ∧ h !! n = Some nd ∧ dead nd;
}.

Lemma scan_step h r p keep rm kp s c cd :
  trie_wf h r → scan h r p keep rm kp → walk h r (p ++ [s]) = Some c → h !! c = Some cd →
  ∃ kp', scan h r (p ++ [s]) (fst (keep_or_remove c cd keep rm)) (snd (keep_or_remove c cd keep rm)) kp'.
Proof.
  intros Hwf [Hk Ha Hrm Hd] Hc Hcd.
  (* the dead part grows by the new node *)
  assert (dead cd → ∀ t1 t2, p ++ [s] = kp ++ t1 ++ t2 → t1 ≠ [] →
    ∃ n nd, walk h r (kp ++ t1) = Some n ∧ h !! n = Some nd ∧ dead nd) as Hgrow.
  { intros Hdead t1 t2 Heq Ht1. destruct t2 as [|z t2 _] using rev_ind.
    - rewrite app_nil_r in Heq. rewrite <- Heq. eauto.
    - rewrite !app_assoc in Heq. apply app_inj_tail in Heq as [-> _].
      rewrite <- app_assoc in *. by apply (Hd t1 t2). }
  destruct (keep_or_remove_spec c cd keep rm) as [(Hdead & -> & ->)|[(Hdead & [x ->] & ->)|(Halive & ->)]];
    cbn [fst snd].
  - exists kp. simplify_eq. split; [done|done| |by apply Hgrow]. exists s, []. done.
  - exists kp. destruct Hrm as (s' & rest & -> & Hx). split; [done|done| |by apply Hgrow].
    exists s', (rest ++ [s]). by rewrite <- app_assoc.
  - exists (p ++ [s]). split; [done|right; eauto|done|].
    intros t1 t2 Heq Ht1. apply (f_equal length) in Heq. rewrite !length_app in Heq.
    destruct t1; [done|]. simpl in Heq. lia.
Qed.

Lemma deleteEmptyNodes_loop_spec h r fuel : ∀ p n keep rm kp key m,
  trie_wf h r → walk h r p = Some n → String.length key < fuel → scan h r p keep rm kp →
  walk h r (p ++ strings_Split key "/") = Some m →
  ∃ keep' rm' kp', deleteEmptyNodes_loop fuel h n keep rm key = Ok (m, keep', rm')
    ∧ scan h r (p ++ strings_Split key "/") keep' rm' kp'.
Proof.
  induction fuel as [|fuel IH]; intros p n keep rm kp key m Hwf Hp Hfuel Hscan Hm; [lia|].
  cbn [deleteEmptyNodes_loop]. destruct (walk_alloc h r Hwf _ _ Hp) as [nd Hnd].
  assert (∀ s, walk h r (p ++ [s]) = ChildNodes nd !! s) as Hstep.
  { intros s. rewrite walk_snoc, Hp. simpl. unfold child. by rewrite Hnd. }
  destruct (parts_cases key) as [[-> Hsp]|(x & y & -> & Hsp & Hlen)]; rewrite Hsp in Hm |- *;
    unfold head_part, rest_part, node_at; cbn; rewrite Hnd; cbn.
  - pose proof Hm as Hm'. rewrite Hstep in Hm'. rewrite Hm'. cbn.
    destruct (walk_alloc h r Hwf _ _ Hm) as [md Hmd]. rewrite Hmd. cbn.
    destruct (scan_step h r p keep rm kp key m md) as [kp' Hscan']; [done..|]. eauto.
  - change (x :: strings_Split y "/") with ([x] ++ strings_Split y "/") in Hm |- *.
    rewrite app_assoc in Hm |- *.
    destruct (walk h r (p ++ [x])) as [c|] eqn:Hc; [|rewrite walk_app, Hc in Hm; done].
    pose proof Hc as Hc'. rewrite Hstep in Hc'. rewrite Hc'. cbn.
    destruct (walk_alloc h r Hwf _ _ Hc) as [cd Hcd]. rewrite Hcd. cbn.
    destruct (scan_step h r p keep rm kp x c cd) as [kp' Hscan']; [done..|].
    eapply IH; try done. lia.
Qed.

Lemma size_lt_2_key (m : gmap string positive) a b x y :
  size m < 2 → m !! a = Some x → m !! b = Some y → a = b.
Proof.
  intros Hs Ha Hb. destruct (decide (a = b)) as [|Hne]; [done|]. exfalso.
  rewrite <- (insert_delete_id m a x Ha) in Hs.
  rewrite map_size_insert_None in Hs by apply lookup_delete_eq.
  rewrite <- (insert_delete_id (delete a m) b y) in Hs by (by rewrite lookup_delete_ne).
  rewrite map_size_insert_None in Hs by apply lookup_delete_eq. lia.
Qed.

(** Below [kp] only the dead chain exists, when it ends in a leaf. *)
Lemma scan_chain h r p keep x kp n nd :
  trie_wf h r → scan h r p keep (Some x) kp → walk h r p = Some n → h !! n = Some nd →
  ChildNodes nd = ∅ →
  ∃ s rest, p = kp ++ s :: rest ∧ walk h r (kp ++ [s]) = Some x ∧
    ∀ t m, walk h r (kp ++ s :: t) = Some m → kp ++ s :: t `prefix_of` p.
Proof.
  intros Hwf [Hk Ha (s & rest & Hp & Hx) Hd] Hn Hnd Hleaf. exists s, rest. split; [done|]. split; [done|].
  induction t as [|z t IH] using rev_ind; intros m Hm.
  - subst p. exists rest. by rewrite <- app_assoc.
  - change (s :: t ++ [z]) with ((s :: t) ++ [z]) in Hm |- *. rewrite app_assoc in Hm |- *.
    rewrite walk_snoc, bind_Some in Hm. destruct Hm as (m' & Hm' & Hc).
    destruct (IH m' Hm') as [k Hk']. unfold child in Hc.
    destruct (walk_alloc h r Hwf _ _ Hm') as [md Hmd]. rewrite Hmd in Hc. simpl in Hc.
    destruct k as [|z' k].
    + rewrite app_nil_r in Hk'. assert (n = m') as -> by congruence. simplify_eq.
      by rewrite Hleaf, lookup_empty in Hc.
    + destruct (Hd (s :: t) (z' :: k)) as (m2 & md2 & Hm2 & Hmd2 & _ & Hsize); [by rewrite app_assoc|done|].
      assert (m2 = m') as -> by congruence. simplify_eq.
      assert (∃ y, ChildNodes md !! z' = Some y) as [y Hy].
      { rewrite Hk' in Hn. rewrite walk_app, Hm' in Hn. simpl in Hn. unfold child in Hn.
        rewrite Hmd in Hn. simpl in Hn. destruct (ChildNodes md !! z'); [eauto|done]. }
      rewrite (size_lt_2_key _ z z' _ _ Hsize Hc Hy). rewrite Hk'. exists k. by rewrite <- !app_assoc.
Qed.

(** Clearing the parent pointer of a node no one links to. *)
Lemma orphan_wf h r x xd :
  trie_wf h r → h !! x = Some xd → x ≠ r → (∀ n s, child h n s ≠ Some x) →
  trie_wf (<[x := with_Parent None xd]> h) r.
Proof.
  intros Hwf Hx Hne Hun. split.
  - destruct (wf_root h r Hwf) as (rd & Hr & ?). exists rd. by rewrite lookup_insert_ne.
  - intros n s c. rewrite (child_insert_same h x xd) by done. intros Hc.
    destruct (wf_child h r Hwf _ _ _ Hc) as (cd & Hcd & ? & ?).
    exists cd. rewrite lookup_insert_ne; [done|]. intros <-. by apply (Hun n s).
Qed.

(** The heap [deleteEmptyNodes] leaves when it cuts [x] off [keep]. *)
Lemma cut_orphan_spec h r kp keep kd s x xd :
  trie_wf h r → walk h r kp = Some keep → h !! keep = Some kd →
  walk h r (kp ++ [s]) = Some x → h !! x = Some xd →
  let h' := <[keep := with_ChildNodes (delete s (ChildNodes kd)) kd]> (<[x := with_Parent None xd]> h) in
  trie_wf h' r
  ∧ (∀ q, walk h' r q = if bool_decide (kp ++ [s] `prefix_of` q) then None else walk h r q)
  ∧ (∀ n, n ≠ x → n ≠ keep → h' !! n = h !! n).
Proof.
  intros Hwf Hkp Hkd Hx Hxd h'.
  destruct (walk_parent h r Hwf _ _ _ _ Hx Hxd) as (k' & Hk' & Hpar & Hseg).
  assert (k' = keep) as -> by congruence.
  assert (keep ≠ x) as Hne.
  { intros ->. apply (app_snoc_neq kp s). by eapply walk_inj. }
  assert (h' = <[x := with_Parent None xd]> (cut_child h keep kd s)) as Heq.
  { unfold h', cut_child. by rewrite insert_insert_ne. }
  assert (cut_child h keep kd s !! x = Some xd) as Hxc by (unfold cut_child; by rewrite lookup_insert_ne).
  rewrite Heq. split; [|split].
  - apply orphan_wf; [by apply cut_child_wf|done| |].
    + intros ->. destruct (wf_root h r Hwf) as (rd & ? & ? & _). congruence.
    + intros n z Hc. rewrite child_cut in Hc by done. case_bool_decide as Hb; [done|].
      apply Hb. destruct (wf_child h r Hwf _ _ _ Hc) as (cd & Hcd & ? & ?). split; congruence.
  - intros q. erewrite (walk_same_children (cut_child h keep kd s)).
    + by apply walk_cut_child.
    + intros m z. by eapply child_insert_same.
  - intros n Hnx Hnk. rewrite lookup_insert_ne by done. unfold cut_child. by rewrite lookup_insert_ne.
Qed.

Lemma map_empty_size (m : gmap string positive) : size m = 0 → m = ∅.
Proof. apply map_size_empty_inv. Qed.

(** Cutting a subtree that holds no pool loses none. *)
Lemma cut_pool_at h h' r kp keep kd s x :
  trie_wf h r → h !! keep = Some kd → walk h r (kp ++ [s]) = Some x →
  (∀ q, walk h' r q = if bool_decide (kp ++ [s] `prefix_of` q) then None else walk h r q) →
  (∀ n, n ≠ x → n ≠ keep → h' !! n = h !! n) →
  h' !! keep = Some (with_ChildNodes (delete s (ChildNodes kd)) kd) →
  (∀ t, pool_at h r (kp ++ s :: t) = None) →
  ∀ q, pool_at h' r q = pool_at h r q.
Proof.
  intros Hwf Hkd Hx Hwalk Hsame Hk' Hbare q. unfold pool_at at 1. rewrite Hwalk.
  case_bool_decide as Hpre.
  { destruct Hpre as [t ->]. rewrite <- app_assoc. simpl. by rewrite Hbare. }
  unfold pool_at. destruct (walk h r q) as [m|] eqn:Hm; [|done]. simpl.
  destruct (decide (m = keep)) as [->|Hmk]; [by rewrite Hk', Hkd|].
  rewrite Hsame; [done| |done]. intros ->. apply Hpre. by rewrite (walk_inj h r Hwf q (kp ++ [s]) x).
Qed.

(** Cutting below a live node (or the root) the only subtree that may hold a
    dead leaf leaves a tidy trie. *)
Lemma cut_tidy h h' r kp keep kd s x p :
  trie_wf h r → walk h r kp = Some keep → h !! keep = Some kd → walk h r (kp ++ [s]) = Some x →
  (∀ q, walk h' r q = if bool_decide (kp ++ [s] `prefix_of` q) then None else walk h r q) →
  (∀ n, n ≠ x → n ≠ keep → h' !! n = h !! n) →
  h' !! keep = Some (with_ChildNodes (delete s (ChildNodes kd)) kd) →
  keep = r ∨ ¬ dead kd →
  kp ++ [s] `prefix_of` p →
  (∀ q m md, walk h r q = Some m → q ≠ [] → q ≠ p → h !! m = Some md →
     ChildNodes md = ∅ → is_Some (TPool md)) →
  trie_tidy h' r.
Proof.
  intros Hwf Hk Hkd Hx Hwalk Hsame Hk' Ha Hp Htidy q m md Hq Hqne Hmd Hlf.
  rewrite Hwalk in Hq. case_bool_decide as Hpre; [done|].
  destruct (decide (m = keep)) as [->|Hmk].
  - rewrite Hk' in Hmd. injection Hmd as <-. simpl in *.
    destruct Ha as [->|Halive]; [exfalso; apply Hqne; by apply (walk_inj h r Hwf q [] r)|].
    destruct (TPool kd) as [v|] eqn:Hv; [eauto|]. exfalso. apply Halive. split; [done|].
    pose proof (map_size_delete s (ChildNodes kd)) as Hsz. rewrite Hlf, map_size_empty in Hsz.
    destruct (ChildNodes kd !! s); simpl in Hsz; lia.
  - rewrite Hsame in Hmd; [| |done].
    + apply (Htidy q m md); try done. by intros ->.
    + intros ->. apply Hpre. by rewrite (walk_inj h r Hwf q (kp ++ [s]) x).
Qed.

(** [deleteEmptyNodes] after the pool at [p] has been dropped: no pool is
    lost, and no dead leaf is left if [p] was the only dead one. *)
Lemma deleteEmptyNodes_spec h r key n nd :
  let p := strings_Split key "/" in
  trie_wf h r → walk h r p = Some n → h !! n = Some nd → TPool nd = None →
  (∀ q m md, walk h r q = Some m → q ≠ [] → q ≠ p → h !! m = Some md →
     ChildNodes md = ∅ → is_Some (TPool md)) →
  ∃ h', deleteEmptyNodes h r key = Ok h' ∧ trie_wf h' r
    ∧ (∀ q, pool_at h' r q = pool_at h r q) ∧ trie_tidy h' r.
Proof.
  intros p Hwf Hp Hn Hnone Htidy. unfold deleteEmptyNodes.
  destruct (deleteEmptyNodes_loop_spec h r (S (String.length key)) [] r r None [] key n)
    as (keep & rm & kp & -> & Hscan); [done|done|lia| |done|].
  { split; [done|by left|done|]. intros t1 t2 H. by destruct t1. }
  simpl. unfold node_at. rewrite Hn. simpl. change ([] ++ strings_Split key "/") with p in Hscan.
  assert (p ≠ []) as Hpne.
  { unfold p. by destruct (strings_Split_cons key "/") as (? & ? & ->). }
  unfold isLeaf. case_bool_decide as Hleaf.
  - apply map_empty_size in Hleaf.
    destruct rm as [x|].
    2: { destruct Hscan as [Hk [Ha|(kd & Hkd & Ha)] Hrm _]; [congruence|]. exfalso. simplify_eq.
         apply Ha. split; [done|]. rewrite Hleaf, map_size_empty. lia. }
    destruct (scan_chain h r p keep x kp n nd Hwf Hscan Hp Hn Hleaf) as (s & rest & Hps & Hx & Hchain).
    destruct Hscan as [Hk Ha _ Hdead].
    destruct (walk_alloc h r Hwf _ _ Hx) as [xd Hxd].
    destruct (walk_alloc h r Hwf _ _ Hk) as [kd Hkd].
    destruct (walk_parent h r Hwf _ _ _ _ Hx Hxd) as (_ & _ & _ & Hseg).
    assert (keep ≠ x) as Hkx.
    { intros ->. apply (app_snoc_neq kp s). by eapply walk_inj. }
    destruct (cut_orphan_spec h r kp keep kd s x xd) as (Hwf' & Hwalk & Hsame); [done..|].
    simpl. rewrite Hxd. simpl. rewrite lookup_insert_ne by done. rewrite Hkd. simpl. rewrite Hseg.
    match goal with |- ∃ h', Ok ?g = Ok h' ∧ _ => set (h' := g) in * end.
    exists h'. split; [done|]. split; [done|].
    assert (h' !! keep = Some (with_ChildNodes (delete s (ChildNodes kd)) kd)) as Hk'
      by apply lookup_insert_eq.
    split; [apply (cut_pool_at h h' r kp keep kd s x); try done|].
    + intros t. unfold pool_at. destruct (walk h r (kp ++ s :: t)) as [m|] eqn:Hm; [|done]. simpl.
      destruct (Hchain t m Hm) as [k Hk0].
      destruct (Hdead (s :: t) k) as (m' & md & Hm' & Hmd & Hd & _); [by rewrite app_assoc|done|].
      assert (m' = m) as -> by congruence. rewrite Hmd. simpl. by rewrite Hd.
    + apply (cut_tidy h h' r kp keep kd s x p); try done.
      * destruct Ha as [->|(kd' & Hkd' & Halive)]; [left; by injection Hk|right; by simplify_eq].
      * rewrite Hps. exists rest. by rewrite <- app_assoc.
  - exists h. split_and!; try done. intros q m md Hq Hqne Hmd Hlf.
    destruct (decide (q = p)) as [->|Hqp]; [|by apply (Htidy q m md)].
    exfalso. apply Hleaf. assert (m = n) as -> by congruence. simplify_eq. by rewrite Hlf, map_size_empty.
Qed.

Lemma Delete_spec h r uri n :
  trie_wf h r → walk h r (segments uri) = Some n → trie_tidy h r →
  ∃ h', Delete h r uri = Ok (true, h') ∧ trie_wf h' r ∧ trie_tidy h' r
    ∧ ∀ q, pool_at h' r q = if bool_decide (q = segments uri) then None else pool_at h r q.
Proof.
  intros Hwf Hn Htidy. unfold Delete.
  rewrite (Delete_loop_spec h r _ [] r) by (done || lia).
  change (strings_Split (trie_key uri) "/") with (segments uri). rewrite Hn. simpl.
  destruct (walk_alloc h r Hwf _ _ Hn) as [nd Hnd]. unfold node_at. rewrite Hnd. simpl.
  assert (n ≠ r) as Hnr.
  { intros ->. apply (segments_nonempty uri). by eapply (walk_root_Parent h r). }
  destruct (deleteEmptyNodes_spec (<[n := with_TPool None nd]> h) r (trie_key uri) n (with_TPool None nd))
    as (h' & Hd & Hwf' & Hpool & Ht); try done.
  - by apply set_pool_wf.
  - by rewrite walk_set_pool.
  - by rewrite lookup_insert_eq.
  - intros q m md Hq Hqne Hqp Hmd Hleaf. rewrite walk_set_pool in Hq by done.
    rewrite lookup_insert_ne in Hmd; [by apply (Htidy q m)|].
    intros <-. apply Hqp. by eapply walk_inj.
  - exists h'. rewrite Hd. split_and!; try done. intros q. rewrite Hpool. by apply pool_at_set_pool.
Qed.

(** Deleting a path that does not exist dereferences nil. *)
Lemma Delete_missing h r uri :
  trie_wf h r → walk h r (segments uri) = None → Delete h r uri = Panic nil_deref.
Proof.
  intros Hwf Hn. unfold Delete. rewrite (Delete_loop_spec h r _ [] r) by (done || lia).
  change (strings_Split (trie_key uri) "/") with (segments uri). by rewrite Hn.
Qed.

(** ** Depth *)

(** A path of the tree is shorter than the heap is large, which bounds the
    recursion of the traversals. *)
Lemma walk_length h r p n : trie_wf h r → walk h r p = Some n → length p < size h.
Proof.
  intros Hwf Hw.
  assert (∃ X : gset positive, size X = S (length p) ∧ X ⊆ dom h
    ∧ ∀ x, x ∈ X → ∃ q, walk h r q = Some x ∧ length q ≤ length p) as (X & HX & Hsub & _).
  { revert n Hw. induction p as [|s p IH] using rev_ind; intros n Hw.
    - exists {[r]}. rewrite size_singleton. split_and!; [done| |].
      + destruct (wf_root h r Hwf) as (nd & Hr & _). apply singleton_subseteq_l, elem_of_dom. eauto.
      + intros x ->%elem_of_singleton. exists []. split; [done|simpl; lia].
    - pose proof Hw as Hw'. rewrite walk_snoc, bind_Some in Hw'. destruct Hw' as (m & Hm & _).
      destruct (IH m Hm) as (X & HX & Hsub & Hx). rewrite length_app. simpl.
      assert (n ∉ X) as Hn.
      { intros Hin. apply Hx in Hin as (q & Hq & Hl). pose proof (walk_inj h r Hwf _ _ _ Hq Hw) as ->.
        rewrite length_app in Hl. simpl in Hl. lia. }
      exists ({[n]} ∪ X). split_and!.
      + rewrite size_union by set_solver. rewrite size_singleton, HX. lia.
      + destruct (walk_alloc h r Hwf _ _ Hw) as [nd Hnd].
        apply union_subseteq. split; [|done]. apply singleton_subseteq_l, elem_of_dom. eauto.
      + intros x [->%elem_of_singleton|Hin]%elem_of_union.
        * exists (p ++ [s]). rewrite length_app. simpl. split; [done|lia].
        * apply Hx in Hin as (q & Hq & Hl). exists q. split; [done|lia]. }
  apply subseteq_size in Hsub. rewrite HX, size_dom in Hsub. lia.
Qed.

(** ** Snip *)

(** What pruning may do to the tree: drop leaves, never add or move nodes. *)
Record shrinks h h' r : Prop := {
  shr_size : size h' = size h;
  shr_walk : ∀ q n, walk h' r q = Some n → walk h r q = Some n;
  shr_gone : ∀ q n, walk h r q = Some n →
    walk h' r q = Some n ∨ ∃ nd, h' !! n = Some nd ∧ ChildNodes nd = ∅;
  shr_leaf : ∀ n nd, h !! n = Some nd → ChildNodes nd = ∅ →
    ∃ nd', h' !! n = Some nd' ∧ ChildNodes nd' = ∅;
  shr_pool : ∀ n, TPool <$> h' !! n = TPool <$> h !! n;
}.

Lemma shrinks_refl h r : shrinks h h r.
Proof. split; eauto. Qed.

Lemma shrinks_trans h1 h2 h3 r : shrinks h1 h2 r → shrinks h2 h3 r → shrinks h1 h3 r.
Proof.
  intros [s1 w1 g1 l1 p1] [s2 w2 g2 l2 p2]. split; [congruence|auto| | |intros; congruence].
  - intros q n Hq. destruct (g1 q n Hq) as [Hq2|(nd & Hn & Hl)]; [by apply g2|].
    right. by apply (l2 n nd).
  - intros n nd Hn Hl. destruct (l1 n nd Hn Hl) as (nd' & Hn' & Hl'). by apply (l2 n nd').
Qed.

Lemma cut_leaf_shrinks h r p n nd s c cd :
  trie_wf h r → walk h r p = Some n → h !! n = Some nd →
  walk h r (p ++ [s]) = Some c → h !! c = Some cd → ChildNodes cd = ∅ →
  shrinks h (cut_child h n nd s) r.
Proof.
  intros Hwf Hp Hn Hc Hcd Hleaf.
  pose proof (λ q, walk_cut_child h r p n nd s q Hwf Hp Hn) as Hw.
  assert (n ≠ c) as Hnc by (intros ->; apply (app_snoc_neq p s); by eapply walk_inj).
  split.
  - unfold cut_child. apply map_size_insert_Some. eauto.
  - intros q m. rewrite Hw. by case_bool_decide.
  - intros q m Hq. rewrite Hw. case_bool_decide as Hpre; [|by left]. right.
    destruct Hpre as [t ->]. destruct t as [|z t].
    + rewrite app_nil_r in Hq. assert (m = c) as -> by congruence.
      exists cd. unfold cut_child. by rewrite lookup_insert_ne.
    + rewrite walk_app, Hc in Hq. simpl in Hq. unfold child in Hq. rewrite Hcd in Hq. simpl in Hq.
      by rewrite Hleaf, lookup_empty in Hq.
  - intros m md Hm Hl. unfold cut_child. destruct (decide (n = m)) as [<-|].
    + rewrite lookup_insert_eq. eexists. split; [done|]. simpl. simplify_eq.
      by rewrite Hl, delete_empty.
    + rewrite lookup_insert_ne by done. eauto.
  - intros m. unfold cut_child. destruct (decide (n = m)) as [<-|].
    + by rewrite lookup_insert_eq, Hn.
    + by rewrite lookup_insert_ne.
Qed.

(** A pool that may be dropped from the tree. *)
Definition droppable (pool_empty : V → bool) (o : option V) : Prop :=
  ∀ v, o = Some v → pool_empty v = true.

Record snipped (pool_empty : V → bool) h h' r (p : list string) : Prop := {
  snp_wf : trie_wf h' r;
  snp_shrinks : shrinks h h' r;
  snp_pool : ∀ q, pool_at h' r q = pool_at h r q ∨
    (pool_at h' r q = None ∧ droppable pool_empty (pool_at h r q));
  snp_tidy : ∀ q n nd, walk h' r q = Some n → q ≠ [] → h' !! n = Some nd → ChildNodes nd = ∅ →
    (∃ v, TPool nd = Some v ∧ pool_empty v = false) ∨ (q ≠ p ∧ h !! n = Some nd);
}.

Lemma pool_at_cut_child h r p n nd s q :
  trie_wf h r → walk h r p = Some n → h !! n = Some nd →
  pool_at (cut_child h n nd s) r q =
    if bool_decide (p ++ [s] `prefix_of` q) then None else pool_at h r q.
Proof.
  intros Hwf Hp Hn. unfold pool_at. rewrite (walk_cut_child h r p) by done.
  case_bool_decide; [done|]. destruct (walk h r q) as [m|]; [|done]. simpl. unfold cut_child.
  destruct (decide (n = m)) as [<-|]; [by rewrite lookup_insert_eq, Hn|by rewrite lookup_insert_ne].
Qed.

(** Keeping the node: it is the root, or not a leaf, or its pool is not empty. *)
Lemma snipped_keep pool_empty h r p n nd :
  trie_wf h r → walk h r p = Some n → h !! n = Some nd →
  match TPool nd with Some v => negb (pool_empty v) | None => false end
    || isRoot nd || negb (isLeaf nd) = true →
  snipped pool_empty h h r p.
Proof.
  intros Hwf Hp Hn Hkeep. split; [done|apply shrinks_refl|by left|].
  intros q m md Hq Hne Hm Hleaf. destruct (decide (q = p)) as [->|]; [|by right].
  left. assert (m = n) as -> by congruence. assert (nd = md) as -> by congruence.
  apply orb_true_iff in Hkeep as [Hkeep|Hlf].
  - apply orb_true_iff in Hkeep as [Hv|Hroot].
    + destruct (TPool md) as [v|]; [|done]. exists v. by apply negb_true_iff in Hv.
    + exfalso. apply bool_decide_eq_true in Hroot.
      destruct p as [|s p _] using rev_ind; [done|].
      destruct (walk_parent h r Hwf _ _ _ _ Hq Hm) as (? & _ & ? & _). congruence.
  - exfalso. unfold isLeaf in Hlf. apply negb_true_iff, bool_decide_eq_false in Hlf.
    apply Hlf. by rewrite Hleaf, map_size_empty.
Qed.

(** Cutting a dead leaf and going on from its parent. *)
Lemma snipped_cut pool_empty h h' r p s m md n nd :
  trie_wf h r → walk h r p = Some m → h !! m = Some md →
  walk h r (p ++ [s]) = Some n → h !! n = Some nd → ChildNodes nd = ∅ →
  droppable pool_empty (TPool nd) →
  snipped pool_empty (cut_child h m md s) h' r p → snipped pool_empty h h' r (p ++ [s]).
Proof.
  intros Hwf Hp Hm Hn Hnd Hleaf Hdrop [Hwf' Hshr Hpool Htidy].
  pose proof (cut_leaf_shrinks h r p m md s n nd Hwf Hp Hm Hn Hnd Hleaf) as Hcut.
  split; [done|by eapply shrinks_trans| |].
  - intros q. specialize (Hpool q). rewrite (pool_at_cut_child h r p) in Hpool by done.
    case_bool_decide as Hpre; [|done]. right.
    assert (pool_at h' r q = None) as -> by naive_solver. split; [done|].
    destruct Hpre as [t ->]. intros v Hv. apply Hdrop. destruct t as [|z t].
    + rewrite app_nil_r in Hv. unfold pool_at in Hv. rewrite Hn in Hv. simpl in Hv. by rewrite Hnd in Hv.
    + unfold pool_at in Hv. rewrite walk_app, Hn in Hv. simpl in Hv. unfold child in Hv.
      rewrite Hnd in Hv. simpl in Hv. by rewrite Hleaf, lookup_empty in Hv.
  - intros q k kd Hq Hne Hk Hlf. destruct (Htidy q k kd Hq Hne Hk Hlf) as [?|[Hqp Hold]]; [by left|].
    right. apply (shr_walk _ _ _ Hshr) in Hq. rewrite (walk_cut_child h r p) in Hq by done.
    case_bool_decide as Hpre; [done|]. split.
    + intros ->. by apply Hpre.
    + unfold cut_child in Hold. rewrite lookup_insert_ne in Hold; [done|].
      intros <-. apply Hqp. by apply (walk_inj h r Hwf q p m).
Qed.

Lemma Snip_loop_spec pool_empty r fuel : ∀ h p n,
  trie_wf h r → walk h r p = Some n → length p < fuel →
  ∃ h', Snip_loop fuel pool_empty n h = Ok h' ∧ snipped pool_empty h h' r p.
Proof.
  induction fuel as [|fuel IH]; intros h p n Hwf Hp Hfuel; [lia|]. cbn [Snip_loop].
  destruct (walk_alloc h r Hwf _ _ Hp) as [nd Hnd]. unfold node_at. rewrite Hnd. cbn [or_panic mbind res_mbind].
  match goal with |- context [if ?b then _ else _] => destruct b eqn:Hkeep end.
  { exists h. split; [done|]. by eapply snipped_keep. }
  apply orb_false_iff in Hkeep as [[Hv Hroot]%orb_false_iff Hleaf%negb_false_iff].
  apply bool_decide_eq_false in Hroot. apply bool_decide_eq_true, map_empty_size in Hleaf.
  destruct p as [|s p _] using rev_ind.
  { injection Hp as <-. destruct (wf_root h r Hwf) as (rd & Hr & ? & _). congruence. }
  destruct (walk_parent h r Hwf _ _ _ _ Hp Hnd) as (m & Hm & Hpar & Hseg).
  destruct (walk_alloc h r Hwf _ _ Hm) as [md Hmd].
  rewrite Hpar. cbn [or_panic mbind res_mbind]. rewrite Hmd, Hseg. cbn [or_panic mbind res_mbind].
  change (<[m := with_ChildNodes (delete s (ChildNodes md)) md]> h) with (cut_child h m md s).
  destruct (IH (cut_child h m md s) p m) as (h' & -> & Hsnip).
  - by apply cut_child_wf.
  - rewrite (walk_cut_child h r p) by done. rewrite bool_decide_false; [done|].
    intros [t Ht]. apply (f_equal length) in Ht. rewrite !length_app in Ht. simpl in Ht. lia.
  - rewrite length_app in Hfuel. simpl in Hfuel. lia.
  - exists h'. split; [done|]. eapply snipped_cut; try done.
    intros v Hv'. rewrite Hv' in Hv. by apply negb_false_iff.
Qed.

Lemma Snip_spec pool_empty h r p n :
  trie_wf h r → walk h r p = Some n →
  ∃ h', Snip pool_empty n h = Ok h' ∧ snipped pool_empty h h' r p.
Proof.
  intros Hwf Hp. apply Snip_loop_spec; [done|done|].
  pose proof (walk_length h r p n Hwf Hp). lia.
Qed.
End spec.
