(* ===== verification/TraversalSpec.v ===== *)
(** * Read-only traversals of the trie

    Counting pools, counting endpoints and listing the routes all walk the
    trie.  They are shown to visit the nodes of a pre-order enumeration, which
    holds every path of the trie once, whatever order Go ranges over the
    children in. *)

From S2P Require Import Prelude GoStrings Uris Trie TrieSpec.

Section traversal.
Context {V : Type}.
Context (range : gmap string positive → list (string * positive)).
Context (Hrange : ∀ m, range m ≡ₚ map_to_list m).
Implicit Types (h : gmap positive (Trie V)) (r n : positive) (p q : list string).

Lemma range_keys_NoDup m : NoDup (range m).*1.
Proof. rewrite Hrange. apply NoDup_fst_map_to_list. Qed.

Lemma elem_of_range m s c : (s, c) ∈ range m ↔ m !! s = Some c.
Proof. rewrite Hrange. apply elem_of_map_to_list. Qed.

Fixpoint preorder (fuel : nat) h n p : list (list string * positive) :=
  match fuel with
  | O => []
  | S fuel' =>
      (p, n) :: (range (from_option ChildNodes ∅ (h !! n)) ≫= λ kc,
                   preorder fuel' h (snd kc) (p ++ [fst kc]))
  end.

Section enumeration.
Context h r (Hwf : trie_wf h r).

Lemma child_of_range n nd s c p :
  h !! n = Some nd → walk h r p = Some n → (s, c) ∈ range (ChildNodes nd) → walk h r (p ++ [s]) = Some c.
Proof.
  intros Hn Hp Hin%elem_of_range. rewrite walk_snoc, Hp. simpl. unfold child. by rewrite Hn.
Qed.

(** The enumeration holds the subtree of [p] ... *)
Lemma preorder_elem fuel : ∀ p n q m,
  walk h r p = Some n → size h ≤ fuel + length p →
  (q, m) ∈ preorder fuel h n p ↔ p `prefix_of` q ∧ walk h r q = Some m.
Proof.
  induction fuel as [|fuel IH]; intros p n q m Hp Hfuel.
  { pose proof (walk_length h r p n Hwf Hp). simpl in Hfuel. lia. }
  destruct (walk_alloc h r Hwf _ _ Hp) as [nd Hn].
  cbn [preorder]. rewrite Hn. cbn [from_option]. rewrite elem_of_cons, list_elem_of_bind.
  assert (∀ s c, (s, c) ∈ range (ChildNodes nd) →
    (q, m) ∈ preorder fuel h c (p ++ [s]) ↔ p ++ [s] `prefix_of` q ∧ walk h r q = Some m) as IH'.
  { intros s c Hin. apply IH; [by eapply child_of_range|]. rewrite length_app. simpl. lia. }
  split.
  - intros [[= -> ->]|([s c] & Hq & Hin)]; [by split|].
    apply (IH' s c Hin) in Hq as [[t ->] Hw]. split; [|done].
    rewrite <- app_assoc. by exists ([s] ++ t).
  - intros [[t ->] Hw]. destruct t as [|s t].
    { left. rewrite app_nil_r in *. congruence. }
    right. pose proof Hw as Hw'. rewrite walk_app, Hp in Hw'. cbn [mbind option_bind walk] in Hw'.
    unfold child in Hw'. rewrite Hn in Hw'. cbn [mbind option_bind] in Hw'.
    destruct (ChildNodes nd !! s) as [c|] eqn:Hc; [|done].
    exists (s, c). rewrite elem_of_range. split; [|done].
    apply IH'; [by apply elem_of_range|]. split; [|done]. exists t. by rewrite <- app_assoc.
Qed.

(** ... each path once. *)
Lemma preorder_NoDup fuel : ∀ p n,
  walk h r p = Some n → size h ≤ fuel + length p → NoDup (preorder fuel h n p).
Proof.
  induction fuel as [|fuel IH]; intros p n Hp Hfuel; [constructor|].
  destruct (walk_alloc h r Hwf _ _ Hp) as [nd Hn]. cbn [preorder]. rewrite Hn. cbn [from_option].
  assert (∀ s c, (s, c) ∈ range (ChildNodes nd) →
    NoDup (preorder fuel h c (p ++ [s])) ∧
    ∀ q m, (q, m) ∈ preorder fuel h c (p ++ [s]) → p ++ [s] `prefix_of` q) as Hsub.
  { intros s c Hin. assert (walk h r (p ++ [s]) = Some c) as Hc by (by eapply child_of_range).
    assert (size h ≤ fuel + length (p ++ [s])) by (rewrite length_app; simpl; lia).
    split; [by apply IH|]. intros q m Hq. by apply preorder_elem in Hq as [? _]. }
  constructor.
  - intros ([s c] & Hq & Hin)%list_elem_of_bind. apply (Hsub s c Hin) in Hq. by apply snoc_not_prefix in Hq.
  - apply NoDup_bind.
    + intros [s1 c1] [s2 c2] [q m] H1 H2 Hq1 Hq2. simpl in *.
      apply (Hsub _ _ H1) in Hq1. apply (Hsub _ _ H2) in Hq2.
      assert (s1 = s2) as -> by (by eapply snoc_prefix_inj).
      apply elem_of_range in H1, H2. congruence.
    + intros [s c] Hin. by apply (Hsub s c Hin).
    + apply (NoDup_fmap_1 fst), range_keys_NoDup.
Qed.
End enumeration.

(** ** A traversal is a fold over the enumeration *)

Definition has_pool h (qm : list string * positive) : option V :=
  h !! snd qm ≫= TPool.

Section each.
Context {St : Type} (heap_of : St → gmap positive (Trie V)) (f : St → positive → res St).
Context h r (Hwf : trie_wf h r).
(** The callback does not touch the trie. *)
Context (Hf : ∀ s n s', heap_of s = h → f s n = Ok s' → heap_of s' = h).

Definition visit (s : St) (qm : list string * positive) : res St :=
  match has_pool h qm with Some _ => f s (snd qm) | None => Ok s end.

Lemma visit_eq s qm :
  visit s qm = match has_pool h qm with Some _ => f s (snd qm) | None => Ok s end.
Proof. done. Qed.

Lemma visit_heap s qm s' : heap_of s = h → visit s qm = Ok s' → heap_of s' = h.
Proof. unfold visit. destruct (has_pool h qm); [eauto|]. by intros ? [= <-]. Qed.

Lemma foldM_visit_heap l : ∀ s s', heap_of s = h → foldM visit s l = Ok s' → heap_of s' = h.
Proof.
  induction l as [|qm l IH]; intros s s' Hs; simpl; [by intros [= <-]|].
  intros (s1 & H1 & H2)%bind_Ok. eapply IH; [|done]. by eapply visit_heap.
Qed.

Lemma children_fold (body : St → positive → res St) (g : string * positive → list (list string * positive))
    n nd L : ∀ s,
  h !! n = Some nd → heap_of s = h →
  (∀ k c, (k, c) ∈ L → ChildNodes nd !! k = Some c
     ∧ ∀ s, heap_of s = h → body s c = foldM visit s (g (k, c))) →
  foldM (λ s' kc,
      nd' ← node_at (heap_of s') n;
      match ChildNodes nd' !! fst kc with
      | Some child => body s' child
      | None => Ok s'
      end) s L = foldM visit s (L ≫= g).
Proof.
  induction L as [|[k c] L IH]; intros s Hn Hs HL; [done|].
  rewrite bind_cons, foldM_app. cbn [foldM fst].
  destruct (HL k c) as [Hk Hbody]; [by left|]. rewrite Hs, (node_at_Some _ _ _ Hn).
  cbn [mbind res_mbind]. rewrite Hk, Hbody by done.
  destruct (foldM visit s (g (k, c))) as [s1| |] eqn:Hs1; [|done|done]. cbn [mbind res_mbind].
  apply IH; [done|by eapply foldM_visit_heap|]. intros k' c' Hin. apply HL. by right.
Qed.

Lemma each_fold fuel : ∀ p n s,
  walk h r p = Some n → size h ≤ fuel + length p → heap_of s = h →
  EachNodeWithPool range heap_of fuel f s n = foldM visit s (preorder fuel h n p).
Proof.
  induction fuel as [|fuel IH]; intros p n s Hp Hfuel Hs.
  { pose proof (walk_length h r p n Hwf Hp). simpl in Hfuel. lia. }
  destruct (walk_alloc h r Hwf _ _ Hp) as [nd Hn].
  cbn [EachNodeWithPool preorder foldM]. rewrite Hs, (node_at_Some _ _ _ Hn). cbn [mbind res_mbind].
  assert (visit s (p, n) = match TPool nd with Some _ => f s n | None => Ok s end) as <-.
  { unfold visit, has_pool. simpl. by rewrite Hn. }
  destruct (visit s (p, n)) as [s1| |] eqn:Hv; [|done|done].
  cbn [mbind res_mbind from_option]. apply visit_heap in Hv; [|done].
  unfold range_children. rewrite Hv, (node_at_Some _ _ _ Hn), Hn.
  cbn [mbind res_mbind from_option]. apply (children_fold _ (λ kc, preorder fuel h (snd kc) (p ++ [fst kc])) n nd); [done..|].
  intros k c Hin. split; [by apply elem_of_range|]. intros s2 Hs2.
  apply IH; [by eapply child_of_range| |done]. rewrite length_app. simpl. lia.
Qed.

Lemma each_root s : heap_of s = h →
  EachNodeWithPool range heap_of (S (size h)) f s r = foldM visit s (preorder (S (size h)) h r []).
Proof. intros Hs. apply each_fold; [done|simpl; lia|done]. Qed.
End each.

(** ** The routes of a trie *)

(** The registered paths with their pools, in the order they are visited. *)
Definition route_list h r : list (list string * V) :=
  omap (λ qm, (λ v, (fst qm, v)) <$> has_pool h qm) (preorder (S (size h)) h r []).

Section routes.
Context h r (Hwf : trie_wf h r).

Lemma route_list_elem q v : (q, v) ∈ route_list h r ↔ pool_at h r q = Some v.
Proof.
  unfold route_list. rewrite list_elem_of_omap, pool_at_Some. split.
  - intros ([q' m] & Hin & Hv). apply preorder_elem with (r := r) in Hin as [_ Hw]; [|done|done|simpl; lia].
    apply fmap_Some in Hv as (v' & Hv & [= -> ->]). unfold has_pool in Hv. simpl in Hv.
    apply bind_Some in Hv as (nd & ? & ?). eauto.
  - intros (n & nd & Hw & Hn & Hv). exists (q, n). split.
    + apply preorder_elem with (r := r); [done|done|simpl; lia|]. split; [by exists q|done].
    + unfold has_pool. simpl. rewrite Hn. simpl. by rewrite Hv.
Qed.

Lemma route_list_NoDup : NoDup (route_list h r).*1.
Proof.
  apply NoDup_fmap_2_strong.
  { intros [q v] [q' v'] H H' ?. simpl in *. subst q'.
    apply route_list_elem in H, H'. congruence. }
  pose proof (preorder_NoDup h r Hwf (S (size h)) [] r eq_refl ltac:(simpl; lia)) as Hnd.
  assert (∀ q m m', (q, m) ∈ preorder (S (size h)) h r [] → (q, m') ∈ preorder (S (size h)) h r [] → m = m') as Hfun.
  { intros q m m' H H'. apply preorder_elem with (r := r) in H as [_ H]; [|done|done|simpl; lia].
    apply preorder_elem with (r := r) in H' as [_ H']; [congruence|done|done|simpl; lia]. }
  unfold route_list. revert Hnd Hfun. generalize (preorder (S (size h)) h r []). intros l.
  induction l as [|[q m] l IH]; intros Hnd Hfun; [constructor|].
  apply NoDup_cons in Hnd as [Hnin Hnd]. simpl.
  assert (NoDup (omap (λ qm, (λ v, (fst qm, v)) <$> has_pool h qm) l)) as HN.
  { apply IH; [done|]. intros q' m1 m2 H1 H2. by apply (Hfun q'); right. }
  destruct (has_pool h (q, m)) as [v|]; simpl; [|done]. constructor; [|done].
  intros ([q' m'] & Hin & Hv)%list_elem_of_omap. apply fmap_Some in Hv as (v' & _ & [= <- _]).
  apply Hnin. rewrite (Hfun q m m'); [done|by left|by right].
Qed.
End routes.

(** ** Counting *)

Lemma PoolCount_spec h r : trie_wf h r → PoolCount range h r = Ok (length (route_list h r)).
Proof.
  intros Hwf. unfold PoolCount. rewrite each_root with (h := h) (r := r); [|done| |done].
  2: { intros s n s' Hs [= <-]. done. }
  unfold route_list. generalize (preorder (S (size h)) h r []). intros l.
  assert (∀ c, foldM (visit (λ s _, Ok (fst s, S (snd s))) h) (h, c) l
    = Ok (h, c + length (omap (λ qm, (λ v, (fst qm, v)) <$> has_pool h qm) l))) as H.
  { induction l as [|qm l IH]; intros c; simpl; [by rewrite Nat.add_0_r|].
    rewrite visit_eq. destruct (has_pool h qm); simpl; rewrite IH; [|done]. by rewrite Nat.add_succ_r. }
  by rewrite H.
Qed.

Lemma foldM_ext {St X} (f g : St → X → res St) (l : list X) : ∀ s,
  (∀ s x, x ∈ l → f s x = g s x) → foldM f s l = foldM g s l.
Proof.
  induction l as [|x l IH]; intros s H; [done|]. simpl. rewrite H by (by left).
  destruct (g s x); simpl; [|done|done]. apply IH. intros s' y Hy. apply H. by right.
Qed.

(** The callback of [endpointCount] in terms of the shared traversal. *)
Definition count_node (pool_addrs : V → res (list string)) (s : gmap positive (Trie V) * gset string)
    (n : positive) : res (gmap positive (Trie V) * gset string) :=
  nd ← node_at (fst s) n;
  match TPool nd with
  | Some v => l ← pool_addrs v; Ok (fst s, snd s ∪ list_to_set l)
  | None => Ok s
  end.

Lemma count_node_eq pool_addrs s n nd : node_at (fst s) n = Ok nd →
  count_node pool_addrs s n = match TPool nd with
                              | Some v => l ← pool_addrs v; Ok (fst s, snd s ∪ list_to_set l)
                              | None => Ok s
                              end.
Proof. unfold count_node. by intros ->. Qed.

Lemma endpointCount_each pool_addrs fuel : ∀ s n,
  endpointCount range fuel pool_addrs s n = EachNodeWithPool range fst fuel (count_node pool_addrs) s n.
Proof.
  induction fuel as [|fuel IH]; intros s n; [done|]. cbn [endpointCount EachNodeWithPool].
  destruct (node_at (fst s) n) as [nd| |] eqn:Hn; [|done|done]. cbn [mbind res_mbind].
  rewrite (count_node_eq _ _ _ nd Hn).
  assert (∀ s1, range_children range fst n (endpointCount range fuel pool_addrs) s1
    = range_children range fst n (EachNodeWithPool range fst fuel (count_node pool_addrs)) s1) as Hch.
  { intros s1. unfold range_children. apply bind_ext. intros nd1.
    apply foldM_ext. intros s' [k c] _. apply bind_ext. intros nd'. simpl. by destruct (ChildNodes nd' !! k). }
  destruct (TPool nd) as [v|]; [|apply Hch]. by apply bind_ext.
Qed.

Lemma EndpointCount_spec pool_addrs (addrs : V → list string) h r :
  trie_wf h r → (∀ q v, pool_at h r q = Some v → pool_addrs v = Ok (addrs v)) →
  EndpointCount range pool_addrs h r
  = Ok (size (list_to_set (route_list h r ≫= λ qv, addrs (snd qv)) : gset string)).
Proof.
  intros Hwf Haddr. unfold EndpointCount. rewrite endpointCount_each.
  rewrite each_root with (h := h) (r := r); [|done| |done].
  2: { intros s n s' Hs. unfold count_node. intros (nd & _ & H)%bind_Ok.
       destruct (TPool nd); [|by injection H as <-]. apply bind_Ok in H as (l & _ & [= <-]). done. }
  assert (∀ qv, qv ∈ route_list h r → pool_addrs (snd qv) = Ok (addrs (snd qv))) as Hall.
  { intros [q v] Hin. by apply (route_list_elem h r Hwf) in Hin as ?%Haddr. }
  unfold route_list in *. revert Hall. generalize (preorder (S (size h)) h r []). intros l Hall.
  assert (∀ A, foldM (visit (count_node pool_addrs) h) (h, A) l
    = Ok (h, A ∪ list_to_set (omap (λ qm, (λ v, (fst qm, v)) <$> has_pool h qm) l ≫= λ qv, addrs (snd qv)))) as H.
  { induction l as [|qm l IH]; intros A; simpl; [by rewrite (right_id_L ∅ (∪))|].
    rewrite visit_eq. destruct (has_pool h qm) as [v|] eqn:Hv; simpl.
    - unfold has_pool in Hv. apply bind_Some in Hv as (nd & Hn & Hv).
      rewrite (count_node_eq _ _ _ nd), Hv by (by apply node_at_Some).
      assert (pool_addrs v = Ok (addrs v)) as ->.
      { apply (Hall (fst qm, v)). simpl. unfold has_pool. rewrite Hn. simpl. rewrite Hv. by left. }
      simpl. rewrite IH, list_to_set_app_L, (assoc_L (∪)); [done|].
      intros qv Hin. apply Hall. simpl. unfold has_pool at 1. rewrite Hn. simpl. rewrite Hv. simpl. by right.
    - apply IH. intros qv Hin. apply Hall. simpl. by rewrite Hv. }
  rewrite H. simpl. by rewrite (left_id_L ∅ (∪)).
Qed.

(** ** The table of routes as a map *)

(** The key [toMap] gives to a path. *)
Definition key_step (segment s : string) : string :=
  if bool_decide (String.length segment = 0) then segment +:+ s else segment +:+ "/" +:+ s.

Definition path_key (p : list string) : string := foldl key_step "" p.

Lemma path_key_snoc p s : path_key (p ++ [s]) = key_step (path_key p) s.
Proof. unfold path_key. by rewrite foldl_app. Qed.

Definition put_route h (m : gmap string V) (qm : list string * positive) : gmap string V :=
  match has_pool h qm with Some v => <[path_key (fst qm) := v]> m | None => m end.

Lemma toMap_fold h r (Hwf : trie_wf h r) fuel : ∀ p n m,
  walk h r p = Some n → size h ≤ fuel + length p →
  toMap range fuel h n (path_key p) m = Ok (foldl (put_route h) m (preorder fuel h n p)).
Proof.
  induction fuel as [|fuel IH]; intros p n m Hp Hfuel.
  { pose proof (walk_length h r p n Hwf Hp). simpl in Hfuel. lia. }
  destruct (walk_alloc h r Hwf _ _ Hp) as [nd Hn]. cbn [toMap preorder foldl].
  rewrite (node_at_Some _ _ _ Hn), Hn. cbn [mbind res_mbind from_option].
  replace (match TPool nd with Some v => <[path_key p := v]> m | None => m end)
    with (put_route h m (p, n)) by (unfold put_route, has_pool; simpl; by rewrite Hn).
  generalize (put_route h m (p, n)). clear m.
  assert (∀ L m, (∀ kc, kc ∈ L → kc ∈ range (ChildNodes nd)) →
    foldM (λ m' kc, cd ← node_at h (snd kc);
      toMap range fuel h (snd kc)
        (if bool_decide (String.length (path_key p) = 0)
         then path_key p +:+ Segment cd else path_key p +:+ "/" +:+ Segment cd) m') m L
    = Ok (foldl (put_route h) m (L ≫= λ kc, preorder fuel h (snd kc) (p ++ [fst kc])))) as HL;
    [|intros m; by apply HL].
  induction L as [|[k c] L IHL]; intros m HL; [done|]. rewrite bind_cons, foldl_app. cbn [foldM fst snd].
  assert (walk h r (p ++ [k]) = Some c) as Hc by (eapply child_of_range; [done|done|apply HL; by left]).
  destruct (walk_alloc h r Hwf _ _ Hc) as [cd Hcd].
  destruct (walk_parent h r Hwf _ _ _ _ Hc Hcd) as (_ & _ & _ & Hseg).
  rewrite (node_at_Some _ _ _ Hcd). cbn [mbind res_mbind]. rewrite Hseg.
  assert ((if bool_decide (String.length (path_key p) = 0) then path_key p +:+ k else path_key p +:+ "/" +:+ k)
    = path_key (p ++ [k])) as -> by (by rewrite path_key_snoc).
  rewrite IH; [|done|rewrite length_app; simpl; lia]. cbn [mbind res_mbind].
  apply IHL. intros kc Hin. apply HL. by right.
Qed.

Lemma ToMap_fold h r :
  trie_wf h r →
  ToMap range h r = Ok (foldl (λ m qv, <[path_key (fst qv) := snd qv]> m) ∅ (route_list h r)).
Proof.
  intros Hwf. unfold ToMap. destruct (wf_root h r Hwf) as (nd & Hn & _ & _ & Hseg).
  rewrite (node_at_Some _ _ _ Hn). cbn [mbind res_mbind]. rewrite Hseg.
  change "" with (path_key []). rewrite (toMap_fold h r Hwf) by (done || simpl; lia). f_equal.
  unfold route_list. generalize (@empty (gmap string V) _).
  generalize (preorder (S (size h)) h r []). intros l.
  induction l as [|qm l IH]; intros m; [done|]. cbn [foldl omap list_omap]. unfold put_route at 2.
  destruct (has_pool h qm); simpl; apply IH.
Qed.

(** On paths as [segments] makes them, whose first segment is not empty, the
    key is the path joined by slashes. *)
Lemma foldl_key_step seg p : String.length seg ≠ 0 →
  foldl key_step seg p = strings_Join (seg :: p) "/".
Proof.
  revert seg; induction p as [|s p IH]; intros seg Hseg; [done|]. cbn [foldl].
  unfold key_step at 2. rewrite bool_decide_false by done.
  rewrite IH by (rewrite !str_length_app; simpl; lia).
  destruct p as [|t p]; [done|]. cbn [strings_Join]. by rewrite !str_app_assoc.
Qed.

Lemma path_key_Join s p : s ≠ "" → path_key (s :: p) = strings_Join (s :: p) "/".
Proof.
  intros Hs. unfold path_key. cbn [foldl]. change (key_step "" s) with s. apply foldl_key_step.
  by destruct s.
Qed.
End traversal.
