(* ===== verification/Registry.v ===== *)
(** * The route registry (src/registry/registry.go)

    The registry owns a routing trie whose pools are heap objects: [pools]
    maps pool pointers to pools, and the trie stores the pointers, so a pool
    handed out by [Lookup] is the object later operations mutate.  Every
    method runs under the registry lock, so the model runs one method at a
    time; the times read with [time.Now] are arguments. *)

From S2P Require Import Prelude GoStrings Uris Pool Trie.

(** A [*time.Ticker]: its period, and whether it still ticks. *)
Record Ticker := mkTicker { tk_period : Z; tk_running : bool }.

Record RouteRegistry := mkRegistry {
  byUri : gmap positive (Trie positive);
  byUri_root : positive;
  pools : gmap positive Pool;
  pruneStaleDropletsInterval : Z;
  dropletStaleThreshold : Z;
  ticker : option Ticker;
  timeOfLastUpdate : Z;
}.

Definition with_byUri (h : gmap positive (Trie positive)) (r : RouteRegistry) : RouteRegistry :=
  mkRegistry h (byUri_root r) (pools r) (pruneStaleDropletsInterval r) (dropletStaleThreshold r)
    (ticker r) (timeOfLastUpdate r).
Definition with_pools (m : gmap positive Pool) (r : RouteRegistry) : RouteRegistry :=
  mkRegistry (byUri r) (byUri_root r) m (pruneStaleDropletsInterval r) (dropletStaleThreshold r)
    (ticker r) (timeOfLastUpdate r).
Definition with_ticker (t : option Ticker) (r : RouteRegistry) : RouteRegistry :=
  mkRegistry (byUri r) (byUri_root r) (pools r) (pruneStaleDropletsInterval r) (dropletStaleThreshold r)
    t (timeOfLastUpdate r).
Definition with_lastUpdate (t : Z) (r : RouteRegistry) : RouteRegistry :=
  mkRegistry (byUri r) (byUri_root r) (pools r) (pruneStaleDropletsInterval r) (dropletStaleThreshold r)
    (ticker r) t.

(** The zero [time.Time], January 1 of year 1, in nanoseconds of Unix time. *)
Definition zero_time : Z := -62135596800 * Second.

Definition NewRouteRegistry (pruneInterval staleThreshold : Z) : RouteRegistry :=
  mkRegistry {[1%positive := NewTrie]} 1%positive ∅ pruneInterval staleThreshold None zero_time.

Definition pool_of (r : RouteRegistry) (v : positive) : res Pool := or_panic nil_deref (pools r !! v).

Definition parseContextPath (uri : Uri) : string :=
  let contextPath := "/" in
  let split := strings_SplitN2 (strings_TrimPrefix (Uri_String uri) "/") "/" in
  match split with
  | _ :: s1 :: _ => contextPath +:+ s1
  | _ => contextPath
  end.

(** [t] is the time read before the lock, [now] the one [Put] reads. *)
Definition Register (t now : Z) (uri0 : Uri) (endpoint : EndpointRef) (r : RouteRegistry)
    : res RouteRegistry :=
  let uri := RouteKey uri0 in
  found ← Find (byUri r) (byUri_root r) uri;
  rp ← match found with
       | Some pool => Ok (r, pool)
       | None =>
           let contextPath := parseContextPath uri in
           let pool := fresh_ptr (pools r) in
           let p := NewPool (Z.quot (dropletStaleThreshold r) 4) contextPath in
           hn ← Insert (byUri r) (byUri_root r) uri pool;
           Ok (with_byUri (fst hn) (with_pools (<[pool := p]> (pools r)) r), pool)
       end;
  let '(r1, pool) := rp in
  p ← pool_of r1 pool;
  bp ← Put now endpoint p;
  Ok (with_lastUpdate t (with_pools (<[pool := snd bp]> (pools r1)) r1)).

Definition Unregister (uri0 : Uri) (endpoint : EndpointRef) (r : RouteRegistry) : res RouteRegistry :=
  let uri := RouteKey uri0 in
  found ← Find (byUri r) (byUri_root r) uri;
  match found with
  | Some pool =>
      p ← pool_of r pool;
      bp ← Remove endpoint p;
      let r1 := with_pools (<[pool := snd bp]> (pools r)) r in
      if IsEmpty (snd bp)
      then bh ← Delete (byUri r1) (byUri_root r1) uri; Ok (with_byUri (snd bh) r1)
      else Ok r1
  | None => Ok r
  end.

(** [for !found && err == nil]: on an error the URI is the old one and is
    matched once more. *)
Fixpoint Lookup_loop (fuel : nat) (h : gmap positive (Trie positive)) (root : positive)
    (uri : Uri) (pool : option positive) (err : option string) : res (option positive) :=
  match pool, err with
  | None, None =>
      match fuel with
      | O => NoFuel
      | S fuel' =>
          let '(uri', err') := NextWildcard uri in
          pool' ← MatchUri h root uri';
          Lookup_loop fuel' h root uri' pool' err'
      end
  | _, _ => Ok pool
  end.

Definition Lookup (uri0 : Uri) (r : RouteRegistry) : res (option positive) :=
  let uri := RouteKey uri0 in
  pool ← MatchUri (byUri r) (byUri_root r) uri;
  Lookup_loop (S (S (wildcard_measure uri))) (byUri r) (byUri_root r) uri pool None.

Definition StartPruningCycle (r : RouteRegistry) : RouteRegistry :=
  if (0 <? pruneStaleDropletsInterval r)%Z
  then with_ticker (Some (mkTicker (pruneStaleDropletsInterval r) true)) r
  else r.

Definition StopPruningCycle (r : RouteRegistry) : RouteRegistry :=
  match ticker r with
  | Some t => with_ticker (Some (mkTicker (tk_period t) false)) r
  | None => r
  end.

Definition TimeOfLastUpdate (r : RouteRegistry) : Z := timeOfLastUpdate r.

Section ranged.
(** The order in which Go ranges over a map of children. *)
Context (range : gmap string positive → list (string * positive)).

Definition NumUris (r : RouteRegistry) : res nat := PoolCount range (byUri r) (byUri_root r).

Definition pool_addrs (r : RouteRegistry) (v : positive) : res (list string) :=
  p ← pool_of r v;
  l ← Each p;
  Ok (map (λ e : EndpointRef, CanonicalAddr e) l).

Definition NumEndpoints (r : RouteRegistry) : res nat :=
  EndpointCount range (pool_addrs r) (byUri r) (byUri_root r).

(** What [MarshalJSON] gives to the JSON encoder. *)
Definition routes_map (r : RouteRegistry) : res (gmap string positive) :=
  ToMap range (byUri r) (byUri_root r).

Definition pool_is_empty (r : RouteRegistry) (v : positive) : bool :=
  match pools r !! v with
  | Some p => IsEmpty p
  | None => true
  end.

(** The callback of [pruneStaleDroplets] at node [t]; [now v] is the time
    read when pool [v] is pruned. *)
Definition prune_node (now : positive → Z) (r : RouteRegistry) (t : positive) : res RouteRegistry :=
  nd ← node_at (byUri r) t;
  v ← or_panic nil_deref (TPool nd);
  p ← pool_of r v;
  p' ← PruneEndpoints (now v) (dropletStaleThreshold r) p;
  let r1 := with_pools (<[v := p']> (pools r)) r in
  h ← Snip (pool_is_empty r1) t (byUri r1);
  Ok (with_byUri h r1).

Definition pruneStaleDroplets (now : positive → Z) (r : RouteRegistry) : res RouteRegistry :=
  EachNodeWithPool range byUri (S (size (byUri r))) (prune_node now) r (byUri_root r).

(** One tick of the pruning cycle: the number of routes and the milliseconds
    since the last update, given to the reporter. *)
Definition pruning_tick (now : positive → Z) (end_time : Z) (r : RouteRegistry)
    : res (RouteRegistry * (nat * Z)) :=
  r' ← pruneStaleDroplets now r;
  n ← NumUris r';
  let ms := (Z.quot (time_Sub end_time (TimeOfLastUpdate r')) Millisecond `mod` 2 ^ 64)%Z in
  Ok (r', (n, ms)).
End ranged.
