(* ===== verification/RegistrySpec.v ===== *)
(** * Invariant and contract of the route registry

    To its clients the registry is a routing table: a function from paths
    (lists of segments) to the contents of the pool registered there.
    [Register], [Unregister] and [pruneStaleDroplets] are shown to update that
    table and nothing else, and [Lookup] to search it. *)

From S2P Require Import Prelude GoStrings Uris Pool PoolSpec Trie TrieSpec Registry.

Definition pool_ref (r : RouteRegistry) (q : list string) : option positive :=
  pool_at (byUri r) (byUri_root r) q.

(** The routing table. *)
Definition routes (r : RouteRegistry) (q : list string) : gmap string view :=
  match pool_ref r q with
  | Some v => match pools r !! v with Some p => contents p | None => ∅ end
  | None => ∅
  end.

Record registry_wf (r : RouteRegistry) : Prop := {
  reg_trie : trie_wf (byUri r) (byUri_root r);
  reg_tidy : trie_tidy (byUri r) (byUri_root r);
  reg_pools : ∀ q v, pool_ref r q = Some v → ∃ p, pools r !! v = Some p ∧ pool_wf p;
  reg_inj : ∀ q1 q2 v, pool_ref r q1 = Some v → pool_ref r q2 = Some v → q1 = q2;
}.

Lemma routes_Some r q v p : pool_ref r q = Some v → pools r !! v = Some p → routes r q = contents p.
Proof. unfold routes. by intros -> ->. Qed.

Lemma routes_None r q : pool_ref r q = None → routes r q = ∅.
Proof. unfold routes. by intros ->. Qed.

(** Replacing one pool object changes the table at its path only. *)
Lemma write_pool r v p' q0 :
  registry_wf r → pool_ref r q0 = Some v → pool_wf p' →
  registry_wf (with_pools (<[v := p']> (pools r)) r) ∧
  ∀ q, routes (with_pools (<[v := p']> (pools r)) r) q =
       if bool_decide (q = q0) then contents p' else routes r q.
Proof.
  intros [Ht Hd Hp Hi] Hv Hwf'. split.
  - split; try done. intros q w Hw. cbn [pools with_pools].
    destruct (decide (v = w)) as [<-|Hne]; [rewrite lookup_insert_eq; eauto|].
    rewrite lookup_insert_ne by done. by eapply Hp.
  - intros q. unfold routes. change (pool_ref (with_pools _ r) q) with (pool_ref r q). cbn [pools with_pools].
    destruct (pool_ref r q) as [w|] eqn:Hw.
    + destruct (decide (v = w)) as [<-|Hne].
      * rewrite lookup_insert_eq, bool_decide_true; [done|]. by eapply Hi.
      * rewrite lookup_insert_ne, bool_decide_false; [done|congruence|done].
    + rewrite bool_decide_false; [done|congruence].
Qed.

Lemma NewRouteRegistry_wf i t :
  registry_wf (NewRouteRegistry i t) ∧ ∀ q, routes (NewRouteRegistry i t) q = ∅.
Proof.
  assert (∀ n s, child (byUri (NewRouteRegistry i t)) n s = None) as Hc.
  { intros n s. unfold child. simpl. destruct (decide (n = 1%positive)) as [->|Hne].
    - by rewrite lookup_singleton_eq.
    - by rewrite lookup_singleton_ne. }
  assert (∀ q, pool_ref (NewRouteRegistry i t) q = None) as Hp.
  { intros [|s q]; unfold pool_ref, pool_at; cbn [walk mbind option_bind].
    - simpl. by rewrite lookup_singleton_eq.
    - by rewrite Hc. }
  split; [split|].
  - split; [|intros n s c; by rewrite Hc]. eexists. simpl. by rewrite lookup_singleton_eq.
  - intros [|s p] n nd Hw Hne; [done|]. cbn [walk] in Hw. by rewrite Hc in Hw.
  - intros q v. by rewrite Hp.
  - intros q1 q2 v. by rewrite Hp.
  - intros q. apply routes_None, Hp.
Qed.

(** ** Pools that requests hold

    A request keeps the pool that [Lookup] gave it, also when the pool is taken
    out of the trie meanwhile.  Every pool object stays well formed, and one
    that is in the trie no more has no endpoints left. *)

Definition linked (r : RouteRegistry) (v : positive) : Prop := ∃ q, pool_ref r q = Some v.

Definition backed (r : RouteRegistry) : Prop :=
  ∀ v p, pools r !! v = Some p → pool_wf p ∧ (linked r v ∨ contents p = ∅).

(** Pool objects stay, and an object that was out of the trie stays out. *)
Record evolves (r r' : RouteRegistry) : Prop := {
  ev_backed : backed r → backed r';
  ev_alloc : ∀ v, is_Some (pools r !! v) → is_Some (pools r' !! v);
  ev_ref : ∀ q v, pool_ref r' q = Some v → is_Some (pools r !! v) → pool_ref r q = Some v;
}.

#[export] Instance evolves_preorder : PreOrder evolves.
Proof. split; [by intros r; split|]. intros r1 r2 r3 [B1 A1 R1] [B2 A2 R2]. split; auto. Qed.

Lemma evolves_write r v p p' :
  pools r !! v = Some p → pool_wf p' → (linked r v ∨ contents p' = ∅) →
  evolves r (with_pools (<[v := p']> (pools r)) r).
Proof.
  intros Hv Hwf' Hl. split; [| |done]; cbn [pools with_pools].
  - intros HB w x. cbn [pools with_pools]. intros [[<- <-]|[_ Hx]]%lookup_insert_Some; [by split|]. apply (HB w x Hx).
  - intros w Hw. destruct (decide (v = w)) as [<-|]; [by rewrite lookup_insert_eq|by rewrite lookup_insert_ne].
Qed.

(** Cutting nodes whose pools are empty. *)
Lemma evolves_cut r h :
  (∀ q, pool_ref (with_byUri h r) q = pool_ref r q ∨
        (pool_ref (with_byUri h r) q = None ∧ ∀ v p, pool_ref r q = Some v → pools r !! v = Some p → contents p = ∅)) →
  evolves r (with_byUri h r).
Proof.
  intros Hcut. split; cbn [pools with_byUri]; [|done|].
  - intros HB v p Hv. destruct (HB v p Hv) as [Hwf [[q Hq]|He]]; (split; [done|]); [|by right].
    destruct (Hcut q) as [Hq'|[_ He]]; [left; exists q; by rewrite Hq'|right; by eapply He].
  - intros q v Hq _. destruct (Hcut q) as [<-|[Hn _]]; [done|congruence].
Qed.

Lemma evolves_lastUpdate t r : evolves r (with_lastUpdate t r).
Proof. by split. Qed.

(** ** Register *)

(** Inserting a fresh empty pool at a free path. *)
Lemma insert_pool r uri p0 :
  registry_wf r → pool_ref r (segments uri) = None → pool_wf p0 → contents p0 = ∅ →
  ∃ h n, Insert (byUri r) (byUri_root r) uri (fresh_ptr (pools r)) = Ok (h, n) ∧
    let r1 := with_byUri h (with_pools (<[fresh_ptr (pools r) := p0]> (pools r)) r) in
    registry_wf r1 ∧ pool_ref r1 (segments uri) = Some (fresh_ptr (pools r))
    ∧ (∀ q, routes r1 q = routes r q) ∧ evolves r r1.
Proof.
  intros [Ht Hd Hp Hi] Hnone Hp0 Hempty.
  destruct (Insert_spec (byUri r) (byUri_root r) uri (fresh_ptr (pools r)) Ht)
    as (h & n & -> & Ht' & Hpool & Hd'). exists h, n. split; [done|]. intros r1.
  assert (∀ q, pool_ref r1 q = if bool_decide (q = segments uri)
                               then Some (fresh_ptr (pools r)) else pool_ref r q) as Href by apply Hpool.
  assert (∀ q v, pool_ref r q = Some v → v ≠ fresh_ptr (pools r)) as Hfresh.
  { intros q v Hv ->. destruct (Hp _ _ Hv) as (p & Hpp & _). by rewrite fresh_ptr_None in Hpp. }
  split; [split; [done|by apply Hd'| |]|split_and!].
  - intros q v. rewrite Href. cbn [pools r1 with_byUri with_pools]. case_bool_decide as Hq.
    + intros [= <-]. rewrite lookup_insert_eq. eauto.
    + intros Hv. rewrite lookup_insert_ne by (apply not_eq_sym; by eapply Hfresh). by eapply Hp.
  - intros q1 q2 v. rewrite !Href.
    case_bool_decide as H1; case_bool_decide as H2; intros Hv1 Hv2; [congruence| | |by eapply Hi].
    + injection Hv1 as <-. by apply Hfresh in Hv2.
    + injection Hv2 as <-. by apply Hfresh in Hv1.
  - rewrite Href. by rewrite bool_decide_true.
  - intros q. unfold routes. rewrite Href. cbn [pools r1 with_byUri with_pools]. case_bool_decide as Hq.
    + subst q. by rewrite lookup_insert_eq, Hnone.
    + destruct (pool_ref r q) as [v|] eqn:Hv; [|done].
      rewrite lookup_insert_ne by (apply not_eq_sym; by eapply Hfresh). done.
  - split; cbn [pools r1 with_byUri with_pools].
    + intros HB v x. cbn [pools r1 with_byUri with_pools]. intros [[<- <-]|[_ Hx]]%lookup_insert_Some; [by split; [|right]|].
      destruct (HB v x Hx) as [Hwf [[q Hq]|He]]; (split; [done|]); [left; exists q|by right].
      rewrite Href, bool_decide_false; [done|]. intros ->. congruence.
    + intros v [x Hx]. rewrite lookup_insert_is_Some. right. split; [|eauto]. intros <-. by rewrite fresh_ptr_None in Hx.
    + intros q v. rewrite Href. case_bool_decide as Hq; [|done]. intros [= <-] [x Hx]. by rewrite fresh_ptr_None in Hx.
Qed.

Lemma Register_spec t now uri (e : EndpointRef) r :
  registry_wf r → wf_endpoint e →
  ∃ r', Register t now uri e r = Ok r' ∧ registry_wf r'
    ∧ (∀ q, routes r' q = if bool_decide (q = segments (RouteKey uri))
                          then put_view now e (routes r q) else routes r q)
    ∧ timeOfLastUpdate r' = t ∧ dropletStaleThreshold r' = dropletStaleThreshold r ∧ evolves r r'.
Proof.
  intros Hwf He. unfold Register. rewrite Find_spec by apply Hwf. cbn [mbind res_mbind].
  change (pool_at (byUri r) (byUri_root r)) with (pool_ref r).
  (* the pool the endpoint goes to, in a registry with the same table *)
  assert (∃ r1 v,
    match pool_ref r (segments (RouteKey uri)) with
    | Some pool => Ok (r, pool)
    | None =>
        Insert (byUri r) (byUri_root r) (RouteKey uri) (fresh_ptr (pools r)) ≫= λ hn,
        Ok (with_byUri (fst hn)
              (with_pools (<[fresh_ptr (pools r) :=
                 NewPool (Z.quot (dropletStaleThreshold r) 4) (parseContextPath (RouteKey uri))]> (pools r)) r),
            fresh_ptr (pools r))
    end = Ok (r1, v) ∧ registry_wf r1 ∧ pool_ref r1 (segments (RouteKey uri)) = Some v
    ∧ (∀ q, routes r1 q = routes r q) ∧ dropletStaleThreshold r1 = dropletStaleThreshold r ∧ evolves r r1)
    as (r1 & v & -> & Hwf1 & Hv & Hroutes & Hthr & Hev).
  { destruct (pool_ref r (segments (RouteKey uri))) as [v|] eqn:Hv; [by exists r, v; split_and!|].
    destruct (insert_pool r (RouteKey uri)
      (NewPool (Z.quot (dropletStaleThreshold r) 4) (parseContextPath (RouteKey uri))))
      as (h & n & -> & Hwf1 & Hr1 & Hq1 & Hev); [done|done|apply NewPool_wf|apply NewPool_contents|].
    simpl. do 2 eexists. split; [done|]. by split_and!. }
  cbn [mbind res_mbind]. destruct (reg_pools r1 Hwf1 _ _ Hv) as (p & Hp & Hpwf).
  unfold pool_of. rewrite Hp. cbn [or_panic mbind res_mbind].
  destruct (Put_spec now e p Hpwf He) as (p' & -> & Hpwf' & Hc & _). cbn [mbind res_mbind snd].
  eexists. split; [done|]. destruct (write_pool r1 v p' _ Hwf1 Hv Hpwf') as [Hwf2 Hr2].
  split; [by destruct Hwf2|]. split_and!; try done.
  2: { etransitivity; [exact Hev|]. etransitivity; [|apply evolves_lastUpdate].
       apply (evolves_write r1 v p); [done..|]. left. by eexists. }
  intros q. change (routes (with_lastUpdate t ?x) q) with (routes x q). rewrite Hr2.
  case_bool_decide as Hq; [|apply Hroutes]. subst q. rewrite <- Hroutes, Hc.
  by rewrite (routes_Some r1 _ v p).
Qed.

(** ** Unregister *)

Lemma delete_route r uri v p :
  registry_wf r → pool_ref r (segments uri) = Some v → pools r !! v = Some p → contents p = ∅ →
  ∃ h, Delete (byUri r) (byUri_root r) uri = Ok (true, h) ∧ registry_wf (with_byUri h r)
    ∧ (∀ q, routes (with_byUri h r) q = routes r q) ∧ evolves r (with_byUri h r).
Proof.
  intros [Ht Hd Hp Hi] Hv Hpv Hempty. pose proof Hv as Hv'.
  apply pool_at_Some in Hv' as (n & nd & Hw & _).
  destruct (Delete_spec (byUri r) (byUri_root r) uri n Ht Hw Hd) as (h & -> & Ht' & Hd' & Hpool).
  exists h. split; [done|].
  assert (∀ q w, pool_ref (with_byUri h r) q = Some w → pool_ref r q = Some w) as Hsub.
  { intros q w. unfold pool_ref. cbn. rewrite Hpool. by case_bool_decide. }
  split; [split; [done|done| |]|split].
  - intros q w Hw'. eapply Hp. by apply Hsub.
  - intros q1 q2 w H1 H2. apply (Hi _ _ w); by apply Hsub.
  - intros q. unfold routes, pool_ref. cbn [byUri byUri_root pools with_byUri]. rewrite Hpool.
    case_bool_decide as Hq; [|done]. subst q. unfold pool_ref in Hv. by rewrite Hv, Hpv.
  - apply evolves_cut. intros q. unfold pool_ref at 1 3. cbn [byUri byUri_root with_byUri]. rewrite Hpool.
    case_bool_decide as Hq; [|by left]. subst q. right. split; [done|]. intros w x. rewrite Hv. congruence.
Qed.

Lemma Unregister_spec uri (e : EndpointRef) r :
  registry_wf r → wf_endpoint e →
  ∃ r', Unregister uri e r = Ok r' ∧ registry_wf r'
    ∧ (∀ q, routes r' q = if bool_decide (q = segments (RouteKey uri))
                          then delete (addr e) (routes r q) else routes r q)
    ∧ (routes r' (segments (RouteKey uri)) = ∅ → pool_ref r' (segments (RouteKey uri)) = None)
    ∧ timeOfLastUpdate r' = timeOfLastUpdate r ∧ dropletStaleThreshold r' = dropletStaleThreshold r
    ∧ evolves r r'.
Proof.
  intros Hwf He. unfold Unregister. rewrite Find_spec by apply Hwf. cbn [mbind res_mbind].
  change (pool_at (byUri r) (byUri_root r)) with (pool_ref r).
  set (q0 := segments (RouteKey uri)).
  destruct (pool_ref r q0) as [v|] eqn:Hv.
  2: { exists r. split_and!; try done. intros q. case_bool_decide as Hq; [|done]. subst q.
       by rewrite routes_None, delete_empty. }
  destruct (reg_pools r Hwf _ _ Hv) as (p & Hp & Hpwf). unfold pool_of. rewrite Hp. cbn [or_panic mbind res_mbind].
  destruct (Remove_spec e p Hpwf He) as (p' & -> & Hpwf' & Hc & _). cbn [mbind res_mbind snd].
  destruct (write_pool r v p' q0 Hwf Hv Hpwf') as [Hwf1 Hr1].
  assert (evolves r (with_pools (<[v := p']> (pools r)) r)) as Hev1
    by (apply (evolves_write r v p); [done..|]; left; by exists q0).
  set (r1 := with_pools (<[v := p']> (pools r)) r) in *.
  assert (∀ q, routes r1 q = if bool_decide (q = q0) then delete (addr e) (routes r q) else routes r q) as Htab.
  { intros q. rewrite Hr1. case_bool_decide as Hq; [|done]. subst q. by rewrite Hc, (routes_Some r q0 v p). }
  destruct (IsEmpty p') eqn:Hempty.
  - apply IsEmpty_spec in Hempty; [|done].
    assert (pools r1 !! v = Some p') as Hp' by apply lookup_insert_eq.
    destruct (delete_route r1 (RouteKey uri) v p' Hwf1 Hv Hp' Hempty) as (h & Hdel & Hwf2 & Hr2 & Hev2).
    rewrite Hdel. cbn [mbind res_mbind snd].
    eexists. split; [done|]. split_and!; try done.
    + intros q. by rewrite Hr2.
    + intros _. apply pool_at_Some in Hv as Hv'. destruct Hv' as (n & nd & Hw & _).
      destruct (Delete_spec (byUri r1) (byUri_root r1) (RouteKey uri) n) as (h' & Hdel' & _ & _ & Hpool);
        [apply Hwf1|done|apply Hwf1|].
      assert (h' = h) as -> by congruence. unfold pool_ref. cbn. rewrite Hpool. by rewrite bool_decide_true.
    + by etransitivity.
  - exists r1. split_and!; try done. intros Hq0. exfalso.
    rewrite Hr1, bool_decide_true in Hq0 by done.
    apply not_true_iff_false in Hempty. apply Hempty. by apply IsEmpty_spec.
Qed.

(** ** Lookup *)

(** The first URI of a list with a longest-prefix match. *)
Fixpoint first_match (f : list string → option positive) (us : list Uri) : option positive :=
  match us with
  | [] => None
  | u :: us' =>
      match best f [] (segments u) with
      | Some v => Some v
      | None => first_match f us'
      end
  end.

Lemma Lookup_loop_spec h root fuel : ∀ uri pool,
  trie_wf h root → wildcard_measure uri < fuel →
  pool = best (pool_at h root) [] (segments uri) →
  Lookup_loop (S fuel) h root uri pool None
  = Ok (first_match (pool_at h root) (uri :: wildcards uri)).
Proof.
  induction fuel as [|fuel IH]; intros uri pool Hwf Hm Hpool; [lia|].
  cbn [first_match]. rewrite <- Hpool.
  destruct pool as [v|]; [done|]. cbn [Lookup_loop].
  rewrite wildcards_step. destruct (NextWildcard uri) as [uri' [err|]] eqn:E.
  - assert (uri' = uri) as ->.
    { change uri' with (fst (uri', Some err)). rewrite <- E. apply NextWildcard_error. rewrite E. simpl.
      unfold NextWildcard in E. destruct (strings_IndexByte _ _); congruence. }
    rewrite MatchUri_spec by done. cbn [mbind res_mbind]. by rewrite <- Hpool.
  - pose proof (NextWildcard_decreases _ _ E) as Hdec.
    rewrite MatchUri_spec by done. cbn [mbind res_mbind]. apply IH; [done|lia|done].
Qed.

Lemma Lookup_spec uri r :
  registry_wf r →
  Lookup uri r = Ok (first_match (pool_ref r) (RouteKey uri :: wildcards (RouteKey uri))).
Proof.
  intros Hwf. unfold Lookup. rewrite MatchUri_spec by apply Hwf. cbn [mbind res_mbind].
  apply Lookup_loop_spec; [apply Hwf|lia|done].
Qed.
