(* ===== verification/PruneSpec.v ===== *)
(** * Pruning stale routes

    [pruneStaleDroplets] walks the trie and cuts nodes while it walks.  This
    file shows that the walk visits every pool whatever order Go ranges over
    the children in, that the routing table keeps exactly the endpoints that
    are not stale, and that no leaf is left with an empty pool. *)

From S2P Require Import Prelude GoStrings Uris Pool PoolSpec Trie TrieSpec Registry RegistrySpec.

(** The table entry at [q] after its pool has been pruned. *)
Definition prune_route (now : positive → Z) (r : RouteRegistry) (q : list string) : gmap string view :=
  match pool_ref r q with
  | Some v => filter (λ kv, view_stale (now v) (dropletStaleThreshold r) (snd kv) = false) (routes r q)
  | None => ∅
  end.

Definition leaf_at (r : RouteRegistry) (q : list string) : Prop :=
  ∃ n nd, walk (byUri r) (byUri_root r) q = Some n ∧ byUri r !! n = Some nd ∧ ChildNodes nd = ∅.

(** The effect of visiting the nodes at the paths in [D]. *)
Record pruned (now : positive → Z) (D : list string → Prop) (r r' : RouteRegistry) : Prop := {
  pr_wf : registry_wf r';
  pr_root : byUri_root r' = byUri_root r;
  pr_thr : dropletStaleThreshold r' = dropletStaleThreshold r;
  pr_last : timeOfLastUpdate r' = timeOfLastUpdate r;
  pr_shrinks : shrinks (byUri r) (byUri r') (byUri_root r);
  pr_ref : ∀ q v, pool_ref r' q = Some v → pool_ref r q = Some v;
  pr_in : ∀ q, D q → routes r' q = prune_route now r q;
  pr_out : ∀ q, ¬ D q → routes r' q = routes r q;
  pr_evolves : evolves r r';
  pr_leaf : ∀ q, leaf_at r' q → q ≠ [] → routes r' q ≠ ∅ ∨ (¬ D q ∧ leaf_at r q);
}.

Lemma prune_route_empty now r q : routes r q = ∅ → prune_route now r q = ∅.
Proof.
  intros H. unfold prune_route. destruct (pool_ref r q); [|done]. by rewrite H, map_filter_empty.
Qed.

Lemma pruned_refl now D r :
  registry_wf r → (∀ q, ¬ D q ∨ (routes r q = ∅ ∧ (q ≠ [] → ¬ leaf_at r q))) → pruned now D r r.
Proof.
  intros Hwf HD. split; try done; [apply shrinks_refl| |].
  - intros q Hq. destruct (HD q) as [?|[He _]]; [done|]. by rewrite prune_route_empty.
  - intros q Hl Hne. right. split; [|done]. destruct (HD q) as [|[_ H]]; [done|]. by apply H in Hne.
Qed.

Lemma prune_route_step now D r r1 q :
  pruned now D r r1 → ¬ D q → prune_route now r1 q = prune_route now r q.
Proof.
  intros HP Hq. pose proof (pr_out _ _ _ _ HP q Hq) as Hsame.
  destruct (pool_ref r1 q) as [v|] eqn:Hv.
  - pose proof (pr_ref _ _ _ _ HP _ _ Hv) as Hv0. unfold prune_route.
    by rewrite Hv, Hv0, Hsame, (pr_thr _ _ _ _ HP).
  - rewrite (prune_route_empty now r q); [unfold prune_route; by rewrite Hv|].
    rewrite <- Hsame. by apply routes_None.
Qed.

(** Visits of disjoint sets of paths compose. *)
Lemma pruned_trans now D1 D2 D r r1 r2 :
  (∀ q, D q ↔ D1 q ∨ D2 q) → (∀ q, D1 q → ¬ D2 q) → (∀ q, Decision (D1 q)) → (∀ q, Decision (D2 q)) →
  pruned now D1 r r1 → pruned now D2 r1 r2 → pruned now D r r2.
Proof.
  intros HD Hdisj Hdec1 Hdec2 H1 H2. split.
  - apply H2.
  - rewrite (pr_root _ _ _ _ H2). apply H1.
  - rewrite (pr_thr _ _ _ _ H2). apply H1.
  - rewrite (pr_last _ _ _ _ H2). apply H1.
  - eapply shrinks_trans; [apply H1|]. rewrite <- (pr_root _ _ _ _ H1). apply H2.
  - intros q v Hv. apply (pr_ref _ _ _ _ H1). by apply (pr_ref _ _ _ _ H2).
  - intros q [Hq|Hq]%HD.
    + rewrite (pr_out _ _ _ _ H2) by auto. by apply H1.
    + rewrite (pr_in _ _ _ _ H2) by done. eapply prune_route_step; [done|].
      intros Hq1. by apply (Hdisj q).
  - intros q Hq. rewrite (pr_out _ _ _ _ H2), (pr_out _ _ _ _ H1); [done|..]; rewrite HD in Hq; tauto.
  - etransitivity; [apply H1|apply H2].
  - intros q Hl Hne. destruct (pr_leaf _ _ _ _ H2 q Hl Hne) as [?|[Hn2 Hl1]]; [by left|].
    destruct (pr_leaf _ _ _ _ H1 q Hl1 Hne) as [Hr|[Hn1 Hl0]].
    + left. by rewrite (pr_out _ _ _ _ H2).
    + right. rewrite HD. tauto.
Qed.

(** ** One visit *)

Lemma pool_ref_leaf r q n nd w :
  walk (byUri r) (byUri_root r) q = Some n → byUri r !! n = Some nd → TPool nd = Some w →
  pool_ref r q = Some w.
Proof. intros Hw Hn Hv. apply pool_at_Some. eauto. Qed.

Lemma pool_is_empty_routes r q v :
  registry_wf r → pool_ref r q = Some v → pool_is_empty r v = true ↔ routes r q = ∅.
Proof.
  intros Hwf Hv. destruct (reg_pools r Hwf _ _ Hv) as (p & Hp & Hpwf).
  unfold pool_is_empty. rewrite Hp, (routes_Some r q v p) by done. by apply IsEmpty_spec.
Qed.

(** Snipping from a node keeps the table. *)
Lemma snip_registry r p n :
  registry_wf r → walk (byUri r) (byUri_root r) p = Some n →
  ∃ h, Snip (pool_is_empty r) n (byUri r) = Ok h ∧
    let r' := with_byUri h r in
    registry_wf r' ∧ shrinks (byUri r) h (byUri_root r)
    ∧ (∀ q v, pool_ref r' q = Some v → pool_ref r q = Some v)
    ∧ (∀ q, routes r' q = routes r q)
    ∧ (∀ q, leaf_at r' q → q ≠ [] → routes r' q ≠ ∅ ∨ (q ≠ p ∧ leaf_at r q)) ∧ evolves r r'.
Proof.
  intros Hwf Hp. destruct (Snip_spec (pool_is_empty r) (byUri r) (byUri_root r) p n) as (h & -> & Hs);
    [apply Hwf|done|]. exists h. split; [done|]. intros r'. destruct Hs as [Hwf' Hshr Hpool Htidy].
  assert (∀ q v, pool_ref r' q = Some v → pool_ref r q = Some v) as Href.
  { intros q v Hv. change (pool_at h (byUri_root r) q = Some v) in Hv. unfold pool_ref.
    destruct (Hpool q) as [Heq|[Heq _]]; congruence. }
  assert (∀ q, routes r' q = routes r q) as Hroutes.
  { intros q. destruct (Hpool q) as [Heq|[Heq Hdrop]].
    - unfold routes, pool_ref. cbn. by rewrite Heq.
    - rewrite (routes_None r' q) by done. destruct (pool_ref r q) as [v|] eqn:Hv; [|by rewrite routes_None].
      symmetry. apply (pool_is_empty_routes r q v); [done|done|]. by apply Hdrop. }
  assert (∀ q, leaf_at r' q → q ≠ [] → routes r' q ≠ ∅ ∨ (q ≠ p ∧ leaf_at r q)) as Hleaf.
  { intros q (m & md & Hm & Hmd & Hl) Hne. destruct (Htidy q m md Hm Hne Hmd Hl) as [(v & Hv & He)|[Hqp Hold]].
    - left. rewrite Hroutes. pose proof (Href q v (pool_ref_leaf r' q m md v Hm Hmd Hv)) as Hv0.
      intros Hr. apply (pool_is_empty_routes r q v Hwf Hv0) in Hr. congruence.
    - right. split; [done|]. exists m, md. split_and!; try done. by apply (shr_walk _ _ _ Hshr). }
  assert (evolves r r') as Hev.
  { apply evolves_cut. intros q. destruct (Hpool q) as [Heq|[Heq Hdrop]]; [by left|right]. split; [done|].
    intros v x Hv Hx. rewrite <- (routes_Some r q v x) by done. apply (pool_is_empty_routes r q v Hwf Hv). by apply Hdrop. }
  split_and!; try done. split; [done| | |].
  - intros q m md Hm Hne Hmd Hl.
    destruct (Htidy q m md Hm Hne Hmd Hl) as [(v & Hv & _)|[_ Hold]]; [eauto|].
    apply (reg_tidy r Hwf q m md); try done. by apply (shr_walk _ _ _ Hshr).
  - intros q v Hv. apply (reg_pools r Hwf q). by apply Href.
  - intros q1 q2 v H1 H2. apply (reg_inj r Hwf _ _ v); by apply Href.
Qed.

Lemma prune_node_spec now r p n nd v :
  registry_wf r → walk (byUri r) (byUri_root r) p = Some n → byUri r !! n = Some nd → TPool nd = Some v →
  ∃ r', prune_node now r n = Ok r' ∧ pruned now (λ q, q = p) r r'.
Proof.
  intros Hwf Hp Hn Hv. unfold prune_node, node_at. rewrite Hn. cbn [or_panic mbind res_mbind].
  rewrite Hv. cbn [or_panic mbind res_mbind]. pose proof (pool_ref_leaf r p n nd v Hp Hn Hv) as Href.
  destruct (reg_pools r Hwf _ _ Href) as (pl & Hpl & Hplwf). unfold pool_of. rewrite Hpl. cbn [or_panic mbind res_mbind].
  destruct (PruneEndpoints_spec (now v) (dropletStaleThreshold r) pl Hplwf) as (pl' & -> & Hwf' & Hc & _).
  cbn [mbind res_mbind]. destruct (write_pool r v pl' p Hwf Href Hwf') as [Hwf1 Hr1].
  set (r1 := with_pools (<[v := pl']> (pools r)) r) in *.
  destruct (snip_registry r1 p n Hwf1 Hp) as (h & -> & Hwf2 & Hshr & Hsub & Hr2 & Hleaf & Hev).
  cbn [mbind res_mbind]. eexists. split; [done|]. split; try done.
  - intros q ->. rewrite Hr2, Hr1, bool_decide_true by done. unfold prune_route.
    by rewrite Href, Hc, (routes_Some r p v pl).
  - intros q Hq. by rewrite Hr2, Hr1, bool_decide_false.
  - etransitivity; [|exact Hev]. apply (evolves_write r v pl); [done..|]. left. by exists p.
Qed.

(** ** The walk *)

Lemma pruned_iff now D D' r r' : (∀ q, D q ↔ D' q) → pruned now D r r' → pruned now D' r r'.
Proof.
  intros HD HP. split; try apply HP.
  - intros q Hq. apply HP. by apply HD.
  - intros q Hq. apply HP. by rewrite HD.
  - intros q Hl Hne. rewrite <- HD. by apply HP.
Qed.

(** Visiting more paths where there is nothing to visit. *)
Lemma pruned_more now D D' r r' :
  (∀ q, Decision (D q)) → (∀ q, Decision (D' q)) → (∀ q, D q → D' q) → pruned now D r r' →
  (∀ q, D' q → ¬ D q → q ≠ [] ∧ walk (byUri r') (byUri_root r') q = None) →
  pruned now D' r r'.
Proof.
  intros Hdec Hdec' Hsub HP Hnone.
  eapply (pruned_trans now D (λ q, D' q ∧ ¬ D q)); [|tauto|apply _..|done|].
  - intros q. destruct (Hdec q); naive_solver.
  - apply pruned_refl; [apply HP|]. intros q. destruct (Hdec q) as [?|HnD]; [naive_solver|].
    destruct (Hdec' q) as [HD'|]; [|naive_solver].
    destruct (Hnone q HD' HnD) as [Hne Hw]. right. split.
    + apply routes_None. unfold pool_ref, pool_at. by rewrite Hw.
    + intros _ (n & nd & Hn & _). congruence.
Qed.

(** The paths visited when the children [segs] of [p] have been visited. *)
Definition visited (p : list string) (segs : list string) (q : list string) : Prop :=
  q = p ∨ Exists (λ s, p ++ [s] `prefix_of` q) segs.

#[local] Instance visited_dec p segs q : Decision (visited p segs q).
Proof. unfold visited. apply _. Defined.

Lemma visited_snoc p segs s q : visited p (segs ++ [s]) q ↔ visited p segs q ∨ p ++ [s] `prefix_of` q.
Proof. unfold visited. rewrite Exists_app, Exists_cons, Exists_nil. tauto. Qed.

Section walk.
Context (range : gmap string positive → list (string * positive)).
Context (Hrange : ∀ m, range m ≡ₚ map_to_list m).
Context (now : positive → Z).

Lemma range_NoDup m : NoDup (range m).*1.
Proof. rewrite Hrange. apply NoDup_fst_map_to_list. Qed.

Lemma in_range m s c : (s, c) ∈ range m ↔ m !! s = Some c.
Proof. rewrite Hrange. apply elem_of_map_to_list. Qed.

Lemma pruned_alloc r r1 D p n :
  pruned now D r r1 → walk (byUri r) (byUri_root r) p = Some n → ∃ nd1, byUri r1 !! n = Some nd1.
Proof.
  intros HP Hp. pose proof (shr_gone _ _ _ (pr_shrinks _ _ _ _ HP) p n Hp) as [Hw|(nd & ? & _)]; [|eauto].
  rewrite <- (pr_root _ _ _ _ HP) in Hw. eapply walk_alloc; [apply HP|done].
Qed.

(** The visit of a node, with or without a pool. *)
Lemma visit_spec r p n nd :
  registry_wf r → walk (byUri r) (byUri_root r) p = Some n → byUri r !! n = Some nd →
  ∃ r1, match TPool nd with Some _ => prune_node now r n | None => Ok r end = Ok r1
    ∧ pruned now (λ q, q = p) r r1.
Proof.
  intros Hwf Hp Hn. destruct (TPool nd) as [v|] eqn:Hv; [by eapply prune_node_spec|].
  exists r. split; [done|]. apply pruned_refl; [done|]. intros q.
  destruct (decide (q = p)) as [->|]; [right|by left]. split.
  - apply routes_None. unfold pool_ref, pool_at. rewrite Hp. simpl. by rewrite Hn.
  - intros Hne (m & md & Hm & Hmd & Hl).
    destruct (reg_tidy r Hwf p m md Hm Hne Hmd Hl) as [? ?]. congruence.
Qed.

(** The loop over the children, given that the recursive calls prune the
    subtrees they are given. *)
Lemma children_loop r p n (body : RouteRegistry → positive → res RouteRegistry) :
  walk (byUri r) (byUri_root r) p = Some n →
  (∀ r1 s c, registry_wf r1 → byUri_root r1 = byUri_root r →
     size (byUri r1) = size (byUri r) →
     walk (byUri r1) (byUri_root r1) (p ++ [s]) = Some c →
     ∃ r2, body r1 c = Ok r2 ∧ pruned now (λ q, p ++ [s] `prefix_of` q) r1 r2) →
  ∀ (L2 : list (string * positive)) (L1 : list string) r1, NoDup (L1 ++ L2.*1) → pruned now (visited p L1) r r1 →
  ∃ r2, foldM (λ s' kc,
           nd' ← node_at (byUri s') n;
           match ChildNodes nd' !! fst kc with
           | Some child => body s' child
           | None => Ok s'
           end) r1 L2 = Ok r2
    ∧ pruned now (visited p (L1 ++ L2.*1)) r r2 ∧ shrinks (byUri r1) (byUri r2) (byUri_root r).
Proof.
  intros Hp Hbody L2. induction L2 as [|[s c0] L2 IH]; intros L1 r1 Hnd HP.
  { exists r1. rewrite app_nil_r. split_and!; [done..|apply shrinks_refl]. }
  cbn [foldM fst].
  destruct (pruned_alloc r r1 _ p n HP Hp) as [nd1 Hn1].
  rewrite (node_at_Some _ _ _ Hn1). cbn [mbind res_mbind].
  assert (s ∉ L1) as Hs. { apply NoDup_app in Hnd as (_ & Hd & _). intros Hin. apply (Hd s Hin). by left. }
  assert (∀ q, visited p L1 q → ¬ p ++ [s] `prefix_of` q) as Hdisj.
  { intros q [->|(s' & Hin & Hpre)%Exists_exists] Hq; [by apply snoc_not_prefix in Hq|].
    by rewrite (snoc_prefix_inj p s s' q) in Hs. }
  assert (∃ r2, match ChildNodes nd1 !! s with Some child => body r1 child | None => Ok r1 end = Ok r2
    ∧ pruned now (visited p (L1 ++ [s])) r r2 ∧ shrinks (byUri r1) (byUri r2) (byUri_root r))
    as (r2 & -> & HP2 & Hshr).
  { destruct (ChildNodes nd1 !! s) as [c|] eqn:Hc.
    - assert (walk (byUri r1) (byUri_root r1) (p ++ [s]) = Some c) as Hw.
      { rewrite walk_snoc, (pr_root _ _ _ _ HP).
        destruct (shr_gone _ _ _ (pr_shrinks _ _ _ _ HP) p n Hp) as [->|(nd & Hnd' & Hl)].
        - simpl. unfold child. by rewrite Hn1.
        - simplify_eq. by rewrite Hl, lookup_empty in Hc. }
      destruct (Hbody r1 s c) as (r2 & -> & HP2); [apply HP|apply HP|apply HP|done|].
      exists r2. split; [done|]. split; [|rewrite <- (pr_root _ _ _ _ HP); apply HP2].
      eapply (pruned_trans now (visited p L1)); [|done|apply _..|done|done].
      intros q. apply visited_snoc.
    - exists r1. split; [done|]. split; [|apply shrinks_refl]. eapply (pruned_more now (visited p L1)); [apply _..| |done|].
      + intros q Hq. apply visited_snoc. by left.
      + intros q Hq Hnq. apply visited_snoc in Hq as [?|[t ->]]; [done|]. split; [by destruct p|].
        rewrite walk_app, walk_snoc, (pr_root _ _ _ _ HP).
        destruct (walk (byUri r1) (byUri_root r) p) as [m|] eqn:Hm; [|done].
        apply (shr_walk _ _ _ (pr_shrinks _ _ _ _ HP)) in Hm. assert (m = n) as -> by congruence.
        simpl. unfold child. rewrite Hn1. simpl. by rewrite Hc. }
  cbn [mbind res_mbind]. destruct (IH (L1 ++ [s]) r2) as (r3 & -> & HP3 & Hshr3); [by rewrite <- app_assoc|done|].
  exists r3. rewrite <- app_assoc in HP3. split_and!; [done..|by eapply shrinks_trans].
Qed.

(** A node and everything below it. *)
Lemma each_prune_spec fuel : ∀ r p n,
  registry_wf r → walk (byUri r) (byUri_root r) p = Some n → size (byUri r) ≤ fuel + length p →
  ∃ r', EachNodeWithPool range byUri fuel (prune_node now) r n = Ok r'
    ∧ pruned now (λ q, p `prefix_of` q) r r'.
Proof.
  induction fuel as [|fuel IH]; intros r p n Hwf Hp Hfuel.
  { pose proof (walk_length _ _ _ _ (reg_trie r Hwf) Hp). simpl in Hfuel. lia. }
  cbn [EachNodeWithPool]. destruct (walk_alloc _ _ (reg_trie r Hwf) _ _ Hp) as [nd Hn].
  unfold node_at at 1. rewrite Hn. cbn [or_panic mbind res_mbind].
  destruct (visit_spec r p n nd Hwf Hp Hn) as (r1 & -> & HP1). cbn [mbind res_mbind].
  destruct (pruned_alloc r r1 _ p n HP1 Hp) as [nd1 Hn1].
  unfold range_children.
  rewrite (node_at_Some _ _ _ Hn1). cbn [mbind res_mbind].
  destruct (children_loop r p n (EachNodeWithPool range byUri fuel (prune_node now)) Hp) with
    (L2 := range (ChildNodes nd1)) (L1 := @nil string) (r1 := r1) as (r2 & Hr2 & HP2 & Hshr).
  - intros r' s c Hwf' Hroot Hsize Hc. apply IH; [done|done|].
    rewrite Hsize, length_app. simpl. lia.
  - simpl. by apply range_NoDup.
  - eapply pruned_iff; [|done]. intros q. unfold visited. rewrite Exists_nil. tauto.
  - exists r2. split; [done|]. simpl in HP2.
    eapply (pruned_more now (visited p (range (ChildNodes nd1)).*1)); [apply _..| |done|].
    + intros q [->|(s & _ & [t ->])%Exists_exists]; [done|]. rewrite <- app_assoc. by exists ([s] ++ t).
    + intros q [t ->] Hnv. destruct t as [|s t].
      { exfalso. apply Hnv. left. by rewrite app_nil_r. }
      split; [by destruct p|]. rewrite (pr_root _ _ _ _ HP2).
      destruct (walk (byUri r2) (byUri_root r) (p ++ s :: t)) as [m|] eqn:Hm; [exfalso|done].
      apply (shr_walk _ _ _ Hshr) in Hm. rewrite walk_app in Hm.
      destruct (walk (byUri r1) (byUri_root r) p) as [n'|] eqn:Hn'; [|done].
      apply (shr_walk _ _ _ (pr_shrinks _ _ _ _ HP1)) in Hn'. assert (n' = n) as -> by congruence.
      simpl in Hm. unfold child in Hm. rewrite Hn1 in Hm. simpl in Hm.
      destruct (ChildNodes nd1 !! s) as [c|] eqn:Hc; [|done].
      apply Hnv. right. apply Exists_exists. exists s. split.
      * apply list_elem_of_fmap. exists (s, c). split; [done|]. by apply in_range.
      * exists t. by rewrite <- app_assoc.
Qed.
End walk.

(** The whole pass: every pool of the table is pruned, in whatever order the
    children are ranged over, and no leaf with an empty pool stays. *)
Lemma pruneStaleDroplets_pruned range now r :
  (∀ m, range m ≡ₚ map_to_list m) → registry_wf r →
  ∃ r', pruneStaleDroplets range now r = Ok r' ∧ pruned now (λ _, True) r r'.
Proof.
  intros Hrange Hwf. destruct (each_prune_spec range Hrange now (S (size (byUri r))) r [] (byUri_root r))
    as (r' & Hr' & HP); [done|done|simpl; lia|].
  exists r'. split; [done|]. eapply pruned_iff; [|done]. intros q. split; [done|]. intros _. by exists q.
Qed.
