(* ===== verification/PoolTheorems.v ===== *)
(** * What endpoint pools guarantee

    Sequences of pool operations refine operations on a finite map; [next]
    deals the endpoints out in turn and avoids the ones that failed; the
    iterator of a request is sticky. *)

From S2P Require Import Prelude GoStrings Pool PoolSpec.

(** ** Operations as a state machine *)

Inductive pool_op :=
| OpPut (now : Z) (e : EndpointRef)
| OpRemove (e : EndpointRef)
| OpPrune (now thr : Z)
| OpNext (clock : nat → Z) (draw : nat)
| OpFailed (now : Z) (e : EndpointRef)
| OpMarkUpdated (t : Z).

Definition pool_step (p : Pool) (op : pool_op) : res Pool :=
  match op with
  | OpPut now e => bp ← Put now e p; Ok (snd bp)
  | OpRemove e => bp ← Remove e p; Ok (snd bp)
  | OpPrune now thr => PruneEndpoints now thr p
  | OpNext clock draw => rp ← next clock draw p; Ok (snd rp)
  | OpFailed now e => endpointFailed now e p
  | OpMarkUpdated t => Ok (MarkUpdated t p)
  end.

Definition pool_op_wf (op : pool_op) : Prop :=
  match op with
  | OpPut _ e | OpRemove e | OpFailed _ e => wf_endpoint e
  | _ => True
  end.

(** The same operations on the abstract contents.  Choosing an endpoint only
    clears failure marks: those of one endpoint, or all of them. *)
Inductive abs_step : pool_op → gmap string view → gmap string view → Prop :=
| abs_put now e m : abs_step (OpPut now e) m (put_view now e m)
| abs_remove e m : abs_step (OpRemove e) m (delete (addr e) m)
| abs_prune now thr m :
    abs_step (OpPrune now thr) m (filter (λ kv, view_stale now thr (snd kv) = false) m)
| abs_next_one clock draw a m :
    is_Some (m !! a) → abs_step (OpNext clock draw) m (alter (λ v, (fst v, None)) a m)
| abs_next_all clock draw m : abs_step (OpNext clock draw) m ((λ v, (fst v, None)) <$> m)
| abs_failed now e m : abs_step (OpFailed now e) m (alter (λ v, (fst v, Some now)) (addr e) m)
| abs_mark t m : abs_step (OpMarkUpdated t) m ((λ v, (fst (fst v), t, snd v)) <$> m).

Inductive abs_run : list pool_op → gmap string view → gmap string view → Prop :=
| abs_run_nil m : abs_run [] m m
| abs_run_cons op ops m m1 m2 : abs_step op m m1 → abs_run ops m1 m2 → abs_run (op :: ops) m m2.

Lemma next_empty clock draw p : endpoints p = [] → next clock draw p = Ok (None, p).
Proof. intros H. unfold next. by rewrite H. Qed.

Lemma empty_contents p : pool_wf p → endpoints p = [] → contents p = ∅.
Proof. intros Hwf H. apply IsEmpty_spec; [done|]. unfold IsEmpty. by rewrite H. Qed.

(** The new contents are given by [H], and one rule of [abs_step] applies. *)
Ltac sim_by H := simpl; eexists; split; [done|]; split; [done|]; rewrite H; constructor.

Lemma pool_step_sim p op :
  pool_wf p → pool_op_wf op →
  ∃ p', pool_step p op = Ok p' ∧ pool_wf p' ∧ abs_step op (contents p) (contents p').
Proof.
  intros Hwf Hop. destruct op as [now e|e|now thr|clock draw|now e|t]; simpl in *.
  - destruct (Put_spec now e p Hwf Hop) as (p' & -> & ? & Hc & _). sim_by Hc.
  - destruct (Remove_spec e p Hwf Hop) as (p' & -> & ? & Hc & _). sim_by Hc.
  - destruct (PruneEndpoints_spec now thr p Hwf) as (p' & -> & ? & Hc & _). sim_by Hc.
  - destruct (decide (endpoints p = [])) as [He|He].
    + rewrite next_empty by done. exists p. split_and!; try done.
      rewrite (empty_contents p Hwf He). rewrite <- (fmap_empty (λ v : view, (fst v, None))) at 2.
      apply abs_next_all.
    + destruct (next_spec clock draw p Hwf He) as (k & r & p' & -> & _ & _ & Hr).
      destruct Hr as (ptr & e & Hs & Hel & _ & _ & _ & _ & Hwf' & Hc). simpl.
      exists p'. split_and!; try done. rewrite Hc. case_bool_decide; [apply abs_next_all|].
      apply abs_next_one. exists (view_of e). apply contents_lookup; [done|].
      exists ptr, e. split_and!; try done. by eapply list_elem_of_lookup_2.
  - destruct (endpointFailed_spec now e p Hwf Hop) as (p' & -> & ? & Hc & _). sim_by Hc.
  - destruct (MarkUpdated_spec t p Hwf) as [? Hc]. sim_by Hc.
Qed.

Lemma pool_run_sim ops : ∀ p,
  pool_wf p → Forall pool_op_wf ops →
  ∃ p', foldM pool_step p ops = Ok p' ∧ pool_wf p' ∧ abs_run ops (contents p) (contents p').
Proof.
  induction ops as [|op ops IH]; intros p Hwf Hops; [eauto using abs_run|].
  inversion Hops; subst. destruct (pool_step_sim p op) as (p1 & Hs & Hwf1 & Ha); [done..|].
  destruct (IH p1) as (p2 & Hr & Hwf2 & Hb); [done..|].
  exists p2. cbn [foldM]. rewrite Hs. eauto using abs_run.
Qed.

(** C8: Whatever sequence of operations a new pool goes through, on endpoints
    whose private instance id has no colon, no operation panics or runs out of
    fuel, the slice, the map and the heap stay consistent, and the contents of
    the pool change exactly as the abstract operations on a finite map of
    endpoints prescribe.  An id with a colon can be the address of another
    endpoint, whose key in the index it then takes over; [colon_id_panics] shows
    what that leads to. *)
Theorem pool_refines_map retry path ops :
  Forall pool_op_wf ops →
  ∃ p', foldM pool_step (NewPool retry path) ops = Ok p' ∧ pool_wf p' ∧ abs_run ops ∅ (contents p').
Proof.
  intros Hops. rewrite <- (NewPool_contents retry path). apply pool_run_sim; [apply NewPool_wf|done].
Qed.

(** Sample back ends. *)
Definition ep1 : EndpointRef := NewEndpoint 1 "app" "10.0.0.1" 80 "id1" ∅ 120 "".
Definition ep2 : EndpointRef := NewEndpoint 2 "app" "10.0.0.2" 80 "id2" ∅ 0 "".
Definition ep3 : EndpointRef := NewEndpoint 3 "app" "10.0.0.3" 81 "id3" ∅ 0 "".

Lemma pool_refines_map_witness :
  ∃ p', foldM pool_step (NewPool 30 "/")
          [OpPut 5 ep1; OpPut 6 ep2; OpFailed 7 ep1; OpNext (λ _, 8%Z) 0; OpRemove ep2] = Ok p' ∧ pool_wf p'
     ∧ abs_run [OpPut 5 ep1; OpPut 6 ep2; OpFailed 7 ep1; OpNext (λ _, 8%Z) 0; OpRemove ep2] ∅ (contents p').
Proof.
  apply (pool_refines_map 30 "/"). repeat (constructor; [vm_compute; auto|]). constructor.
Defined.

(** The index has one name space for addresses and instance ids.  An endpoint
    whose id is the address of another one takes the other's place in the index:
    a few registrations and two unregistrations of one endpoint later [Remove]
    is asked to remove a slot that does not exist any more. *)
Definition colon_ops : list pool_op :=
  let e p port id := NewEndpoint p "app" "h" port id ∅ 0 "" in
  [OpPut 0 (e 1%positive 9%Z "x"); OpPut 0 (e 2%positive 1%Z "h:2"); OpPut 0 (e 3%positive 2%Z "z");
   OpRemove (e 4%positive 1%Z "h:2"); OpRemove (e 5%positive 1%Z "h:2")].

Example colon_id_panics : foldM pool_step (NewPool 30 "/") colon_ops = Panic out_of_range.
Proof. vm_compute. reflexivity. Qed.

(** ** Staleness *)

(** C32: Pruning keeps exactly the endpoints whose last registration is at most
    as old as their threshold, the smaller of the registry's threshold and the
    one the endpoint came with if that one is positive. *)
Theorem PruneEndpoints_keeps now thr p a e u f :
  pool_wf p → (0 < thr < 2 ^ 63)%Z → in_int64 (staleThreshold (ep e)) →
  contents p !! a = Some (e, u, f) →
  ∃ p', PruneEndpoints now thr p = Ok p' ∧
    (contents p' !! a = Some (e, u, f) ↔
     (now - u ≤ if decide (0 < staleThreshold (ep e))%Z then Z.min (staleThreshold (ep e)) thr else thr)%Z)
    ∧ (contents p' !! a = None ∨ contents p' !! a = Some (e, u, f)).
Proof.
  intros Hwf Hthr He Ha. destruct (PruneEndpoints_spec now thr p Hwf) as (p' & -> & _ & Hc & _).
  exists p'. split; [done|]. rewrite Hc, map_lookup_filter, Ha. cbn [mbind option_bind snd].
  assert (view_stale now thr (e, u, f) = false ↔
    (now - u ≤ if decide (0 < staleThreshold (ep e))%Z then Z.min (staleThreshold (ep e)) thr else thr)%Z) as Hs.
  { unfold view_stale, staleTime, time_Before, time_Add. cbn [el_endpoint].
    unfold in_int64 in *. rewrite Z.ltb_ge.
    destruct (Z.ltb_spec 0 (staleThreshold (ep e))), (Z.ltb_spec (staleThreshold (ep e)) thr),
      (decide (0 < staleThreshold (ep e))%Z); simpl;
      rewrite ?wrap64_id by (unfold in_int64; lia); lia. }
  rewrite <- Hs. destruct (view_stale now thr (e, u, f)); simpl; split; auto; by split.
Qed.

Lemma PruneEndpoints_keeps_witness :
  ∃ p p', Put 1000 ep1 (NewPool 30 "/") = Ok (true, p) ∧ PruneEndpoints (200 * Second) (300 * Second) p = Ok p' ∧
    (contents p' !! "10.0.0.1:80" = Some (ep1, 1000%Z, None) ↔
     (200 * Second - 1000 ≤ if decide (0 < staleThreshold (ep ep1))%Z
                            then Z.min (staleThreshold (ep ep1)) (300 * Second) else 300 * Second)%Z)
    ∧ (contents p' !! "10.0.0.1:80" = None ∨ contents p' !! "10.0.0.1:80" = Some (ep1, 1000%Z, None)).
Proof.
  destruct (Put_spec 1000 ep1 (NewPool 30 "/")) as (p & Hp & Hwf & Hc & _);
    [apply NewPool_wf|by vm_compute|].
  destruct (PruneEndpoints_keeps (200 * Second) (300 * Second) p "10.0.0.1:80" ep1 1000 None)
    as (p' & Hp' & Hk); [done|unfold Second; lia|unfold in_int64; vm_compute; by split|by rewrite Hc|].
  exists p, p'. by rewrite Hp.
Defined.

(** ** Round robin *)

(** Without a failure mark at the start slot, [next] only moves on. *)
Lemma next_unfailed clock draw p ptr e :
  (-1 ≤ nextIdx p)%Z → endpoints p !! start_slot draw p = Some ptr → elems p !! ptr = Some e →
  failedAt e = None →
  next clock draw p
  = Ok (Some (el_endpoint e),
        with_nextIdx (Z.of_nat (rr_succ (length (endpoints p)) (start_slot draw p))) p).
Proof.
  intros Hn Hs He Hf. pose proof (lookup_lt_Some _ _ _ Hs) as Hlt.
  rewrite next_unfold; [|done|by destruct (endpoints p)].
  rewrite (next_loop_hit _ _ _ _ _ ptr e); [|done|done|by unfold available; rewrite Hf].
  simpl. replace (set_failedAt None e) with e by (destruct e; simpl in *; by subst).
  destruct p as [m es idx path rt ni]. unfold with_elems, with_nextIdx. simpl in *. by rewrite insert_id.
Qed.

(** [m] calls of [next]. *)
Fixpoint next_n (m : nat) (clock : nat → Z) (draw : nat) (p : Pool) : res (list EndpointRef * Pool) :=
  match m with
  | O => Ok ([], p)
  | S m' =>
      rp ← next clock draw p;
      r ← or_panic nil_deref (fst rp);
      lp ← next_n m' clock draw (snd rp);
      Ok (r :: fst lp, snd lp)
  end.

Definition no_failures (p : Pool) : Prop :=
  Forall (λ ptr, from_option failedAt None (elems p !! ptr) = None) (endpoints p).

Lemma no_failures_elem p ptr e :
  no_failures p → ptr ∈ endpoints p → elems p !! ptr = Some e → failedAt e = None.
Proof. intros Hn Hin He. pose proof (proj1 (Forall_forall _ _) Hn ptr Hin) as H. cbv beta in H. by rewrite He in H. Qed.

Lemma next_n_rotates m clock draw : ∀ p l,
  pool_wf p → no_failures p → (0 ≤ nextIdx p < Z.of_nat (length (endpoints p)))%Z →
  m ≤ length (endpoints p) → Each p = Ok l →
  ∃ l' p', next_n m clock draw p = Ok (l', p') ∧ length l' = m ∧
    ∀ k, k < m → l' !! k = l !! rr_slot (length (endpoints p)) (Z.to_nat (nextIdx p)) k.
Proof.
  induction m as [|m IH]; intros p l Hwf Hnf Hidx Hm Hl.
  { exists [], p. split_and!; [done..|lia]. }
  set (n := length (endpoints p)) in *. set (s := Z.to_nat (nextIdx p)).
  assert (start_slot draw p = s) as Hs.
  { unfold start_slot. fold n. destruct (Z.eqb_spec (nextIdx p) (-1)); [lia|].
    destruct (Z.leb_spec (Z.of_nat n) (nextIdx p)); [lia|done]. }
  destruct (lookup_lt_is_Some_2 (endpoints p) s) as [ptr Hptr]; [fold n; lia|].
  destruct (slice_elem p Hwf ptr) as (e & He & _); [by eapply list_elem_of_lookup_2|].
  cbn [next_n]. rewrite (next_unfailed clock draw p ptr e);
    [|lia|by rewrite Hs|done|by eapply no_failures_elem; [|eapply list_elem_of_lookup_2|]].
  rewrite Hs. fold n. cbn [mbind res_mbind or_panic fst snd].
  set (p1 := with_nextIdx (Z.of_nat (rr_succ n s)) p).
  assert (rr_succ n s < n) as Hlt by (unfold rr_succ; case_bool_decide; lia).
  destruct (IH p1 l) as (l' & p' & -> & Hlen & Hl'); [|done| |change (m ≤ n); lia|done|].
  { apply (wf_same_links p (elems p)); [done..|lia]. }
  { simpl. fold n. lia. }
  simpl. exists (el_endpoint e :: l'), p'. split_and!; [done|simpl; congruence|].
  destruct (Each_spec p Hwf) as (l0 & Hl0 & _ & Hslots). assert (l0 = l) as -> by congruence.
  intros [|k] Hk; simpl.
  - replace (rr_slot n s 0) with s; [symmetry; by eapply Hslots|].
    unfold rr_slot. destruct (Nat.ltb_spec (s + 0) n); lia.
  - rewrite Hl' by lia. f_equal. change (endpoints p1) with (endpoints p). fold n.
    change (nextIdx p1) with (Z.of_nat (rr_succ n s)). rewrite Nat2Z.id.
    unfold rr_slot, rr_succ. destruct (Nat.ltb_spec (s + S k) n);
      (case_bool_decide; [destruct (Nat.ltb_spec (0 + k) n)|destruct (Nat.ltb_spec (S s + k) n)]); lia.
Qed.

(** The first call settles where the round starts. *)
Lemma next_settles clock draw p :
  pool_wf p → endpoints p ≠ [] → next clock draw p = next clock draw (with_nextIdx (Z.of_nat (start_slot draw p)) p).
Proof.
  intros Hwf Hne. pose proof (start_slot_lt draw p (wf_next p Hwf) Hne) as Hs. set (q := with_nextIdx _ p).
  assert (start_slot draw q = start_slot draw p) as Hq.
  { unfold start_slot at 1. cbn. destruct (Z.eqb_spec (Z.of_nat (start_slot draw p)) (-1)); [lia|].
    destruct (Z.leb_spec (Z.of_nat (length (endpoints p))) (Z.of_nat (start_slot draw p))); lia. }
  rewrite (next_unfold _ _ p), (next_unfold _ _ q); [by rewrite Hq|cbn; lia|done|apply Hwf|done].
Qed.

Lemma next_n_settles m clock draw p :
  pool_wf p → endpoints p ≠ [] →
  next_n (S m) clock draw p = next_n (S m) clock draw (with_nextIdx (Z.of_nat (start_slot draw p)) p).
Proof. intros Hwf Hne. cbn [next_n]. by rewrite <- next_settles. Qed.

Lemma rotation_lookup {A} (l : list A) s k :
  s < length l → k < length l → (drop s l ++ take s l) !! k = l !! rr_slot (length l) s k.
Proof.
  intros Hs Hk. unfold rr_slot. destruct (Nat.ltb_spec (s + k) (length l)).
  - rewrite lookup_app_l by (rewrite length_drop; lia). by rewrite lookup_drop.
  - rewrite lookup_app_r, length_drop by (rewrite length_drop; lia). rewrite lookup_take_lt by lia. f_equal. lia.
Qed.

(** C22: Fairness of the load balancing.  In a consistent pool none of whose
    endpoints is marked as failed, as many calls of [next] as there are
    endpoints return every endpoint exactly once, in slice order.  They start
    from the current position, from a random one in a pool that has not been
    used yet, and from the first if the position was left behind by removals. *)
Theorem next_is_fair clock draw p l :
  pool_wf p → no_failures p → Each p = Ok l →
  ∃ s p', next_n (length (endpoints p)) clock draw p = Ok (drop s l ++ take s l, p')
    ∧ (nextIdx p = (-1)%Z → s = draw mod length (endpoints p))
    ∧ ((0 ≤ nextIdx p < Z.of_nat (length (endpoints p)))%Z → Z.of_nat s = nextIdx p)
    ∧ ((Z.of_nat (length (endpoints p)) ≤ nextIdx p)%Z → s = 0).
Proof.
  intros Hwf Hnf Hl. exists (start_slot draw p). set (n := length (endpoints p)).
  assert (∃ p', next_n n clock draw p = Ok (drop (start_slot draw p) l ++ take (start_slot draw p) l, p')) as [p' Hr].
  { destruct (Each_spec p Hwf) as (l0 & Hl0 & Hlen & _). assert (l0 = l) as -> by congruence.
    destruct (decide (endpoints p = [])) as [Hnil|Hne].
    { exists p. unfold n. rewrite Hnil in *. by destruct l; [rewrite drop_nil, take_nil|]. }
    pose proof (start_slot_lt draw p (wf_next p Hwf) Hne) as Hs. set (s := start_slot draw p) in *.
    destruct (next_n_rotates n clock draw (with_nextIdx (Z.of_nat s) p) l) as (l' & p' & Hrun & Hlen' & Hk);
      [apply (wf_same_links p (elems p)); [done..|lia]|done|cbn; lia|done|done|].
    exists p'. assert (∃ m, n = S m) as [m Hm] by (exists (pred n); lia).
    rewrite Hm, next_n_settles, <- Hm by done. fold s. rewrite Hrun. do 2 f_equal.
    apply list_eq. intros k. destruct (decide (k < n)) as [Hlt|Hge].
    - rewrite Hk, rotation_lookup by (rewrite ?Hlen; done). cbn. by rewrite Nat2Z.id, Hlen.
    - rewrite !lookup_ge_None_2; [done| |lia]. rewrite length_app, length_drop, length_take. lia. }
  exists p'. split_and!; [done|..]; unfold start_slot; fold n; intros H.
  - by rewrite H.
  - destruct (Z.eqb_spec (nextIdx p) (-1)); [lia|]. destruct (Z.leb_spec (Z.of_nat n) (nextIdx p)); lia.
  - destruct (Z.eqb_spec (nextIdx p) (-1)); [lia|]. destruct (Z.leb_spec (Z.of_nat n) (nextIdx p)); lia.
Qed.

(** A pool of three back ends whose round robin stands at the second. *)
Definition three_ops : list pool_op := [OpPut 5 ep1; OpPut 6 ep2; OpPut 7 ep3; OpNext (λ _, 8%Z) 0].
Definition three : Pool :=
  match foldM pool_step (NewPool 30 "/") three_ops with Ok p => p | _ => NewPool 30 "/" end.

Lemma three_wf : pool_wf three.
Proof.
  destruct (pool_run_sim three_ops (NewPool 30 "/")) as (p & Hp & Hwf & _); [apply NewPool_wf| |].
  - repeat (constructor; [vm_compute; auto|]). constructor.
  - unfold three. by rewrite Hp.
Qed.

Lemma next_is_fair_witness :
  ∃ p', next_n 3 (λ _, 9%Z) 0 three = Ok ([ep2; ep3; ep1], p').
Proof.
  destruct (next_is_fair (λ _, 9%Z) 0 three [ep1; ep2; ep3] three_wf) as (s & p' & Hr & _ & Hs & _).
  - repeat (constructor; [reflexivity|]). constructor.
  - reflexivity.
  - exists p'. assert (s = 1) as -> by (apply Nat2Z.inj; apply Hs; vm_compute; split; [discriminate|reflexivity]). exact Hr.
Defined.

(** ** Failed endpoints *)

Lemma failed_view p a r u f ptr e :
  pool_wf p → contents p !! a = Some (r, u, f) → ptr ∈ endpoints p → elems p !! ptr = Some e →
  addr (el_endpoint e) = a → failedAt e = f.
Proof.
  intros Hwf Ha Hin He Hea.
  assert (contents p !! a = Some (view_of e)) as H by (apply contents_lookup; [done|]; eauto 10).
  unfold view_of in H. congruence.
Qed.

Lemma rr_slot_surj n s i : s < n → i < n → ∃ j, j < n ∧ rr_slot n s j = i.
Proof.
  intros Hs Hi. destruct (decide (s ≤ i)).
  - exists (i - s). unfold rr_slot. destruct (Nat.ltb_spec (s + (i - s)) n); lia.
  - exists (n + i - s). unfold rr_slot. destruct (Nat.ltb_spec (s + (n + i - s)) n); lia.
Qed.

(** A round that passes over unusable slots only ends before an endpoint that
    is always usable. *)
Lemma round_stops clock draw p ptr e k :
  pool_wf p → ptr ∈ endpoints p → elems p !! ptr = Some e →
  (∀ t, available t (retryAfterFailure p) e = true) →
  k ≤ length (endpoints p) → (∀ j, j < k → unavailable_at clock (start_slot draw p) p j) →
  k < length (endpoints p).
Proof.
  intros Hwf Hin He Hav Hk Hskip. apply list_elem_of_lookup in Hin as (i & Hi).
  pose proof (lookup_lt_Some _ _ _ Hi) as Hlt.
  destruct (rr_slot_surj (length (endpoints p)) (start_slot draw p) i) as (j & Hj & Hij); [|done|].
  { apply start_slot_lt; [apply Hwf|]. by destruct (endpoints p). }
  destruct (decide (j < k)) as [Hjk|]; [|lia].
  destruct (Hskip j Hjk) as (ptr' & e' & Hs & He' & Ha). rewrite Hij in Hs.
  assert (ptr' = ptr) as -> by congruence. assert (e' = e) as -> by congruence. by rewrite Hav in Ha.
Qed.

(** C23: Failover.  After a request to [bad] failed, and as long as its failure
    window has not passed, [next] does not return [bad] while the pool holds
    an endpoint that has not failed. *)
Theorem failed_endpoint_avoided now clock draw (bad : EndpointRef) p a r u :
  pool_wf p → wf_endpoint bad →
  contents p !! a = Some (r, u, None) → a ≠ addr bad →
  (∀ i, time_Sub (clock i) now ≤ retryAfterFailure p)%Z →
  ∃ p1 r' p2, endpointFailed now bad p = Ok p1 ∧ next clock draw p1 = Ok (Some r', p2)
    ∧ addr r' ≠ addr bad ∧ is_Some (contents p2 !! addr r').
Proof.
  intros Hwf Hbad Ha Hne Hwin.
  destruct (endpointFailed_spec now bad p Hwf Hbad) as (p1 & -> & Hwf1 & Hc1 & Hes & _ & Hret).
  assert (contents p1 !! a = Some (r, u, None)) as Ha1 by (by rewrite Hc1, lookup_alter_ne).
  pose proof Ha1 as (ptra & ea & Hina & Hea & Haa & _)%contents_lookup; [|done].
  destruct (next_spec clock draw p1 Hwf1) as (k & r' & p2 & Hnext & Hk & Hskip & Hr).
  { intros H. rewrite H in Hina. by apply not_elem_of_nil in Hina. }
  exists p1, r', p2. destruct Hr as (ptr & e & Hslot & He & -> & Havail & _ & _ & Hwf2 & Hc2).
  assert (ptr ∈ endpoints p1) as Hin by (by eapply list_elem_of_lookup_2).
  split_and!; [done|done| |].
  - (* the round stops at [a] at the latest, so the chosen slot is available *)
    assert (k < length (endpoints p1)) as Hlt.
    { apply (round_stops clock draw p1 ptra ea); try done.
      unfold available. by rewrite (failed_view p1 a r u None ptra ea). }
    intros Heq. apply (Bool.diff_true_false). rewrite <- (Havail Hlt). unfold available.
    assert (contents p1 !! addr bad = Some (view_of e)) as Hv.
    { apply contents_lookup; [done|]. exists ptr, e. done. }
    rewrite Hc1, lookup_alter_eq in Hv. apply fmap_Some in Hv as (v & _ & Hv).
    assert (failedAt e = Some now) as -> by (unfold view_of in Hv; congruence).
    specialize (Hwin (length (endpoints p1) - k)). rewrite Hret. apply Z.ltb_ge. lia.
  - assert (is_Some (contents p1 !! addr (el_endpoint e))) as Hs.
    { exists (view_of e). apply contents_lookup; [done|]. exists ptr, e. done. }
    rewrite Hc2. case_bool_decide; [by rewrite lookup_fmap, fmap_is_Some|]. rewrite lookup_alter_eq. by apply fmap_is_Some.
Qed.

Lemma failed_endpoint_avoided_witness :
  ∃ p1 r' p2, endpointFailed 10 ep2 three = Ok p1 ∧ next (λ _, 20%Z) 0 p1 = Ok (Some r', p2)
    ∧ addr r' ≠ addr ep2 ∧ is_Some (contents p2 !! addr r').
Proof.
  apply (failed_endpoint_avoided 10 (λ _, 20%Z) 0 ep2 three (addr ep1) ep1 5 three_wf); try reflexivity.
  - vm_compute. auto.
  - discriminate.
  - intros _. vm_compute. discriminate.
Defined.

(** ** Sticky sessions *)

(** A request that carries the instance id of an endpoint registered under
    a new address gets that endpoint from its iterator first; the next call
    falls back to the round robin, as the id is used once only. *)
Theorem sticky_endpoint_first now clock draw (e : EndpointRef) p :
  pool_wf p → wf_endpoint e → PrivateInstanceId e ≠ "" → contents p !! addr e = None →
  ∃ p', Put now e p = Ok (true, p') ∧
    Next clock draw (Endpoints (PrivateInstanceId e)) p' = Ok (Some e, mkIter "" (Some e), p') ∧
    Next clock draw (mkIter "" (Some e)) p'
    = (r ← next clock draw p'; Ok (fst r, mkIter "" (fst r), snd r)).
Proof.
  intros Hwf He Hid Hnew.
  assert (index p !! addr e = None) as Hi.
  { destruct (index p !! addr e) as [ptr|] eqn:Hi; [|done].
    destruct (index_elem p Hwf _ _ Hi) as (el & Hel & _).
    by rewrite (contents_addr p Hwf (addr e) ptr el (proj1 He) Hi Hel) in Hnew. }
  unfold Put, CanonicalAddr. rewrite Hi. eexists. split; [done|]. split; [|done].
  unfold Next, Endpoints, newEndpointIterator. cbn [initialEndpoint].
  destruct (String.eqb_spec (PrivateInstanceId e) ""); [done|].
  unfold findById, deref. simpl. rewrite lookup_insert_eq. simpl. by rewrite lookup_insert_eq.
Qed.

Lemma sticky_endpoint_first_witness :
  ∃ p', Put 3 ep2 (NewPool 30 "/") = Ok (true, p') ∧
    Next (λ _, 4%Z) 0 (Endpoints "id2") p' = Ok (Some ep2, mkIter "" (Some ep2), p') ∧
    Next (λ _, 4%Z) 0 (mkIter "" (Some ep2)) p'
    = (r ← next (λ _, 4%Z) 0 p'; Ok (fst r, mkIter "" (fst r), snd r)).
Proof.
  apply (sticky_endpoint_first 3 (λ _, 4%Z) 0 ep2 (NewPool 30 "/")).
  - apply NewPool_wf.
  - vm_compute. auto.
  - discriminate.
  - reflexivity.
Defined.

(** ** Keys that clash *)

(** Two back ends: the instance id of the first is the address of the second. *)
Definition clash1 : EndpointRef := NewEndpoint 1 "app" "h" 1 "h:2" ∅ 0 "".
Definition clash2 : EndpointRef := NewEndpoint 2 "app" "h" 2 "z" ∅ 0 "".

(** Addresses and instance ids share one map, so the separation of the two
    kinds of keys is needed: with an instance id that is the address of
    another back end, registering that other back end silently replaces the
    first one, and removing the first one afterwards takes the second one out
    of the pool. *)
Theorem index_keys_clash :
  ∃ p1 p2 p3, Put 1 clash1 (NewPool 30 "/") = Ok (true, p1) ∧ Put 2 clash2 p1 = Ok (false, p2)
    ∧ Each p2 = Ok [clash2] ∧ Remove clash1 p2 = Ok (true, p3) ∧ Each p3 = Ok [].
Proof. do 3 eexists. split_and!; vm_compute; reflexivity. Qed.
