(* ===== verification/RegistryTheorems.v ===== *)
(** * What the route registry guarantees

    Sequences of registry operations refine operations on a routing table;
    lookups search that table for the most specific route; the counters and
    the JSON map describe it. *)

From S2P Require Import Prelude GoStrings Uris Pool PoolSpec Trie TrieSpec TraversalSpec.
From S2P Require Import Registry RegistrySpec PruneSpec.

(** ** The registry as a state machine *)

Inductive reg_op :=
| OpRegister (t now : Z) (uri : Uri) (e : EndpointRef)
| OpUnregister (uri : Uri) (e : EndpointRef)
| OpPruneStale (now : positive → Z).

Definition reg_op_wf (op : reg_op) : Prop :=
  match op with
  | OpRegister _ _ _ e | OpUnregister _ e => wf_endpoint e
  | OpPruneStale _ => True
  end.

Definition reg_step (range : gmap string positive → list (string * positive))
    (r : RouteRegistry) (op : reg_op) : res RouteRegistry :=
  match op with
  | OpRegister t now uri e => Register t now uri e r
  | OpUnregister uri e => Unregister uri e r
  | OpPruneStale now => pruneStaleDroplets range now r
  end.

(** The routing table and what an operation does to it.  [thr] is the staleness
    threshold; each pool is pruned with a time the clock gave. *)
Abbreviation table := (list string → gmap string view).

Inductive table_step (thr : Z) : reg_op → table → table → Prop :=
| table_register t now uri e (T T' : table) :
    (∀ q, T' q = if bool_decide (q = segments (RouteKey uri)) then put_view now e (T q) else T q) →
    table_step thr (OpRegister t now uri e) T T'
| table_unregister uri (e : EndpointRef) (T T' : table) :
    (∀ q, T' q = if bool_decide (q = segments (RouteKey uri)) then delete (addr e) (T q) else T q) →
    table_step thr (OpUnregister uri e) T T'
| table_prune now (T T' : table) :
    (∀ q, ∃ v, T' q = filter (λ kv, view_stale (now v) thr (snd kv) = false) (T q)) →
    table_step thr (OpPruneStale now) T T'.

Inductive table_run (thr : Z) : list reg_op → table → table → Prop :=
| table_run_nil T T' : (∀ q, T' q = T q) → table_run thr [] T T'
| table_run_cons op ops T T1 T2 :
    table_step thr op T T1 → table_run thr ops T1 T2 → table_run thr (op :: ops) T T2.

Section registry.
Context (range : gmap string positive → list (string * positive)).
Context (Hrange : ∀ m, range m ≡ₚ map_to_list m).

Lemma reg_step_sim r op :
  registry_wf r → reg_op_wf op →
  ∃ r', reg_step range r op = Ok r' ∧ registry_wf r'
    ∧ dropletStaleThreshold r' = dropletStaleThreshold r
    ∧ table_step (dropletStaleThreshold r) op (routes r) (routes r') ∧ evolves r r'.
Proof.
  intros Hwf Hop. destruct op as [t now uri e|uri e|now]; simpl in *.
  - destruct (Register_spec t now uri e r Hwf Hop) as (r' & ? & ? & ? & _ & ? & ?).
    exists r'. split_and!; [done..| |done]. by constructor.
  - destruct (Unregister_spec uri e r Hwf Hop) as (r' & ? & ? & ? & _ & _ & ? & ?).
    exists r'. split_and!; [done..| |done]. by constructor.
  - destruct (pruneStaleDroplets_pruned range now r Hrange Hwf) as (r' & ? & HP).
    exists r'. split_and!; [done|apply HP|apply HP| |apply HP]. constructor. intros q.
    rewrite (pr_in _ _ _ _ HP q I). unfold prune_route. destruct (pool_ref r q) as [v|] eqn:Hv; [eauto|].
    exists 1%positive. by rewrite routes_None, map_filter_empty.
Qed.

Lemma reg_run_sim ops : ∀ r,
  registry_wf r → Forall reg_op_wf ops →
  ∃ r', foldM (reg_step range) r ops = Ok r' ∧ registry_wf r'
    ∧ table_run (dropletStaleThreshold r) ops (routes r) (routes r').
Proof.
  induction ops as [|op ops IH]; intros r Hwf Hops.
  { exists r. split_and!; [done..|]. by constructor. }
  inversion Hops; subst. destruct (reg_step_sim r op) as (r1 & Hs & Hwf1 & Hthr & Ht & _); [done..|].
  destruct (IH r1) as (r2 & Hr & Hwf2 & Hrun); [done..|]. exists r2. cbn [foldM]. rewrite Hs.
  split_and!; [done..|]. econstructor; [done|]. by rewrite <- Hthr.
Qed.
End registry.

Lemma map_to_list_range (m : gmap string positive) : map_to_list m ≡ₚ map_to_list m.
Proof. done. Qed.

(** C1: Refinement of the registry. From an empty registry, no sequence of
    registrations, unregistrations and pruning passes panics or runs out of
    fuel, as long as the private instance ids of the endpoints have no colon
    ([reg_op_wf]; see [colon_id_panics]), whatever order Go ranges over maps
    in; trie, pools and their links stay consistent; and the routing table
    evolves exactly as the abstract operations prescribe, paths being the
    segments of the normalised URI. *)
Theorem registry_refines_table range interval thr ops :
  (∀ m, range m ≡ₚ map_to_list m) → Forall reg_op_wf ops →
  ∃ r', foldM (reg_step range) (NewRouteRegistry interval thr) ops = Ok r' ∧ registry_wf r'
    ∧ table_run thr ops (λ _, ∅) (routes r').
Proof.
  intros Hrange Hops. destruct (NewRouteRegistry_wf interval thr) as [Hwf Hempty].
  destruct (reg_run_sim range Hrange ops (NewRouteRegistry interval thr) Hwf Hops) as (r' & ? & ? & Hrun).
  exists r'. split_and!; [done..|]. change (dropletStaleThreshold (NewRouteRegistry interval thr)) with thr in Hrun.
  revert Hrun Hempty. generalize (routes (NewRouteRegistry interval thr)) as T. clear. intros T Hrun Hempty.
  destruct Hrun as [T T' HT|op ops T T1 T2 Hs Hrun]; [constructor; intros q; by rewrite HT, Hempty|].
  econstructor; [|done]. destruct Hs as [? ? ? ? ? ? HT|? ? ? ? HT|? ? ? HT]; constructor; intros q;
    by specialize (HT q); rewrite Hempty in HT.
Qed.

(** A registry with a route, a route below it and a wildcard. *)
Definition back1 : EndpointRef := NewEndpoint 1 "app1" "10.0.0.1" 80 "id1" ∅ 0 "".
Definition back2 : EndpointRef := NewEndpoint 2 "app2" "10.0.0.2" 80 "id2" ∅ 0 "".
Definition back3 : EndpointRef := NewEndpoint 3 "app3" "10.0.0.3" 80 "id3" ∅ 0 "".

Definition sample_ops : list reg_op :=
  [OpRegister 0 0 "A.example.com" back1; OpRegister 0 (100 * Second) "a.example.com/v2/" back2;
   OpRegister 0 (100 * Second) "*.example.com" back3].

Definition sample : RouteRegistry :=
  match foldM (reg_step map_to_list) (NewRouteRegistry 0 (120 * Second)) sample_ops with
  | Ok r => r
  | _ => NewRouteRegistry 0 0
  end.

Lemma sample_ops_wf : Forall reg_op_wf sample_ops.
Proof. repeat (constructor; [vm_compute; auto|]). constructor. Qed.

Lemma sample_wf : registry_wf sample.
Proof.
  destruct (reg_run_sim map_to_list map_to_list_range sample_ops (NewRouteRegistry 0 (120 * Second)))
    as (r & Hr & Hwf & _); [apply NewRouteRegistry_wf|apply sample_ops_wf|].
  unfold sample. by rewrite Hr.
Qed.

Lemma registry_refines_table_witness :
  ∃ r', foldM (reg_step map_to_list) (NewRouteRegistry 0 (120 * Second))
          (sample_ops ++ [OpPruneStale (λ _, 150 * Second)%Z; OpUnregister "*.EXAMPLE.com" back3]) = Ok r'
    ∧ registry_wf r'
    ∧ table_run (120 * Second) (sample_ops ++ [OpPruneStale (λ _, 150 * Second)%Z; OpUnregister "*.EXAMPLE.com" back3])
        (λ _, ∅) (routes r').
Proof.
  apply (registry_refines_table map_to_list 0 (120 * Second)); [apply map_to_list_range|].
  apply Forall_app. split; [apply sample_ops_wf|]. repeat (constructor; [vm_compute; auto|]). constructor.
Defined.

(** ** Lookup *)

(** The path of a pool that is found is a prefix of the path asked for. *)
Definition covers (q : list string) (u : Uri) : Prop := q ≠ [] ∧ q `prefix_of` segments u.

Lemma first_match_Some f us v :
  first_match f us = Some v →
  ∃ us1 u us2 q rest, us = us1 ++ u :: us2 ∧ segments u = q ++ rest ∧ q ≠ [] ∧ f q = Some v
    ∧ (∀ q' rest', rest = q' ++ rest' → q' ≠ [] → f (q ++ q') = None)
    ∧ Forall (λ u', ∀ q', covers q' u' → f q' = None) us1.
Proof.
  induction us as [|u us IH]; [done|]. cbn [first_match].
  destruct (best f [] (segments u)) as [w|] eqn:Hb.
  - intros [= ->]. apply best_Some in Hb as (q & rest & ? & ? & ? & ?).
    exists [], u, us, q, rest. split_and!; [done..|constructor].
  - intros Hv. apply IH in Hv as (us1 & u' & us2 & q & rest & -> & ? & ? & ? & ? & ?).
    exists (u :: us1), u', us2, q, rest. split_and!; try done. constructor; [|done].
    intros q' [Hne [t Ht]]. rewrite best_None in Hb. by apply (Hb q' t).
Qed.

(** [q] is a prefix of the URI or of one of the wildcards that cover it. *)
Definition covers_uri (q : list string) (uri : Uri) : Prop :=
  ∃ u, u ∈ RouteKey uri :: wildcards (RouteKey uri) ∧ covers q u.

Lemma Lookup_covers uri r pool q :
  registry_wf r → Lookup uri r = Ok (Some pool) → pool_ref r q = Some pool →
  covers_uri q uri.
Proof.
  intros Hwf Hl Hq. rewrite Lookup_spec in Hl by done.
  assert (first_match (pool_ref r) (RouteKey uri :: wildcards (RouteKey uri)) = Some pool) as Hm by congruence.
  apply first_match_Some in Hm as (us1 & u & us2 & q' & rest & Hus & Hseg & Hne & Hq' & _).
  assert (q' = q) as -> by (by eapply reg_inj). exists u. split; [rewrite Hus; set_solver|].
  split; [done|]. rewrite Hseg. by exists rest.
Qed.

Lemma first_match_None f us :
  first_match f us = None ↔ Forall (λ u, ∀ q, covers q u → f q = None) us.
Proof.
  induction us as [|u us IH]; [done|]. cbn [first_match]. rewrite Forall_cons.
  destruct (best f [] (segments u)) as [w|] eqn:Hb.
  - split; [done|]. intros [H _]. apply best_Some in Hb as (q & rest & Hs & Hq & Hf & _).
    assert (f q = None) as Hn; [|simpl in Hf; congruence]. apply H. split; [done|]. by exists rest.
  - rewrite IH. rewrite best_None in Hb. split; [|tauto]. intros H. split; [|done].
    intros q' [Hne [t Ht]]. by apply (Hb q' t).
Qed.

(** C4: Routing decision.  [Lookup] always returns; it tries the normalised URI
    and then the wildcards that cover it, most specific first, and on the
    first of these that has a registered prefix it returns the pool of the
    longest one.  It returns no pool only when none of them has one. *)
Theorem Lookup_most_specific uri r :
  registry_wf r →
  let us := RouteKey uri :: wildcards (RouteKey uri) in
  (∃ us1 u us2 q rest v, Lookup uri r = Ok (Some v) ∧ us = us1 ++ u :: us2
     ∧ segments u = q ++ rest ∧ q ≠ [] ∧ pool_ref r q = Some v
     ∧ (∀ q' rest', rest = q' ++ rest' → q' ≠ [] → pool_ref r (q ++ q') = None)
     ∧ Forall (λ u', ∀ q', covers q' u' → pool_ref r q' = None) us1)
  ∨ (Lookup uri r = Ok None ∧ Forall (λ u, ∀ q, covers q u → pool_ref r q = None) us).
Proof.
  intros Hwf us. rewrite Lookup_spec by done. fold us.
  destruct (first_match (pool_ref r) us) as [v|] eqn:Hm.
  - left. apply first_match_Some in Hm as (us1 & u & us2 & q & rest & ? & ? & ? & ? & ? & ?).
    exists us1, u, us2, q, rest, v. done.
  - right. split; [done|]. by apply first_match_None.
Qed.

Lemma Lookup_most_specific_witness :
  let us := RouteKey "A.example.com/v2/items" :: wildcards (RouteKey "A.example.com/v2/items") in
  (∃ us1 u us2 q rest v, Lookup "A.example.com/v2/items" sample = Ok (Some v) ∧ us = us1 ++ u :: us2
     ∧ segments u = q ++ rest ∧ q ≠ [] ∧ pool_ref sample q = Some v
     ∧ (∀ q' rest', rest = q' ++ rest' → q' ≠ [] → pool_ref sample (q ++ q') = None)
     ∧ Forall (λ u', ∀ q', covers q' u' → pool_ref sample q' = None) us1)
  ∨ (Lookup "A.example.com/v2/items" sample = Ok None
     ∧ Forall (λ u, ∀ q, covers q u → pool_ref sample q = None) us).
Proof. exact (Lookup_most_specific "A.example.com/v2/items" sample sample_wf). Defined.

(** The wildcards tried for a plain host name [a.b.c] are [*.b.c] and [*.c]:
    one per proper suffix of its labels, longest first, so that a lookup of a
    host tries at most as many URIs as the name has labels. *)
Theorem Lookup_host l ls r :
  registry_wf r → Forall plain_label (l :: ls) →
  let host := host_name (l :: ls) in
  RouteKey host = host →
  Lookup host r = Ok (first_match (pool_ref r) (host :: map (λ s, "*." +:+ host_name s) (proper_suffixes (l :: ls))))
  ∧ length (proper_suffixes (l :: ls)) = length ls.
Proof.
  intros Hwf HF host Hkey. rewrite Lookup_spec, Hkey by done. unfold host. rewrite wildcards_host by done.
  split; [done|]. clear. revert l. induction ls as [|m ls IH]; intros l; [done|].
  cbn [proper_suffixes length]. f_equal. apply (IH m).
Qed.

Lemma Lookup_host_witness :
  Lookup "b.example.com" sample
  = Ok (first_match (pool_ref sample) ["b.example.com"; "*.example.com"; "*.com"]) ∧ 2 = 2.
Proof.
  apply (Lookup_host "b" ["example"; "com"] sample sample_wf); [|reflexivity].
  repeat (constructor; [split_and!; (reflexivity || discriminate)|]). constructor.
Defined.

(** Lookups ignore the letter case, the query and a trailing slash of the
    URI: two URIs that differ in these only are routed alike. *)
Theorem Lookup_normalises r u v q :
  strings_ToLower u = strings_ToLower v → str_in "?" u = false → strings_HasSuffix u "/" = false →
  Lookup u r = Lookup v r ∧ Lookup (u +:+ "/") r = Lookup u r ∧ Lookup (u +:+ String "?" q) r = Lookup u r.
Proof.
  intros Hlow Hq Hslash. unfold Lookup.
  assert (RouteKey u = strings_ToLower u) as Hu.
  { rewrite RouteKey_unfold. unfold Uri_String, strings_TrimSuffix. rewrite Hslash.
    apply IndexByte_None in Hq. by rewrite Hq. }
  rewrite (RouteKey_case u v) by done. split; [done|].
  rewrite (RouteKey_query u q), <- (RouteKey_case u v), Hu by done. split; [|done].
  rewrite RouteKey_unfold. unfold Uri_String. rewrite TrimSuffix_app.
  apply IndexByte_None in Hq. by rewrite Hq.
Qed.

Lemma Lookup_normalises_witness :
  Lookup "A.Example.com" sample = Lookup "a.example.COM" sample
  ∧ Lookup ("A.Example.com" +:+ "/") sample = Lookup "A.Example.com" sample
  ∧ Lookup ("A.Example.com" +:+ String "?" "x=1") sample = Lookup "A.Example.com" sample.
Proof. apply (Lookup_normalises sample); reflexivity. Defined.

(** Registering makes a route reachable: after [Register], every URI with
    the same normalised path is looked up to the pool of that route, and the pool
    holds the endpoint under its address. *)
Theorem Register_Lookup t now uri uri' (e : EndpointRef) r :
  registry_wf r → wf_endpoint e → segments (RouteKey uri') = segments (RouteKey uri) →
  ∃ r' v p x, Register t now uri e r = Ok r' ∧ Lookup uri' r' = Ok (Some v) ∧ pools r' !! v = Some p
    ∧ contents p !! addr e = Some x ∧ ep_ptr (fst (fst x)) = ep_ptr e.
Proof.
  intros Hwf He Hkey. destruct (Register_spec t now uri e r Hwf He) as (r' & -> & Hwf' & Hroutes & _).
  assert (∃ x, routes r' (segments (RouteKey uri)) !! addr e = Some x ∧ ep_ptr (fst (fst x)) = ep_ptr e)
    as (x & Hx & Hptr).
  { rewrite Hroutes, bool_decide_true by done. unfold put_view.
    destruct (routes r _ !! addr e) as [[[r0 u] f]|] eqn:Ho.
    - case_bool_decide; [by rewrite Ho; eauto|]. rewrite lookup_insert_eq. eauto.
    - rewrite lookup_insert_eq. eauto. }
  destruct (pool_ref r' (segments (RouteKey uri))) as [v|] eqn:Hv; [|by rewrite routes_None in Hx].
  destruct (reg_pools r' Hwf' _ _ Hv) as (p & Hp & _). rewrite (routes_Some r' _ v p) in Hx by done.
  exists r', v, p, x. split_and!; try done. rewrite Lookup_spec by done. cbn [first_match]. rewrite Hkey.
  destruct (best (pool_ref r') [] (segments (RouteKey uri))) as [w|] eqn:Hb.
  - apply best_Some in Hb as (q & rest & Hs & Hq & Hf & Hlong). do 2 f_equal.
    destruct rest as [|s rest].
    + rewrite app_nil_r in Hs. simpl in Hf. congruence.
    + specialize (Hlong (s :: rest) [] ltac:(by rewrite app_nil_r) ltac:(done)). simpl in Hlong. congruence.
  - rewrite best_None in Hb. specialize (Hb (segments (RouteKey uri)) [] ltac:(by rewrite app_nil_r)
      (segments_nonempty _)). simpl in Hb. congruence.
Qed.

Lemma Register_Lookup_witness :
  ∃ r' v p x, Register 1 2 "New.example.com" back1 sample = Ok r' ∧ Lookup "new.example.com/?q" r' = Ok (Some v)
    ∧ pools r' !! v = Some p ∧ contents p !! addr back1 = Some x ∧ ep_ptr (fst (fst x)) = ep_ptr back1.
Proof.
  apply (Register_Lookup 1 2 "New.example.com" "new.example.com/?q" back1 sample sample_wf).
  - vm_compute. auto.
  - reflexivity.
Defined.

(** Unregistering undoes registering: if the endpoint was not registered
    for the URI before, the table is the old one again, and a route whose last
    endpoint goes away is removed from the trie. *)
Theorem Register_Unregister t now uri (e : EndpointRef) r :
  registry_wf r → wf_endpoint e → routes r (segments (RouteKey uri)) !! addr e = None →
  ∃ r1 r2, Register t now uri e r = Ok r1 ∧ Unregister uri e r1 = Ok r2
    ∧ (∀ q, routes r2 q = routes r q)
    ∧ (routes r (segments (RouteKey uri)) = ∅ → pool_ref r2 (segments (RouteKey uri)) = None).
Proof.
  intros Hwf He Hnew. destruct (Register_spec t now uri e r Hwf He) as (r1 & -> & Hwf1 & H1 & _).
  destruct (Unregister_spec uri e r1 Hwf1 He) as (r2 & Hr2 & _ & H2 & Hgone & _). exists r1, r2.
  assert (∀ q, routes r2 q = routes r q) as Hsame.
  { intros q. rewrite H2, H1. case_bool_decide as Hq; [|done]. subst q. unfold put_view. rewrite Hnew.
    by rewrite delete_insert_id. }
  split_and!; try done. intros Hempty. apply Hgone. by rewrite Hsame.
Qed.

Lemma Register_Unregister_witness :
  ∃ r1 r2, Register 1 2 "x.example.com" back1 sample = Ok r1 ∧ Unregister "x.example.com" back1 r1 = Ok r2
    ∧ (∀ q, routes r2 q = routes sample q)
    ∧ (routes sample (segments (RouteKey "x.example.com")) = ∅ →
       pool_ref r2 (segments (RouteKey "x.example.com")) = None).
Proof.
  apply (Register_Unregister 1 2 "x.example.com" back1 sample sample_wf).
  - vm_compute. auto.
  - reflexivity.
Defined.

(** ** Pruning *)

(** C15: A pruning pass, although it cuts nodes out of the trie it is walking,
    prunes every pool once, leaves the endpoints that are not stale as they
    are, and leaves no leaf of the trie with an empty pool. *)
Theorem pruneStaleDroplets_spec range now r :
  (∀ m, range m ≡ₚ map_to_list m) → registry_wf r →
  ∃ r', pruneStaleDroplets range now r = Ok r' ∧ registry_wf r'
    ∧ (∀ q, routes r' q = prune_route now r q)
    ∧ (∀ q, leaf_at r' q → q ≠ [] → routes r' q ≠ ∅).
Proof.
  intros Hrange Hwf. destruct (pruneStaleDroplets_pruned range now r Hrange Hwf) as (r' & -> & HP).
  exists r'. split_and!; [done|apply HP| |].
  - intros q. by apply HP.
  - intros q Hl Hne. destruct (pr_leaf _ _ _ _ HP q Hl Hne) as [?|[[] _]]; [done|done].
Qed.

Lemma pruneStaleDroplets_spec_witness :
  ∃ r', pruneStaleDroplets map_to_list (λ _, 150 * Second)%Z sample = Ok r' ∧ registry_wf r'
    ∧ (∀ q, routes r' q = prune_route (λ _, 150 * Second)%Z sample q)
    ∧ (∀ q, leaf_at r' q → q ≠ [] → routes r' q ≠ ∅).
Proof.
  apply (pruneStaleDroplets_spec map_to_list (λ _, 150 * Second)%Z sample map_to_list_range sample_wf).
Defined.

(** A route whose endpoints are all stale stays in the trie with an empty
    pool when a route below it is alive: the lookup of [a.example.com] then
    gives an empty pool, although [*.example.com] has a live endpoint, and the
    route is still counted. *)
Theorem prune_keeps_empty_interior :
  ∃ r' v p, pruneStaleDroplets map_to_list (λ _, 150 * Second)%Z sample = Ok r'
    ∧ Lookup "a.example.com" r' = Ok (Some v) ∧ pools r' !! v = Some p ∧ IsEmpty p = true
    ∧ (∃ w pw, Lookup "b.example.com" r' = Ok (Some w) ∧ pools r' !! w = Some pw ∧ Each pw = Ok [back3])
    ∧ NumUris map_to_list r' = Ok 3.
Proof.
  do 3 eexists. split; [vm_compute; reflexivity|]. split_and!; try (vm_compute; reflexivity).
  do 2 eexists. split_and!; vm_compute; reflexivity.
Qed.

(** ** Counters *)

(** The registry's counters, whatever order maps are ranged over in: the
    number of URIs is the number of registered paths, and the number of
    endpoints is the number of distinct addresses in the table. *)
Lemma registry_counts range r :
  (∀ m, range m ≡ₚ map_to_list m) → registry_wf r →
  (∃ L, NumUris range r = Ok (length L) ∧ NoDup L ∧ ∀ q, q ∈ L ↔ is_Some (pool_ref r q))
  ∧ (∃ A : gset string, NumEndpoints range r = Ok (size A) ∧ ∀ a, a ∈ A ↔ ∃ q, is_Some (routes r q !! a)).
Proof.
  intros Hrange Hwf. split.
  - exists (route_list range (byUri r) (byUri_root r)).*1. unfold NumUris.
    rewrite (PoolCount_spec range Hrange) by apply Hwf. rewrite length_fmap. split_and!; [done| |].
    + apply (route_list_NoDup range Hrange). apply Hwf.
    + intros q. rewrite list_elem_of_fmap. split.
      * intros ([q' v] & -> & H%route_list_elem); [eauto|done|apply Hwf].
      * intros [v Hv]. exists (q, v). split; [done|]. apply route_list_elem; [done|apply Hwf|done].
  - set (addrs v := match pool_addrs r v with Ok l => l | _ => [] end).
    assert (∀ q v, pool_ref r q = Some v →
      pool_addrs r v = Ok (addrs v) ∧ ∀ a, a ∈ addrs v ↔ is_Some (routes r q !! a)) as Haddr.
    { intros q v Hv. destruct (reg_pools r Hwf _ _ Hv) as (p & Hp & Hpwf). unfold addrs, pool_addrs, pool_of.
      rewrite Hp. destruct (Each_spec p Hpwf) as (l & Hl & _). simpl. rewrite Hl. simpl. split; [done|].
      intros a. rewrite (routes_Some r q v p) by done. by apply (Each_addrs p l). }
    eexists. split.
    + unfold NumEndpoints. apply (EndpointCount_spec range Hrange _ addrs); [apply Hwf|].
      intros q v Hv. by apply (Haddr q v).
    + intros a. rewrite elem_of_list_to_set, list_elem_of_bind. split.
      * intros ([q v] & Ha & Hin). apply route_list_elem in Hin; [|done|apply Hwf].
        exists q. by apply (Haddr q v Hin).
      * intros (q & Ha). destruct (pool_ref r q) as [v|] eqn:Hv; [|rewrite routes_None in Ha by done; by destruct Ha].
        exists (q, v). split; [by apply (Haddr q v Hv)|]. apply route_list_elem; [done|apply Hwf|done].
Qed.

(** ** The JSON map of routes *)

(** A path as it comes from a URI with a host. *)
Definition host_path (q : list string) : Prop :=
  head q ≠ Some "" ∧ q ≠ [] ∧ Forall (λ s, str_in "/" s = false) q.

Lemma path_key_host q : host_path q → path_key q = strings_Join q "/".
Proof. intros (Hh & Hne & _). destruct q as [|s q]; [done|]. apply path_key_Join. intros ->. by apply Hh. Qed.

Lemma Join_inj q q' : host_path q → host_path q' → strings_Join q "/" = strings_Join q' "/" → q = q'.
Proof.
  intros (_ & Hne & Hs) (_ & Hne' & Hs') Heq.
  rewrite <- (strings_Split_of_Join q "/"), <- (strings_Split_of_Join q' "/") by done. by rewrite Heq.
Qed.

Lemma lookup_foldl_insert {A} (l : list (string * A)) : ∀ m k v,
  NoDup l.*1 →
  foldl (λ m kv, <[fst kv := snd kv]> m) m l !! k = Some v ↔ (k, v) ∈ l ∨ (k ∉ l.*1 ∧ (m : gmap string A) !! k = Some v).
Proof.
  induction l as [|[k0 v0] l IH]; intros m k v Hnd; simpl.
  { split; [intros; right; split; [apply not_elem_of_nil|done]|intros [H|[_ H]]; [by apply not_elem_of_nil in H|done]]. }
  apply NoDup_cons in Hnd as [Hnin Hnd]. rewrite IH, !elem_of_cons by done. simpl.
  rewrite lookup_insert_Some. split.
  - intros [?|[Hk [[<- <-]|[Hne Hm]]]]; [auto..|]. right. split; [|done]. by intros [->|?].
  - intros [[[= -> ->]|?]|[Hk Hm]]; [right; by split; [|left]|auto|].
    right. split; [tauto|]. right. split; [|done]. intros ->. apply Hk. by left.
Qed.

(** The map that is served as JSON has one entry per registered path, keyed
    by the path joined with slashes, for any order of the ranges. *)
Lemma routes_map_spec range r :
  (∀ m, range m ≡ₚ map_to_list m) → registry_wf r → (∀ q, is_Some (pool_ref r q) → host_path q) →
  ∃ m, routes_map range r = Ok m ∧
    ∀ k v, m !! k = Some v ↔ ∃ q, k = strings_Join q "/" ∧ pool_ref r q = Some v.
Proof.
  intros Hrange Hwf Hhost. unfold routes_map. rewrite (ToMap_fold range Hrange) by apply Hwf.
  eexists. split; [done|]. intros k v.
  pose proof (λ q v, route_list_elem range Hrange (byUri r) (byUri_root r) (reg_trie r Hwf) q v) as Hel.
  change (pool_at (byUri r) (byUri_root r)) with (pool_ref r) in Hel.
  set (l := route_list range (byUri r) (byUri_root r)) in *.
  assert (NoDup l.*1) as Hnd by (apply (route_list_NoDup range Hrange), Hwf).
  assert (∀ q w, (q, w) ∈ l → host_path q) as Hhost' by (intros q w Hin%Hel; eauto).
  set (l' := map (λ qv, (path_key (fst qv), snd qv)) l).
  assert (∀ m0 : gmap string positive, foldl (λ m qv, <[path_key (fst qv) := snd qv]> m) m0 l
    = foldl (λ m kv, <[fst kv := snd kv]> m) m0 l') as Hf.
  { unfold l'. clear. induction l as [|? l IH]; intros m0; [done|]. apply IH. }
  assert (NoDup l'.*1) as Hnd'.
  { unfold l'. change (map ?f l) with (f <$> l). rewrite <- list_fmap_compose.
    apply NoDup_fmap_2_strong; [|by apply (NoDup_fmap_1 fst)].
    intros [q w] [q' w'] H H' Heq. simpl in Heq. pose proof (Hhost' _ _ H). pose proof (Hhost' _ _ H').
    rewrite !path_key_host in Heq by done. apply Join_inj in Heq; [|done|done]. subst q'.
    apply Hel in H, H'. congruence. }
  rewrite Hf, lookup_foldl_insert, lookup_empty by done. unfold l'. split.
  - intros [([q w] & [= -> ->] & Hin)%list_elem_of_fmap|[_ ?]]; [|done].
    exists q. rewrite path_key_host by eauto. split; [done|]. by apply Hel.
  - intros (q & -> & Hq%Hel). left. apply list_elem_of_fmap. exists (q, v). simpl.
    by rewrite path_key_host by eauto.
Qed.

Lemma sample_paths q : is_Some (pool_ref sample q) → host_path q.
Proof.
  intros [v Hv]. unfold pool_ref in Hv.
  apply (route_list_elem map_to_list map_to_list_range _ _ (reg_trie _ sample_wf)) in Hv.
  vm_compute in Hv. repeat (apply elem_of_cons in Hv as [Hv|Hv]; [injection Hv as -> _|]);
    [..|by apply not_elem_of_nil in Hv];
    (split; [discriminate|]; split; [discriminate|]; repeat (constructor; [reflexivity|]); constructor).
Qed.

(** The search for the next wildcard does not stop at the end of the host:
    a dot in the path is taken for a label separator, so that a request for
    [localhost/a.b] reaches the unrelated wildcard route [*.b]. *)
Theorem wildcard_dot_in_path :
  ∃ r v p, Register 0 0 "*.b" back1 (NewRouteRegistry 0 (120 * Second)) = Ok r
    ∧ Lookup "localhost/a.b" r = Ok (Some v) ∧ pools r !! v = Some p ∧ Each p = Ok [back1]
    ∧ Lookup "localhost" r = Ok None.
Proof. do 3 eexists. split_and!; vm_compute; reflexivity. Qed.
