(* ===== verification/Heap.v ===== *)
(** * Indexed heaps (src/stats/heap.go and container/heap)

    The statistics keep binary heaps of pointers to shared entries; each entry
    knows its position in each heap it is in.  [HeapType] is the Go interface
    a concrete heap fills in: the order, and where an entry keeps its index.
    The functions of the package container/heap are modelled with the methods
    they call, in the order they call them. *)

From S2P Require Import Prelude.

Record HeapType (E : Type) := mkHeapType {
  ht_Less : E → E → res bool;
  ht_SetIndex : Z → E → E;
}.
Arguments ht_Less {E} _ _ _.
Arguments ht_SetIndex {E} _ _ _.

Section heap.
Context {E : Type} (x : HeapType E).

(** The entries and the slice of pointers. *)
Abbreviation heap_st := (gmap positive E * list positive)%type.

Definition slot (s : heap_st) (i : nat) : res positive := or_panic out_of_range (snd s !! i).

Definition entry (s : heap_st) (p : positive) : res E := or_panic nil_deref (fst s !! p).

Definition Len (s : heap_st) : nat := length (snd s).

Definition Less (s : heap_st) (i j : nat) : res bool :=
  pi ← slot s i; yi ← entry s pi;
  pj ← slot s j; yj ← entry s pj;
  ht_Less x yi yj.

Definition SetIndex (i : nat) (j : Z) (s : heap_st) : res heap_st :=
  p ← slot s i; y ← entry s p;
  Ok (<[p := ht_SetIndex x j y]> (fst s), snd s).

Definition Swap (i j : nat) (s : heap_st) : res heap_st :=
  pi ← slot s i;
  pj ← slot s j;
  s1 ← SetIndex i (Z.of_nat i) (fst s, <[j := pi]> (<[i := pj]> (snd s)));
  SetIndex j (Z.of_nat j) s1.

Definition Push (a : positive) (s : heap_st) : res heap_st :=
  let s1 := (fst s, snd s ++ [a]) in
  let n := length (snd s1) in
  SetIndex (n - 1) (Z.of_nat (n - 1)) s1.

Definition Pop (s : heap_st) : res (positive * heap_st) :=
  let n := length (snd s) in
  s1 ← SetIndex (n - 1) (-1) s;
  y ← slot s1 (n - 1);
  Ok (y, (fst s1, take (n - 1) (snd s1))).

(** The copy shares the entries and has a slice of its own. *)
Definition Copy (s : heap_st) : heap_st := (fst s, snd s).

(** ** container/heap *)

Fixpoint up (fuel : nat) (j : nat) (s : heap_st) : res heap_st :=
  match fuel with
  | O => NoFuel
  | S fuel' =>
      let i := Nat.div2 (j - 1) in
      if bool_decide (i = j) then Ok s
      else
        b ← Less s j i;
        if negb b then Ok s
        else s' ← Swap i j s; up fuel' i s'
  end.

Fixpoint down (fuel : nat) (i n : nat) (s : heap_st) : res heap_st :=
  match fuel with
  | O => NoFuel
  | S fuel' =>
      let j1 := 2 * i + 1 in
      if (n <=? j1)%nat then Ok s
      else
        let j2 := j1 + 1 in
        j ← (if (j2 <? n)%nat
             then b ← Less s j1 j2; Ok (if negb b then j2 else j1)
             else Ok j1);
        b ← Less s j i;
        if negb b then Ok s
        else s' ← Swap i j s; down fuel' j n s'
  end.

Definition heap_Push (a : positive) (s : heap_st) : res heap_st :=
  s1 ← Push a s;
  up (S (Len s1)) (Len s1 - 1) s1.

Definition heap_Pop (s : heap_st) : res (positive * heap_st) :=
  let n := Len s - 1 in
  s1 ← Swap 0 n s;
  s2 ← down (S (Len s1)) 0 n s1;
  Pop s2.

(** The index is a Go [int]: a negative one is out of range. *)
Definition heap_Remove (i : Z) (s : heap_st) : res (positive * heap_st) :=
  if (i <? 0)%Z then Panic out_of_range
  else
    let i := Z.to_nat i in
    let n := Len s - 1 in
    s1 ← (if bool_decide (n = i) then Ok s
          else s1 ← Swap i n s;
               s2 ← down (S (Len s1)) i n s1;
               up (S (Len s2)) i s2);
    Pop s1.
End heap.
