(* ===== verification/HeapSpec.v ===== *)
(** * Invariant and contract of indexed heaps

    A heap compares entries by an integer key.  [hord] is the heap order on the
    first slots of the slice.  [tracks] says what the swaps may do: permute the
    slice and rewrite the index field of its entries, keeping every index equal
    to the slot.  Pushing, popping and removing are shown to keep the order and
    to return the entry they should. *)

From S2P Require Import Prelude Heap.

(** What a concrete heap promises: [Less] compares keys on valid entries, and
    writing the index changes nothing else. *)
Class HeapLaws {E} (x : HeapType E) (key : E → Z) (valid : E → Prop) := {
  law_less a b : valid a → valid b → ht_Less x a b = Ok (key a <? key b)%Z;
  law_key i e : key (ht_SetIndex x i e) = key e;
  law_valid i e : valid e → valid (ht_SetIndex x i e);
  law_set i j e : ht_SetIndex x i (ht_SetIndex x j e) = ht_SetIndex x i e;
}.

(** The parent of a slot in the binary tree. *)
Definition parent (k : nat) : nat := Nat.div2 (k - 1).

Lemma parent_spec k p : 0 < k → parent k = p ↔ k = 2 * p + 1 ∨ k = 2 * p + 2.
Proof.
  intros Hk. unfold parent. rewrite Nat.div2_div.
  pose proof (Nat.div_mod_eq (k - 1) 2). pose proof (Nat.mod_upper_bound (k - 1) 2 ltac:(lia)). lia.
Qed.

Lemma parent_lt k : 0 < k → parent k < k.
Proof. intros Hk. pose proof (proj1 (parent_spec k (parent k) Hk) eq_refl). lia. Qed.

(** Exchanging two positions. *)
Definition tr (i j k : nat) : nat := if decide (k = i) then j else if decide (k = j) then i else k.

Section spec.
Context {E : Type} (x : HeapType E) (key : E → Z) (valid : E → Prop) (idx : E → Z).
Context `{HL : !HeapLaws x key valid}.

Abbreviation heap_st := (gmap positive E * list positive)%type.
Implicit Types (s : heap_st) (p q : positive) (i j k n : nat).

Definition idx_law : Prop := ∀ (v : Z) e, idx (ht_SetIndex x v e) = v.

Record heap_in s : Prop := {
  hi_nodup : NoDup (snd s);
  hi_valid : ∀ p, p ∈ snd s → ∃ e, fst s !! p = Some e ∧ valid e;
}.

Definition keyof (m : gmap positive E) p : Z := from_option key 0%Z (m !! p).
Definition ka s k : Z := from_option (keyof (fst s)) 0%Z (snd s !! k).

Definition hord s n : Prop := ∀ k, 0 < k < n → (ka s (parent k) ≤ ka s k)%Z.

Definition idx_ok s : Prop :=
  ∀ k p e, snd s !! k = Some p → fst s !! p = Some e → idx e = Z.of_nat k.

Definition touched (e e' : E) : Prop := e' = e ∨ ∃ v : Z, e' = ht_SetIndex x v e.

(** The entries changed in their index at most, and only those of [l]. *)
Definition same_entries (l : list positive) (m m' : gmap positive E) : Prop :=
  (∀ p, p ∉ l → m' !! p = m !! p) ∧
  ∀ p, match m !! p, m' !! p with
       | Some e, Some e' => touched e e'
       | None, None => True
       | _, _ => False
       end.

Record tracks s s' : Prop := {
  tk_perm : snd s' ≡ₚ snd s;
  tk_entries : same_entries (snd s) (fst s) (fst s');
  tk_idx : idx_law → idx_ok s → idx_ok s';
}.

(** ** Facts about index writes *)

Lemma touched_trans a b c : touched a b → touched b c → touched a c.
Proof.
  intros [->|[i ->]] [->|[j ->]]; [by left|right; eauto|right; eauto|]. right. exists j. by rewrite law_set.
Qed.

Lemma touched_key a b : touched a b → key b = key a.
Proof. intros [->|[i ->]]; [done|]. apply law_key. Qed.

Lemma touched_valid a b : touched a b → valid a → valid b.
Proof. intros [->|[i ->]]; [done|]. apply law_valid. Qed.

Lemma same_entries_refl l m : same_entries l m m.
Proof. split; [done|]. intros p. destruct (m !! p); [by left|done]. Qed.

Lemma same_entries_trans l l' m1 m2 m3 :
  (∀ p, p ∈ l' → p ∈ l) → same_entries l m1 m2 → same_entries l' m2 m3 → same_entries l m1 m3.
Proof.
  intros Hl [Ho1 Ht1] [Ho2 Ht2]. split.
  - intros p Hp. rewrite Ho2, Ho1; auto.
  - intros p. specialize (Ht1 p). specialize (Ht2 p).
    destruct (m1 !! p), (m2 !! p), (m3 !! p); try done. by eapply touched_trans.
Qed.

Lemma same_entries_keyof l m m' p : same_entries l m m' → keyof m' p = keyof m p.
Proof.
  intros [_ Ht]. unfold keyof. specialize (Ht p). destruct (m !! p), (m' !! p); simpl; try done.
  by apply touched_key.
Qed.

Lemma tracks_refl s : tracks s s.
Proof. split; [done|apply same_entries_refl|done]. Qed.

Lemma tracks_trans s1 s2 s3 : tracks s1 s2 → tracks s2 s3 → tracks s1 s3.
Proof.
  intros [Hp1 He1 Hi1] [Hp2 He2 Hi2]. split; [by rewrite Hp2| |auto].
  eapply same_entries_trans; [|done|done]. intros p. by rewrite Hp1.
Qed.

Lemma heap_in_tracks s s' : heap_in s → tracks s s' → heap_in s'.
Proof.
  intros [Hnd Hv] [Hp [_ He] _]. split; [by rewrite Hp|]. intros p. rewrite Hp. intros Hin.
  destruct (Hv p Hin) as (e & Hpe & Hval). specialize (He p). rewrite Hpe in He.
  destruct (fst s' !! p) as [e'|]; [|done]. exists e'. split; [done|]. by eapply touched_valid.
Qed.

(** ** Swap *)

Lemma slot_entry s i : heap_in s → i < length (snd s) →
  ∃ p e, snd s !! i = Some p ∧ fst s !! p = Some e ∧ valid e.
Proof.
  intros Hin Hi. destruct (lookup_lt_is_Some_2 _ _ Hi) as [p Hp].
  destruct (hi_valid s Hin p) as (e & ? & ?); [by eapply list_elem_of_lookup_2|]. eauto.
Qed.

Lemma Less_spec s i j : heap_in s → i < length (snd s) → j < length (snd s) →
  Less x s i j = Ok (ka s i <? ka s j)%Z.
Proof.
  intros Hin Hi Hj. destruct (slot_entry s i Hin Hi) as (p & e & Hp & He & Hv).
  destruct (slot_entry s j Hin Hj) as (q & e' & Hq & He' & Hv').
  unfold Less, slot, entry. rewrite Hp. simpl. rewrite He. simpl. rewrite Hq. simpl. rewrite He'. simpl.
  rewrite law_less by done. unfold ka. rewrite Hp, Hq. simpl. unfold keyof. by rewrite He, He'.
Qed.

Lemma write_index_same (l : list positive) (m : gmap positive E) p e (v : Z) :
  m !! p = Some e → p ∈ l → same_entries l m (<[p := ht_SetIndex x v e]> m).
Proof.
  intros Hp Hin. split.
  - intros q Hq. rewrite lookup_insert_ne; [done|]. by intros <-.
  - intros q. destruct (decide (p = q)) as [<-|].
    + rewrite Hp, lookup_insert_eq. right. eauto.
    + rewrite lookup_insert_ne by done. destruct (m !! q); [by left|done].
Qed.

Lemma SetIndex_spec s i v : heap_in s → i < length (snd s) →
  ∃ p e, snd s !! i = Some p ∧ fst s !! p = Some e ∧
    SetIndex x i v s = Ok (<[p := ht_SetIndex x v e]> (fst s), snd s).
Proof.
  intros Hin Hi. destruct (slot_entry s i Hin Hi) as (p & e & Hp & He & _). exists p, e.
  unfold SetIndex, slot, entry. rewrite Hp. simpl. by rewrite He.
Qed.

Lemma swap_lookup (h : list positive) i j k p q :
  h !! i = Some p → h !! j = Some q → <[j := p]> (<[i := q]> h) !! k = h !! tr i j k.
Proof.
  intros Hi Hj. pose proof (lookup_lt_Some _ _ _ Hi). pose proof (lookup_lt_Some _ _ _ Hj). unfold tr.
  destruct (decide (k = j)) as [->|Hkj].
  - rewrite list_lookup_insert_eq by (by rewrite length_insert). destruct (decide (j = i)); congruence.
  - rewrite list_lookup_insert_ne by done. destruct (decide (k = i)) as [->|].
    + by rewrite list_lookup_insert_eq.
    + by rewrite list_lookup_insert_ne.
Qed.

Lemma tr_inj i j : Inj (=) (=) (tr i j).
Proof. intros a b. unfold tr. repeat case_decide; congruence. Qed.

Lemma swap_perm (h : list positive) i j p q :
  h !! i = Some p → h !! j = Some q → <[j := p]> (<[i := q]> h) ≡ₚ h.
Proof.
  intros Hi Hj. apply Permutation_inj. split; [by rewrite !length_insert|].
  exists (tr i j). split; [apply tr_inj|]. intros k. by apply swap_lookup.
Qed.

(** Exchanging two slots rewrites their indices and exchanges their keys. *)
Lemma Swap_spec s i j :
  heap_in s → i < length (snd s) → j < length (snd s) →
  ∃ s', Swap x i j s = Ok s' ∧ tracks s s' ∧ heap_in s'
    ∧ (∀ k, snd s' !! k = snd s !! tr i j k) ∧ (∀ k, ka s' k = ka s (tr i j k)).
Proof.
  intros Hin Hi Hj. destruct (slot_entry s i Hin Hi) as (pi & ei & Hpi & Hei & Hvi).
  destruct (slot_entry s j Hin Hj) as (pj & ej & Hpj & Hej & Hvj).
  set (h' := <[j := pi]> (<[i := pj]> (snd s))).
  assert (h' ≡ₚ snd s) as Hperm by (by apply swap_perm).
  assert (∀ k, h' !! k = snd s !! tr i j k) as Hlk by (intros k; by apply swap_lookup).
  assert (length h' = length (snd s)) as Hlen by (unfold h'; by rewrite !length_insert).
  assert (heap_in (fst s, h')) as Hin1.
  { split; [simpl; rewrite Hperm; apply Hin|]. simpl. intros p. rewrite Hperm. apply Hin. }
  unfold Swap, slot. rewrite Hpi. simpl. rewrite Hpj. simpl. fold h'.
  destruct (SetIndex_spec (fst s, h') i (Z.of_nat i) Hin1) as (p & e & Hp & He & ->); [simpl; lia|].
  simpl in Hp, He. cbn [mbind res_mbind fst snd].
  set (m1 := <[p := ht_SetIndex x (Z.of_nat i) e]> (fst s)).
  assert (same_entries (snd s) (fst s) m1) as Hs1.
  { apply write_index_same; [done|]. rewrite <- Hperm. by eapply list_elem_of_lookup_2. }
  assert (heap_in (m1, h')) as Hin2.
  { split; [apply Hin1|]. intros q Hq. destruct (hi_valid _ Hin1 q Hq) as (e0 & He0 & Hv0).
    destruct Hs1 as [_ Ht]. specialize (Ht q). simpl in *. rewrite He0 in Ht.
    destruct (m1 !! q) as [e1|]; [|done]. exists e1. split; [done|]. by eapply touched_valid. }
  destruct (SetIndex_spec (m1, h') j (Z.of_nat j) Hin2) as (q & e' & Hq & He' & ->); [simpl; lia|].
  simpl in Hq, He'. cbn [fst snd]. set (m2 := <[q := ht_SetIndex x (Z.of_nat j) e']> m1).
  assert (same_entries (snd s) (fst s) m2) as Hs2.
  { eapply same_entries_trans; [|exact Hs1|]; [done|]. apply write_index_same; [done|].
    rewrite <- Hperm. by eapply list_elem_of_lookup_2. }
  assert (tracks s (m2, h')) as Htr.
  { split; [done|done|]. intros Hlaw Hidx k r er Hr Her. simpl in Hr, Her.
    destruct (decide (q = r)) as [<-|Hqr].
    { unfold m2 in Her. rewrite lookup_insert_eq in Her. injection Her as <-. rewrite Hlaw. f_equal.
      eapply NoDup_lookup; [apply Hin1|exact Hq|exact Hr]. }
    unfold m2 in Her. rewrite lookup_insert_ne in Her by done.
    destruct (decide (p = r)) as [<-|Hpr].
    { unfold m1 in Her. rewrite lookup_insert_eq in Her. injection Her as <-. rewrite Hlaw. f_equal.
      eapply NoDup_lookup; [apply Hin1|exact Hp|exact Hr]. }
    unfold m1 in Her. rewrite lookup_insert_ne in Her by done.
    assert (k ≠ i) by congruence. assert (k ≠ j) by congruence.
    rewrite Hlk in Hr. unfold tr in Hr. rewrite !decide_False in Hr by done. by eapply Hidx. }
  exists (m2, h'). split_and!; [done|done|exact (heap_in_tracks _ _ Hin Htr)|done|].
  intros k. unfold ka. simpl. rewrite Hlk. destruct (snd s !! tr i j k); [|done]. simpl.
  by eapply same_entries_keyof.
Qed.

(** ** Sifting *)

(** The order with one slot [i] in doubt: towards its parent, towards its
    children, or both. *)
Definition grand s n i : Prop :=
  ∀ c, 0 < c < n → parent c = i → 0 < i → (ka s (parent i) ≤ ka s c)%Z.
Definition up_inv s n i : Prop :=
  (∀ k, 0 < k < n → k ≠ i → (ka s (parent k) ≤ ka s k)%Z) ∧ grand s n i.
Definition down_inv s n i : Prop :=
  (∀ k, 0 < k < n → parent k ≠ i → (ka s (parent k) ≤ ka s k)%Z) ∧ grand s n i.
Definition any_inv s n i : Prop :=
  (∀ k, 0 < k < n → k ≠ i → parent k ≠ i → (ka s (parent k) ≤ ka s k)%Z) ∧ grand s n i.

Definition same_tail n s s' : Prop := ∀ k, n ≤ k → snd s' !! k = snd s !! k.

Lemma same_tail_trans n s1 s2 s3 : same_tail n s1 s2 → same_tail n s2 s3 → same_tail n s1 s3.
Proof. intros H1 H2 k Hk. rewrite H2, H1; done. Qed.

Lemma hord_up_inv s n i : hord s n → i < n → up_inv s n i.
Proof.
  intros H Hi. split; [intros k Hk _; by apply H|]. intros c Hc Hpc Hi0.
  pose proof (H i ltac:(lia)). pose proof (H c Hc) as Hc'. rewrite Hpc in Hc'. lia.
Qed.

(** Keys after an exchange of a slot with its parent or child. *)
Ltac swapped H :=
  repeat match goal with |- context [ka ?s' ?k] => rewrite (H k) end; unfold tr; repeat case_decide; subst; try lia.

Lemma up_step s s' n j :
  0 < j < n → up_inv s n j → (ka s j < ka s (parent j))%Z →
  (∀ k, ka s' k = ka s (tr (parent j) j k)) → up_inv s' n (parent j).
Proof.
  intros Hj [Hord Hgr] Hlt Hka. pose proof (parent_lt j ltac:(lia)) as Hp. split.
  - intros k Hk Hki. pose proof (parent_lt k ltac:(lia)). swapped Hka.
    + (* the parent of [k] is [parent j] *)
      match goal with H : parent k = parent j |- _ => pose proof (Hord k ltac:(lia) ltac:(done)) as Ho; rewrite H in Ho end. lia.
    + apply Hgr; lia.
    + by apply Hord.
  - intros c Hc Hpc Hi. pose proof (parent_lt (parent j) Hi). pose proof (parent_lt c ltac:(lia)).
    pose proof (Hord (parent j) ltac:(lia) ltac:(lia)). swapped Hka.
    pose proof (Hord c Hc ltac:(done)) as Ho. rewrite Hpc in Ho. lia.
Qed.

Lemma up_spec n fuel : ∀ j s,
  heap_in s → up_inv s n j → j < n → n ≤ length (snd s) → j < fuel →
  ∃ s', up x fuel j s = Ok s' ∧ tracks s s' ∧ heap_in s' ∧ hord s' n ∧ same_tail n s s'.
Proof.
  induction fuel as [|fuel IH]; intros j s Hin Hinv Hj Hn Hf; [lia|]. cbn [up].
  change (Nat.div2 (j - 1)) with (parent j). case_bool_decide as Hpj.
  { exists s. split_and!; [done|apply tracks_refl|done| |done]. intros k Hk. apply Hinv; [done|].
    intros ->. pose proof (parent_lt j ltac:(lia)). lia. }
  assert (0 < j) as Hj0. { destruct j; [done|lia]. }
  pose proof (parent_lt j Hj0) as Hp. rewrite Less_spec by (done || lia). cbn [mbind res_mbind].
  destruct (Z.ltb_spec (ka s j) (ka s (parent j))) as [Hlt|Hge]; cbn [negb].
  - destruct (Swap_spec s (parent j) j Hin) as (s1 & -> & Ht1 & Hin1 & Hlk & Hka); [lia|lia|].
    cbn [mbind res_mbind].
    destruct (IH (parent j) s1) as (s2 & -> & Ht2 & Hin2 & Hord & Htail); [done| |lia| |lia|].
    + by eapply up_step; [|done|done|].
    + rewrite (tk_perm _ _ Ht1). lia.
    + exists s2. split_and!; [done|by eapply tracks_trans|done|done|].
      eapply same_tail_trans; [|done]. intros k Hk. rewrite Hlk. unfold tr. by rewrite !decide_False by lia.
  - exists s. split_and!; [done|apply tracks_refl|done| |done]. intros k Hk.
    destruct (decide (k = j)) as [->|]; [done|]. by apply Hinv.
Qed.

(** The smaller child of a slot that has one. *)
Definition least_child s n i j : Prop :=
  0 < j < n ∧ parent j = i ∧ ∀ c, 0 < c < n → parent c = i → (ka s j ≤ ka s c)%Z.

Lemma down_step s s' n i j :
  least_child s n i j → any_inv s n i → (ka s j < ka s i)%Z →
  (∀ k, ka s' k = ka s (tr i j k)) → down_inv s' n j.
Proof.
  intros (Hj & Hpj & Hleast) [Hord Hgr] Hlt Hka. pose proof (parent_lt j ltac:(lia)) as Hij. split.
  - intros k Hk Hkj. pose proof (parent_lt k ltac:(lia)). swapped Hka.
    + by apply Hleast.
    + apply Hgr; lia.
    + by apply Hord.
  - intros c Hc Hpc _. pose proof (parent_lt c ltac:(lia)). rewrite Hpj. swapped Hka.
    apply Hord; lia.
Qed.

(** The child [down] looks at. *)
Lemma down_child s n i :
  heap_in s → n ≤ length (snd s) → 2 * i + 1 < n →
  ∃ j, (if (2 * i + 1 + 1 <? n)%nat
        then b ← Less x s (2 * i + 1) (2 * i + 1 + 1); Ok (if negb b then 2 * i + 1 + 1 else 2 * i + 1)
        else Ok (2 * i + 1)) = Ok j ∧ least_child s n i j.
Proof.
  intros Hin Hn Hj1. assert (∀ c, 0 < c < n → parent c = i → c = 2 * i + 1 ∨ c = 2 * i + 2) as Hch.
  { intros c Hc. apply parent_spec. lia. }
  destruct (Nat.ltb_spec (2 * i + 1 + 1) n) as [Hj2|Hj2].
  - rewrite Less_spec by (done || lia). cbn [mbind res_mbind].
    destruct (Z.ltb_spec (ka s (2 * i + 1)) (ka s (2 * i + 1 + 1))) as [Hlt|Hge]; cbn [negb];
      eexists; (split; [done|]); (split; [lia|]); (split; [apply parent_spec; lia|]);
      intros c Hc Hpc; destruct (Hch c Hc Hpc) as [->| ->]; try lia.
    + by replace (2 * i + 2) with (2 * i + 1 + 1) by lia; lia.
    + by replace (2 * i + 2) with (2 * i + 1 + 1) by lia.
  - eexists. split; [done|]. split; [lia|]. split; [apply parent_spec; lia|].
    intros c Hc Hpc. destruct (Hch c Hc Hpc) as [->| ->]; lia.
Qed.

Lemma down_spec n fuel : ∀ i s,
  heap_in s → any_inv s n i → i < n → n ≤ length (snd s) → n - i < fuel →
  ∃ s', down x fuel i n s = Ok s' ∧ tracks s s' ∧ heap_in s' ∧ same_tail n s s'
    ∧ up_inv s' n i ∧ (down_inv s n i → hord s' n).
Proof.
  induction fuel as [|fuel IH]; intros i s Hin Hinv Hi Hn Hf; [lia|]. cbn [down].
  assert (∀ P : Prop, (∀ k, 0 < k < n → parent k = i → (ka s i ≤ ka s k)%Z) →
    up_inv s n i ∧ (down_inv s n i → hord s n)) as Hstop.
  { intros _ Hch. split; [split; [|apply Hinv]|].
    - intros k Hk Hki. destruct (decide (parent k = i)) as [He|]; [rewrite He; auto|by apply Hinv].
    - intros [Hd _] k Hk. destruct (decide (parent k = i)) as [He|]; [rewrite He; auto|by apply Hd]. }
  destruct (Nat.leb_spec n (2 * i + 1)) as [Hleaf|Hj1].
  { exists s. split_and!; [done|apply tracks_refl|done|done| |]; apply (Hstop True);
      intros k Hk Hpk; apply parent_spec in Hpk; lia. }
  destruct (down_child s n i Hin Hn Hj1) as (j & -> & Hleast). cbn [mbind res_mbind].
  pose proof Hleast as (Hj & Hpj & Hmin). pose proof (parent_lt j ltac:(lia)) as Hij.
  rewrite Less_spec by (done || lia). cbn [mbind res_mbind].
  destruct (Z.ltb_spec (ka s j) (ka s i)) as [Hlt|Hge]; cbn [negb].
  - destruct (Swap_spec s i j Hin) as (s1 & -> & Ht1 & Hin1 & Hlk & Hka); [lia|lia|]. cbn [mbind res_mbind].
    assert (down_inv s1 n j) as Hd1 by (by eapply down_step).
    destruct (IH j s1) as (s2 & -> & Ht2 & Hin2 & Htail & _ & Hord); [done| |lia| |lia|].
    + split; [|apply Hd1]. intros k Hk _ Hkj. by apply Hd1.
    + rewrite (tk_perm _ _ Ht1). lia.
    + specialize (Hord Hd1). exists s2. split_and!; [done|by eapply tracks_trans|done| |by apply hord_up_inv|done].
      eapply same_tail_trans; [|done]. intros k Hk. rewrite Hlk. unfold tr. by rewrite !decide_False by lia.
  - exists s. split_and!; [done|apply tracks_refl|done|done| |]; apply (Hstop True);
      intros k Hk Hpk; specialize (Hmin k Hk Hpk); lia.
Qed.

(** ** Pushing, popping, removing *)

Lemma keyof_insert_ne (m : gmap positive E) p e q : p ≠ q → keyof (<[p := e]> m) q = keyof m q.
Proof. intros H. unfold keyof. by rewrite lookup_insert_ne. Qed.

(** Pushing an entry that is not in the heap. *)
Lemma heap_Push_spec s a e :
  heap_in s → hord s (length (snd s)) → a ∉ snd s → fst s !! a = Some e → valid e →
  ∃ s', heap_Push x a s = Ok s' ∧ heap_in s' ∧ hord s' (length (snd s')) ∧ snd s' ≡ₚ a :: snd s
    ∧ same_entries (a :: snd s) (fst s) (fst s') ∧ (idx_law → idx_ok s → idx_ok s').
Proof.
  intros Hin Hord Ha He Hv. unfold heap_Push, Push. cbn [fst snd].
  assert (heap_in (fst s, snd s ++ [a])) as Hin0.
  { split; cbn [fst snd].
    - apply NoDup_app. split_and!; [apply Hin| |apply NoDup_singleton].
      intros p Hp Hpa. apply list_elem_of_singleton in Hpa as ->. done.
    - intros p [Hp|Hp]%elem_of_app; [by apply Hin|]. apply list_elem_of_singleton in Hp as ->. eauto. }
  rewrite length_app. cbn [length]. replace (length (snd s) + 1 - 1) with (length (snd s)) by lia.
  destruct (SetIndex_spec (fst s, snd s ++ [a]) (length (snd s)) (Z.of_nat (length (snd s))) Hin0)
    as (p & e' & Hp & He' & ->); [cbn [snd]; rewrite length_app; simpl; lia|].
  cbn [fst snd] in *. rewrite lookup_app_r, Nat.sub_diag in Hp by lia. injection Hp as <-.
  assert (e' = e) as -> by congruence. cbn [mbind res_mbind].
  set (s1 := (<[a := ht_SetIndex x (Z.of_nat (length (snd s))) e]> (fst s), snd s ++ [a])).
  assert (same_entries (a :: snd s) (fst s) (fst s1)) as Hs1 by (apply write_index_same; [done|by left]).
  assert (heap_in s1) as Hin1.
  { split; [apply Hin0|]. cbn [s1 fst snd]. intros q Hq. destruct (decide (a = q)) as [<-|].
    - rewrite lookup_insert_eq. eexists. split; [done|]. by apply law_valid.
    - rewrite lookup_insert_ne by done. by apply Hin0. }
  assert (∀ k, k < length (snd s) → ka s1 k = ka s k) as Hka.
  { intros k Hk. unfold ka, s1. cbn [fst snd]. rewrite lookup_app_l by done.
    destruct (snd s !! k) as [q|] eqn:Hq; [|done]. simpl. apply keyof_insert_ne.
    intros ->. apply Ha. by eapply list_elem_of_lookup_2. }
  assert (Len s1 = S (length (snd s))) as HLen by (unfold Len, s1; cbn [snd]; rewrite length_app; simpl; lia).
  rewrite HLen. replace (S (length (snd s)) - 1) with (length (snd s)) by lia.
  destruct (up_spec (S (length (snd s))) (S (S (length (snd s)))) (length (snd s)) s1)
    as (s2 & -> & Ht & Hin2 & Hord2 & _); [done| |lia| |lia|].
  - split; [|intros c Hc Hpc; pose proof (parent_lt c ltac:(lia)); lia].
    intros k Hk Hne. pose proof (parent_lt k ltac:(lia)). rewrite !Hka by lia. apply Hord. lia.
  - change (length (snd s1)) with (Len s1). lia.
  - assert (snd s2 ≡ₚ a :: snd s) as Hperm.
    { rewrite (tk_perm _ _ Ht). cbn [s1 snd]. by rewrite <- Permutation_cons_append. }
    exists s2. split_and!; [done|done| |done| |].
    + rewrite Hperm. done.
    + eapply same_entries_trans; [|exact Hs1|apply Ht]. intros q. cbn [s1 snd].
      rewrite elem_of_app, list_elem_of_singleton, elem_of_cons. tauto.
    + intros Hlaw Hidx. apply (tk_idx _ _ Ht Hlaw). intros k q eq Hq Heq. unfold s1 in Hq, Heq. cbn [fst snd] in *.
      apply lookup_app_Some in Hq as [Hq|[Hge Hq]].
      * rewrite lookup_insert_ne in Heq; [by eapply Hidx|].
        intros ->. apply Ha. by eapply list_elem_of_lookup_2.
      * destruct (k - length (snd s)) as [|k'] eqn:Hk; [|by destruct k'].
        injection Hq as <-. rewrite lookup_insert_eq in Heq. injection Heq as <-. rewrite Hlaw. f_equal. lia.
Qed.

(** The last slot leaves a heap whose other slots are in order. *)
Record popped s (p : positive) s' : Prop := {
  pop_in : heap_in s';
  pop_ord : hord s' (length (snd s'));
  pop_perm : (p :: snd s') ≡ₚ snd s;
  pop_entries : same_entries (snd s) (fst s) (fst s');
  pop_idx : idx_law → idx_ok s → idx_ok s';
}.

Lemma Pop_spec s n p :
  heap_in s → length (snd s) = S n → hord s n → snd s !! n = Some p →
  ∃ s', Pop x s = Ok (p, s') ∧ popped s p s'.
Proof.
  intros Hin Hlen Hord Hp. unfold Pop. rewrite Hlen. cbn [Nat.sub]. rewrite Nat.sub_0_r.
  destruct (SetIndex_spec s n (-1) Hin) as (q & e & Hq & He & ->); [lia|].
  assert (q = p) as -> by congruence. unfold slot. cbn [mbind res_mbind fst snd]. rewrite Hp.
  cbn [mbind res_mbind or_panic]. eexists. split; [done|].
  assert (snd s = take n (snd s) ++ [p]) as Hsplit.
  { rewrite <- (take_drop n (snd s)) at 1. f_equal. rewrite (drop_S _ p) by done. f_equal.
    by rewrite drop_ge by lia. }
  assert (p ∉ take n (snd s) ∧ NoDup (take n (snd s))) as [Hnin Hnd].
  { pose proof (hi_nodup s Hin) as H. rewrite Hsplit in H. apply NoDup_app in H as (H1 & H2 & _).
    split; [|done]. intros Hin'. apply (H2 p Hin'). by left. }
  assert (∀ q, q ∈ take n (snd s) → q ∈ snd s) as Hsub.
  { intros q Hq'. rewrite Hsplit. apply elem_of_app. by left. }
  split; cbn [fst snd].
  - split; [done|]. cbn [fst snd]. intros q Hq'. rewrite lookup_insert_ne by congruence. apply Hin. auto.
  - rewrite length_take_le by lia. intros k Hk. pose proof (parent_lt k ltac:(lia)).
    assert (∀ i, i < n → ka (<[p := ht_SetIndex x (-1) e]> (fst s), take n (snd s)) i = ka s i) as Hka.
    { intros i Hi. unfold ka. cbn [fst snd]. rewrite lookup_take_lt by done.
      destruct (snd s !! i) as [q|] eqn:Hqi; [|done]. simpl. apply keyof_insert_ne. intros ->.
      assert (i = n); [|lia]. by eapply NoDup_lookup; [apply Hin|..]. }
    rewrite !Hka by lia. by apply Hord.
  - rewrite Hsplit at 2. by rewrite Permutation_cons_append.
  - apply write_index_same; [done|]. by eapply list_elem_of_lookup_2.
  - intros Hlaw Hidx k q eq Hkq Heq. cbn [fst snd] in *.
    rewrite lookup_insert_ne in Heq by (intros ->; apply Hnin; by eapply list_elem_of_lookup_2).
    apply lookup_take_Some in Hkq as [Hkq _]. by eapply Hidx.
Qed.

Lemma popped_tracks s s1 p s' : tracks s s1 → popped s1 p s' → popped s p s'.
Proof.
  intros [Hp He Hi] [H1 H2 H3 H4 H5]. split; [done|done|by rewrite H3| |auto].
  eapply same_entries_trans; [|done|done]. intros q. by rewrite Hp.
Qed.

(** Moving slot [i] behind the heap. *)
Lemma swap_out s s1 n i :
  hord s (S n) → i < n → (∀ k, ka s1 k = ka s (tr i n k)) → any_inv s1 n i ∧ (i = 0 → down_inv s1 n i).
Proof.
  intros Hord Hi Hka.
  assert (∀ k, 0 < k < n → k ≠ i → parent k ≠ i → (ka s1 (parent k) ≤ ka s1 k)%Z) as Hfar.
  { intros k Hk Hki Hpk. pose proof (parent_lt k ltac:(lia)). swapped Hka. apply Hord. lia. }
  assert (grand s1 n i) as Hgr.
  { intros c Hc Hpc Hi0. pose proof (parent_lt c ltac:(lia)). pose proof (parent_lt i Hi0).
    pose proof (Hord c ltac:(lia)) as H1. rewrite Hpc in H1. pose proof (Hord i ltac:(lia)). swapped Hka. }
  split; [done|]. intros ->. split; [|done]. intros k Hk Hpk. apply Hfar; [done|lia|done].
Qed.

Lemma heap_Remove_spec s i p :
  heap_in s → hord s (length (snd s)) → snd s !! i = Some p →
  ∃ s', heap_Remove x (Z.of_nat i) s = Ok (p, s') ∧ popped s p s'.
Proof.
  intros Hin Hord Hp. pose proof (lookup_lt_Some _ _ _ Hp) as Hi.
  destruct (length (snd s)) as [|n] eqn:Hlen; [lia|].
  unfold heap_Remove, Len. destruct (Z.ltb_spec (Z.of_nat i) 0); [lia|]. rewrite Nat2Z.id, Hlen.
  cbn [Nat.sub]. rewrite Nat.sub_0_r. case_bool_decide as Hni.
  - subst n. cbn [mbind res_mbind]. apply (Pop_spec s i); [done|done| |done]. intros k Hk. apply Hord. lia.
  - destruct (Swap_spec s i n Hin) as (s1 & -> & Ht1 & Hin1 & Hlk & Hka); [lia|lia|]. cbn [mbind res_mbind].
    assert (length (snd s1) = S n) as Hlen1 by (rewrite (tk_perm _ _ Ht1); lia). rewrite Hlen1.
    destruct (swap_out s s1 n i Hord ltac:(lia) Hka) as [Hany _].
    destruct (down_spec n (S (S n)) i s1) as (s2 & -> & Ht2 & Hin2 & Htail2 & Hup & _);
      [done|done|lia|lia|lia|]. cbn [mbind res_mbind].
    assert (length (snd s2) = S n) as Hlen2 by (rewrite (tk_perm _ _ Ht2); lia). rewrite Hlen2.
    destruct (up_spec n (S (S n)) i s2) as (s3 & -> & Ht3 & Hin3 & Hord3 & Htail3); [done|done|lia|lia|lia|].
    cbn [mbind res_mbind].
    destruct (Pop_spec s3 n p) as (s' & Hs' & Hpop); [done| |done| |].
    + rewrite (tk_perm _ _ Ht3). lia.
    + rewrite Htail3, Htail2, Hlk by lia. unfold tr. rewrite decide_False, decide_True by lia. done.
    + exists s'. split; [done|]. eapply popped_tracks; [|done]. eapply tracks_trans; [done|].
      by eapply tracks_trans.
Qed.

Lemma heap_Pop_spec s p :
  heap_in s → hord s (length (snd s)) → snd s !! 0 = Some p →
  ∃ s', heap_Pop x s = Ok (p, s') ∧ popped s p s'.
Proof.
  intros Hin Hord Hp. pose proof (lookup_lt_Some _ _ _ Hp) as Hi.
  destruct (length (snd s)) as [|n] eqn:Hlen; [lia|].
  unfold heap_Pop, Len. rewrite Hlen. cbn [Nat.sub]. rewrite Nat.sub_0_r.
  destruct (Swap_spec s 0 n Hin) as (s1 & -> & Ht1 & Hin1 & Hlk & Hka); [lia|lia|]. cbn [mbind res_mbind].
  assert (length (snd s1) = S n) as Hlen1 by (rewrite (tk_perm _ _ Ht1); lia). rewrite Hlen1.
  assert (∃ s2, down x (S (S n)) 0 n s1 = Ok s2 ∧ tracks s1 s2 ∧ heap_in s2 ∧ hord s2 n ∧ same_tail n s1 s2)
    as (s2 & -> & Ht2 & Hin2 & Hord2 & Htail).
  { destruct (decide (n = 0)) as [->|Hn].
    - exists s1. split_and!; [done|apply tracks_refl|done|intros k Hk; lia|done].
    - destruct (swap_out s s1 n 0 Hord ltac:(lia) Hka) as [Hany Hdown].
      destruct (down_spec n (S (S n)) 0 s1) as (s2 & -> & ? & ? & ? & _ & Hh);
        [done|done|lia|lia|lia|]. exists s2. split_and!; try done. apply Hh. by apply Hdown. }
  cbn [mbind res_mbind]. destruct (Pop_spec s2 n p) as (s' & Hs' & Hpop); [done| |done| |].
  - rewrite (tk_perm _ _ Ht2). lia.
  - rewrite Htail, Hlk by lia. unfold tr. repeat case_decide; by subst.
  - exists s'. split; [done|]. eapply popped_tracks; [|done]. by eapply tracks_trans.
Qed.

(** The root has the least key. *)
Lemma hord_min s n k : hord s n → k < n → (ka s 0 ≤ ka s k)%Z.
Proof.
  intros Hord. induction k as [k IH] using lt_wf_ind. intros Hk.
  destruct (decide (k = 0)) as [->|]; [done|].
  pose proof (parent_lt k ltac:(lia)). pose proof (Hord k ltac:(lia)). specialize (IH (parent k)). lia.
Qed.

Lemma heap_min s p q :
  hord s (length (snd s)) → snd s !! 0 = Some p → q ∈ snd s → (keyof (fst s) p ≤ keyof (fst s) q)%Z.
Proof.
  intros Hord Hp (k & Hk)%list_elem_of_lookup. pose proof (lookup_lt_Some _ _ _ Hk) as Hlt.
  pose proof (hord_min s _ k Hord Hlt) as H. unfold ka in H. by rewrite Hp, Hk in H.
Qed.
End spec.
