(* ===== verification/DualHeap.v ===== *)
(** * Two heaps over the same entries

    Both statistics keep each entry in two heaps at once, with one index field
    per heap.  This file shows, once for both, that taking an entry out of both
    heaps and putting it back keeps the two heaps consistent and leaves the
    data of every entry as it was. *)

From S2P Require Import Prelude Heap HeapSpec.

Section dual.
Context {E D : Type} (data : E → D).
Context (x1 x2 : HeapType E) (key1 key2 : E → Z) (valid : E → Prop) (idx1 idx2 : E → Z).
Context `{HL1 : !HeapLaws x1 key1 valid} `{HL2 : !HeapLaws x2 key2 valid}.

(** Writing an index changes neither the data nor the other index, and keys
    and validity depend on the data. *)
Class DualLaws := {
  dl_idx1 v e : idx1 (ht_SetIndex x1 v e) = v;
  dl_idx2 v e : idx2 (ht_SetIndex x2 v e) = v;
  dl_data1 v e : data (ht_SetIndex x1 v e) = data e;
  dl_data2 v e : data (ht_SetIndex x2 v e) = data e;
  dl_other1 v e : idx2 (ht_SetIndex x1 v e) = idx2 e;
  dl_other2 v e : idx1 (ht_SetIndex x2 v e) = idx1 e;
  dl_key1 e e' : data e = data e' → key1 e = key1 e';
  dl_key2 e e' : data e = data e' → key2 e = key2 e';
  dl_valid e e' : data e = data e' → valid e → valid e';
}.
Context `{DL : !DualLaws}.
Implicit Types (m : gmap positive E) (h : list positive) (p q : positive).

(** One heap, in order and with correct indices. *)
Record heap_ok (x : HeapType E) (key : E → Z) (idx : E → Z) m h : Prop := {
  ok_in : heap_in valid (m, h);
  ok_ord : hord key (m, h) (length h);
  ok_idx : idx_ok idx (m, h);
}.

Record dual_wf m (h1 h2 : list positive) : Prop := {
  dw_1 : heap_ok x1 key1 idx1 m h1;
  dw_2 : heap_ok x2 key2 idx2 m h2;
  dw_perm : h1 ≡ₚ h2;
}.

(** Two stores with the same data; on [l] the index [idx] agrees too. *)
Definition same_data m m' : Prop := ∀ p, data <$> m !! p = data <$> m' !! p.
Definition same_idx (idx : E → Z) h m m' : Prop :=
  ∀ p, p ∈ h → idx <$> m !! p = idx <$> m' !! p.

Lemma same_data_trans m1 m2 m3 : same_data m1 m2 → same_data m2 m3 → same_data m1 m3.
Proof. intros H1 H2 p. by rewrite H1. Qed.

Lemma same_data_lookup m m' p e :
  same_data m m' → m !! p = Some e → ∃ e', m' !! p = Some e' ∧ data e' = data e.
Proof.
  intros Hs He. specialize (Hs p). rewrite He in Hs. simpl in Hs.
  destruct (m' !! p) as [e'|]; [|done]. injection Hs as Hs. eauto.
Qed.

(** A heap does not notice changes outside of its data and its index. *)
Lemma heap_ok_transfer x key idx m m' h :
  (∀ e e', data e = data e' → key e = key e') →
  (∀ p, p ∈ h → data <$> m !! p = data <$> m' !! p) → same_idx idx h m m' →
  heap_ok x key idx m h → heap_ok x key idx m' h.
Proof.
  intros Hkey Hd Hi [[Hnd Hv] Hord Hidx]. cbn [fst snd] in *.
  assert (∀ p e', p ∈ h → m' !! p = Some e' → ∃ e, m !! p = Some e ∧ data e = data e' ∧ idx e = idx e') as Hback.
  { intros p e' Hin He'. pose proof (Hd p Hin) as H1. pose proof (Hi p Hin) as H2. rewrite He' in H1, H2.
    destruct (m !! p) as [e|]; [|done]. simpl in *. exists e. split_and!; congruence. }
  split.
  - split; [done|]. cbn [fst snd]. intros p Hin. destruct (Hv p Hin) as (e & He & Hve).
    pose proof (Hd p Hin) as H1. rewrite He in H1. destruct (m' !! p) as [e'|]; [|done]. simpl in H1.
    exists e'. split; [done|]. eapply dl_valid; [|done]. congruence.
  - intros k Hk. specialize (Hord k Hk). unfold ka in *. cbn [fst snd] in *.
    assert (∀ i, from_option (keyof key m') 0%Z (h !! i) = from_option (keyof key m) 0%Z (h !! i)) as Heq.
    { intros i. destruct (h !! i) as [p|] eqn:Hp; [|done]. simpl. unfold keyof.
      apply list_elem_of_lookup_2 in Hp. pose proof (Hd p Hp) as H1.
      destruct (m !! p), (m' !! p); simpl in *; try done. apply Hkey. congruence. }
    by rewrite !Heq.
  - intros k p e' Hk He'. cbn [fst snd] in *.
    destruct (Hback p e') as (e & He & _ & <-); [by eapply list_elem_of_lookup_2|done|]. by eapply Hidx.
Qed.

(** What touching the entries of one heap does to the other. *)
Lemma touch1 h m m' : same_entries x1 h m m' → same_data m m' ∧ ∀ p, idx2 <$> m !! p = idx2 <$> m' !! p.
Proof.
  intros [_ Ht]. split; intros p; specialize (Ht p); destruct (m !! p), (m' !! p); try done; simpl; f_equal;
    destruct Ht as [->|[v ->]]; rewrite ?dl_data1, ?dl_other1; done.
Qed.

Lemma touch2 h m m' : same_entries x2 h m m' → same_data m m' ∧ ∀ p, idx1 <$> m !! p = idx1 <$> m' !! p.
Proof.
  intros [_ Ht]. split; intros p; specialize (Ht p); destruct (m !! p), (m' !! p); try done; simpl; f_equal;
    destruct Ht as [->|[v ->]]; rewrite ?dl_data2, ?dl_other2; done.
Qed.

Lemma transfer1 h h' m m' : same_entries x2 h' m m' → heap_ok x1 key1 idx1 m h → heap_ok x1 key1 idx1 m' h.
Proof.
  intros [Hd Hi]%touch2. apply heap_ok_transfer; [apply dl_key1|intros p _; apply Hd|intros p _; apply Hi].
Qed.

Lemma transfer2 h h' m m' : same_entries x1 h' m m' → heap_ok x2 key2 idx2 m h → heap_ok x2 key2 idx2 m' h.
Proof.
  intros [Hd Hi]%touch1. apply heap_ok_transfer; [apply dl_key2|intros p _; apply Hd|intros p _; apply Hi].
Qed.

(** Changing the data of an entry that is in no heap. *)
Lemma dual_write m h1 h2 p e :
  dual_wf m h1 h2 → p ∉ h1 → dual_wf (<[p := e]> m) h1 h2.
Proof.
  intros [H1 H2 Hp] Hnin. split; [| |done].
  - apply (heap_ok_transfer x1 key1 idx1 m); [apply dl_key1|..|done]; intros q Hq;
      by rewrite lookup_insert_ne by (by intros ->).
  - rewrite Hp in Hnin. apply (heap_ok_transfer x2 key2 idx2 m); [apply dl_key2|..|done]; intros q Hq;
      by rewrite lookup_insert_ne by (by intros ->).
Qed.

Lemma dual_empty m : dual_wf m [] [].
Proof. split; [split..|done]; try (split; [constructor|]); try (intros p H; by apply not_elem_of_nil in H); done || (intros k Hk; simpl in Hk; lia). Qed.

(** ** The three moves *)

Lemma popped_ok1 m h p m' h' :
  popped x1 key1 valid idx1 (m, h) p (m', h') → idx_ok idx1 (m, h) → heap_ok x1 key1 idx1 m' h'.
Proof. intros [] Hidx. split; [done|done|]. apply pop_idx; [intros v e; apply dl_idx1|done]. Qed.

Lemma popped_ok2 m h p m' h' :
  popped x2 key2 valid idx2 (m, h) p (m', h') → idx_ok idx2 (m, h) → heap_ok x2 key2 idx2 m' h'.
Proof. intros [] Hidx. split; [done|done|]. apply pop_idx; [intros v e; apply dl_idx2|done]. Qed.

(** After [p] left the first heap, it leaves the second by its index. *)
Lemma dual_second m h1 h2 p m1 h1' :
  dual_wf m h1 h2 → popped x1 key1 valid idx1 (m, h1) p (m1, h1') →
  ∃ e1 m2 h2', m1 !! p = Some e1 ∧ heap_Remove x2 (idx2 e1) (m1, h2) = Ok (p, (m2, h2'))
    ∧ dual_wf m2 h1' h2' ∧ (p :: h1') ≡ₚ h1 ∧ (p ∉ h1') ∧ same_data m m1 ∧ same_data m m2.
Proof.
  intros [H1 H2 Hperm] Hpop. pose proof (pop_entries _ _ _ _ _ _ _ Hpop) as Hent. cbn [fst snd] in Hent.
  pose proof (pop_perm _ _ _ _ _ _ _ Hpop) as Hp1. cbn [snd] in Hp1.
  pose proof (touch1 _ _ _ Hent) as [Hd1 _]. pose proof (transfer2 h2 _ _ _ Hent H2) as H2'.
  assert (p ∈ h2) as Hin2 by (rewrite <- Hperm, <- Hp1; by left).
  destruct (hi_valid _ _ (ok_in _ _ _ _ _ H2') p Hin2) as (e1 & He1 & _). cbn [fst] in He1.
  apply list_elem_of_lookup in Hin2 as (k & Hk).
  destruct (heap_Remove_spec x2 key2 valid idx2 (m1, h2) k p) as ([m2 h2'] & Hrem & Hpop2);
    [apply H2'|apply H2'|done|].
  pose proof (pop_entries _ _ _ _ _ _ _ Hpop2) as Hent2. cbn [fst snd] in Hent2.
  pose proof (touch2 _ _ _ Hent2) as [Hd2 _]. exists e1, m2, h2'.
  assert (idx2 e1 = Z.of_nat k) as -> by (by eapply (ok_idx _ _ _ _ _ H2')).
  assert (p ∉ h1') as Hnin.
  { pose proof (hi_nodup _ _ (ok_in _ _ _ _ _ H1)) as Hnd. cbn [snd] in Hnd. rewrite <- Hp1 in Hnd.
    by apply NoDup_cons in Hnd as [? _]. }
  split_and!; try done; [|by eapply same_data_trans]. split.
  - eapply transfer1; [exact Hent2|]. eapply popped_ok1; [done|apply H1].
  - eapply popped_ok2; [done|apply H2'].
  - apply (Permutation_cons_inv (a := p)). rewrite Hp1, Hperm. symmetry. apply Hpop2.
Qed.

Lemma dual_remove m h1 h2 p e :
  dual_wf m h1 h2 → p ∈ h1 → m !! p = Some e →
  ∃ m1 h1' e1 m2 h2', heap_Remove x1 (idx1 e) (m, h1) = Ok (p, (m1, h1'))
    ∧ m1 !! p = Some e1 ∧ heap_Remove x2 (idx2 e1) (m1, h2) = Ok (p, (m2, h2'))
    ∧ dual_wf m2 h1' h2' ∧ (p :: h1') ≡ₚ h1 ∧ (p ∉ h1') ∧ same_data m m2.
Proof.
  intros Hwf Hin He. pose proof (dw_1 _ _ _ Hwf) as H1.
  apply list_elem_of_lookup in Hin as (k & Hk).
  destruct (heap_Remove_spec x1 key1 valid idx1 (m, h1) k p) as ([m1 h1'] & Hrem & Hpop);
    [apply H1|apply H1|done|].
  assert (idx1 e = Z.of_nat k) as -> by (by eapply (ok_idx _ _ _ _ _ H1)).
  destruct (dual_second m h1 h2 p m1 h1' Hwf Hpop) as (e1 & m2 & h2' & ? & ? & ? & ? & ? & _ & ?).
  exists m1, h1', e1, m2, h2'. done.
Qed.

(** Popping the least entry of the first heap and removing it from the second. *)
Lemma dual_pop m h1 h2 :
  dual_wf m h1 h2 → h1 ≠ [] →
  ∃ p m1 h1' e1 m2 h2', heap_Pop x1 (m, h1) = Ok (p, (m1, h1'))
    ∧ m1 !! p = Some e1 ∧ heap_Remove x2 (idx2 e1) (m1, h2) = Ok (p, (m2, h2'))
    ∧ dual_wf m2 h1' h2' ∧ (p :: h1') ≡ₚ h1 ∧ (p ∉ h1') ∧ same_data m m1 ∧ same_data m m2
    ∧ (∀ q, q ∈ h1 → keyof key1 m p ≤ keyof key1 m q)%Z.
Proof.
  intros Hwf Hne. pose proof (dw_1 _ _ _ Hwf) as H1.
  destruct h1 as [|p h1]; [done|].
  destruct (heap_Pop_spec x1 key1 valid idx1 (m, p :: h1) p) as ([m1 h1'] & Hp & Hpop);
    [apply H1|apply H1|done|].
  destruct (dual_second m (p :: h1) h2 p m1 h1' Hwf Hpop) as (e1 & m2 & h2' & ? & ? & ? & ? & ? & ? & ?).
  exists p, m1, h1', e1, m2, h2'. split_and!; try done.
  intros q Hq. apply (heap_min key1 (m, p :: h1) p q); [apply H1|done|done].
Qed.

Lemma dual_push m h1 h2 p e :
  dual_wf m h1 h2 → p ∉ h1 → m !! p = Some e → valid e →
  ∃ m1 h1' m2 h2', heap_Push x1 p (m, h1) = Ok (m1, h1') ∧ heap_Push x2 p (m1, h2) = Ok (m2, h2')
    ∧ dual_wf m2 h1' h2' ∧ h1' ≡ₚ p :: h1 ∧ same_data m m2.
Proof.
  intros [H1 H2 Hperm] Hnin He Hv.
  destruct (heap_Push_spec x1 key1 valid idx1 (m, h1) p e) as ([m1 h1'] & Hp1 & Hin1 & Hord1 & Hperm1 & Hent1 & Hidx1);
    [apply H1|apply H1|done|done|done|]. cbn [fst snd] in *.
  pose proof (touch1 _ _ _ Hent1) as [Hd1 _].
  destruct (same_data_lookup _ _ _ _ Hd1 He) as (e1 & He1 & Hde).
  pose proof (transfer2 h2 _ _ _ Hent1 H2) as H2'. rewrite Hperm in Hnin.
  destruct (heap_Push_spec x2 key2 valid idx2 (m1, h2) p e1) as ([m2 h2'] & Hp2 & Hin2 & Hord2 & Hperm2 & Hent2 & Hidx2);
    [apply H2'|apply H2'|done|done| |].
  { eapply dl_valid; [|done]. done. }
  cbn [fst snd] in *. pose proof (touch2 _ _ _ Hent2) as [Hd2 _].
  exists m1, h1', m2, h2'. split_and!; try done; [|by eapply same_data_trans]. split.
  - eapply transfer1; [exact Hent2|]. split; [done|done|]. apply Hidx1; [intros v e0; apply dl_idx1|apply H1].
  - split; [done|done|]. apply Hidx2; [intros v e0; apply dl_idx2|apply H2'].
  - by rewrite Hperm1, Hperm2, Hperm.
Qed.

(** Popping the first heap and pushing the entry back. *)
Lemma dual_pop_push m h1 h2 p m1 h1' :
  dual_wf m h1 h2 → h1 ≠ [] → heap_Pop x1 (m, h1) = Ok (p, (m1, h1')) →
  ∃ m2 h1'', heap_Push x1 p (m1, h1') = Ok (m2, h1'')
    ∧ dual_wf m2 h1'' h2 ∧ h1'' ≡ₚ h1 ∧ same_data m m2.
Proof.
  intros Hwf Hne Hpop. pose proof Hwf as [H1 H2 Hperm]. destruct h1 as [|p0 h1]; [done|].
  destruct (heap_Pop_spec x1 key1 valid idx1 (m, p0 :: h1) p0) as ([m1' h1''] & Hp & Hpopped);
    [apply H1|apply H1|done|]. rewrite Hp in Hpop. simplify_eq.
  pose proof (pop_entries _ _ _ _ _ _ _ Hpopped) as Hent. pose proof (pop_perm _ _ _ _ _ _ _ Hpopped) as Hp1.
  pose proof (popped_ok1 _ _ _ _ _ Hpopped (ok_idx _ _ _ _ _ H1)) as H1'. cbn [fst snd] in *.
  pose proof (touch1 _ _ _ Hent) as [Hd1 _].
  destruct (hi_valid _ _ (ok_in _ _ _ _ _ H1) p) as (e & He & Hv); [by left|]. cbn [fst] in He.
  destruct (same_data_lookup _ _ _ _ Hd1 He) as (e1 & He1 & Hde).
  assert (p ∉ h1') as Hnin.
  { pose proof (hi_nodup _ _ (ok_in _ _ _ _ _ H1)) as Hnd. cbn [snd] in Hnd. rewrite <- Hp1 in Hnd.
    by apply NoDup_cons in Hnd as [? _]. }
  destruct (heap_Push_spec x1 key1 valid idx1 (m1, h1') p e1) as ([m2 h2'] & Hps & Hin2 & Hord2 & Hperm2 & Hent2 & Hidx2);
    [apply H1'|apply H1'|done|done|by eapply dl_valid|]. cbn [fst snd] in *.
  exists m2, h2'. split_and!; [done| |by rewrite Hperm2|].
  - split.
    + split; [done|done|]. apply Hidx2; [intros v e0; apply dl_idx1|apply H1'].
    + eapply transfer2; [exact Hent2|]. eapply transfer2; [exact Hent|done].
    + by rewrite Hperm2, Hp1.
  - eapply same_data_trans; [exact Hd1|]. by apply (touch1 _ _ _ Hent2).
Qed.
End dual.

(** ** A map into the heaps

    The map finds the entry of an application; the abstract state [tab] is the
    finite map from application ids to the payload of their entries. *)
Section table.
Context {E P : Type} (payload : E → P) (app_id : E → string).
Context (x1 x2 : HeapType E) (key1 key2 : E → Z) (valid : E → Prop) (idx1 idx2 : E → Z).
Implicit Types (s : gmap positive E) (m : gmap string positive) (h : list positive) (p q y : positive).

Definition app_data (e : E) : P * string := (payload e, app_id e).

Record tab_wf s m (h1 h2 : list positive) : Prop := {
  tw_heaps : dual_wf x1 x2 key1 key2 valid idx1 idx2 s h1 h2;
  tw_m : ∀ id p, m !! id = Some p ↔ p ∈ h1 ∧ ∃ v, app_data <$> s !! p = Some (v, id);
}.

Definition tab s m : gmap string P := omap (λ p, payload <$> s !! p) m.

Lemma tw_entry s m h1 h2 p : tab_wf s m h1 h2 → p ∈ h1 → ∃ e, s !! p = Some e ∧ valid e.
Proof. intros [[[[_ Hv] _ _] _ _] _] Hin. by apply Hv. Qed.

Lemma fresh_not_in s m h1 h2 : tab_wf s m h1 h2 → fresh_ptr s ∉ h1.
Proof. intros Hwf Hin. destruct (tw_entry _ _ _ _ _ Hwf Hin) as (e & He & _). by rewrite fresh_ptr_None in He. Qed.

Lemma tab_lookup s m h1 h2 id v :
  tab_wf s m h1 h2 → tab s m !! id = Some v ↔ ∃ p, p ∈ h1 ∧ app_data <$> s !! p = Some (v, id).
Proof.
  intros Hwf. unfold tab. rewrite lookup_omap, bind_Some. split.
  - intros (p & Hp & (e & He & ->)%fmap_Some). apply (tw_m _ _ _ _ Hwf) in Hp as (Hin & w & Hw).
    exists p. split; [done|]. rewrite He in *. simpl in *. unfold app_data in *. congruence.
  - intros (p & Hin & Hd). exists p. split; [apply (tw_m _ _ _ _ Hwf); eauto|].
    apply fmap_Some in Hd as (e & -> & Hd). simpl. unfold app_data in Hd. congruence.
Qed.

(** Adding or updating the entry [y] of application [id]. *)
Lemma tab_update s m h1 h2 s0 h0 s' h1' h2' y id v :
  tab_wf s m h1 h2 → (∀ q, q ∈ h0 ↔ q ∈ h1 ∧ q ≠ y) → (m !! id = None ∨ m !! id = Some y) →
  (∀ q, q ≠ y → app_data <$> s0 !! q = app_data <$> s !! q) →
  (y ∈ h1 → ∃ w, app_data <$> s !! y = Some (w, id)) →
  dual_wf x1 x2 key1 key2 valid idx1 idx2 s' h1' h2' → h1' ≡ₚ y :: h0 →
  (∀ q, app_data <$> s' !! q = if decide (q = y) then Some (v, id) else app_data <$> s0 !! q) →
  tab_wf s' (<[id := y]> m) h1' h2' ∧ tab s' (<[id := y]> m) = <[id := v]> (tab s m).
Proof.
  intros Hwf Hi Hid Hs Hy Hh Hperm Hd.
  assert (∀ q id' v', q ∈ h1' ∧ app_data <$> s' !! q = Some (v', id') ↔
    (q = y ∧ id' = id ∧ v' = v) ∨ (q ≠ y ∧ q ∈ h1 ∧ app_data <$> s !! q = Some (v', id'))) as Hchar.
  { intros q id' v'. rewrite Hperm, elem_of_cons, Hi, Hd. destruct (decide (q = y)) as [->|Hne].
    - split; [intros [_ [= <- <-]]; auto|intros [(_ & -> & ->)|[? _]]; [auto|done]].
    - rewrite Hs by done. split; [|intros [[? _]|(_ & ? & ?)]; [done|auto]].
      intros [[?|[? _]] ?]; [done|auto]. }
  assert (∀ q w, q ≠ y → q ∈ h1 → app_data <$> s !! q = Some (w, id) → False) as Huniq.
  { intros q w Hne Hin Hq. assert (m !! id = Some q) by (apply (tw_m _ _ _ _ Hwf); eauto).
    destruct Hid; congruence. }
  assert (tab_wf s' (<[id := y]> m) h1' h2') as Hwf'.
  { split; [done|]. intros id' p. rewrite lookup_insert_Some. split.
    - intros [[<- <-]|[Hne Hp]].
      + destruct (proj2 (Hchar y id v)) as [? ?]; [auto|]. eauto.
      + apply (tw_m _ _ _ _ Hwf) in Hp as (Hin & w & Hw). destruct (decide (p = y)) as [->|Hpy].
        { destruct (Hy Hin) as (w2 & Hw2). congruence. }
        destruct (proj2 (Hchar p id' w)) as [? ?]; [auto|]. eauto.
    - intros (Hin & w & Hw).
      destruct (proj1 (Hchar p id' w) (conj Hin Hw)) as [(-> & -> & _)|(Hne & Hin' & Hq)]; [auto|].
      right. split; [|apply (tw_m _ _ _ _ Hwf); eauto]. intros ->. by eapply Huniq. }
  split; [done|]. apply map_eq. intros id'. apply option_eq. intros v'.
  rewrite (tab_lookup _ _ _ _ id' v' Hwf'), lookup_insert_Some, (tab_lookup _ _ _ _ id' v' Hwf). split.
  - intros (q & Hq). destruct (proj1 (Hchar q id' v') Hq) as [(-> & -> & ->)|(Hne & Hin & Hq')]; [auto|].
    right. split; [|eauto]. intros ->. by eapply Huniq.
  - intros [[<- <-]|[Hne (q & Hin & Hq)]].
    + exists y. apply Hchar. auto.
    + exists q. apply Hchar. right. split; [|done]. intros ->. destruct (Hy Hin) as (w2 & Hw2). congruence.
Qed.

(** Shuffling the heaps without touching the data. *)
Lemma tab_same s m h1 h2 s' h1' h2' :
  tab_wf s m h1 h2 → dual_wf x1 x2 key1 key2 valid idx1 idx2 s' h1' h2' → h1' ≡ₚ h1 →
  same_data app_data s s' → tab_wf s' m h1' h2' ∧ tab s' m = tab s m.
Proof.
  intros Hwf Hh Hperm Hs. split.
  - split; [done|]. intros id p. rewrite Hperm, <- Hs. apply Hwf.
  - apply map_eq. intros id. unfold tab. rewrite !lookup_omap. destruct (m !! id) as [p|]; [|done].
    simpl. specialize (Hs p). destruct (s !! p), (s' !! p); simpl in *; try done.
    unfold app_data in Hs. congruence.
Qed.

(** Dropping the entry [y] of application [id]; the entry itself is garbage. *)
Lemma tab_drop s m h1 h2 s' h1' h2' y id v :
  tab_wf s m h1 h2 → dual_wf x1 x2 key1 key2 valid idx1 idx2 s' h1' h2' →
  (y :: h1') ≡ₚ h1 → y ∉ h1' → (∀ q, q ≠ y → app_data <$> s !! q = app_data <$> s' !! q) →
  app_data <$> s !! y = Some (v, id) →
  tab_wf s' (delete id m) h1' h2' ∧ tab s' (delete id m) = delete id (tab s m).
Proof.
  intros Hwf Hh Hperm Hnin Hs Hy.
  assert (m !! id = Some y) as Hm.
  { apply (tw_m _ _ _ _ Hwf). split; [rewrite <- Hperm; by left|eauto]. }
  assert (∀ id' p, id' ≠ id → m !! id' = Some p → p ≠ y) as Hinj.
  { intros id' p Hne Hp ->. apply (tw_m _ _ _ _ Hwf) in Hp as (_ & w & Hw). congruence. }
  split.
  - split; [done|]. intros id' p. rewrite lookup_delete_Some. split.
    + intros [Hne Hp]. pose proof (Hinj id' p (not_eq_sym Hne) Hp) as Hpy.
      apply (tw_m _ _ _ _ Hwf) in Hp as (Hin & w & Hw). rewrite <- Hperm, elem_of_cons in Hin.
      rewrite <- Hs by done. destruct Hin as [?|?]; [done|eauto].
    + intros (Hin & w & Hw). assert (p ≠ y) as Hpy by congruence. rewrite <- Hs in Hw by done.
      assert (m !! id' = Some p) as Hp.
      { apply (tw_m _ _ _ _ Hwf). split; [rewrite <- Hperm; by right|eauto]. }
      split; [|done]. intros <-. congruence.
  - apply map_eq. intros id'. unfold tab. rewrite lookup_omap, !lookup_delete, lookup_omap.
    case_decide as Hne; [done|]. destruct (m !! id') as [p|] eqn:Hp; [|done]. simpl.
    specialize (Hs p (Hinj id' p (not_eq_sym Hne) Hp)).
    destruct (s !! p), (s' !! p); simpl in *; try done. unfold app_data in Hs. congruence.
Qed.

Lemma tab_empty : tab_wf ∅ ∅ [] [] ∧ tab ∅ ∅ = ∅.
Proof.
  split; [|done]. split; [apply dual_empty|]. intros id p. rewrite elem_of_nil, lookup_empty.
  split; [done|tauto].
Qed.
End table.
