(* ===== verification/ActiveApps.v ===== *)
(** * Applications seen recently (src/stats/active_apps.go)

    Entries live in a store of heap objects; a map finds the entry of an
    application, a min-heap and a max-heap order the entries by the time of
    the last request.  The lock serialises the methods, so the model runs one
    at a time; the background goroutine is one more caller of [Trim]. *)

From S2P Require Import Prelude Heap.

Definition ActiveAppsTrimInterval : Z := 1 * Minute.
Definition ActiveAppsEntryLifetime : Z := 30 * Minute.

Record activeAppsEntry := mkActive {
  a_t : Z;
  a_ti : Z;
  a_tj : Z;
  ApplicationId : string;
}.

Definition entry_Mark (t : Z) (x : activeAppsEntry) : activeAppsEntry :=
  if (a_t x <? t)%Z then mkActive t (a_ti x) (a_tj x) (ApplicationId x) else x.

Definition byTimeMinHeap : HeapType activeAppsEntry := {|
  ht_Less yi yj := Ok (a_t yi <? a_t yj)%Z;
  ht_SetIndex j y := mkActive (a_t y) j (a_tj y) (ApplicationId y)
|}.

Definition byTimeMaxHeap : HeapType activeAppsEntry := {|
  ht_Less yi yj := Ok (a_t yj <? a_t yi)%Z;
  ht_SetIndex j y := mkActive (a_t y) (a_ti y) j (ApplicationId y)
|}.

(** Snapshots do not write indices. *)
Definition byTimeMinHeapSnapshot : HeapType activeAppsEntry := {|
  ht_Less := ht_Less byTimeMinHeap;
  ht_SetIndex _ y := y
|}.

Definition byTimeMaxHeapSnapshot : HeapType activeAppsEntry := {|
  ht_Less := ht_Less byTimeMaxHeap;
  ht_SetIndex _ y := y
|}.

Record ActiveApps := mkActiveApps {
  aa_entries : gmap positive activeAppsEntry;
  aa_m : gmap string positive;
  aa_i : list positive;
  aa_j : list positive;
}.

Definition NewActiveApps : ActiveApps := mkActiveApps ∅ ∅ [] [].

(** Both heaps, in the order of the calls. *)
Definition push_both (p : positive) (s : gmap positive activeAppsEntry) (i j : list positive)
    : res (gmap positive activeAppsEntry * list positive * list positive) :=
  s1 ← heap_Push byTimeMinHeap p (s, i);
  s2 ← heap_Push byTimeMaxHeap p (fst s1, j);
  Ok (fst s2, snd s1, snd s2).

Definition Mark (id : string) (z : Z) (x : ActiveApps) : res ActiveApps :=
  let t := time_Unix z in
  w ← match aa_m x !! id with
      | Some y =>
          e ← or_panic nil_deref (aa_entries x !! y);
          r1 ← heap_Remove byTimeMinHeap (a_ti e) (aa_entries x, aa_i x);
          e1 ← or_panic nil_deref (fst (snd r1) !! y);
          r2 ← heap_Remove byTimeMaxHeap (a_tj e1) (fst (snd r1), aa_j x);
          Ok (y, fst (snd r2), snd (snd r1), snd (snd r2), aa_m x)
      | None =>
          let y := fresh_ptr (aa_entries x) in
          Ok (y, <[y := mkActive 0 0 0 id]> (aa_entries x), aa_i x, aa_j x, <[id := y]> (aa_m x))
      end;
  let '(y, s, i, j, m) := w in
  e ← or_panic nil_deref (s !! y);
  b ← push_both y (<[y := entry_Mark t e]> s) i j;
  let '(s', i', j') := b in
  Ok (mkActiveApps s' m i' j').

Fixpoint Trim_loop (fuel : nat) (t : Z) (x : ActiveApps) : res ActiveApps :=
  if bool_decide (aa_i x = []) then Ok x
  else
    match fuel with
    | O => NoFuel
    | S fuel' =>
        r ← heap_Pop byTimeMinHeap (aa_entries x, aa_i x);
        let z := fst r in
        ez ← or_panic nil_deref (fst (snd r) !! z);
        if (t <? a_t ez)%Z
        then r' ← heap_Push byTimeMinHeap z (snd r);
             Ok (mkActiveApps (fst r') (aa_m x) (snd r') (aa_j x))
        else
          rj ← heap_Remove byTimeMaxHeap (a_tj ez) (fst (snd r), aa_j x);
          Trim_loop fuel' t
            (mkActiveApps (fst (snd rj)) (delete (ApplicationId ez) (aa_m x)) (snd (snd r)) (snd (snd rj)))
    end.

Definition Trim (y : Z) (x : ActiveApps) : res ActiveApps :=
  Trim_loop (length (aa_i x)) (time_Unix y) x.

(** The goroutine's action on a tick. *)
Definition trim_tick (now : Z) (x : ActiveApps) : res ActiveApps :=
  Trim (time_Add now (- ActiveAppsEntryLifetime)) x.

Fixpoint collect_since (fuel : nat) (t : Z) (a : gmap positive activeAppsEntry * list positive)
    (b : list string) : res (list string) :=
  if bool_decide (snd a = []) then Ok b
  else
    match fuel with
    | O => NoFuel
    | S fuel' =>
        r ← heap_Pop byTimeMaxHeapSnapshot a;
        z ← or_panic nil_deref (fst (snd r) !! fst r);
        if (a_t z <? t)%Z then Ok b
        else collect_since fuel' t (snd r) (b ++ [ApplicationId z])
    end.

Definition ActiveSince (y : Z) (x : ActiveApps) : res (list string) :=
  let a := Copy (aa_entries x, aa_j x) in
  collect_since (Len a) (time_Unix y) a [].
