(* ===== verification/ActiveAppsSpec.v ===== *)
(** * What the record of active applications guarantees

    [apps] is the abstract state: the time of the last request of each
    application that has not been trimmed.  [Mark], [Trim] and [ActiveSince]
    are an update, a filter and a sorted listing of that map. *)

From S2P Require Import Prelude Heap HeapSpec DualHeap ActiveApps.
From Stdlib Require Import Sorted.

#[export] Instance min_laws : HeapLaws byTimeMinHeap a_t (λ _, True).
Proof. split; done. Qed.

#[export] Instance max_laws : HeapLaws byTimeMaxHeap (λ e, - a_t e)%Z (λ _, True).
Proof.
  split; try done. intros a b _ _. simpl. f_equal.
  destruct (Z.ltb_spec (a_t b) (a_t a)), (Z.ltb_spec (- a_t a) (- a_t b)); lia.
Qed.

#[export] Instance snapshot_laws : HeapLaws byTimeMaxHeapSnapshot (λ e, - a_t e)%Z (λ _, True).
Proof. split; try done. apply max_laws. Qed.

Abbreviation entry_data := (app_data a_t ApplicationId).

#[export] Instance active_dual :
  DualLaws entry_data byTimeMinHeap byTimeMaxHeap a_t (λ e, - a_t e)%Z (λ _, True) a_ti a_tj.
Proof. split; try done; unfold app_data; intros e e' [= H _]; congruence. Qed.

Abbreviation heaps_wf :=
  (dual_wf byTimeMinHeap byTimeMaxHeap a_t (λ e, - a_t e)%Z (λ _, True) a_ti a_tj).

Definition aa_wf (x : ActiveApps) : Prop :=
  tab_wf a_t ApplicationId byTimeMinHeap byTimeMaxHeap a_t (λ e, - a_t e)%Z (λ _, True) a_ti a_tj
    (aa_entries x) (aa_m x) (aa_i x) (aa_j x).

Definition apps (x : ActiveApps) : gmap string Z := tab a_t (aa_entries x) (aa_m x).

Lemma apps_lookup x id t :
  aa_wf x → apps x !! id = Some t ↔ ∃ p, p ∈ aa_i x ∧ entry_data <$> aa_entries x !! p = Some (t, id).
Proof. apply tab_lookup. Qed.

(** ** Mark *)

Lemma entry_Mark_data t e : entry_data (entry_Mark t e) = (Z.max (a_t e) t, ApplicationId e).
Proof.
  unfold entry_Mark, app_data. destruct (Z.ltb_spec (a_t e) t); simpl; f_equal; lia.
Qed.

Lemma push_both_spec s i j y e t :
  heaps_wf s i j → y ∉ i → s !! y = Some e →
  ∃ s' i' j', push_both y (<[y := entry_Mark t e]> s) i j = Ok (s', i', j')
    ∧ heaps_wf s' i' j' ∧ i' ≡ₚ y :: i
    ∧ (∀ q, entry_data <$> s' !! q = if decide (q = y) then Some (Z.max (a_t e) t, ApplicationId e)
                                     else entry_data <$> s !! q).
Proof.
  intros Hwf Hnin He.
  destruct (dual_push entry_data byTimeMinHeap byTimeMaxHeap a_t (λ e, - a_t e)%Z (λ _, True) a_ti a_tj
    (<[y := entry_Mark t e]> s) i j y (entry_Mark t e))
    as (m1 & h1 & m2 & h2 & Hp1 & Hp2 & Hwf' & Hperm & Hd); [|done|by rewrite lookup_insert_eq|done|].
  { apply (dual_write entry_data); [apply active_dual|done..]. }
  exists m2, h1, h2. unfold push_both. rewrite Hp1. simpl. rewrite Hp2. simpl. split_and!; [done..|].
  intros q. rewrite <- Hd. case_decide as Hq.
  - subst q. rewrite lookup_insert_eq. simpl. by rewrite entry_Mark_data.
  - by rewrite lookup_insert_ne.
Qed.

Lemma Mark_known id z x y :
  aa_wf x → aa_m x !! id = Some y →
  ∃ x', Mark id z x = Ok x' ∧ aa_wf x'
    ∧ apps x' = <[id := Z.max (default 0%Z (apps x !! id)) (time_Unix z)]> (apps x).
Proof.
  intros Hwf Hy. pose proof (tw_heaps _ _ _ _ _ _ _ _ _ _ _ _ _ Hwf) as Hh. unfold Mark. rewrite Hy.
  pose proof Hy as Hy'. apply (tw_m _ _ _ _ _ _ _ _ _ _ _ _ _ Hwf) in Hy' as (Hin & t0 & Hd).
  pose proof Hd as (e & He & Hde)%fmap_Some. rewrite He. cbn [or_panic mbind res_mbind].
  destruct (dual_remove entry_data byTimeMinHeap byTimeMaxHeap a_t (λ e, - a_t e)%Z (λ _, True) a_ti a_tj
    _ _ _ y e Hh Hin He) as (m1 & h1 & e1 & m2 & h2 & -> & He1 & Hr2 & Hh2 & Hperm & Hnin & Hsame).
  cbn [mbind res_mbind fst snd]. rewrite He1. cbn [or_panic mbind res_mbind]. rewrite Hr2.
  cbn [mbind res_mbind fst snd].
  destruct (same_data_lookup _ _ _ _ _ Hsame He) as (e2 & He2 & Hd2). rewrite He2. cbn [or_panic mbind res_mbind].
  assert (a_t e2 = t0 ∧ ApplicationId e2 = id) as [Ht2 Hid2] by (unfold app_data in *; split; congruence).
  destruct (push_both_spec m2 h1 h2 y e2 (time_Unix z) Hh2 Hnin He2) as (s' & i' & j' & -> & Hh' & Hp' & Hd').
  cbn [mbind res_mbind]. rewrite Ht2, Hid2 in Hd'.
  assert (apps x !! id = Some t0) as -> by (apply apps_lookup; eauto). cbn [default from_option].
  eexists. split; [done|]. unfold aa_wf, apps. cbn [aa_entries aa_m aa_i aa_j].
  assert (<[id := y]> (aa_m x) = aa_m x) as Hm by (by apply insert_id). rewrite <- Hm at 1 2.
  eapply (tab_update _ _ _ _ _ _ _ _ _ (aa_entries x) (aa_m x) (aa_i x) (aa_j x) m2 h1); try done; try (by right).
  - intros q. rewrite <- Hperm, elem_of_cons. split; [intros Hq; split; [auto|by intros ->]|tauto].
  - intros _. eauto.
Qed.

Lemma Mark_new id z x :
  aa_wf x → aa_m x !! id = None →
  ∃ x', Mark id z x = Ok x' ∧ aa_wf x'
    ∧ apps x' = <[id := Z.max (default 0%Z (apps x !! id)) (time_Unix z)]> (apps x).
Proof.
  intros Hwf Hy. pose proof (tw_heaps _ _ _ _ _ _ _ _ _ _ _ _ _ Hwf) as Hh. unfold Mark. rewrite Hy.
  pose proof (fresh_not_in _ _ _ _ _ _ _ _ _ _ _ _ _ Hwf) as Hnin.
  set (y := fresh_ptr (aa_entries x)) in *.
  cbn [mbind res_mbind]. rewrite lookup_insert_eq. cbn [or_panic mbind res_mbind].
  destruct (push_both_spec (<[y := mkActive 0 0 0 id]> (aa_entries x)) (aa_i x) (aa_j x) y (mkActive 0 0 0 id) (time_Unix z))
    as (s' & i' & j' & -> & Hh' & Hp' & Hd');
    [apply (dual_write entry_data); [apply active_dual|done..]|done|by rewrite lookup_insert_eq|].
  cbn [mbind res_mbind].
  assert (apps x !! id = None) as -> by (unfold apps, tab; by rewrite lookup_omap, Hy).
  cbn [default from_option]. eexists. split; [done|]. unfold aa_wf, apps. cbn [aa_entries aa_m aa_i aa_j].
  eapply (tab_update _ _ _ _ _ _ _ _ _ (aa_entries x) (aa_m x) (aa_i x) (aa_j x)
    (<[y := mkActive 0 0 0 id]> (aa_entries x)) (aa_i x)); try done; try (by left).
  - intros q. split; [|tauto]. intros Hq. split; [done|]. by intros ->.
  - intros q Hq. by rewrite lookup_insert_ne.
Qed.

Lemma Mark_spec id z x :
  aa_wf x →
  ∃ x', Mark id z x = Ok x' ∧ aa_wf x'
    ∧ apps x' = <[id := Z.max (default 0%Z (apps x !! id)) (time_Unix z)]> (apps x).
Proof.
  intros Hwf. destruct (aa_m x !! id) as [y|] eqn:Hy; [by eapply Mark_known|by apply Mark_new].
Qed.

(** ** Trim *)

Lemma data_time (m : gmap positive activeAppsEntry) p t id :
  entry_data <$> m !! p = Some (t, id) → keyof a_t m p = t.
Proof. intros (e & He & Hd)%fmap_Some. unfold keyof. rewrite He. simpl. unfold app_data in Hd. congruence. Qed.

Lemma Trim_loop_spec t fuel : ∀ x,
  aa_wf x → length (aa_i x) ≤ fuel →
  ∃ x', Trim_loop fuel t x = Ok x' ∧ aa_wf x' ∧ apps x' = filter (λ kv, (t < snd kv)%Z) (apps x).
Proof.
  assert (∀ x, aa_wf x → aa_i x = [] → filter (λ kv, (t < snd kv)%Z) (apps x) = apps x) as Hempty.
  { intros x Hwf Hi. apply map_filter_id. intros id t' Ht.
    apply apps_lookup in Ht as (p & Hp & _); [|done]. rewrite Hi in Hp. by apply not_elem_of_nil in Hp. }
  induction fuel as [|fuel IH]; intros x Hwf Hlen; cbn [Trim_loop].
  { case_bool_decide as Hi; [|destruct (aa_i x); simpl in *; [done|lia]].
    exists x. by rewrite Hempty. }
  case_bool_decide as Hi; [exists x; by rewrite Hempty|].
  pose proof (tw_heaps _ _ _ _ _ _ _ _ _ _ _ _ _ Hwf) as Hh.
  destruct (dual_pop entry_data byTimeMinHeap byTimeMaxHeap a_t (λ e, - a_t e)%Z (λ _, True) a_ti a_tj
    _ _ _ Hh Hi) as (y & m1 & h1 & e1 & m2 & h2 & Hpop & He1 & Hrem & Hh2 & Hperm & Hnin & Hd1 & Hd2 & Hmin).
  rewrite Hpop. cbn [mbind res_mbind fst snd]. rewrite He1. cbn [or_panic mbind res_mbind].
  assert (entry_data <$> aa_entries x !! y = Some (a_t e1, ApplicationId e1)) as Hy.
  { rewrite (Hd1 y), He1. done. }
  destruct (Z.ltb_spec t (a_t e1)) as [Hlt|Hge].
  - destruct (dual_pop_push entry_data byTimeMinHeap byTimeMaxHeap a_t (λ e, - a_t e)%Z (λ _, True) a_ti a_tj
      _ _ _ _ _ _ Hh Hi Hpop) as (m3 & h3 & -> & Hh3 & Hperm3 & Hd3). cbn [mbind res_mbind fst snd].
    destruct (tab_same a_t ApplicationId _ _ _ _ _ _ _ _ _ _ _ m3 h3 (aa_j x) Hwf Hh3 Hperm3 Hd3) as [Hwf' Happs].
    eexists. split_and!; [done|done|]. unfold apps at 1. cbn [aa_entries aa_m]. rewrite Happs.
    symmetry. apply map_filter_id. intros id t' Ht. simpl.
    apply (apps_lookup x) in Ht as (q & Hq & Hqd); [|done]. specialize (Hmin q Hq).
    rewrite (data_time _ _ _ _ Hy), (data_time _ _ _ _ Hqd) in Hmin. lia.
  - rewrite Hrem. cbn [mbind res_mbind fst snd].
    destruct (tab_drop a_t ApplicationId _ _ _ _ _ _ _ _ _ _ _ m2 h1 h2 y (ApplicationId e1) (a_t e1) Hwf Hh2 Hperm Hnin (λ q _, Hd2 q) Hy)
      as [Hwf' Happs].
    destruct (IH (mkActiveApps m2 (delete (ApplicationId e1) (aa_m x)) h1 h2) Hwf') as (x' & -> & Hwf'' & Happs'').
    { cbn. rewrite <- Hperm in Hlen. simpl in Hlen. lia. }
    exists x'. split_and!; [done|done|]. rewrite Happs''. unfold apps at 1. cbn [aa_entries aa_m]. rewrite Happs.
    apply map_filter_delete_not.
    intros t' Ht'. cbn [snd]. assert (apps x !! ApplicationId e1 = Some (a_t e1)) as Ht''.
    { apply apps_lookup; [done|]. exists y. split; [rewrite <- Hperm; by left|done]. }
    change (apps x !! ApplicationId e1 = Some t') in Ht'. assert (t' = a_t e1) as -> by congruence. lia.
Qed.

Lemma Trim_spec y x :
  aa_wf x → ∃ x', Trim y x = Ok x' ∧ aa_wf x' ∧ apps x' = filter (λ kv, (time_Unix y < snd kv)%Z) (apps x).
Proof. intros Hwf. by apply Trim_loop_spec. Qed.

(** ** ActiveSince *)

(** A snapshot heap leaves the entries alone. *)
Lemma snapshot_same h (m m' : gmap positive activeAppsEntry) :
  same_entries byTimeMaxHeapSnapshot h m m' → m' = m.
Proof.
  intros [_ Ht]. apply map_eq. intros p. specialize (Ht p).
  destruct (m !! p), (m' !! p); try done. by destruct Ht as [->|[v ->]].
Qed.

Definition time_of (m : gmap positive activeAppsEntry) (p : positive) : Z := keyof a_t m p.
Definition id_of (m : gmap positive activeAppsEntry) (p : positive) : string :=
  from_option ApplicationId "" (m !! p).

Lemma max_key m p : keyof (λ e, - a_t e)%Z m p = (- time_of m p)%Z.
Proof. unfold time_of, keyof. by destruct (m !! p). Qed.

Lemma collect_spec m t fuel : ∀ h b,
  heap_in (λ _, True) (m, h) → hord (λ e, - a_t e)%Z (m, h) (length h) → length h ≤ fuel →
  ∃ ps, collect_since fuel t (m, h) b = Ok (b ++ map (id_of m) ps)
    ∧ NoDup ps ∧ (∀ p, p ∈ ps ↔ p ∈ h ∧ (t ≤ time_of m p)%Z)
    ∧ StronglySorted (λ p q, (time_of m q ≤ time_of m p)%Z) ps.
Proof.
  assert (∀ (b : list string), ∃ ps : list positive, Ok b = Ok (b ++ map (id_of m) ps) ∧ NoDup ps
    ∧ (∀ p, p ∈ ps ↔ p ∈ @nil positive ∧ (t ≤ time_of m p)%Z)
    ∧ StronglySorted (λ p q, (time_of m q ≤ time_of m p)%Z) ps) as Hnil.
  { intros b. exists []. rewrite app_nil_r. split_and!; [done|constructor| |constructor].
    intros p. rewrite elem_of_nil. tauto. }
  induction fuel as [|fuel IH]; intros h b Hin Hord Hlen; cbn [collect_since snd].
  { destruct h; [|simpl in Hlen; lia]. rewrite bool_decide_true by done. apply Hnil. }
  destruct h as [|p h]; [apply Hnil|]. rewrite bool_decide_false by done.
  destruct (heap_Pop_spec byTimeMaxHeapSnapshot (λ e, - a_t e)%Z (λ _, True) a_tj (m, p :: h) p)
    as ([m' h'] & -> & Hpop); [done|done|done|]. cbn [mbind res_mbind fst snd].
  pose proof (pop_entries _ _ _ _ _ _ _ Hpop) as Hm%snapshot_same. cbn [fst] in Hm. subst m'.
  pose proof (pop_perm _ _ _ _ _ _ _ Hpop) as Hperm. cbn [snd] in Hperm.
  destruct (hi_valid _ _ Hin p) as (e & He & _); [by left|]. cbn [fst] in He. rewrite He. cbn [or_panic mbind res_mbind].
  assert (time_of m p = a_t e) as Hte by (unfold time_of, keyof; by rewrite He).
  assert (∀ q, q ∈ p :: h → (time_of m q ≤ time_of m p)%Z) as Hmax.
  { intros q Hq. pose proof (heap_min (λ e, - a_t e)%Z (m, p :: h) p q Hord eq_refl Hq) as H.
    cbn [fst] in H. rewrite !max_key in H. lia. }
  destruct (Z.ltb_spec (a_t e) t) as [Hlt|Hge].
  { exists []. rewrite app_nil_r. split_and!; [done|constructor| |constructor].
    intros q. rewrite elem_of_nil. split; [done|]. intros [Hq Ht]. specialize (Hmax q Hq). lia. }
  destruct (IH h' (b ++ [ApplicationId e])) as (ps & -> & Hnd & Hel & Hsort).
  { apply Hpop. } { apply Hpop. } { rewrite <- Hperm in Hlen. simpl in Hlen. lia. }
  assert (p ∉ h') as Hnin.
  { pose proof (hi_nodup _ _ Hin) as H. cbn [snd] in H. rewrite <- Hperm in H. by apply NoDup_cons in H as [? _]. }
  exists (p :: ps). rewrite <- app_assoc. split_and!.
  - simpl. unfold id_of at 2. by rewrite He.
  - constructor; [|done]. rewrite Hel. tauto.
  - intros q. rewrite elem_of_cons, Hel, <- Hperm, elem_of_cons. split.
    + intros [->|[? ?]]; [|auto]. split; [auto|lia].
    + intros [[->|?] ?]; auto.
  - constructor; [done|]. apply Forall_forall. intros q Hq%Hel. apply Hmax. rewrite <- Hperm. right. tauto.
Qed.

Lemma wf_data x p : aa_wf x → p ∈ aa_i x →
  entry_data <$> aa_entries x !! p = Some (time_of (aa_entries x) p, id_of (aa_entries x) p).
Proof.
  intros Hwf Hin. destruct (tw_entry _ _ _ _ _ _ _ _ _ _ _ _ _ p Hwf Hin) as (e & He & _). unfold time_of, id_of, keyof. by rewrite He.
Qed.

(** [ActiveSince] lists exactly the applications whose last request is not
    older than the given time, each once, the most recent first; it does not
    disturb the heaps it reads. *)
Theorem ActiveSince_spec y x :
  aa_wf x →
  ∃ l, ActiveSince y x = Ok l ∧ NoDup l
    ∧ (∀ id, id ∈ l ↔ ∃ t, apps x !! id = Some t ∧ (time_Unix y ≤ t)%Z)
    ∧ StronglySorted (λ a b, (default 0%Z (apps x !! b) ≤ default 0%Z (apps x !! a))%Z) l.
Proof.
  intros Hwf. unfold ActiveSince, Copy. set (m := aa_entries x). pose proof (tw_heaps _ _ _ _ _ _ _ _ _ _ _ _ _ Hwf) as [H1 H2 Hperm].
  destruct (collect_spec m (time_Unix y) (length (aa_j x)) (aa_j x) []) as (ps & Hc & Hnd & Hel & Hsort);
    [apply H2|apply H2|done|]. exists (map (id_of m) ps).
  assert (∀ p, p ∈ ps → entry_data <$> m !! p = Some (time_of m p, id_of m p) ∧ apps x !! id_of m p = Some (time_of m p)) as Hps.
  { intros p Hp%Hel. rewrite <- Hperm in Hp. destruct Hp as [Hp _]. split; [by apply wf_data|].
    apply apps_lookup; [done|]. exists p. split; [done|]. by apply wf_data. }
  split_and!; [done| | |].
  - apply NoDup_fmap_2_strong; [|done]. intros p q Hp Hq Heq.
    pose proof (Hps p Hp) as [Hdp _]. pose proof (Hps q Hq) as [Hdq _]. rewrite <- Heq in Hdq.
    apply Hel in Hp as [Hp _], Hq as [Hq _]. rewrite <- Hperm in Hp, Hq.
    assert (aa_m x !! id_of m p = Some p) by (apply (tw_m _ _ _ _ _ _ _ _ _ _ _ _ _ Hwf); eauto).
    assert (aa_m x !! id_of m p = Some q) by (apply (tw_m _ _ _ _ _ _ _ _ _ _ _ _ _ Hwf); eauto). congruence.
  - intros id. rewrite list_elem_of_fmap. split.
    + intros (p & -> & Hp). exists (time_of m p). split; [by apply Hps|]. by apply Hel.
    + intros (t & Ht & Hle). pose proof Ht as Ht'. apply apps_lookup in Ht as (p & Hp & Hd); [|done].
      pose proof (wf_data x p Hwf Hp) as Hd'. fold m in Hd'. exists p. split; [fold m in Hd; congruence|].
      apply Hel. rewrite <- Hperm. split; [done|]. fold m in Hd. assert (time_of m p = t) by congruence. lia.
  - clear Hc Hnd Hel. induction Hsort as [|p ps Hsort IH Hall]; [constructor|]. simpl. constructor.
    + apply IH. intros q Hq. apply Hps. by right.
    + apply Forall_forall. intros id (q & -> & Hq)%list_elem_of_fmap.
      destruct (Hps p) as [_ ->]; [by left|]. destruct (Hps q) as [_ ->]; [by right|]. simpl.
      by apply (proj1 (Forall_forall _ _) Hall).
Qed.

(** ** Histories *)

Inductive app_op :=
| OpMark (id : string) (z : Z)
| OpTrim (y : Z).

Definition app_step (x : ActiveApps) (op : app_op) : res ActiveApps :=
  match op with
  | OpMark id z => Mark id z x
  | OpTrim y => Trim y x
  end.

Definition app_effect (m : gmap string Z) (op : app_op) : gmap string Z :=
  match op with
  | OpMark id z => <[id := Z.max (default 0%Z (m !! id)) (time_Unix z)]> m
  | OpTrim y => filter (λ kv, (time_Unix y < snd kv)%Z) m
  end.

Lemma NewActiveApps_wf : aa_wf NewActiveApps ∧ apps NewActiveApps = ∅.
Proof. apply tab_empty. Qed.

Lemma app_run_sim ops : ∀ x, aa_wf x →
  ∃ x', foldM app_step x ops = Ok x' ∧ aa_wf x' ∧ apps x' = foldl app_effect (apps x) ops.
Proof.
  induction ops as [|op ops IH]; intros x Hwf; [eauto|].
  assert (∃ x1, app_step x op = Ok x1 ∧ aa_wf x1 ∧ apps x1 = app_effect (apps x) op) as (x1 & Hs & Hwf1 & Ha).
  { destruct op as [id z|y]; simpl; [by apply Mark_spec|by apply Trim_spec]. }
  destruct (IH x1 Hwf1) as (x2 & Hr & Hwf2 & Ha2). exists x2. cbn [foldM foldl]. rewrite Hs.
  split_and!; [done|done|]. by rewrite Ha2, Ha.
Qed.

(** C33: Any history of requests and trims keeps the two heaps, the map and the
    indices consistent, never panics, and records for every application the
    time of its last request since it was last trimmed away. *)
Theorem active_apps_refine ops :
  ∃ x', foldM app_step NewActiveApps ops = Ok x' ∧ aa_wf x' ∧ apps x' = foldl app_effect ∅ ops.
Proof. destruct NewActiveApps_wf as [Hwf <-]. by apply app_run_sim. Qed.

(** A short history. *)
Definition sample_apps : ActiveApps :=
  match foldM app_step NewActiveApps
    [OpMark "a" (10 * Second); OpMark "b" (20 * Second); OpMark "c" (15 * Second); OpMark "a" (30 * Second);
     OpTrim (15 * Second)]
  with Ok x => x | _ => NewActiveApps end.

Lemma sample_apps_wf : aa_wf sample_apps.
Proof.
  destruct (app_run_sim [OpMark "a" (10 * Second); OpMark "b" (20 * Second); OpMark "c" (15 * Second);
    OpMark "a" (30 * Second); OpTrim (15 * Second)] NewActiveApps) as (x & Hx & Hwf & _);
    [apply NewActiveApps_wf|]. unfold sample_apps. by rewrite Hx.
Qed.

Lemma ActiveSince_spec_witness :
  ActiveSince (20 * Second) sample_apps = Ok ["a"; "b"] ∧
  ∃ l, ActiveSince (20 * Second) sample_apps = Ok l ∧ NoDup l
    ∧ (∀ id, id ∈ l ↔ ∃ t, apps sample_apps !! id = Some t ∧ (time_Unix (20 * Second) ≤ t)%Z)
    ∧ StronglySorted (λ a b, (default 0%Z (apps sample_apps !! b) ≤ default 0%Z (apps sample_apps !! a))%Z) l.
Proof.
  split; [vm_compute; reflexivity|]. exact (ActiveSince_spec (20 * Second) sample_apps sample_apps_wf).
Defined.
