(* ===== verification/TopApps.v ===== *)
(** * Applications with the most requests (src/stats/top_apps.go)

    Each application has a slice of time slots with a request count each.  One
    heap orders the entries by their first slot, for trimming, the other by
    the number of requests.  Counts are 64-bit integers. *)

From S2P Require Import Prelude Heap.

Definition TopAppsTrimInterval : Z := 10 * Second.
Definition TopAppsEntryLifetime : Z := 60 * Second.

Record topAppsEntryTimeSlot := mkSlot {
  sl_t : Z;
  sl_n : Z;
}.

Record topAppsEntry := mkTop {
  p_ti : Z;
  p_ni : Z;
  p_t : list topAppsEntryTimeSlot;
  p_n : Z;
  ApplicationId : string;
}.

Definition int64_inc (n : Z) : Z := wrap64 (n + 1).

(** The slots after a request at [t]. *)
Definition mark_slots (t : Z) (l : list topAppsEntryTimeSlot) : list topAppsEntryTimeSlot :=
  let l1 := match last l with
            | None => l ++ [mkSlot t 0]
            | Some s => if (sl_t s <? t)%Z then l ++ [mkSlot t 0] else l
            end in
  alter (λ s, mkSlot (sl_t s) (int64_inc (sl_n s))) (length l1 - 1) l1.

Definition entry_Mark (t : Z) (x : topAppsEntry) : topAppsEntry :=
  mkTop (p_ti x) (p_ni x) (mark_slots t (p_t x)) (int64_inc (p_n x)) (ApplicationId x).

(** The loop of [Trim]: how many slots go, and their requests. *)
Fixpoint trim_scan (t : Z) (l : list topAppsEntryTimeSlot) (i : nat) (n : Z) : nat * Z :=
  match l with
  | [] => (i, n)
  | s :: l' => if (t <? sl_t s)%Z then (i, n) else trim_scan t l' (S i) (wrap64 (n + sl_n s))
  end.

Definition entry_Trim (t : Z) (x : topAppsEntry) : topAppsEntry :=
  let '(i, n) := trim_scan t (p_t x) 0 0 in
  mkTop (p_ti x) (p_ni x) (drop i (p_t x)) (wrap64 (p_n x - n)) (ApplicationId x).

Definition first_slot (y : topAppsEntry) : res topAppsEntryTimeSlot := or_panic out_of_range (p_t y !! 0).

Definition byFirstMarkTimeHeap : HeapType topAppsEntry := {|
  ht_Less yi yj := a ← first_slot yi; b ← first_slot yj; Ok (sl_t a <? sl_t b)%Z;
  ht_SetIndex j y := mkTop j (p_ni y) (p_t y) (p_n y) (ApplicationId y)
|}.

Definition byRequestsHeap : HeapType topAppsEntry := {|
  ht_Less yi yj := Ok (p_n yj <? p_n yi)%Z;
  ht_SetIndex j y := mkTop (p_ti y) j (p_t y) (p_n y) (ApplicationId y)
|}.

(** Snapshots do not write indices. *)
Definition byFirstMarkTimeHeapSnapshot : HeapType topAppsEntry := {|
  ht_Less := ht_Less byFirstMarkTimeHeap;
  ht_SetIndex _ y := y
|}.

Definition byRequestsHeapSnapshot : HeapType topAppsEntry := {|
  ht_Less := ht_Less byRequestsHeap;
  ht_SetIndex _ y := y
|}.

Record TopApps := mkTopApps {
  ta_entries : gmap positive topAppsEntry;
  ta_m : gmap string positive;
  ta_t : list positive;
  ta_n : list positive;
}.

Definition NewTopApps : TopApps := mkTopApps ∅ ∅ [] [].

Definition push_both (p : positive) (s : gmap positive topAppsEntry) (t n : list positive)
    : res (gmap positive topAppsEntry * list positive * list positive) :=
  s1 ← heap_Push byFirstMarkTimeHeap p (s, t);
  s2 ← heap_Push byRequestsHeap p (fst s1, n);
  Ok (fst s2, snd s1, snd s2).

Definition Mark (id : string) (z : Z) (x : TopApps) : res TopApps :=
  let t := time_Unix z in
  w ← match ta_m x !! id with
      | Some y =>
          e ← or_panic nil_deref (ta_entries x !! y);
          z1 ← heap_Remove byFirstMarkTimeHeap (p_ti e) (ta_entries x, ta_t x);
          if negb (bool_decide (fst z1 = y)) then Panic "z1 != y"
          else
            e1 ← or_panic nil_deref (fst (snd z1) !! y);
            z2 ← heap_Remove byRequestsHeap (p_ni e1) (fst (snd z1), ta_n x);
            if negb (bool_decide (fst z2 = y)) then Panic "z2 != y"
            else Ok (y, fst (snd z2), snd (snd z1), snd (snd z2), ta_m x)
      | None =>
          let y := fresh_ptr (ta_entries x) in
          Ok (y, <[y := mkTop 0 0 [] 0 id]> (ta_entries x), ta_t x, ta_n x, <[id := y]> (ta_m x))
      end;
  let '(y, s, ht, hn, m) := w in
  e ← or_panic nil_deref (s !! y);
  b ← push_both y (<[y := entry_Mark t e]> s) ht hn;
  let '(s', ht', hn') := b in
  Ok (mkTopApps s' m ht' hn').

Fixpoint trim_loop (fuel : nat) (t : Z) (x : TopApps) : res TopApps :=
  if bool_decide (ta_t x = []) then Ok x
  else
    match fuel with
    | O => NoFuel
    | S fuel' =>
        r ← heap_Pop byFirstMarkTimeHeap (ta_entries x, ta_t x);
        let u := fst r in
        eu ← or_panic nil_deref (fst (snd r) !! u);
        v ← heap_Remove byRequestsHeap (p_ni eu) (fst (snd r), ta_n x);
        if negb (bool_decide (fst v = u)) then Panic "v != u"
        else
          let s := fst (snd v) in
          let ht := snd (snd r) in
          let hn := snd (snd v) in
          e ← or_panic nil_deref (s !! u);
          f ← first_slot e;
          if (t <? sl_t f)%Z then
            b ← push_both u s ht hn;
            let '(s', ht', hn') := b in
            Ok (mkTopApps s' (ta_m x) ht' hn')
          else
            let e' := entry_Trim t e in
            let s' := <[u := e']> s in
            if bool_decide (length (p_t e') = 0)
            then trim_loop fuel' t (mkTopApps s' (delete (ApplicationId e') (ta_m x)) ht hn)
            else
              f' ← first_slot e';
              if (sl_t f' <=? t)%Z then Panic "expected u.t[0].t <= t"
              else
                b ← push_both u s' ht hn;
                let '(s2, ht', hn') := b in
                trim_loop fuel' t (mkTopApps s2 (ta_m x) ht' hn')
    end.

(** Each round drops an entry or moves its first slot past [t]; one more round
    sees that nothing is left to trim. *)
Definition trim (y : Z) (x : TopApps) : res TopApps :=
  trim_loop (S (length (ta_t x))) (time_Unix y) x.

Definition Trim (y : Z) (x : TopApps) : res TopApps := trim y x.

Definition trim_tick (now : Z) (x : TopApps) : res TopApps :=
  Trim (time_Add now (- TopAppsEntryLifetime)) x.

Record TopAppsTopEntry := mkTopEntry {
  te_ApplicationId : string;
  te_Requests : Z;
}.

Fixpoint collect_top (fuel : nat) (n : nat) (a : gmap positive topAppsEntry * list positive)
    (s : list TopAppsTopEntry) : res (list TopAppsTopEntry) :=
  if bool_decide (snd a = []) || (n <=? length s)%nat then Ok s
  else
    match fuel with
    | O => NoFuel
    | S fuel' =>
        r ← heap_Pop byRequestsHeapSnapshot a;
        z ← or_panic nil_deref (fst (snd r) !! fst r);
        collect_top fuel' n (snd r) (s ++ [mkTopEntry (ApplicationId z) (p_n z)])
    end.

(** [n] is a Go [int]: the capacity of the result.  The call is one atomic
    operation here; the code pops the snapshot of the heap after it has released
    the lock, while other goroutines can change the entries it shares. *)
Definition TopSince (y : Z) (n : Z) (x : TopApps) : res (list TopAppsTopEntry * TopApps) :=
  x1 ← trim (time_Add y (- Second)) x;
  let a := Copy (ta_entries x1, ta_n x1) in
  if (n <? 0)%Z then Panic "makeslice: cap out of range"
  else
    s ← collect_top (Len a) (Z.to_nat n) a [];
    Ok (s, x1).
