(* ===== verification/TopAppsSpec.v ===== *)
(** * What the record of busy applications guarantees

    [tops] is the abstract state: the time slots and the number of requests of
    each application.  [Mark] adds a request, [trim] drops old slots, and
    [TopSince] lists the applications with the most requests. *)

From S2P Require Import Prelude Heap HeapSpec DualHeap TopApps.
From Stdlib Require Import Sorted.

Definition first_time (l : list topAppsEntryTimeSlot) : Z := from_option sl_t 0%Z (head l).

Definition key_t (e : topAppsEntry) : Z := first_time (p_t e).
Definition key_n (e : topAppsEntry) : Z := (- p_n e)%Z.
Definition has_slots (e : topAppsEntry) : Prop := p_t e ≠ [].

#[export] Instance first_laws : HeapLaws byFirstMarkTimeHeap key_t has_slots.
Proof.
  split; try done. intros a b Ha Hb. unfold has_slots, key_t, first_time in *. cbn [ht_Less byFirstMarkTimeHeap].
  unfold first_slot. destruct (p_t a), (p_t b); done.
Qed.

#[export] Instance requests_laws : HeapLaws byRequestsHeap key_n has_slots.
Proof.
  split; try done. intros a b _ _. unfold key_n. simpl. f_equal.
  destruct (Z.ltb_spec (p_n b) (p_n a)), (Z.ltb_spec (- p_n a) (- p_n b)); lia.
Qed.

#[export] Instance requests_snapshot_laws : HeapLaws byRequestsHeapSnapshot key_n has_slots.
Proof. split; try done. apply requests_laws. Qed.

Abbreviation usage := (list topAppsEntryTimeSlot * Z)%type.
Definition e_usage (e : topAppsEntry) : usage := (p_t e, p_n e).
Abbreviation entry_data := (app_data e_usage ApplicationId).

#[export] Instance top_dual :
  DualLaws entry_data byFirstMarkTimeHeap byRequestsHeap key_t key_n has_slots p_ti p_ni.
Proof.
  split; try done; unfold app_data, e_usage, key_t, key_n, has_slots; intros e e' [= H1 H2 _]; congruence.
Qed.

Abbreviation heaps_wf := (dual_wf byFirstMarkTimeHeap byRequestsHeap key_t key_n has_slots p_ti p_ni).

Definition ta_wf (x : TopApps) : Prop :=
  tab_wf e_usage ApplicationId byFirstMarkTimeHeap byRequestsHeap key_t key_n has_slots p_ti p_ni
    (ta_entries x) (ta_m x) (ta_t x) (ta_n x).

Definition tops (x : TopApps) : gmap string usage := tab e_usage (ta_entries x) (ta_m x).

Lemma tops_lookup x id v :
  ta_wf x → tops x !! id = Some v ↔ ∃ p, p ∈ ta_t x ∧ entry_data <$> ta_entries x !! p = Some (v, id).
Proof. apply tab_lookup. Qed.

Lemma tops_has_slots x id l n : ta_wf x → tops x !! id = Some (l, n) → l ≠ [].
Proof.
  intros Hwf (p & Hin & (e & He & Hd)%fmap_Some)%tops_lookup; [|done].
  destruct (tw_entry _ _ _ _ _ _ _ _ _ _ _ _ _ p Hwf Hin) as (e' & He' & Hv).
  unfold app_data, e_usage in Hd. unfold has_slots in Hv. congruence.
Qed.

(** ** Mark *)

Definition mark_usage (t : Z) (u : usage) : usage := (mark_slots t (fst u), int64_inc (snd u)).

Lemma length_mark_slots t l : length (mark_slots t l) ≠ 0.
Proof.
  unfold mark_slots. rewrite length_alter. destruct (last l) as [s|] eqn:Hl.
  - destruct (sl_t s <? t)%Z; [rewrite length_app; simpl; lia|]. by destruct l.
  - rewrite length_app. simpl. lia.
Qed.

Lemma mark_has_slots t e : has_slots (entry_Mark t e).
Proof.
  unfold has_slots. simpl. intros H. apply (length_mark_slots t (p_t e)). by rewrite H.
Qed.

(** Putting a rewritten entry into both heaps. *)
Lemma top_push_both_spec s i j y e e' :
  heaps_wf s i j → y ∉ i → s !! y = Some e → has_slots e' → ApplicationId e' = ApplicationId e →
  ∃ s' i' j', push_both y (<[y := e']> s) i j = Ok (s', i', j')
    ∧ heaps_wf s' i' j' ∧ i' ≡ₚ y :: i
    ∧ (∀ q, entry_data <$> s' !! q = if decide (q = y) then Some (e_usage e', ApplicationId e)
                                     else entry_data <$> s !! q).
Proof.
  intros Hwf Hnin He Hv Hid.
  destruct (dual_push entry_data byFirstMarkTimeHeap byRequestsHeap key_t key_n has_slots p_ti p_ni
    (<[y := e']> s) i j y e')
    as (m1 & h1 & m2 & h2 & Hp1 & Hp2 & Hwf' & Hperm & Hd); [|done|by rewrite lookup_insert_eq|done|].
  { apply (dual_write entry_data); [apply top_dual|done..]. }
  exists m2, h1, h2. unfold push_both. rewrite Hp1. simpl. rewrite Hp2. simpl. split_and!; [done..|].
  intros q. rewrite <- Hd. case_decide as Hq.
  - subst q. rewrite lookup_insert_eq. simpl. unfold app_data. by rewrite Hid.
  - by rewrite lookup_insert_ne.
Qed.

Lemma top_Mark_known id z x y :
  ta_wf x → ta_m x !! id = Some y →
  ∃ x', Mark id z x = Ok x' ∧ ta_wf x'
    ∧ tops x' = <[id := mark_usage (time_Unix z) (default ([], 0%Z) (tops x !! id))]> (tops x).
Proof.
  intros Hwf Hy. pose proof (tw_heaps _ _ _ _ _ _ _ _ _ _ _ _ _ Hwf) as Hh. unfold Mark. rewrite Hy.
  pose proof Hy as Hy'. apply (tw_m _ _ _ _ _ _ _ _ _ _ _ _ _ Hwf) in Hy' as (Hin & t0 & Hd).
  pose proof Hd as (e & He & Hde)%fmap_Some. rewrite He. cbn [or_panic mbind res_mbind].
  destruct (dual_remove entry_data byFirstMarkTimeHeap byRequestsHeap key_t key_n has_slots p_ti p_ni
    _ _ _ y e Hh Hin He) as (m1 & h1 & e1 & m2 & h2 & -> & He1 & Hr2 & Hh2 & Hperm & Hnin & Hsame).
  cbn [mbind res_mbind fst snd]. rewrite (bool_decide_true (y = y)) by done. cbn [negb].
  rewrite He1. cbn [or_panic mbind res_mbind]. rewrite Hr2. cbn [mbind res_mbind fst snd].
  rewrite (bool_decide_true (y = y)) by done. cbn [negb mbind res_mbind].
  destruct (same_data_lookup _ _ _ _ _ Hsame He) as (e2 & He2 & Hd2). rewrite He2. cbn [or_panic mbind res_mbind].
  assert (e_usage e2 = t0 ∧ ApplicationId e2 = id) as [Ht2 Hid2] by (unfold app_data in *; split; congruence).
  destruct (top_push_both_spec m2 h1 h2 y e2 (entry_Mark (time_Unix z) e2) Hh2 Hnin He2)
    as (s' & i' & j' & -> & Hh' & Hp' & Hd'); [apply mark_has_slots|done|].
  cbn [mbind res_mbind]. rewrite Hid2 in Hd'.
  assert (e_usage (entry_Mark (time_Unix z) e2) = mark_usage (time_Unix z) t0) as Hu by (by rewrite <- Ht2).
  rewrite Hu in Hd'. assert (tops x !! id = Some t0) as -> by (apply tops_lookup; eauto). cbn [default from_option].
  eexists. split; [done|]. unfold ta_wf, tops. cbn [ta_entries ta_m ta_t ta_n].
  assert (<[id := y]> (ta_m x) = ta_m x) as Hm by (by apply insert_id). rewrite <- Hm at 1 2.
  eapply (tab_update _ _ _ _ _ _ _ _ _ (ta_entries x) (ta_m x) (ta_t x) (ta_n x) m2 h1); try done; try (by right).
  - intros q. rewrite <- Hperm, elem_of_cons. split; [intros Hq; split; [auto|by intros ->]|tauto].
  - intros _. eauto.
Qed.

Lemma top_Mark_new id z x :
  ta_wf x → ta_m x !! id = None →
  ∃ x', Mark id z x = Ok x' ∧ ta_wf x'
    ∧ tops x' = <[id := mark_usage (time_Unix z) (default ([], 0%Z) (tops x !! id))]> (tops x).
Proof.
  intros Hwf Hy. pose proof (tw_heaps _ _ _ _ _ _ _ _ _ _ _ _ _ Hwf) as Hh. unfold Mark. rewrite Hy.
  pose proof (fresh_not_in _ _ _ _ _ _ _ _ _ _ _ _ _ Hwf) as Hnin.
  set (y := fresh_ptr (ta_entries x)) in *. set (e0 := mkTop 0 0 [] 0 id).
  cbn [mbind res_mbind]. rewrite lookup_insert_eq. cbn [or_panic mbind res_mbind].
  destruct (top_push_both_spec (<[y := e0]> (ta_entries x)) (ta_t x) (ta_n x) y e0 (entry_Mark (time_Unix z) e0))
    as (s' & i' & j' & -> & Hh' & Hp' & Hd');
    [apply (dual_write entry_data); [apply top_dual|done..]|done|by rewrite lookup_insert_eq|apply mark_has_slots|done|].
  cbn [mbind res_mbind].
  assert (tops x !! id = None) as -> by (unfold tops, tab; by rewrite lookup_omap, Hy).
  cbn [default from_option]. eexists. split; [done|]. unfold ta_wf, tops. cbn [ta_entries ta_m ta_t ta_n].
  eapply (tab_update _ _ _ _ _ _ _ _ _ (ta_entries x) (ta_m x) (ta_t x) (ta_n x)
    (<[y := e0]> (ta_entries x)) (ta_t x)); try done; try (by left).
  - intros q. split; [|tauto]. intros Hq. split; [done|]. by intros ->.
  - intros q Hq. by rewrite lookup_insert_ne.
Qed.

Lemma top_Mark_spec id z x :
  ta_wf x →
  ∃ x', Mark id z x = Ok x' ∧ ta_wf x'
    ∧ tops x' = <[id := mark_usage (time_Unix z) (default ([], 0%Z) (tops x !! id))]> (tops x).
Proof.
  intros Hwf. destruct (ta_m x !! id) as [y|] eqn:Hy; [by eapply top_Mark_known|by apply top_Mark_new].
Qed.

(** ** Trim *)

Lemma trim_scan_spec t l : ∀ i n,
  ∃ k, fst (trim_scan t l i n) = i + k ∧ (drop k l = [] ∨ (t < first_time (drop k l))%Z).
Proof.
  induction l as [|s l IH]; intros i n; simpl.
  { exists 0. split; [lia|by left]. }
  destruct (Z.ltb_spec t (sl_t s)) as [Hlt|Hge].
  - exists 0. split; [simpl; lia|]. right. done.
  - destruct (IH (S i) (wrap64 (n + sl_n s))) as (k & Hk & Hd). exists (S k). split; [rewrite Hk; lia|done].
Qed.

(** What trimming up to [t] does to one application. *)
Definition trim_usage (t : Z) (u : usage) : option usage :=
  if (t <? first_time (fst u))%Z then Some u
  else
    let '(i, k) := trim_scan t (fst u) 0 0 in
    match drop i (fst u) with
    | [] => None
    | l => Some (l, wrap64 (snd u - k))
    end.

Lemma trim_usage_first t u u' : trim_usage t u = Some u' → (t < first_time (fst u'))%Z.
Proof.
  unfold trim_usage. destruct (Z.ltb_spec t (first_time (fst u))) as [Hlt|Hge]; [by intros [= <-]|].
  destruct (trim_scan_spec t (fst u) 0 0) as (k & Hk & Hd). destruct (trim_scan t (fst u) 0 0) as [i n].
  simpl in Hk. subst i. destruct (drop k (fst u)) as [|s l]; [done|]. intros [= <-].
  destruct Hd as [Hd|Hd]; [done|exact Hd].
Qed.

Lemma trim_usage_keep t u : (t < first_time (fst u))%Z → trim_usage t u = Some u.
Proof. intros H. unfold trim_usage. by destruct (Z.ltb_spec t (first_time (fst u))); [|lia]. Qed.

Lemma trim_usage_entry t e :
  (first_time (p_t e) ≤ t)%Z →
  trim_usage t (e_usage e) = if bool_decide (length (p_t (entry_Trim t e)) = 0)
                             then None else Some (e_usage (entry_Trim t e)).
Proof.
  intros Hle. unfold trim_usage, entry_Trim. cbn [e_usage fst snd].
  destruct (Z.ltb_spec t (first_time (p_t e))); [lia|].
  destruct (trim_scan t (p_t e) 0 0) as [i k]. cbn [p_t]. unfold e_usage. cbn [p_t p_n].
  by destruct (drop i (p_t e)).
Qed.

Lemma entry_Trim_id t e : ApplicationId (entry_Trim t e) = ApplicationId e.
Proof. unfold entry_Trim. by destruct (trim_scan t (p_t e) 0 0). Qed.

Lemma first_slot_time e : has_slots e →
  first_slot e = Ok (mkSlot (first_time (p_t e)) (from_option sl_n 0%Z (head (p_t e)))).
Proof. unfold has_slots, first_slot, first_time. intros Hv. by destruct (p_t e) as [|[] ?]. Qed.

(** How many applications [trim] still has to look into. *)
Definition untrimmed (t : Z) (m : gmap string usage) : nat :=
  size (filter (λ kv, (first_time (fst (snd kv)) ≤ t)%Z) m).

Lemma untrimmed_delete t m id u :
  m !! id = Some u → (first_time (fst u) ≤ t)%Z → untrimmed t m = S (untrimmed t (delete id m)).
Proof.
  intros Hid Hle. unfold untrimmed. rewrite map_filter_delete, map_size_delete, map_lookup_filter, Hid.
  cbn [mbind option_bind fst snd]. rewrite option_guard_True by done. cbn.
  assert (filter (λ kv, (first_time (fst (snd kv)) ≤ t)%Z) m !! id = Some u) as Hf.
  { by apply map_lookup_filter_Some. }
  destruct (size (filter (λ kv, (first_time (fst (snd kv)) ≤ t)%Z) m)) eqn:Hsz; [|lia].
  apply map_size_empty_inv in Hsz. by rewrite Hsz in Hf.
Qed.

Lemma untrimmed_insert t m id u u' :
  m !! id = Some u → (first_time (fst u) ≤ t)%Z → (t < first_time (fst u'))%Z →
  untrimmed t m = S (untrimmed t (<[id := u']> m)).
Proof.
  intros Hid Hle Hlt. rewrite (untrimmed_delete t m id u) by done. f_equal. unfold untrimmed.
  rewrite map_filter_insert. rewrite decide_False by (simpl; lia). by rewrite map_filter_delete.
Qed.

Lemma omap_insert_same t (m : gmap string usage) id u u' :
  m !! id = Some u → trim_usage t u = trim_usage t u' → omap (trim_usage t) (<[id := u']> m) = omap (trim_usage t) m.
Proof.
  intros Hid Heq. apply map_eq. intros k. rewrite !lookup_omap. destruct (decide (id = k)) as [<-|].
  - by rewrite lookup_insert_eq, Hid.
  - by rewrite lookup_insert_ne.
Qed.

Lemma omap_delete_same t (m : gmap string usage) id u :
  m !! id = Some u → trim_usage t u = None → omap (trim_usage t) (delete id m) = omap (trim_usage t) m.
Proof.
  intros Hid Heq. apply map_eq. intros k. rewrite !lookup_omap. destruct (decide (id = k)) as [<-|].
  - by rewrite lookup_delete_eq, Hid.
  - by rewrite lookup_delete_ne.
Qed.

Lemma data_first (m : gmap positive topAppsEntry) p u id :
  entry_data <$> m !! p = Some (u, id) → keyof key_t m p = first_time (fst u).
Proof.
  intros (e & He & Hd)%fmap_Some. unfold keyof, key_t. rewrite He. simpl. unfold app_data, e_usage in Hd.
  by simplify_eq.
Qed.

(** The table while [trim] holds [y], the entry with the oldest first mark, out of both heaps. *)
Record held x (y : positive) (e : topAppsEntry) m2 h1 h2 : Prop := {
  held_heaps : heaps_wf m2 h1 h2;
  held_perm : (y :: h1) ≡ₚ ta_t x;
  held_out : y ∉ h1;
  held_data : same_data entry_data (ta_entries x) m2;
  held_entry : m2 !! y = Some e;
  held_slots : has_slots e;
  held_min : ∀ q, q ∈ ta_t x → (keyof key_t (ta_entries x) y ≤ keyof key_t (ta_entries x) q)%Z;
}.

Lemma held_app x y e m2 h1 h2 :
  held x y e m2 h1 h2 → entry_data <$> ta_entries x !! y = Some (e_usage e, ApplicationId e).
Proof. intros H. by rewrite (held_data _ _ _ _ _ _ H y), (held_entry _ _ _ _ _ _ H). Qed.

Lemma held_top x y e m2 h1 h2 :
  ta_wf x → held x y e m2 h1 h2 → y ∈ ta_t x ∧ tops x !! ApplicationId e = Some (e_usage e).
Proof.
  intros Hwf H. assert (y ∈ ta_t x) as Hin by (rewrite <- (held_perm _ _ _ _ _ _ H); by left).
  split; [done|]. apply tops_lookup; [done|]. exists y. split; [done|by eapply held_app].
Qed.

Lemma trim_pop x :
  ta_wf x → ta_t x ≠ [] →
  ∃ y m1 h1 e1 m2 h2 e, heap_Pop byFirstMarkTimeHeap (ta_entries x, ta_t x) = Ok (y, (m1, h1))
    ∧ m1 !! y = Some e1 ∧ heap_Remove byRequestsHeap (p_ni e1) (m1, ta_n x) = Ok (y, (m2, h2))
    ∧ held x y e m2 h1 h2.
Proof.
  intros Hwf Hi. pose proof (tw_heaps _ _ _ _ _ _ _ _ _ _ _ _ _ Hwf) as Hh.
  destruct (dual_pop entry_data byFirstMarkTimeHeap byRequestsHeap key_t key_n has_slots p_ti p_ni
    _ _ _ Hh Hi) as (y & m1 & h1 & e1 & m2 & h2 & Hpop & He1 & Hrem & Hh2 & Hperm & Hnin & _ & Hd2 & Hmin).
  assert (y ∈ ta_t x) as Hin by (rewrite <- Hperm; by left).
  destruct (tw_entry _ _ _ _ _ _ _ _ _ _ _ _ _ y Hwf Hin) as (e0 & He0 & Hv0).
  destruct (same_data_lookup _ _ _ _ _ Hd2 He0) as (e & He & Hde).
  exists y, m1, h1, e1, m2, h2, e. split_and!; try done. split; try done.
  unfold has_slots, app_data, e_usage in *; congruence.
Qed.

(** The oldest first mark is past [t]: nothing is left to trim, and [y] goes back. *)
Lemma trim_done t x y e m2 h1 h2 :
  ta_wf x → held x y e m2 h1 h2 → (t < first_time (p_t e))%Z →
  ∃ s' i' j', push_both y m2 h1 h2 = Ok (s', i', j')
    ∧ ta_wf (mkTopApps s' (ta_m x) i' j')
    ∧ tops (mkTopApps s' (ta_m x) i' j') = omap (trim_usage t) (tops x).
Proof.
  intros Hwf H Hlt. pose proof (held_app _ _ _ _ _ _ H) as Hy. destruct H as [Hh2 Hperm Hnin Hd2 He Hv Hmin].
  destruct (top_push_both_spec m2 h1 h2 y e e Hh2 Hnin He Hv eq_refl) as (s' & i' & j' & Hpush & Hh' & Hp' & Hd').
  rewrite insert_id in Hpush by done.
  destruct (tab_same e_usage ApplicationId _ _ _ _ _ _ _ _ _ _ _ s' i' j' Hwf Hh') as [Hwf' Happs].
  { by rewrite Hp', Hperm. }
  { intros q. rewrite Hd'. case_decide; [by subst q|apply Hd2]. }
  exists s', i', j'. split_and!; [done|done|]. unfold tops at 1. cbn [ta_entries ta_m]. rewrite Happs.
  apply map_eq. intros id. rewrite lookup_omap. change (tab e_usage (ta_entries x) (ta_m x)) with (tops x).
  destruct (tops x !! id) as [u|] eqn:Hu; [|done]. simpl. symmetry. apply trim_usage_keep.
  apply tops_lookup in Hu as (q & Hq & Hqd); [|done]. specialize (Hmin q Hq).
  rewrite (data_first _ _ _ _ Hy), (data_first _ _ _ _ Hqd) in Hmin. cbn [e_usage fst] in Hmin. lia.
Qed.

(** No slot of the application is past [t]: it is dropped. *)
Lemma trim_drop t x y e m2 h1 h2 :
  ta_wf x → held x y e m2 h1 h2 → (first_time (p_t e) ≤ t)%Z → length (p_t (entry_Trim t e)) = 0 →
  let x1 := mkTopApps (<[y := entry_Trim t e]> m2) (delete (ApplicationId (entry_Trim t e)) (ta_m x)) h1 h2 in
  ta_wf x1 ∧ untrimmed t (tops x) = S (untrimmed t (tops x1))
    ∧ omap (trim_usage t) (tops x1) = omap (trim_usage t) (tops x).
Proof.
  intros Hwf H Hge Hempty x1. destruct (held_top _ _ _ _ _ _ Hwf H) as [_ Htop].
  pose proof (held_app _ _ _ _ _ _ H) as Hy. destruct H as [Hh2 Hperm Hnin Hd2 He Hv _].
  destruct (tab_drop e_usage ApplicationId _ _ _ _ _ _ _ _ _ _ _ (<[y := entry_Trim t e]> m2) h1 h2 y
    (ApplicationId e) (e_usage e) Hwf) as [Hwf' Happs]; try done.
  { apply (dual_write entry_data); [apply top_dual|done..]. }
  { intros q Hq. rewrite lookup_insert_ne by done. apply Hd2. }
  assert (tops x1 = delete (ApplicationId e) (tops x)) as Hx1.
  { unfold x1. rewrite entry_Trim_id. apply Happs. }
  split; [unfold x1; by rewrite entry_Trim_id|]. rewrite Hx1. split; [by eapply untrimmed_delete|].
  eapply omap_delete_same; [done|]. rewrite (trim_usage_entry t e Hge). by rewrite bool_decide_true.
Qed.

(** Some slots are past [t]: the application keeps those and goes back into the heaps. *)
Lemma trim_keep t x y e m2 h1 h2 :
  ta_wf x → held x y e m2 h1 h2 → (first_time (p_t e) ≤ t)%Z → length (p_t (entry_Trim t e)) ≠ 0 →
  has_slots (entry_Trim t e) ∧ (t < first_time (p_t (entry_Trim t e)))%Z
  ∧ ∃ s' i' j', push_both y (<[y := entry_Trim t e]> m2) h1 h2 = Ok (s', i', j')
    ∧ let x1 := mkTopApps s' (ta_m x) i' j' in
      ta_wf x1 ∧ untrimmed t (tops x) = S (untrimmed t (tops x1))
      ∧ omap (trim_usage t) (tops x1) = omap (trim_usage t) (tops x).
Proof.
  intros Hwf H Hge Hne. destruct (held_top _ _ _ _ _ _ Hwf H) as [Hin Htop].
  pose proof (held_app _ _ _ _ _ _ H) as Hy. destruct H as [Hh2 Hperm Hnin Hd2 He Hv _].
  pose proof (trim_usage_entry t e Hge) as Htrim. rewrite bool_decide_false in Htrim by done.
  pose proof (trim_usage_first _ _ _ Htrim) as Hfirst. cbn [e_usage fst] in Hfirst.
  assert (has_slots (entry_Trim t e)) as Hv' by (unfold has_slots; intros H; apply Hne; by rewrite H).
  split; [done|]. split; [done|].
  destruct (top_push_both_spec m2 h1 h2 y e (entry_Trim t e) Hh2 Hnin He Hv' (entry_Trim_id t e))
    as (s' & i' & j' & -> & Hh' & Hp' & Hd').
  assert (ta_m x !! ApplicationId e = Some y) as Hmy by (apply (tw_m _ _ _ _ _ _ _ _ _ _ _ _ _ Hwf); eauto).
  destruct (tab_update e_usage ApplicationId _ _ _ _ _ _ _ (ta_entries x) (ta_m x) (ta_t x) (ta_n x)
    m2 h1 s' i' j' y (ApplicationId e) (e_usage (entry_Trim t e)) Hwf) as [Hwf' Happs]; try done.
  { intros q. rewrite <- Hperm, elem_of_cons. split; [intros Hq; split; [auto|by intros ->]|tauto]. }
  { by right. }
  { eauto. }
  rewrite insert_id in Hwf', Happs by done.
  exists s', i', j'. split; [done|]. intros x1. split; [done|].
  assert (tops x1 = <[ApplicationId e := e_usage (entry_Trim t e)]> (tops x)) as -> by apply Happs.
  split; [by eapply untrimmed_insert|]. eapply omap_insert_same; [done|]. by rewrite Htrim, trim_usage_keep.
Qed.

Lemma trim_loop_spec t fuel : ∀ x,
  ta_wf x → untrimmed t (tops x) < fuel →
  ∃ x', trim_loop fuel t x = Ok x' ∧ ta_wf x' ∧ tops x' = omap (trim_usage t) (tops x).
Proof.
  induction fuel as [|fuel IH]; intros x Hwf Hlen; [lia|]. cbn [trim_loop].
  case_bool_decide as Hi.
  { exists x. split_and!; [done..|]. apply map_eq. intros id. rewrite lookup_omap.
    destruct (tops x !! id) as [u|] eqn:Hu; [|done]. apply tops_lookup in Hu as (p & Hp & _); [|done].
    rewrite Hi in Hp. by apply not_elem_of_nil in Hp. }
  destruct (trim_pop x Hwf Hi) as (y & m1 & h1 & e1 & m2 & h2 & e & -> & He1 & Hrem & Hheld).
  cbn [mbind res_mbind fst snd]. rewrite He1. cbn [or_panic mbind res_mbind]. rewrite Hrem.
  cbn [mbind res_mbind fst snd]. rewrite bool_decide_true by done. cbn [negb].
  rewrite (held_entry _ _ _ _ _ _ Hheld). cbn [or_panic mbind res_mbind].
  rewrite (first_slot_time e) by apply Hheld. cbn [mbind res_mbind sl_t].
  destruct (Z.ltb_spec t (first_time (p_t e))) as [Hlt|Hge].
  { destruct (trim_done t x y e m2 h1 h2 Hwf Hheld Hlt) as (s' & i' & j' & -> & Hwf' & Htops).
    cbn [mbind res_mbind]. eauto. }
  case_bool_decide as Hempty.
  - destruct (trim_drop t x y e m2 h1 h2 Hwf Hheld Hge Hempty) as (Hwf' & Hsz & <-). apply IH; [done|lia].
  - destruct (trim_keep t x y e m2 h1 h2 Hwf Hheld Hge Hempty)
      as (Hv' & Hfirst & s' & i' & j' & Hpush & Hwf' & Hsz & <-).
    rewrite (first_slot_time _ Hv'). cbn [mbind res_mbind sl_t].
    destruct (Z.leb_spec (first_time (p_t (entry_Trim t e))) t); [lia|].
    rewrite Hpush. cbn [mbind res_mbind]. apply IH; [done|lia].
Qed.

Definition id_of (m : gmap positive topAppsEntry) (p : positive) : string :=
  from_option ApplicationId "" (m !! p).

Definition count_of (m : gmap positive topAppsEntry) (p : positive) : Z := from_option p_n 0%Z (m !! p).

(** Entries, pointers and applications correspond. *)
Lemma tops_data x p : ta_wf x → p ∈ ta_t x →
  ∃ sl, entry_data <$> ta_entries x !! p = Some ((sl, count_of (ta_entries x) p), id_of (ta_entries x) p).
Proof.
  intros Hwf Hp. destruct (tw_entry _ _ _ _ _ _ _ _ _ _ _ _ _ p Hwf Hp) as (e & He & _).
  unfold count_of, id_of. rewrite He. by eexists.
Qed.

Lemma tops_back x p : ta_wf x → p ∈ ta_t x → ta_m x !! id_of (ta_entries x) p = Some p.
Proof.
  intros Hwf Hp. destruct (tops_data x p Hwf Hp) as (sl & Hd). apply (tw_m _ _ _ _ _ _ _ _ _ _ _ _ _ Hwf). eauto.
Qed.

Lemma tops_ids_NoDup x : ta_wf x → NoDup (map (id_of (ta_entries x)) (ta_t x)).
Proof.
  intros Hwf. apply NoDup_fmap_2_strong.
  - intros p q Hp%tops_back Hq%tops_back Heq; [congruence|done..].
  - apply (hi_nodup _ _ (ok_in _ _ _ _ _ _ (dw_1 _ _ _ _ _ _ _ _ _ _ (tw_heaps _ _ _ _ _ _ _ _ _ _ _ _ _ Hwf)))).
Qed.

Lemma tops_size x : ta_wf x → size (tops x) = length (ta_t x).
Proof.
  intros Hwf. rewrite <- length_map_to_list, <- (length_fmap fst), <- (length_map (id_of (ta_entries x)) (ta_t x)).
  apply Permutation_length, NoDup_Permutation; [apply NoDup_fst_map_to_list|by apply tops_ids_NoDup|].
  intros id. rewrite !list_elem_of_fmap. split.
  - intros ([id' v] & -> & Hin). apply elem_of_map_to_list in Hin.
    apply tops_lookup in Hin as (p & Hp & Hd); [|done]. destruct (tops_data x p Hwf Hp) as (sl & Hd').
    exists p. split; [simpl; congruence|done].
  - intros (p & -> & Hp). destruct (tops_data x p Hwf Hp) as (sl & Hd).
    eexists (_, _). split; [done|]. apply elem_of_map_to_list, tops_lookup; eauto.
Qed.

Lemma trim_spec y x :
  ta_wf x → ∃ x', trim y x = Ok x' ∧ ta_wf x' ∧ tops x' = omap (trim_usage (time_Unix y)) (tops x).
Proof.
  intros Hwf. apply trim_loop_spec; [done|]. pose proof (tops_size x Hwf). unfold untrimmed.
  pose proof (map_size_filter (λ kv : string * usage, (first_time (fst (snd kv)) ≤ time_Unix y)%Z) (tops x)). lia.
Qed.

(** ** TopSince *)

Lemma top_snapshot_same h (m m' : gmap positive topAppsEntry) :
  same_entries byRequestsHeapSnapshot h m m' → m' = m.
Proof.
  intros [_ Ht]. apply map_eq. intros p. specialize (Ht p).
  destruct (m !! p), (m' !! p); try done. by destruct Ht as [->|[v ->]].
Qed.

Definition report (m : gmap positive topAppsEntry) (p : positive) : TopAppsTopEntry :=
  mkTopEntry (id_of m p) (count_of m p).

Lemma requests_key m p : keyof key_n m p = (- count_of m p)%Z.
Proof. unfold count_of, keyof, key_n. by destruct (m !! p). Qed.

(** The [n] entries with the most requests, and the rest. *)
Lemma top_collect_spec m n fuel : ∀ h b,
  heap_in has_slots (m, h) → hord key_n (m, h) (length h) → length h ≤ fuel → length b ≤ n →
  ∃ ps rest, collect_top fuel n (m, h) b = Ok (b ++ map (report m) ps)
    ∧ ps ++ rest ≡ₚ h ∧ length ps = (n - length b) `min` length h
    ∧ StronglySorted (λ p q, (count_of m q ≤ count_of m p)%Z) ps
    ∧ (∀ p q, p ∈ ps → q ∈ rest → (count_of m q ≤ count_of m p)%Z).
Proof.
  assert (∀ h (b : list TopAppsTopEntry), h = [] ∨ n ≤ length b → ∃ ps rest, Ok b = Ok (b ++ map (report m) ps)
    ∧ ps ++ rest ≡ₚ h ∧ length ps = (n - length b) `min` length h
    ∧ StronglySorted (λ p q, (count_of m q ≤ count_of m p)%Z) ps
    ∧ (∀ p q, p ∈ ps → q ∈ rest → (count_of m q ≤ count_of m p)%Z)) as Hstop.
  { intros h b Hc. exists [], h. rewrite app_nil_r. split_and!; [done|done| |constructor|].
    - destruct Hc as [->|?]; simpl; lia.
    - intros p q Hp. by apply not_elem_of_nil in Hp. }
  induction fuel as [|fuel IH]; intros h b Hin Hord Hlen Hb; cbn [collect_top snd].
  { destruct h; [|simpl in Hlen; lia]. rewrite bool_decide_true by done. apply Hstop. by left. }
  destruct h as [|p h]; [apply Hstop; by left|]. rewrite bool_decide_false by done. cbn [orb].
  destruct (Nat.leb_spec n (length b)) as [Hn|Hn]; [apply Hstop; by right|].
  destruct (heap_Pop_spec byRequestsHeapSnapshot key_n has_slots p_ni (m, p :: h) p)
    as ([m' h'] & -> & Hpop); [done|done|done|]. cbn [mbind res_mbind fst snd].
  pose proof (pop_entries _ _ _ _ _ _ _ Hpop) as Hm%top_snapshot_same. cbn [fst] in Hm. subst m'.
  pose proof (pop_perm _ _ _ _ _ _ _ Hpop) as Hperm. cbn [snd] in Hperm.
  destruct (hi_valid _ _ Hin p) as (e & He & _); [by left|]. cbn [fst] in He. rewrite He. cbn [or_panic mbind res_mbind].
  assert (∀ q, q ∈ p :: h → (count_of m q ≤ count_of m p)%Z) as Hmax.
  { intros q Hq. pose proof (heap_min key_n (m, p :: h) p q Hord eq_refl Hq) as H.
    cbn [fst] in H. rewrite !requests_key in H. lia. }
  destruct (IH h' (b ++ [mkTopEntry (ApplicationId e) (p_n e)])) as (ps & rest & -> & Hps & Hl & Hsort & Hrest).
  { apply Hpop. } { apply Hpop. } { rewrite <- Hperm in Hlen. simpl in Hlen. lia. }
  { rewrite length_app. simpl. lia. }
  assert (∀ q, q ∈ ps ∨ q ∈ rest → (count_of m q ≤ count_of m p)%Z) as Hmax'.
  { intros q Hq. apply Hmax. rewrite <- Hperm. right. rewrite <- Hps. by apply elem_of_app. }
  exists (p :: ps), rest. rewrite <- app_assoc. split_and!.
  - simpl. unfold report at 2, id_of, count_of. by rewrite He.
  - simpl. by rewrite Hps.
  - simpl. rewrite Hl, length_app. simpl. apply Permutation_length in Hperm. simpl in Hperm. lia.
  - constructor; [done|]. apply Forall_forall. auto.
  - intros q q' Hq Hq'. apply elem_of_cons in Hq as [->|Hq]; [auto|]. by apply Hrest.
Qed.

(** [TopSince] first drops the slots older than the given time, then lists
    the applications with the most requests: as many as asked for if there are
    that many, each once with its count, in descending order, and none that is
    left out has more requests than one that is listed. *)
Lemma TopSince_spec y n x :
  ta_wf x → (0 ≤ n)%Z →
  ∃ l x', TopSince y n x = Ok (l, x') ∧ ta_wf x'
    ∧ tops x' = omap (trim_usage (time_Unix (y - Second))) (tops x)
    ∧ length l = Z.to_nat n `min` size (tops x')
    ∧ NoDup (map te_ApplicationId l)
    ∧ (∀ te, te ∈ l → ∃ slots, tops x' !! te_ApplicationId te = Some (slots, te_Requests te))
    ∧ StronglySorted (λ a b, (te_Requests b ≤ te_Requests a)%Z) l
    ∧ (∀ id slots k te, tops x' !! id = Some (slots, k) → id ∉ map te_ApplicationId l → te ∈ l →
         (k ≤ te_Requests te)%Z).
Proof.
  intros Hwf Hn. unfold TopSince. destruct (trim_spec (time_Add y (- Second)) x Hwf) as (x' & -> & Hwf' & Htops).
  cbn [mbind res_mbind]. destruct (Z.ltb_spec n 0); [lia|]. unfold Copy.
  set (m := ta_entries x'). pose proof (tw_heaps _ _ _ _ _ _ _ _ _ _ _ _ _ Hwf') as [H1 H2 Hperm].
  destruct (top_collect_spec m (Z.to_nat n) (length (ta_n x')) (ta_n x') []) as (ps & rest & Hc & Hps & Hlen & Hsort & Hrest);
    [apply H2|apply H2|done|simpl; lia|].
  unfold Len. cbn [fst snd]. fold m in Hc. rewrite Hc. cbn [mbind res_mbind app].
  exists (map (report m) ps), x'.
  pose proof (tops_ids_NoDup x' Hwf') as Hnd. fold m in Hnd.
  assert (∀ p, p ∈ ps → p ∈ ta_t x') as Hsub.
  { intros p Hp. rewrite Hperm, <- Hps. apply elem_of_app. by left. }
  assert (map te_ApplicationId (map (report m) ps) = map (id_of m) ps) as Hids by (by rewrite map_map).
  split_and!; try done.
  - rewrite length_map, Hlen. simpl. by rewrite tops_size, Hperm, Nat.sub_0_r.
  - rewrite Hids. rewrite Hperm, <- Hps in Hnd. change (map ?f (ps ++ rest)) with (f <$> (ps ++ rest)) in Hnd.
    rewrite fmap_app in Hnd. by apply NoDup_app in Hnd as [? _].
  - intros te (p & -> & Hp)%list_elem_of_fmap. destruct (tops_data x' p Hwf' (Hsub p Hp)) as (sl & Hd).
    exists sl. apply tops_lookup; [done|]. eauto.
  - clear -Hsort. induction Hsort as [|p ps Hs IH Hall]; [constructor|]. simpl. constructor; [done|].
    apply Forall_forall. intros te (q & -> & Hq)%list_elem_of_fmap. by apply (proj1 (Forall_forall _ _) Hall).
  - intros id slots k te Hid Hnin (p & -> & Hp)%list_elem_of_fmap. rewrite Hids in Hnin.
    apply tops_lookup in Hid as (q & Hq & Hd); [|done]. destruct (tops_data x' q Hwf' Hq) as (sl & Hd').
    assert (count_of m q = k ∧ id_of m q = id) as [<- <-] by (unfold m in *; split; congruence).
    apply Hrest; [done|]. rewrite Hperm, <- Hps in Hq. apply elem_of_app in Hq as [Hq|Hq]; [|done].
    exfalso. apply Hnin. apply list_elem_of_fmap. eauto.
Qed.

(** ** Counting requests *)

Definition total (l : list topAppsEntryTimeSlot) : Z := foldr (λ s a, (sl_n s + a)%Z) 0%Z l.
Definition after (T : Z) (l : list topAppsEntryTimeSlot) : list topAppsEntryTimeSlot :=
  filter (λ s, (T < sl_t s)%Z) l.
Definition count_after (T : Z) (ts : list Z) : nat := length (filter (λ t, (T < t)%Z) ts).

(** The slots of the requests at the times [ts], which do not go back. *)
Record slots_of (ts : list Z) (l : list topAppsEntryTimeSlot) : Prop := {
  so_sorted : StronglySorted (λ a b, (sl_t a < sl_t b)%Z) l;
  so_pos : Forall (λ s, (1 ≤ sl_n s)%Z) l;
  so_last : ∀ s, s ∈ l → sl_t s ∈ ts;
  so_count : ∀ T, total (after T l) = Z.of_nat (count_after T ts);
  so_total : total l = Z.of_nat (length ts);
}.

Lemma total_app l1 l2 : total (l1 ++ l2) = (total l1 + total l2)%Z.
Proof. unfold total. induction l1 as [|s l1 IH]; simpl; [done|]. rewrite IH. lia. Qed.

Lemma after_app T l1 l2 : after T (l1 ++ l2) = after T l1 ++ after T l2.
Proof. apply filter_app. Qed.

Lemma after_one T s : after T [s] = if decide (T < sl_t s)%Z then [s] else [].
Proof. unfold after. rewrite filter_cons. done. Qed.

Lemma total_nonneg l : Forall (λ s, (1 ≤ sl_n s)%Z) l → (0 ≤ total l)%Z.
Proof. unfold total. induction 1; simpl; lia. Qed.

Lemma count_after_snoc T ts t :
  count_after T (ts ++ [t]) = count_after T ts + (if decide (T < t)%Z then 1 else 0).
Proof.
  unfold count_after. rewrite filter_app, length_app, filter_cons. by destruct (decide (T < t)%Z).
Qed.

Lemma mark_slots_snoc t l s :
  mark_slots t (l ++ [s]) =
    if (sl_t s <? t)%Z then l ++ [s; mkSlot t (int64_inc 0)]
    else l ++ [mkSlot (sl_t s) (int64_inc (sl_n s))].
Proof.
  unfold mark_slots. rewrite last_snoc. destruct (sl_t s <? t)%Z.
  - rewrite <- app_assoc. simpl. rewrite length_app. simpl.
    replace (length l + 2 - 1) with (length l + 1) by lia. by rewrite alter_app_r.
  - rewrite length_app. simpl. rewrite <- (Nat.add_0_r (length l)) at 1.
    replace (length l + 0 + 1 - 1) with (length l + 0) by lia. by rewrite alter_app_r.
Qed.

Lemma StronglySorted_snoc {A} (R : A → A → Prop) l x :
  StronglySorted R (l ++ [x]) ↔ StronglySorted R l ∧ Forall (λ y, R y x) l.
Proof.
  induction l as [|y l IH]; simpl.
  { split; [by split; [apply SSorted_nil|]|]. intros _. apply SSorted_cons; [apply SSorted_nil|done]. }
  split.
  - intros [Hs Hf]%StronglySorted_inv. apply IH in Hs as [Hs Hx]. apply Forall_app in Hf as [Hf Hy].
    inversion Hy; subst. split; [by apply SSorted_cons|by constructor].
  - intros [[Hs Hf]%StronglySorted_inv Hx]. inversion Hx; subst. apply SSorted_cons; [by apply IH|].
    apply Forall_app. split; [done|]. by constructor.
Qed.

Lemma mark_slots_of ts l t :
  slots_of ts l → (∀ t', t' ∈ ts → (t' ≤ t)%Z) → (Z.of_nat (length ts) < 2 ^ 63 - 1)%Z →
  slots_of (ts ++ [t]) (mark_slots t l).
Proof.
  intros [Hs Hpos Hlast Hcount Htotal] Hle Hbound.
  assert (int64_inc 0 = 1%Z) as H01 by done.
  assert (∀ T, Z.of_nat (count_after T (ts ++ [t])) =
    (Z.of_nat (count_after T ts) + if decide (T < t)%Z then 1 else 0)%Z) as Hc.
  { intros T. rewrite count_after_snoc. destruct (decide (T < t)%Z); lia. }
  destruct l as [|s l _] using rev_ind.
  { assert (ts = []) as ->. { destruct ts; [done|]. simpl in Htotal. lia. }
    unfold mark_slots. simpl. rewrite H01. split.
    - apply SSorted_cons; [apply SSorted_nil|constructor].
    - constructor; [done|constructor].
    - intros s Hin. apply list_elem_of_singleton in Hin as ->. by left.
    - intros T. rewrite Hc, after_one. unfold count_after. simpl. destruct (decide (T < t)%Z); done.
    - done. }
  rewrite mark_slots_snoc. assert (sl_t s ≤ t)%Z as Hst by (apply Hle, Hlast, elem_of_app; right; by left).
  apply StronglySorted_snoc in Hs as [Hs Hlt]. apply Forall_app in Hpos as [Hpos Hps]. inversion Hps; subst.
  rewrite total_app in Htotal. simpl in Htotal. pose proof (total_nonneg l Hpos) as Hnn.
  destruct (Z.ltb_spec (sl_t s) t) as [Hnew|Hold].
  - rewrite H01. change [s; mkSlot t 1] with ([s] ++ [mkSlot t 1]). rewrite app_assoc. split.
    + apply StronglySorted_snoc. split; [by apply StronglySorted_snoc|]. simpl. apply Forall_app. split.
      * eapply Forall_impl; [exact Hlt|]. intros s0. simpl. lia.
      * by constructor.
    + apply Forall_app. split; [apply Forall_app; by split|repeat constructor; simpl; lia].
    + intros s' [Hin|Hin]%elem_of_app.
      * apply elem_of_app. left. by apply Hlast.
      * apply list_elem_of_singleton in Hin as ->. apply elem_of_app. right. by left.
    + intros T. rewrite after_app, total_app, Hcount, Hc, after_one. simpl. destruct (decide (T < t)%Z); simpl; lia.
    + rewrite total_app, length_app. simpl. rewrite !total_app. simpl. lia.
  - assert (sl_t s = t) as Heq by lia.
    assert (int64_inc (sl_n s) = sl_n s + 1)%Z as Hinc.
    { unfold int64_inc. apply wrap64_id. unfold in_int64. lia. }
    rewrite Hinc. split.
    + apply StronglySorted_snoc. done.
    + apply Forall_app. split; [done|]. repeat constructor. simpl. lia.
    + intros s' [Hin|Hin]%elem_of_app.
      * apply elem_of_app. left. apply Hlast, elem_of_app. by left.
      * apply list_elem_of_singleton in Hin as ->. simpl. rewrite Heq. apply elem_of_app. right. by left.
    + intros T. specialize (Hcount T). rewrite after_app, total_app, after_one in Hcount |- *.
      rewrite Hc. simpl. rewrite Heq in Hcount |- *. destruct (decide (T < t)%Z); simpl in *; lia.
    + rewrite total_app, length_app. simpl. lia.
Qed.

Lemma after_all T s l :
  StronglySorted (λ a b, (sl_t a < sl_t b)%Z) (s :: l) → (T < sl_t s)%Z → after T (s :: l) = s :: l.
Proof.
  intros [_ Hf]%StronglySorted_inv HT. unfold after. rewrite filter_cons, decide_True by done. f_equal.
  induction Hf as [|x l Hx Hf IH]; [done|]. rewrite filter_cons, decide_True by lia. by rewrite IH.
Qed.

Lemma trim_scan_after T l : ∀ i n,
  StronglySorted (λ a b, (sl_t a < sl_t b)%Z) l → Forall (λ s, (1 ≤ sl_n s)%Z) l →
  (0 ≤ n)%Z → (n + total l < 2 ^ 63)%Z →
  ∃ d, l = d ++ after T l ∧ trim_scan T l i n = (i + length d, (n + total d)%Z).
Proof.
  induction l as [|s l IH]; intros i n Hs Hpos Hn Hb; cbn [trim_scan].
  { exists []. simpl. split; [done|]. f_equal; lia. }
  destruct (Z.ltb_spec T (sl_t s)) as [HT|HT].
  - exists []. rewrite after_all by done. simpl. split; [done|]. f_equal; lia.
  - apply StronglySorted_inv in Hs as [Hs _]. inversion Hpos as [|? ? Hp Hpos']; subst.
    pose proof (total_nonneg l Hpos'). simpl in Hb.
    assert (wrap64 (n + sl_n s) = n + sl_n s)%Z as -> by (apply wrap64_id; unfold in_int64; lia).
    destruct (IH (S i) (n + sl_n s)%Z Hs Hpos') as (d & Hl & ->); [lia|lia|].
    exists (s :: d). unfold after. rewrite filter_cons, decide_False by lia. simpl. fold (after T l).
    split; [congruence|]. f_equal; lia.
Qed.

Lemma trim_usage_slots T ts l :
  slots_of ts l → l ≠ [] → (Z.of_nat (length ts) < 2 ^ 63)%Z →
  trim_usage T (l, Z.of_nat (length ts))
  = match after T l with [] => None | _ => Some (after T l, Z.of_nat (count_after T ts)) end.
Proof.
  intros Hso Hne Hb. pose proof Hso as [Hs Hpos _ Hcount Htotal]. unfold trim_usage. cbn [fst snd].
  destruct (Z.ltb_spec T (first_time l)) as [HT|HT].
  - destruct l as [|s l]; [done|]. specialize (Hcount T). rewrite after_all in Hcount |- * by done.
    by rewrite <- Hcount, Htotal.
  - destruct (trim_scan_after T l 0 0 Hs Hpos) as (d & Hl & ->); [lia|lia|]. simpl.
    assert (drop (length d) l = after T l) as -> by (rewrite Hl at 1; apply drop_app_length).
    destruct (after T l) as [|s l'] eqn:Ha; [done|]. f_equal. f_equal. rewrite <- Ha in *.
    assert (total l = total d + total (after T l))%Z as Hsum by (rewrite <- total_app; by f_equal).
    specialize (Hcount T). pose proof (total_nonneg (after T l)) as Hnn.
    assert (Forall (λ s, (1 ≤ sl_n s)%Z) d ∧ Forall (λ s, (1 ≤ sl_n s)%Z) (after T l)) as [Hd Haf].
    { rewrite Hl in Hpos. by apply Forall_app in Hpos. }
    pose proof (total_nonneg d Hd). specialize (Hnn Haf).
    rewrite wrap64_id by (unfold in_int64; lia). lia.
Qed.

(** ** A history of requests *)

Abbreviation request := (string * Z)%type.

Definition times (hist : list request) (id : string) : list Z :=
  map (λ e, time_Unix (snd e)) (filter (λ e, fst e = id) hist).

Definition mark_all (hist : list request) : res TopApps :=
  foldM (λ x e, Mark (fst e) (snd e) x) NewTopApps hist.

Definition in_order (hist : list request) : Prop :=
  StronglySorted (λ a b, (time_Unix (snd a) ≤ time_Unix (snd b))%Z) hist.

Lemma times_snoc hist e id :
  times (hist ++ [e]) id = if decide (fst e = id) then times hist id ++ [time_Unix (snd e)] else times hist id.
Proof.
  unfold times. rewrite filter_app, map_app, filter_cons. destruct (decide (fst e = id)); [done|].
  simpl. by rewrite app_nil_r.
Qed.

Lemma mark_all_spec hist :
  in_order hist → (Z.of_nat (length hist) < 2 ^ 63)%Z →
  ∃ x, mark_all hist = Ok x ∧ ta_wf x ∧
    ∀ id, match times hist id with
          | [] => tops x !! id = None
          | _ => ∃ l, tops x !! id = Some (l, Z.of_nat (length (times hist id))) ∧ slots_of (times hist id) l
          end.
Proof.
  induction hist as [|e hist IH] using rev_ind; intros Hord Hb.
  { exists NewTopApps. split; [done|]. split; [apply tab_empty|]. done. }
  apply StronglySorted_snoc in Hord as [Hord Hle]. rewrite length_app in Hb. simpl in Hb.
  destruct IH as (x & Hx & Hwf & Htops); [done|lia|].
  destruct (top_Mark_spec (fst e) (snd e) x Hwf) as (x' & Hm & Hwf' & Ht'). exists x'.
  unfold mark_all in *. rewrite foldM_app, Hx. simpl. rewrite Hm. split_and!; [done|done|].
  intros id. rewrite Ht', times_snoc. destruct (decide (fst e = id)) as [<-|Hne].
  2: { rewrite lookup_insert_ne by done. apply Htops. }
  rewrite lookup_insert_eq. specialize (Htops (fst e)).
  assert (length (times hist (fst e)) ≤ length hist) as Hlen.
  { unfold times. rewrite length_map. apply length_filter. }
  assert (∀ t, t ∈ times hist (fst e) → (t ≤ time_Unix (snd e))%Z) as Hall.
  { intros t (e' & -> & [_ He']%list_elem_of_filter)%list_elem_of_fmap.
    by apply (proj1 (Forall_forall _ _) Hle e' He'). }
  assert (∃ l, default ([], 0%Z) (tops x !! fst e) = (l, Z.of_nat (length (times hist (fst e))))
    ∧ slots_of (times hist (fst e)) l) as (l & -> & Hso).
  { destruct (times hist (fst e)) as [|t ts]; [rewrite Htops; exists []|destruct Htops as (l & -> & Hso); by exists l].
    split; [done|]. split; [apply SSorted_nil|done|intros s Hs; by apply not_elem_of_nil in Hs|done|done]. }
  destruct (times hist (fst e) ++ [time_Unix (snd e)]) as [|t ts] eqn:Heq; [by destruct (times hist (fst e))|].
  rewrite <- Heq. eexists. split; [|apply mark_slots_of; [done|done|lia]].
  unfold mark_usage. cbn [fst snd]. do 2 f_equal. rewrite length_app. simpl. unfold int64_inc.
  rewrite wrap64_id by (unfold in_int64; lia). lia.
Qed.

(** The requests of an application at or after [y]. *)
Definition requests (hist : list request) (y : Z) (id : string) : nat :=
  length (filter (λ e, fst e = id ∧ (time_Unix y ≤ time_Unix (snd e))%Z) hist).

Lemma requests_times hist y id : count_after (time_Unix (y - Second)) (times hist id) = requests hist y id.
Proof.
  assert (time_Unix (y - Second) = time_Unix y - 1)%Z as ->.
  { unfold time_Unix. replace (y - Second)%Z with (y + (-1) * Second)%Z by lia. rewrite Z.div_add by done. lia. }
  unfold count_after, times, requests. induction hist as [|e hist IH]; [done|].
  rewrite !filter_cons. destruct (decide (fst e = id)) as [Hid|Hid].
  - cbn [map]. rewrite filter_cons. destruct (decide (time_Unix y - 1 < time_Unix (snd e))%Z).
    + rewrite decide_True by (split; [done|lia]). simpl. by rewrite IH.
    + rewrite decide_False by (intros [_ ?]; lia). apply IH.
  - rewrite decide_False by tauto. apply IH.
Qed.

(** What is left of an application after trimming. *)
Lemma trimmed_requests hist x y id :
  (Z.of_nat (length hist) < 2 ^ 63)%Z →
  match times hist id with
  | [] => tops x !! id = None
  | _ => ∃ l, tops x !! id = Some (l, Z.of_nat (length (times hist id))) ∧ slots_of (times hist id) l
  end →
  let m := omap (trim_usage (time_Unix (y - Second))) (tops x) in
  (requests hist y id = 0 ∧ m !! id = None)
  ∨ (0 < requests hist y id ∧ ∃ l, m !! id = Some (l, Z.of_nat (requests hist y id))).
Proof.
  intros Hb Hid m. unfold m. rewrite lookup_omap, <- requests_times.
  destruct (times hist id) as [|t ts] eqn:Hts; [rewrite Hid; by left|].
  destruct Hid as (l & -> & Hso). cbn [mbind option_bind]. rewrite <- Hts in *.
  assert (length (times hist id) ≤ length hist) by (unfold times; rewrite length_map; apply length_filter).
  assert (l ≠ []) as Hne.
  { intros ->. pose proof (so_total _ _ Hso) as H0. simpl in H0. rewrite Hts in H0. simpl in H0. lia. }
  rewrite (trim_usage_slots _ (times hist id) l) by (done || lia).
  pose proof (so_count _ _ Hso (time_Unix (y - Second))) as Hc.
  pose proof (so_pos _ _ Hso) as Hpos.
  destruct (after (time_Unix (y - Second)) l) as [|s l'] eqn:Ha.
  - left. simpl in Hc. split; [lia|done].
  - right. split; [|by eexists]. simpl in Hc.
    assert (∀ u, u ∈ s :: l' → (1 ≤ sl_n u)%Z) as Hall.
    { intros u Hu. rewrite <- Ha in Hu. unfold after in Hu. apply list_elem_of_filter in Hu as [_ Hu].
      by apply (proj1 (Forall_forall _ _) Hpos). }
    pose proof (Hall s ltac:(by left)). pose proof (total_nonneg l') as Hnn.
    assert (0 ≤ total l')%Z by (apply Hnn, Forall_forall; intros u Hu; apply Hall; by right). lia.
Qed.

(** C29: After a history of requests in the order of their times, the counts
    [TopSince] reports are the numbers of requests at or after the given time,
    listed once each in descending order; the applications listed are the
    busiest ones, and when fewer are listed than asked for, every application
    with such a request is there. *)
Theorem TopSince_counts hist y n :
  in_order hist → (Z.of_nat (length hist) < 2 ^ 63)%Z → (0 ≤ n)%Z →
  ∃ x l x', mark_all hist = Ok x ∧ TopSince y n x = Ok (l, x')
    ∧ NoDup (map te_ApplicationId l) ∧ StronglySorted (λ a b, (te_Requests b ≤ te_Requests a)%Z) l
    ∧ (∀ te, te ∈ l → te_Requests te = Z.of_nat (requests hist y (te_ApplicationId te)) ∧ (0 < te_Requests te)%Z)
    ∧ (∀ id te, te ∈ l → id ∉ map te_ApplicationId l → (Z.of_nat (requests hist y id) ≤ te_Requests te)%Z)
    ∧ (length l < Z.to_nat n → ∀ id, 0 < requests hist y id → id ∈ map te_ApplicationId l).
Proof.
  intros Hord Hb Hn. destruct (mark_all_spec hist Hord Hb) as (x & Hx & Hwf & Htops).
  destruct (TopSince_spec y n x Hwf Hn) as (l & x' & Htop & Hwf' & Ht' & Hlen & Hnd & Hin & Hsort & Hmax).
  pose proof (λ id, trimmed_requests hist x y id Hb (Htops id)) as Htrim. cbn in Htrim. rewrite <- Ht' in Htrim.
  exists x, l, x'. split_and!; [done|done|done|done| | |].
  - intros te Hte. destruct (Hin te Hte) as (sl & Hsl).
    destruct (Htrim (te_ApplicationId te)) as [[_ Hnone]|[Hpos (l0 & Hl0)]]; [congruence|].
    assert (te_Requests te = Z.of_nat (requests hist y (te_ApplicationId te))) as Hreq by congruence. lia.
  - intros id te Hte Hnin. destruct (Htrim id) as [[-> _]|[_ (l0 & Hl0)]]; [|by eapply Hmax].
    destruct (Hin te Hte) as (sl & Hsl).
    destruct (Htrim (te_ApplicationId te)) as [[_ Hnone]|[Hpos (l1 & Hl1)]]; [congruence|].
    assert (te_Requests te = Z.of_nat (requests hist y (te_ApplicationId te))) by congruence. lia.
  - intros Hfew id Hid. destruct (Htrim id) as [[? _]|[_ (l0 & Hl0)]]; [lia|].
    assert ((map_to_list (tops x')).*1 ≡ₚ map te_ApplicationId l) as <-.
    { symmetry. apply submseteq_length_Permutation.
      - apply NoDup_submseteq; [done|]. intros id' (te & -> & Hte)%list_elem_of_fmap.
        destruct (Hin te Hte) as (sl & Hsl). apply list_elem_of_fmap. eexists (_, _). split; [done|].
        by apply elem_of_map_to_list.
      - rewrite length_fmap, length_map_to_list, length_map. lia. }
    apply list_elem_of_fmap. eexists (_, _). split; [done|]. by apply elem_of_map_to_list.
Qed.

(** Three applications; the requests of [c] are too old. *)
Definition sample_hist : list request :=
  [("c", 1 * Second); ("a", 5 * Second); ("b", 5 * Second); ("b", 6 * Second); ("a", 9 * Second); ("b", 9 * Second)]%Z.

Lemma sample_hist_in_order : in_order sample_hist.
Proof.
  unfold in_order, sample_hist.
  repeat (apply SSorted_cons; [|repeat (constructor; [vm_compute; discriminate|]); constructor]). apply SSorted_nil.
Qed.

Lemma TopSince_counts_witness :
  ∃ x l x', mark_all sample_hist = Ok x ∧ TopSince (5 * Second) 2 x = Ok (l, x')
    ∧ NoDup (map te_ApplicationId l) ∧ StronglySorted (λ a b, (te_Requests b ≤ te_Requests a)%Z) l
    ∧ (∀ te, te ∈ l → te_Requests te = Z.of_nat (requests sample_hist (5 * Second) (te_ApplicationId te))
                      ∧ (0 < te_Requests te)%Z)
    ∧ (∀ id te, te ∈ l → id ∉ map te_ApplicationId l →
         (Z.of_nat (requests sample_hist (5 * Second) id) ≤ te_Requests te)%Z)
    ∧ (length l < Z.to_nat 2 → ∀ id, 0 < requests sample_hist (5 * Second) id → id ∈ map te_ApplicationId l).
Proof.
  apply (TopSince_counts sample_hist (5 * Second) 2 sample_hist_in_order); vm_compute; [reflexivity|discriminate].
Defined.

Example sample_top :
  (x ← mark_all sample_hist; r ← TopSince (5 * Second) 2 x; Ok (fst r))
  = Ok [mkTopEntry "b" 3; mkTopEntry "a" 2].
Proof. vm_compute. reflexivity. Qed.

(** ** Histories *)

Inductive top_op :=
| TopMark (id : string) (z : Z)
| TopTrim (y : Z)
| TopReport (y : Z) (n : nat).

Definition top_step (x : TopApps) (op : top_op) : res TopApps :=
  match op with
  | TopMark id z => Mark id z x
  | TopTrim y => Trim y x
  | TopReport y n => r ← TopSince y (Z.of_nat n) x; Ok (snd r)
  end.

(** What the operations mean for the slots and counts of the applications. *)
Definition top_effect (m : gmap string usage) (op : top_op) : gmap string usage :=
  match op with
  | TopMark id z => <[id := mark_usage (time_Unix z) (default ([], 0%Z) (m !! id))]> m
  | TopTrim y => omap (trim_usage (time_Unix y)) m
  | TopReport y _ => omap (trim_usage (time_Unix (y - Second))) m
  end.

Lemma top_step_sim x op :
  ta_wf x → ∃ x', top_step x op = Ok x' ∧ ta_wf x' ∧ tops x' = top_effect (tops x) op.
Proof.
  intros Hwf. destruct op as [id z|y|y n]; simpl; [by apply top_Mark_spec|by apply trim_spec|].
  destruct (TopSince_spec y (Z.of_nat n) x Hwf) as (l & x' & -> & Hwf' & Ht & _); [lia|]. by exists x'.
Qed.

(** C34: Any history of requests, trims and reports, in any order of times, keeps
    the two heaps, the map and the indices consistent; the checks that panic
    ([z1 != y], [z2 != y], [v != u], an entry without slots) never fire, and the
    entries are the slots and counts that the operations describe. *)
Theorem top_apps_refine ops :
  ∃ x', foldM top_step NewTopApps ops = Ok x' ∧ ta_wf x' ∧ tops x' = foldl top_effect ∅ ops.
Proof.
  assert (ta_wf NewTopApps ∧ tops NewTopApps = ∅) as [Hwf Ht] by apply tab_empty.
  rewrite <- Ht. clear Ht. revert Hwf. generalize NewTopApps. induction ops as [|op ops IH]; intros x Hwf; [eauto|].
  destruct (top_step_sim x op Hwf) as (x1 & Hs & Hwf1 & Ha).
  destruct (IH x1 Hwf1) as (x2 & Hr & Hwf2 & Ha2). exists x2. cbn [foldM foldl]. rewrite Hs.
  split_and!; [done|done|]. by rewrite Ha2, Ha.
Qed.
