(* ===== verification/Floats.v ===== *)
(** * Go's [float64]

    Binary64 arithmetic is the Standard Library's executable specification of
    IEEE 754 at 53 bits of precision, rounding to nearest even.  [denotes x z]
    says that [x] is the integer [z]; integers of at most 53 significant bits
    are computed with exactly. *)

From Stdlib Require Export SpecFloat.
From S2P Require Import Prelude.

Local Open Scope Z_scope.

Abbreviation float64 := spec_float.

Definition f64_of_Z (z : Z) : float64 := binary_normalize 53 1024 z 0 false.
Definition f64_add : float64 → float64 → float64 := SFadd 53 1024.
Definition f64_mul : float64 → float64 → float64 := SFmul 53 1024.
Definition f64_div : float64 → float64 → float64 := SFdiv 53 1024.
Definition f64_opp : float64 → float64 := SFopp.
Definition f64_lt : float64 → float64 → bool := SFltb.

(** The integer part, towards zero. *)
Definition f64_trunc (x : float64) : Z :=
  match x with
  | S754_finite s m e =>
      let n := if (0 <=? e)%Z then Z.pos m * 2 ^ e else Z.pos m `div` 2 ^ (- e) in
      if s then - n else n
  | _ => 0
  end.

(** [int64(x)] as the machine converts: what does not fit is the least integer. *)
Definition int64_of_f64 (x : float64) : Z :=
  match x with
  | S754_nan | S754_infinity _ => min_int64
  | _ => let n := f64_trunc x in if (min_int64 <=? n) && (n <=? max_int64) then n else min_int64
  end.

(** ** Exact integers *)

(** The integer [z] is [m * 2^e]. *)
Definition scaled (m e z : Z) : Prop := m * 2 ^ Z.max e 0 = z * 2 ^ Z.max (- e) 0.

(** [x] is the positive integer [z], with all 53 bits of its mantissa. *)
Definition normal (x : float64) (z : Z) : Prop :=
  ∃ m e, x = S754_finite false m e ∧ Z.pos (digits2_pos m) = 53 ∧ scaled (Z.pos m) e z.

Definition denotes (x : float64) (z : Z) : Prop := (x = S754_zero false ∧ z = 0) ∨ (0 < z ∧ normal x z).

(** At most 53 significant bits, and far from overflow. *)
Definition exact53 (z : Z) : Prop := 0 ≤ z < 2 ^ 900 ∧ ∃ m k, z = m * 2 ^ k ∧ m < 2 ^ 53 ∧ 0 ≤ k.

Lemma pow2_pos n : 0 ≤ n → 0 < 2 ^ n.
Proof. intros. apply Z.pow_pos_nonneg; lia. Qed.

(** Any common power of two clears the exponents. *)
Lemma scaled_clear k m e z : 0 ≤ k → 0 ≤ k + e → scaled m e z ↔ m * 2 ^ (k + e) = z * 2 ^ k.
Proof.
  intros Hk Hke. unfold scaled. set (c := k - Z.max (- e) 0).
  assert (0 ≤ c) as Hc by lia. pose proof (pow2_pos c Hc) as Hp.
  replace (k + e) with (Z.max e 0 + c) by lia. replace k with (Z.max (- e) 0 + c) by lia.
  rewrite !Z.pow_add_r, !Z.mul_assoc by lia. split; [by intros ->|]. apply Z.mul_reg_r. lia.
Qed.

Lemma scaled_shift m e z n : 0 ≤ n → scaled (m * 2 ^ n) e z ↔ scaled m (e + n) z.
Proof.
  intros Hn. rewrite (scaled_clear (Z.abs e + n)), (scaled_clear (Z.abs e + n) m) by lia.
  rewrite <- Z.mul_assoc, <- Z.pow_add_r by lia. by replace (n + (Z.abs e + n + e)) with (Z.abs e + n + (e + n)) by lia.
Qed.

Lemma scaled_pos m e z : scaled m e z → 0 < m ↔ 0 < z.
Proof. unfold scaled. pose proof (pow2_pos (Z.max e 0)). pose proof (pow2_pos (Z.max (- e) 0)). nia. Qed.

Lemma digits_bounds m : 2 ^ (Z.pos (digits2_pos m) - 1) ≤ Z.pos m < 2 ^ Z.pos (digits2_pos m).
Proof.
  induction m as [m IH|m IH|]; cbn [digits2_pos]; [| |done].
  all: rewrite Pos2Z.inj_succ; replace (Z.succ (Z.pos (digits2_pos m)) - 1) with (Z.succ (Z.pos (digits2_pos m) - 1)) by lia.
  all: rewrite !Z.pow_succ_r by lia; lia.
Qed.

Lemma digits_unique m d : 0 < d → 2 ^ (d - 1) ≤ Z.pos m < 2 ^ d → Z.pos (digits2_pos m) = d.
Proof.
  intros Hd [H1 H2]. destruct (digits_bounds m) as [H3 H4].
  assert (2 ^ (d - 1) < 2 ^ Z.pos (digits2_pos m)) as H5 by lia. apply Z.pow_lt_mono_r_iff in H5; [|lia..].
  assert (2 ^ (Z.pos (digits2_pos m) - 1) < 2 ^ d) as H6 by lia. apply Z.pow_lt_mono_r_iff in H6; [|lia..]. lia.
Qed.

Lemma shift_left m n : Z.pos (Pos.iter xO m n) = Z.pos m * 2 ^ Z.pos n.
Proof.
  revert m. induction n as [|n IH] using Pos.peano_ind; intros m; [cbn; lia|].
  rewrite Pos.iter_succ, Pos2Z.inj_xO, IH, Pos2Z.inj_succ, Z.pow_succ_r by lia. lia.
Qed.

(** A shift to the right that drops only zeros. *)
Lemma shift_right q n :
  SpecFloat.iter_pos shr_1 n (Build_shr_record (Z.pos q * 2 ^ Z.pos n) false false) = Build_shr_record (Z.pos q) false false.
Proof.
  assert (∀ n (f : shr_record → shr_record) x, SpecFloat.iter_pos f n x = Pos.iter f x n) as Hiter.
  { clear. induction n as [n IH|n IH|]; intros f x; cbn [SpecFloat.iter_pos Pos.iter]; rewrite ?IH; [|done..].
    by rewrite <- !Pos.iter_swap. }
  rewrite Hiter, <- shift_left. clear Hiter. induction n as [|n IH] using Pos.peano_ind; [done|].
  rewrite Pos.iter_succ_r, (Pos.iter_succ _ _ xO). exact IH.
Qed.

(** ** Rounding what needs no rounding *)

Lemma scaled_digits m e z : scaled (Z.pos m) e z → 1 ≤ Z.pos (digits2_pos m) + e.
Proof.
  intros Hs. assert (0 < z) as Hz by (by apply (scaled_pos _ _ _ Hs)).
  destruct (Z.le_gt_cases 0 e); [lia|]. destruct (digits_bounds m) as [_ Hm]. unfold scaled in Hs.
  rewrite Z.max_r, Z.max_l, Z.pow_0_r in Hs by lia.
  assert (2 ^ (- e) < 2 ^ Z.pos (digits2_pos m)) as H1 by nia. apply Z.pow_lt_mono_r_iff in H1; lia.
Qed.

(** The bits beyond 53 are zeros. *)
Lemma scaled_exact m e z :
  scaled (Z.pos m) e z → exact53 z → 53 ≤ Z.pos (digits2_pos m) →
  ∃ q, Z.pos m = Z.pos q * 2 ^ (Z.pos (digits2_pos m) - 53).
Proof.
  intros Hs (_ & m' & k & Hzk & Hm' & Hk) Hd. pose proof (scaled_digits _ _ _ Hs) as Hde.
  destruct (digits_bounds m) as [Hlo _]. set (d := Z.pos (digits2_pos m)) in *.
  assert (0 < z) as Hz by (by apply (scaled_pos _ _ _ Hs)). assert (0 < m') as Hm0 by (pose proof (pow2_pos k); nia).
  rewrite (scaled_clear (Z.abs e + d)) in Hs by lia. set (K := Z.abs e + d) in *.
  rewrite Hzk, <- Z.mul_assoc, <- Z.pow_add_r in Hs by lia.
  assert (2 ^ (d - 1 + (K + e)) < 2 ^ (53 + (k + K))) as Hlt.
  { rewrite !(Z.pow_add_r 2 _ (_ + _)) by lia. pose proof (pow2_pos (K + e)). pose proof (pow2_pos (k + K)). nia. }
  apply Z.pow_lt_mono_r_iff in Hlt; [|lia..].
  exists (Z.to_pos (m' * 2 ^ (k - e - (d - 53)))).
  rewrite Z2Pos.id by (apply Z.mul_pos_pos; [lia|apply pow2_pos; lia]).
  apply (Z.mul_reg_r _ _ (2 ^ (K + e))); [pose proof (pow2_pos (K + e)); lia|].
  rewrite Hs, <- !Z.mul_assoc, <- !Z.pow_add_r by lia. do 2 f_equal. lia.
Qed.

Lemma fexp_normal d e : 1 ≤ d + e → fexp 53 1024 (d + e) = d + e - 53.
Proof. unfold fexp, emin. lia. Qed.

(** The first shift leaves 53 bits, and a second one nothing to do. *)
Lemma shr_fexp_exact m e q :
  Z.pos m = Z.pos q * 2 ^ (Z.pos (digits2_pos m) - 53) → 53 ≤ Z.pos (digits2_pos m) → 1 ≤ Z.pos (digits2_pos m) + e →
  shr_fexp 53 1024 (Z.pos m) e loc_Exact = (Build_shr_record (Z.pos q) false false, e + (Z.pos (digits2_pos m) - 53)).
Proof.
  intros Hm Hd He. unfold shr_fexp. cbn [Zdigits2 shr_record_of_loc]. rewrite fexp_normal by done.
  replace (Z.pos (digits2_pos m) + e - 53 - e) with (Z.pos (digits2_pos m) - 53) by lia.
  destruct (Z.pos (digits2_pos m) - 53) as [|n|n] eqn:Hn; [|unfold shr; by rewrite Hm, shift_right|lia].
  rewrite Z.mul_1_r in Hm. by rewrite Hm, Z.add_0_r.
Qed.

Lemma round_exact m e z :
  scaled (Z.pos m) e z → exact53 z → 53 ≤ Z.pos (digits2_pos m) →
  normal (binary_round_aux 53 1024 false (Z.pos m) e loc_Exact) z.
Proof.
  intros Hs Hz Hd. destruct (scaled_exact m e z Hs Hz Hd) as [q Hq]. pose proof (scaled_digits m e z Hs) as Hde.
  set (n := Z.pos (digits2_pos m) - 53) in *. assert (Z.pos (digits2_pos q) = 53) as Hdq.
  { apply digits_unique; [lia|]. pose proof (digits_bounds m) as Hb. rewrite Hq in Hb.
    replace (Z.pos (digits2_pos m) - 1) with (53 - 1 + n) in Hb by lia.
    replace (Z.pos (digits2_pos m)) with (53 + n) in Hb by lia. pose proof (pow2_pos n).
    rewrite !Z.pow_add_r in Hb by lia. nia. }
  unfold binary_round_aux. rewrite (shr_fexp_exact m e q) by (done || lia). fold n.
  cbn [shr_m loc_of_shr_record round_nearest_even].
  rewrite (shr_fexp_exact q (e + n) q) by (rewrite Hdq; lia). rewrite Hdq, Z.sub_diag, Z.add_0_r. cbn [shr_m].
  rewrite Hq, scaled_shift in Hs by lia.
  destruct (Z.leb_spec (e + n) (1024 - 53)) as [|Hbig]; [by exists q, (e + n)|exfalso].
  destruct Hz as [[_ Hz] _]. unfold scaled in Hs. rewrite Z.max_l, Z.max_r, Z.pow_0_r, Z.mul_1_r in Hs by lia.
  assert (2 ^ 900 ≤ 2 ^ (e + n)) by (apply Z.pow_le_mono_r; lia). nia.
Qed.

Lemma shl_align_spec m e e' :
  let '(m', e'') := shl_align m e e' in
  e'' = Z.min e e' ∧ Z.pos m' = Z.pos m * 2 ^ (e - e'').
Proof.
  unfold shl_align. destruct (e' - e) as [|p|p] eqn:He.
  - split; [lia|]. by rewrite Z.sub_diag, Z.mul_1_r.
  - split; [lia|]. by rewrite Z.sub_diag, Z.mul_1_r.
  - split; [lia|]. rewrite shift_left. do 2 f_equal. lia.
Qed.

Lemma normalize_exact m e z :
  scaled (Z.pos m) e z → exact53 z → normal (binary_normalize 53 1024 (Z.pos m) e false) z.
Proof.
  intros Hs Hz. pose proof (scaled_digits m e z Hs) as Hde. cbn [binary_normalize]. unfold binary_round.
  rewrite fexp_normal by done. pose proof (shl_align_spec m e (Z.pos (digits2_pos m) + e - 53)) as Ha.
  destruct (shl_align m e _) as [m' e']. destruct Ha as [He' Hm']. apply round_exact; [|exact Hz|].
  - rewrite Hm', scaled_shift by lia. by replace (e' + (e - e')) with e by lia.
  - destruct (Z.le_gt_cases 53 (Z.pos (digits2_pos m))).
    + replace m' with m; [done|]. replace (e - e') with 0 in Hm' by lia. lia.
    + rewrite (digits_unique m' 53); [done|lia|]. rewrite Hm'. pose proof (digits_bounds m) as Hb.
      replace (e - e') with (53 - Z.pos (digits2_pos m)) by lia. set (d := Z.pos (digits2_pos m)) in *.
      assert (2 ^ (53 - 1) = 2 ^ (d - 1) * 2 ^ (53 - d)) as -> by (rewrite <- Z.pow_add_r by lia; f_equal; lia).
      assert (2 ^ 53 = 2 ^ d * 2 ^ (53 - d)) as -> by (rewrite <- Z.pow_add_r by lia; f_equal; lia).
      pose proof (pow2_pos (53 - d)). nia.
Qed.

(** ** Exact operations *)

Lemma of_Z_exact z : exact53 z → denotes (f64_of_Z z) z.
Proof.
  intros Hz. destruct z as [|m|m]; [by left| |destruct Hz; lia]. right. split; [lia|].
  apply normalize_exact; [|exact Hz]. reflexivity.
Qed.

Lemma add_exact x y a b : denotes x a → denotes y b → exact53 (a + b) → denotes (f64_add x y) (a + b).
Proof.
  intros [[-> ->]|(Ha & m1 & e1 & -> & Hd1 & Hs1)] [[-> ->]|(Hb & m2 & e2 & -> & Hd2 & Hs2)] Hz.
  - by left.
  - right. split; [done|]. by exists m2, e2.
  - right. rewrite Z.add_0_r in *. split; [done|]. by exists m1, e1.
  - right. split; [lia|]. cbn [f64_add SFadd cond_Zopp].
    pose proof (shl_align_spec m1 e1 (Z.min e1 e2)) as Ha1. destruct (shl_align m1 e1 _) as [n1 k1].
    pose proof (shl_align_spec m2 e2 (Z.min e1 e2)) as Ha2. destruct (shl_align m2 e2 _) as [n2 k2].
    destruct Ha1 as [Hk1 Hn1], Ha2 as [Hk2 Hn2]. cbn [fst].
    replace (Z.pos n1 + Z.pos n2) with (Z.pos (n1 + n2)) by lia. apply normalize_exact; [|exact Hz].
    replace k1 with (Z.min e1 e2) in Hn1 by lia. replace k2 with (Z.min e1 e2) in Hn2 by lia. clear k1 k2 Hk1 Hk2.
    set (k := Z.min e1 e2) in *.
    assert (scaled (Z.pos n1) k a) as H1 by (rewrite Hn1, scaled_shift by lia; by replace (k + (e1 - k)) with e1 by lia).
    assert (scaled (Z.pos n2) k b) as H2 by (rewrite Hn2, scaled_shift by lia; by replace (k + (e2 - k)) with e2 by lia).
    unfold scaled in *. by rewrite Pos2Z.inj_add, !Z.mul_add_distr_r, H1, H2.
Qed.

Lemma mul_exact x y a b : denotes x a → denotes y b → exact53 (a * b) → denotes (f64_mul x y) (a * b).
Proof.
  intros [[-> ->]|(Ha & m1 & e1 & -> & Hd1 & Hs1)] [[-> ->]|(Hb & m2 & e2 & -> & Hd2 & Hs2)] Hz.
  1-2: by left. 1: left; rewrite Z.mul_0_r; done.
  right. split; [lia|]. cbn [f64_mul SFmul xorb]. apply round_exact; [|exact Hz|].
  - rewrite (scaled_clear (Z.abs e1 + Z.abs e2)) by lia. rewrite (scaled_clear (Z.abs e1)) in Hs1 by lia.
    rewrite (scaled_clear (Z.abs e2)) in Hs2 by lia. rewrite Pos2Z.inj_mul.
    replace (Z.abs e1 + Z.abs e2 + (e1 + e2)) with ((Z.abs e1 + e1) + (Z.abs e2 + e2)) by lia.
    rewrite (Z.pow_add_r 2 (Z.abs e1 + e1) (Z.abs e2 + e2)), (Z.pow_add_r 2 (Z.abs e1) (Z.abs e2)) by lia.
    rewrite Z.mul_shuffle1, Hs1, Hs2. apply Z.mul_shuffle1.
  - assert (2 ^ 52 ≤ Z.pos (m1 * m2)) as Hlo.
    { rewrite Pos2Z.inj_mul. pose proof (digits_bounds m1) as [H1 _]. rewrite Hd1 in H1. nia. }
    pose proof (digits_bounds (m1 * m2)) as [_ Hhi].
    assert (2 ^ 52 < 2 ^ Z.pos (digits2_pos (m1 * m2))) as Hlt by lia. apply Z.pow_lt_mono_r_iff in Hlt; lia.
Qed.

Lemma trunc_exact x z : denotes x z → f64_trunc x = z.
Proof.
  intros [[-> ->]|(Hz & m & e & -> & _ & Hs)]; [done|]. cbn [f64_trunc]. unfold scaled in Hs.
  destruct (Z.leb_spec 0 e).
  - rewrite Z.max_l, Z.max_r, Z.pow_0_r, Z.mul_1_r in Hs by lia. done.
  - rewrite Z.max_r, Z.max_l, Z.pow_0_r, Z.mul_1_r in Hs by lia. rewrite Hs. apply Z.div_mul.
    pose proof (pow2_pos (- e)). lia.
Qed.

Lemma int64_exact x z : denotes x z → z ≤ max_int64 → int64_of_f64 x = z.
Proof.
  intros Hx Hz. pose proof (trunc_exact x z Hx) as Ht. unfold int64_of_f64.
  assert (0 ≤ z) by (destruct Hx as [[_ ->]|[? _]]; lia).
  assert ((min_int64 <=? f64_trunc x) && (f64_trunc x <=? max_int64) = true) as Hr.
  { rewrite Ht. apply andb_true_iff. rewrite !Z.leb_le. unfold min_int64. lia. }
  destruct Hx as [[-> _]|(_ & m & e & -> & _)]; by rewrite Hr.
Qed.

(** Mantissas of the same length are compared by their exponents first. *)
Lemma lt_exact x y a b : denotes x a → denotes y b → f64_lt x y = (a <? b).
Proof.
  intros [[-> ->]|(Ha & m1 & e1 & -> & Hd1 & Hs1)] [[-> ->]|(Hb & m2 & e2 & -> & Hd2 & Hs2)].
  - done.
  - symmetry. by apply Z.ltb_lt.
  - symmetry. apply Z.ltb_ge. lia.
  - unfold f64_lt, SFltb. cbn [SFcompare]. pose proof (digits_bounds m1) as [H1 H1']. pose proof (digits_bounds m2) as [H2 H2'].
    rewrite Hd1 in H1, H1'. rewrite Hd2 in H2, H2'.
    set (K := Z.abs e1 + Z.abs e2). rewrite (scaled_clear K) in Hs1, Hs2 by lia. pose proof (pow2_pos K ltac:(lia)) as HK.
    destruct (Z.compare_spec e1 e2) as [->|Hlt|Hgt].
    + change (Pos.compare_cont Eq m1 m2) with (m1 ?= m2)%positive. pose proof (pow2_pos (K + e2) ltac:(lia)).
      destruct (Pos.compare_spec m1 m2) as [->|?|?]; symmetry; [apply Z.ltb_ge|apply Z.ltb_lt|apply Z.ltb_ge]; nia.
    + symmetry. apply Z.ltb_lt. assert (2 * 2 ^ (K + e1) ≤ 2 ^ (K + e2)) as Hp.
      { rewrite <- Z.pow_succ_r by lia. apply Z.pow_le_mono_r; lia. }
      pose proof (pow2_pos (K + e1) ltac:(lia)). nia.
    + symmetry. apply Z.ltb_ge. assert (2 * 2 ^ (K + e2) ≤ 2 ^ (K + e1)) as Hp.
      { rewrite <- Z.pow_succ_r by lia. apply Z.pow_le_mono_r; lia. }
      pose proof (pow2_pos (K + e2) ltac:(lia)). nia.
Qed.
