(* ===== verification/Strconv.v ===== *)
(** * Decimal numbers in text ([strconv], [fmt])

    [strconv.ParseInt] at base 10 and 64 bits, with its two errors, and that it
    reads back what [%d] prints. *)

From S2P Require Import Prelude GoStrings.

Local Open Scope Z_scope.

Definition is_digit (c : ascii) : bool := (48 <=? Z.of_N (N_of_ascii c)) && (Z.of_N (N_of_ascii c) <=? 57).
Definition digit_value (c : ascii) : Z := Z.of_N (N_of_ascii c) - 48.

Inductive num_error := ErrSyntax | ErrRange.

#[export] Instance num_error_eq_dec : EqDecision num_error.
Proof. solve_decision. Defined.

Definition max_uint64 : Z := 2 ^ 64 - 1.

(** The loop of [ParseUint]; [n] is what has been read. *)
Fixpoint ParseUint_loop (n : Z) (s : string) : Z * option num_error :=
  match s with
  | EmptyString => (n, None)
  | String c s' =>
      if negb (is_digit c) then (0, Some ErrSyntax)
      else if max_uint64 `div` 10 + 1 <=? n then (max_uint64, Some ErrRange)
      else
        let n1 := n * 10 + digit_value c in
        if max_uint64 <? n1 then (max_uint64, Some ErrRange) else ParseUint_loop n1 s'
  end.

Definition ParseUint (s : string) : Z * option num_error :=
  if String.eqb s "" then (0, Some ErrSyntax) else ParseUint_loop 0 s.

Definition ParseInt (s : string) : Z * option num_error :=
  match s with
  | EmptyString => (0, Some ErrSyntax)
  | String c s' =>
      let neg := Ascii.eqb c "-" in
      match ParseUint (if Ascii.eqb c "+" || neg then s' else s) with
      | (_, Some ErrSyntax) => (0, Some ErrSyntax)
      | (un, _) =>
          let cutoff := 2 ^ 63 in
          if negb neg && (cutoff <=? un) then (cutoff - 1, Some ErrRange)
          else if neg && (cutoff <? un) then (- cutoff, Some ErrRange)
          else (if neg then - un else un, None)
      end
  end.

(** ** Reading back what was printed *)

(** All digits, not empty, and the value they add to [acc]. *)
Fixpoint dec_value (acc : Z) (s : string) : Z :=
  match s with
  | EmptyString => acc
  | String c s' => dec_value (acc * 10 + digit_value c) s'
  end.

Fixpoint all_digits (s : string) : bool :=
  match s with
  | EmptyString => true
  | String c s' => is_digit c && all_digits s'
  end.

Lemma pretty_char_digit n : is_digit (pretty_N_char (n `mod` 10)) = true ∧ digit_value (pretty_N_char (n `mod` 10)) = Z.of_N (n `mod` 10).
Proof.
  pose proof (N.mod_lt n 10 ltac:(done)) as H. generalize dependent (n `mod` 10)%N. intros k Hk.
  assert (k = 0 ∨ k = 1 ∨ k = 2 ∨ k = 3 ∨ k = 4 ∨ k = 5 ∨ k = 6 ∨ k = 7 ∨ k = 8 ∨ k = 9)%N as Hcases by lia.
  repeat destruct Hcases as [->|Hcases]; [done..|by subst].
Qed.

Lemma dec_value_app acc s t : dec_value acc (s +:+ t) = dec_value (dec_value acc s) t.
Proof. revert acc; induction s as [|c s IH]; intros acc; [done|]. apply IH. Qed.

Lemma pretty_go_spec n s :
  all_digits s = true → all_digits (pretty_N_go n s) = true ∧ dec_value 0 (pretty_N_go n s) = dec_value (Z.of_N n) s.
Proof.
  revert s. induction n as [n IH] using (well_founded_induction N.lt_wf_0). intros s Hs.
  destruct (decide (n = 0%N)) as [->|Hn]; [done|].
  rewrite pretty_N_go_step by lia. destruct (pretty_char_digit n) as [Hd Hv].
  destruct (IH (n `div` 10)%N) with (s := String (pretty_N_char (n `mod` 10)) s) as [H1 H2].
  - apply N.div_lt; lia.
  - cbn [all_digits]. by rewrite Hd.
  - split; [done|]. rewrite H2. cbn [dec_value]. f_equal. rewrite Hv.
    pose proof (N.div_mod n 10 ltac:(done)). lia.
Qed.

(** What [%d] prints of a number that is not negative. *)
Lemma pretty_nonneg z : 0 ≤ z → pretty z = pretty (Z.to_N z).
Proof. intros Hz. destruct z; [done|done|lia]. Qed.

Lemma pretty_digits n : all_digits (pretty n) = true ∧ dec_value 0 (pretty n) = Z.of_N n ∧ pretty n ≠ "".
Proof.
  unfold pretty, pretty_N. case_decide as Hn; [by subst|].
  destruct (pretty_go_spec n "" eq_refl) as [H1 H2]. split_and!; [done|done|].
  intros Heq. rewrite Heq in H2. cbn in H2. lia.
Qed.

Lemma dec_value_mono acc s : 0 ≤ acc → all_digits s = true → acc ≤ dec_value acc s.
Proof.
  revert acc; induction s as [|c s IH]; intros acc Ha Hs; cbn [dec_value]; [lia|]. cbn [all_digits] in Hs.
  apply andb_true_iff in Hs as [Hc Hs]. unfold is_digit in Hc. apply andb_true_iff in Hc as [Hc1 Hc2].
  apply Z.leb_le in Hc1, Hc2. etransitivity; [|apply IH; [|done]]; unfold digit_value; lia.
Qed.

Lemma ParseUint_loop_digits n s :
  0 ≤ n → all_digits s = true → dec_value n s ≤ max_uint64 → ParseUint_loop n s = (dec_value n s, None).
Proof.
  revert n; induction s as [|c s IH]; intros n Hn Hs Hmax; [done|]. cbn [ParseUint_loop dec_value all_digits] in *.
  apply andb_true_iff in Hs as [Hc Hs]. rewrite Hc. cbn [negb].
  assert (0 ≤ digit_value c) as Hv.
  { unfold is_digit in Hc. apply andb_true_iff in Hc as [Hc _]. apply Z.leb_le in Hc. unfold digit_value. lia. }
  pose proof (dec_value_mono (n * 10 + digit_value c) s ltac:(lia) Hs) as Hm.
  change (max_uint64 `div` 10 + 1) with 1844674407370955162. change max_uint64 with 18446744073709551615 in *.
  destruct (Z.leb_spec 1844674407370955162 n); [lia|].
  destruct (Z.ltb_spec 18446744073709551615 (n * 10 + digit_value c)); [lia|]. apply IH; [lia|done|done].
Qed.

Lemma ParseUint_pretty n : Z.of_N n ≤ max_uint64 → ParseUint (pretty n) = (Z.of_N n, None).
Proof.
  intros Hn. destruct (pretty_digits n) as (H1 & H2 & H3). unfold ParseUint.
  destruct (String.eqb_spec (pretty n) ""); [done|]. rewrite <- H2. apply ParseUint_loop_digits; [done|done|]. by rewrite H2.
Qed.

Lemma digits_head s : all_digits s = true → s ≠ "" → ∃ c s', s = String c s' ∧ is_digit c = true.
Proof. destruct s as [|c s']; [done|]. intros [H _]%andb_true_iff _. by exists c, s'. Qed.

Lemma digit_not_sign c : is_digit c = true → Ascii.eqb c "+" = false ∧ Ascii.eqb c "-" = false.
Proof. by destruct c as [[] [] [] [] [] [] [] []]. Qed.

Lemma ParseInt_pretty z : in_int64 z → ParseInt (pretty z) = (z, None).
Proof.
  intros Hz. unfold in_int64 in Hz. destruct (Z.le_gt_cases 0 z) as [Hpos|Hneg].
  - rewrite pretty_nonneg by done. destruct (pretty_digits (Z.to_N z)) as (H1 & _ & H3).
    destruct (digits_head _ H1 H3) as (c & s & Heq & Hc). destruct (digit_not_sign c Hc) as [Hp Hm].
    unfold ParseInt. rewrite Heq, Hp, Hm. cbn [orb negb andb]. rewrite <- Heq, ParseUint_pretty by (unfold max_uint64; lia).
    rewrite Z2N.id by lia. destruct (Z.leb_spec (2 ^ 63) z); [lia|done].
  - destruct z as [|n|n]; [lia|lia|]. change (pretty (Z.neg n)) with (String "-" (pretty (N.pos n))).
    unfold ParseInt. cbn [Ascii.eqb Bool.eqb orb negb andb]. rewrite ParseUint_pretty by (unfold max_uint64; lia).
    cbn [Z.of_N]. destruct (Z.ltb_spec (2 ^ 63) (Z.pos n)); [lia|done].
Qed.

Lemma ParseUint_loop_range s : ∀ n, 0 ≤ n ≤ max_uint64 → 0 ≤ fst (ParseUint_loop n s) ≤ max_uint64.
Proof.
  induction s as [|c s IH]; intros n Hn; cbn [ParseUint_loop]; [done|].
  destruct (is_digit c) eqn:Hc; cbn [negb]; [|done]. destruct (_ <=? n); [done|].
  destruct (Z.ltb_spec max_uint64 (n * 10 + digit_value c)); [done|]. apply IH. split; [|done].
  unfold is_digit in Hc. apply andb_true_iff in Hc as [Hc _]. apply Z.leb_le in Hc. unfold digit_value. lia.
Qed.

Lemma ParseUint_range s : 0 ≤ fst (ParseUint s) ≤ max_uint64.
Proof. unfold ParseUint. destruct (String.eqb s ""); [done|]. by apply ParseUint_loop_range. Qed.

Lemma ParseInt_range s n : ParseInt s = (n, None) → in_int64 n.
Proof.
  destruct s as [|c s]; [done|]. unfold ParseInt.
  pose proof (ParseUint_range (if Ascii.eqb c "+" || Ascii.eqb c "-" then s else String c s)) as Hr.
  destruct (ParseUint _) as [un err]. cbn [fst] in Hr.
  assert (∀ (neg : bool), (if negb neg && (2 ^ 63 <=? un) then (2 ^ 63 - 1, Some ErrRange)
    else if neg && (2 ^ 63 <? un) then (- 2 ^ 63, Some ErrRange) else (if neg then - un else un, None)) = (n, None) → in_int64 n) as Hgo.
  { intros []; cbn [negb andb]; unfold in_int64.
    - destruct (Z.ltb_spec (2 ^ 63) un); [done|]. intros [= <-]. lia.
    - destruct (Z.leb_spec (2 ^ 63) un); [done|]. intros [= <-]. lia. }
  destruct err as [[]|]; [done|apply Hgo..].
Qed.
