(* ===== verification/Base64.v ===== *)
(** * Base64, as the router uses it (package [encoding/base64])

    Route service headers use [URLEncoding], basic authentication uses
    [StdEncoding]; both pad.  [DecodeString] skips line breaks and does not
    look at the unused bits of the last group, as Go 1.4 does. *)

From S2P Require Import Prelude GoStrings.

(** The alphabets differ in the last two characters. *)
Record Encoding := mkEncoding { c62 : ascii; c63 : ascii }.
Definition StdEncoding : Encoding := mkEncoding "+" "/".
Definition URLEncoding : Encoding := mkEncoding "-" "_".

Definition pad : ascii := "=".

Definition enc_char (e : Encoding) (n : N) : ascii :=
  if (n <? 26)%N then ascii_of_N (65 + n)
  else if (n <? 52)%N then ascii_of_N (97 + (n - 26))
  else if (n <? 62)%N then ascii_of_N (48 + (n - 52))
  else if (n =? 62)%N then c62 e
  else c63 e.

Definition dec_char (e : Encoding) (c : ascii) : option N :=
  let n := N_of_ascii c in
  if (65 <=? n)%N && (n <=? 90)%N then Some (n - 65)%N
  else if (97 <=? n)%N && (n <=? 122)%N then Some (n - 97 + 26)%N
  else if (48 <=? n)%N && (n <=? 57)%N then Some (n - 48 + 52)%N
  else if Ascii.eqb c (c62 e) then Some 62%N
  else if Ascii.eqb c (c63 e) then Some 63%N
  else None.

Fixpoint EncodeToString (e : Encoding) (s : string) : string :=
  match s with
  | EmptyString => EmptyString
  | String a EmptyString =>
      let a := N_of_ascii a in
      String (enc_char e (a / 4)) (String (enc_char e (a mod 4 * 16)) (String pad (String pad EmptyString)))
  | String a (String b EmptyString) =>
      let a := N_of_ascii a in
      let b := N_of_ascii b in
      String (enc_char e (a / 4)) (String (enc_char e (a mod 4 * 16 + b / 16))
        (String (enc_char e (b mod 16 * 4)) (String pad EmptyString)))
  | String a (String b (String c s')) =>
      let a := N_of_ascii a in
      let b := N_of_ascii b in
      let c := N_of_ascii c in
      String (enc_char e (a / 4)) (String (enc_char e (a mod 4 * 16 + b / 16))
        (String (enc_char e (b mod 16 * 4 + c / 64)) (String (enc_char e (c mod 64)) (EncodeToString e s'))))
  end.

Definition is_newline (c : ascii) : bool := Ascii.eqb c "010" || Ascii.eqb c "013".

Fixpoint strip_newlines (s : string) : string :=
  match s with
  | EmptyString => EmptyString
  | String c s' => if is_newline c then strip_newlines s' else String c (strip_newlines s')
  end.

Fixpoint decode_quads (e : Encoding) (s : string) : option string :=
  match s with
  | EmptyString => Some EmptyString
  | String c0 (String c1 (String c2 (String c3 s'))) =>
      v0 ← dec_char e c0;
      v1 ← dec_char e c1;
      let b0 := ascii_of_N (v0 * 4 + v1 / 16) in
      if Ascii.eqb c2 pad then
        if Ascii.eqb c3 pad && String.eqb s' EmptyString then Some (String b0 EmptyString) else None
      else
        v2 ← dec_char e c2;
        let b1 := ascii_of_N (v1 mod 16 * 16 + v2 / 4) in
        if Ascii.eqb c3 pad then
          if String.eqb s' EmptyString then Some (String b0 (String b1 EmptyString)) else None
        else
          v3 ← dec_char e c3;
          rest ← decode_quads e s';
          Some (String b0 (String b1 (String (ascii_of_N (v2 mod 4 * 64 + v3)) rest)))
  | _ => None
  end.

Definition DecodeString (e : Encoding) (s : string) : option string := decode_quads e (strip_newlines s).

(** ** Decoding what was encoded *)

(** What the proofs need of an alphabet. *)
Class Alphabet (e : Encoding) : Prop := {
  alphabet_inv : ∀ n, (n < 64)%N → dec_char e (enc_char e n) = Some n;
  alphabet_text : ∀ n, (n < 64)%N → enc_char e n ≠ pad ∧ is_newline (enc_char e n) = false;
}.

Lemma sextets (P : N → bool) :
  forallb (λ k, P (N.of_nat k)) (seq 0 64) = true → ∀ n, (n < 64)%N → P n = true.
Proof.
  intros H n Hn. rewrite forallb_forall in H. rewrite <- (N2Nat.id n). apply H, in_seq. lia.
Qed.

#[export] Instance std_alphabet : Alphabet StdEncoding.
Proof.
  split.
  - intros n Hn. apply (bool_decide_eq_true_1 _). revert n Hn. apply sextets. vm_compute. reflexivity.
  - intros n Hn. apply (bool_decide_eq_true_1 _). revert n Hn. apply sextets. vm_compute. reflexivity.
Qed.

#[export] Instance url_alphabet : Alphabet URLEncoding.
Proof.
  split.
  - intros n Hn. apply (bool_decide_eq_true_1 _). revert n Hn. apply sextets. vm_compute. reflexivity.
  - intros n Hn. apply (bool_decide_eq_true_1 _). revert n Hn. apply sextets. vm_compute. reflexivity.
Qed.

Section roundtrip.
Context (e : Encoding) `{!Alphabet e}.

Lemma byte_bound c : (N_of_ascii c < 256)%N.
Proof. apply N_ascii_bounded. Qed.

Lemma eqb_pad n : (n < 64)%N → Ascii.eqb (enc_char e n) pad = false.
Proof. intros Hn. apply Ascii.eqb_neq. by apply alphabet_text. Qed.

Lemma strip_sextet n s : (n < 64)%N → strip_newlines (String (enc_char e n) s) = String (enc_char e n) (strip_newlines s).
Proof. intros Hn. cbn [strip_newlines]. by rewrite (proj2 (alphabet_text n Hn)). Qed.

(** Strings are consumed three bytes at a time. *)
Lemma triples (P : string → Prop) :
  P EmptyString → (∀ a, P (String a EmptyString)) → (∀ a b, P (String a (String b EmptyString))) →
  (∀ a b c s, P s → P (String a (String b (String c s)))) → ∀ s, P s.
Proof.
  intros H0 H1 H2 H3 s. remember (String.length s) as n eqn:Hn. revert s Hn.
  induction n as [n IH] using lt_wf_ind. intros [|a [|b [|c s]]] ->; auto.
  apply H3. eapply IH; [|done]. simpl. lia.
Qed.

Lemma byte_eq c n : n = N_of_ascii c → ascii_of_N n = c.
Proof. intros ->. apply ascii_N_embedding. Qed.

Ltac bytes :=
  repeat match goal with
  | c : ascii |- _ => let n := fresh "n" in
      pose proof (byte_bound c); set (n := N_of_ascii c) in *; clearbody n; clear c
  end; zify; Z.to_euclidean_division_equations; lia.

Lemma sextet_bounds a b c :
  (N_of_ascii a / 4 < 64 ∧ N_of_ascii a mod 4 * 16 < 64 ∧ N_of_ascii a mod 4 * 16 + N_of_ascii b / 16 < 64
   ∧ N_of_ascii b mod 16 * 4 < 64 ∧ N_of_ascii b mod 16 * 4 + N_of_ascii c / 64 < 64 ∧ N_of_ascii c mod 64 < 64)%N.
Proof. split_and!; bytes. Qed.

Lemma strip_EncodeToString s : strip_newlines (EncodeToString e s) = EncodeToString e s.
Proof.
  induction s as [|a|a b|a b c s IH] using triples; [done|..].
  - destruct (sextet_bounds a a a) as (? & ? & _). cbn [EncodeToString]. by rewrite !strip_sextet.
  - destruct (sextet_bounds a b b) as (? & ? & ? & ? & _). cbn [EncodeToString]. by rewrite !strip_sextet.
  - destruct (sextet_bounds a b c) as (? & ? & ? & ? & ? & ?). cbn [EncodeToString]. by rewrite !strip_sextet, IH.
Qed.

Lemma decode_EncodeToString s : decode_quads e (EncodeToString e s) = Some s.
Proof.
  induction s as [|a|a b|a b c s IH] using triples; [done|..].
  - destruct (sextet_bounds a a a) as (? & ? & _). cbn [EncodeToString decode_quads]. rewrite !alphabet_inv by done. cbn.
    do 2 f_equal. apply byte_eq. bytes.
  - destruct (sextet_bounds a b b) as (? & ? & ? & ? & _). cbn [EncodeToString decode_quads].
    rewrite !alphabet_inv by done. cbn. rewrite eqb_pad by done. cbn. f_equal. f_equal; [|f_equal]; apply byte_eq; bytes.
  - destruct (sextet_bounds a b c) as (? & ? & ? & ? & ? & ?). cbn [EncodeToString decode_quads].
    rewrite !alphabet_inv by done. cbn [mbind option_bind]. rewrite !eqb_pad by done.
    rewrite IH. cbn [mbind option_bind]. f_equal. f_equal; [|f_equal; [|f_equal]]; apply byte_eq; bytes.
Qed.

Lemma DecodeString_EncodeToString s : DecodeString e (EncodeToString e s) = Some s.
Proof. unfold DecodeString. by rewrite strip_EncodeToString, decode_EncodeToString. Qed.

(** The text is not empty unless the data is. *)
Lemma EncodeToString_empty s : EncodeToString e s = EmptyString ↔ s = EmptyString.
Proof. destruct s as [|a [|b [|c s]]]; simpl; split; congruence. Qed.
End roundtrip.
