(* ===== verification/Http.v ===== *)
(** * Requests, headers and cookies (package [net/http], src/common/http/headers.go)

    The part of [net/http] the router's handlers use.  Header maps and URLs
    are shared between a request and its copies, so requests hold pointers
    into a store of them. *)

From S2P Require Import Prelude GoStrings.

(** ** Header names of the router (src/common/http/headers.go) *)

Definition VcapBackendHeader : string := "X-Vcap-Backend".
Definition CfRouteEndpointHeader : string := "X-Cf-RouteEndpoint".
Definition VcapRouterHeader : string := "X-Vcap-Router".
Definition VcapRequestIdHeader : string := "X-Vcap-Request-Id".
Definition VcapTraceHeader : string := "X-Vcap-Trace".
Definition CfInstanceIdHeader : string := "X-CF-InstanceID".

(** ** Headers *)

Definition upper_ascii (c : ascii) : ascii :=
  let n := nat_of_ascii c in
  if (97 <=? n)%nat && (n <=? 122)%nat then ascii_of_nat (n - 32) else c.

Fixpoint canonical (upper : bool) (s : string) : string :=
  match s with
  | EmptyString => EmptyString
  | String c s' => String (if upper then upper_ascii c else lower_ascii c) (canonical (Ascii.eqb c "-") s')
  end.

(** For names made of token characters, as all names the router uses are. *)
Definition CanonicalHeaderKey (s : string) : string := canonical true s.

Abbreviation Header := (gmap string (list string)).

Definition header_Get (k : string) (h : Header) : string :=
  match h !! CanonicalHeaderKey k with
  | Some (v :: _) => v
  | _ => EmptyString
  end.
Definition header_Set (k v : string) (h : Header) : Header := <[CanonicalHeaderKey k := [v]]> h.
Definition header_Add (k v : string) (h : Header) : Header :=
  <[CanonicalHeaderKey k := default [] (h !! CanonicalHeaderKey k) ++ [v]]> h.
Definition header_Del (k : string) (h : Header) : Header := delete (CanonicalHeaderKey k) h.

(** Header operations are reasoned about by their laws, not unfolded. *)
#[global] Arguments CanonicalHeaderKey : simpl never.
#[global] Arguments header_Get : simpl never.
#[global] Arguments header_Set : simpl never.
#[global] Arguments header_Add : simpl never.
#[global] Arguments header_Del : simpl never.

(** ** URLs and requests *)

Record URL := mkURL {
  Scheme : string;
  Opaque : string;
  u_Host : string;
  Path : string;
  RawQuery : string;
}.

Record Request := mkRequest {
  Method : string;
  r_URL : positive;
  ProtoMajor : Z;
  ProtoMinor : Z;
  r_Header : positive;
  r_Close : bool;
  Host : string;
  RemoteAddr : string;
  RequestURI : string;
}.

Record Response := mkResponse {
  StatusCode : Z;
  rsp_Header : Header;
  rsp_Body : string;
}.

Definition set_URL (u : positive) (r : Request) : Request :=
  mkRequest (Method r) u (ProtoMajor r) (ProtoMinor r) (r_Header r) (r_Close r) (Host r) (RemoteAddr r) (RequestURI r).
Definition set_Proto (major minor : Z) (r : Request) : Request :=
  mkRequest (Method r) (r_URL r) major minor (r_Header r) (r_Close r) (Host r) (RemoteAddr r) (RequestURI r).
Definition set_HeaderMap (h : positive) (r : Request) : Request :=
  mkRequest (Method r) (r_URL r) (ProtoMajor r) (ProtoMinor r) h (r_Close r) (Host r) (RemoteAddr r) (RequestURI r).
Definition set_Close (b : bool) (r : Request) : Request :=
  mkRequest (Method r) (r_URL r) (ProtoMajor r) (ProtoMinor r) (r_Header r) b (Host r) (RemoteAddr r) (RequestURI r).
Definition set_Host (s : string) (r : Request) : Request :=
  mkRequest (Method r) (r_URL r) (ProtoMajor r) (ProtoMinor r) (r_Header r) (r_Close r) s (RemoteAddr r) (RequestURI r).

(** The objects requests point to. *)
Record store := mkStore {
  headers : gmap positive Header;
  urls : gmap positive URL;
}.

Definition get_header (p : positive) (s : store) : res Header := or_panic nil_deref (headers s !! p).
Definition get_url (p : positive) (s : store) : res URL := or_panic nil_deref (urls s !! p).
Definition put_header (p : positive) (h : Header) (s : store) : store := mkStore (<[p := h]> (headers s)) (urls s).
Definition put_url (p : positive) (u : URL) (s : store) : store := mkStore (headers s) (<[p := u]> (urls s)).

Definition update_header (p : positive) (f : Header → Header) (s : store) : res store :=
  h ← get_header p s; Ok (put_header p (f h) s).
Definition update_url (p : positive) (f : URL → URL) (s : store) : res store :=
  u ← get_url p s; Ok (put_url p (f u) s).

(** ** Cookies *)

Definition is_space (c : ascii) : bool :=
  let n := nat_of_ascii c in (n =? 32)%nat || (9 <=? n)%nat && (n <=? 13)%nat.

Fixpoint trim_left (s : string) : string :=
  match s with
  | String c s' => if is_space c then trim_left s' else s
  | EmptyString => EmptyString
  end.

Fixpoint trim_right (s : string) : string :=
  match s with
  | EmptyString => EmptyString
  | String c s' =>
      match trim_right s' with
      | EmptyString => if is_space c then EmptyString else String c EmptyString
      | t => String c t
      end
  end.

Definition strings_TrimSpace (s : string) : string := trim_right (trim_left s).

(** RFC 2616 tokens: visible characters except separators. *)
Definition is_token (c : ascii) : bool :=
  let n := nat_of_ascii c in
  (33 <=? n)%nat && (n <=? 126)%nat
  && negb (existsb (Nat.eqb n) [40; 41; 60; 62; 64; 44; 59; 58; 92; 34; 47; 91; 93; 63; 61; 123; 125]).

Definition isCookieNameValid (s : string) : bool := str_forall is_token s.

Definition dquote : ascii := "034".

Definition validCookieValueByte (c : ascii) : bool :=
  let n := nat_of_ascii c in
  (32 <=? n)%nat && (n <? 127)%nat && negb (n =? 34)%nat && negb (n =? 59)%nat && negb (n =? 92)%nat.

Definition str_last (s : string) : option ascii := String.get (String.length s - 1) s.

(** [parseCookieValue(raw, true)]: one pair of quotes is stripped. *)
Definition parseCookieValue (raw : string) : option string :=
  let v := match raw with
           | String a (String b s' as t) =>
               if Ascii.eqb a dquote && bool_decide (str_last raw = Some dquote)
               then str_take (String.length t - 1) t else raw
           | _ => raw
           end in
  if str_forall validCookieValueByte v then Some v else None.

Definition cut_pair (s : string) : string * string :=
  match strings_IndexByte s "=" with
  | Some j => (str_take j s, str_drop (S j) s)
  | None => (s, EmptyString)
  end.

(** The name and value of one part of a [Cookie] line. *)
Definition cookie_pair (part : string) : option (string * string) :=
  let p := strings_TrimSpace part in
  if String.eqb p "" then None
  else
    let '(name, raw) := cut_pair p in
    if isCookieNameValid name then v ← parseCookieValue raw; Some (name, v) else None.

Definition readCookies (h : Header) : list (string * string) :=
  line ← default [] (h !! "Cookie");
  omap cookie_pair (strings_Split (strings_TrimSpace line) ";").

(** [Request.Cookie(name)]: the first cookie of that name. *)
Definition request_Cookie (name : string) (h : Header) : option string :=
  snd <$> head (filter (λ c, fst c = name) (readCookies h)).

Record Cookie := mkCookie {
  ck_Name : string;
  ck_Value : string;
  ck_Path : string;
  ck_MaxAge : Z;
  ck_HttpOnly : bool;
  ck_Secure : bool;
}.

Fixpoint digits (acc : Z) (s : string) : option Z :=
  match s with
  | EmptyString => Some acc
  | String c s' =>
      let n := Z.of_nat (nat_of_ascii c) in
      if (48 <=? n)%Z && (n <=? 57)%Z then digits (acc * 10 + (n - 48)) s' else None
  end.

(** [strconv.Atoi] and [strconv.ParseInt(s, 10, 64)]: a sign and decimal
    digits, within 64 bits. *)
Definition strconv_Atoi (s : string) : option Z :=
  let '(neg, ds) := match s with
                    | String c s' => if Ascii.eqb c "-" then (true, s')
                                     else if Ascii.eqb c "+" then (false, s') else (false, s)
                    | EmptyString => (false, s)
                    end in
  if String.eqb ds "" then None
  else
    n ← digits 0 ds;
    let v := if neg : bool then (- n)%Z else n in
    if (min_int64 <=? v)%Z && (v <=? max_int64)%Z then Some v else None.

(** The [Max-Age] attribute of a [Set-Cookie] line; the last valid one counts. *)
Definition max_age_attr (acc : Z) (part : string) : Z :=
  let p := strings_TrimSpace part in
  let '(attr, val) := cut_pair p in
  if String.eqb (strings_ToLower attr) "max-age" && str_forall validCookieValueByte val
  then match strconv_Atoi val with
       | Some secs =>
           if negb (secs =? 0)%Z && strings_HasPrefix val "0" then acc
           else if (secs <=? 0)%Z then (-1)%Z else secs
       | None => acc
       end
  else acc.

(** Name, value and [MaxAge] of a [Set-Cookie] line, as [Response.Cookies]
    reports them; the other attributes are not used by the router. *)
Definition set_cookie_line (line : string) : option (string * string * Z) :=
  match strings_Split (strings_TrimSpace line) ";" with
  | [] => None
  | p0 :: attrs =>
      let p := strings_TrimSpace p0 in
      match strings_IndexByte p "=" with
      | None => None
      | Some j =>
          let name := str_take j p in
          if isCookieNameValid name
          then v ← parseCookieValue (str_drop (S j) p); Some (name, v, foldl max_age_attr 0%Z attrs)
          else None
      end
  end.

Definition response_Cookies (h : Header) : list (string * string * Z) :=
  omap set_cookie_line (default [] (h !! "Set-Cookie")).

(** Writing a cookie: bytes that are not valid are dropped, a value that
    starts or ends with a space or a comma is quoted. *)
Fixpoint str_filter (f : ascii → bool) (s : string) : string :=
  match s with
  | EmptyString => EmptyString
  | String c s' => if f c then String c (str_filter f s') else str_filter f s'
  end.

Definition space_or_comma (c : ascii) : bool := Ascii.eqb c " " || Ascii.eqb c ",".

Definition sanitizeCookieValue (s : string) : string :=
  let v := str_filter validCookieValueByte s in
  match v with
  | EmptyString => v
  | String c _ =>
      if space_or_comma c || default false (space_or_comma <$> str_last v)
      then String dquote (v +:+ String dquote EmptyString) else v
  end.

Definition validCookiePathByte (c : ascii) : bool :=
  let n := nat_of_ascii c in (32 <=? n)%nat && (n <? 127)%nat && negb (n =? 59)%nat.

Definition sanitizeCookiePath (s : string) : string := str_filter validCookiePathByte s.

(** [Cookie.String] for a name that is a token, without domain and expiry. *)
Definition cookie_String (c : Cookie) : string :=
  ck_Name c +:+ "=" +:+ sanitizeCookieValue (ck_Value c)
  +:+ (if String.eqb (ck_Path c) "" then "" else "; Path=" +:+ sanitizeCookiePath (ck_Path c))
  +:+ (if (0 <? ck_MaxAge c)%Z then "; Max-Age=" +:+ pretty (ck_MaxAge c)
       else if (ck_MaxAge c <? 0)%Z then "; Max-Age=0" else "")
  +:+ (if ck_HttpOnly c then "; HttpOnly" else "")
  +:+ (if ck_Secure c then "; Secure" else "").

Definition SetCookie (c : Cookie) (h : Header) : Header := header_Add "Set-Cookie" (cookie_String c) h.

(** ** Responses

    The server's [http.ResponseWriter].  The header map stays with the handler
    until the first [WriteHeader], which sends a copy of it; later calls and
    later changes of the map reach nobody.  After [Hijack] nothing is sent. *)

Record ResponseWriter := mkRW {
  rw_header : Header;
  rw_sent : option (Z * Header);
  rw_body : string;
  rw_flusher : bool;
  rw_hijacker : bool;
  rw_hijacked : bool;
}.

Definition with_rw_header (h : Header) (w : ResponseWriter) : ResponseWriter :=
  mkRW h (rw_sent w) (rw_body w) (rw_flusher w) (rw_hijacker w) (rw_hijacked w).

Definition rw_WriteHeader (code : Z) (w : ResponseWriter) : ResponseWriter :=
  if rw_hijacked w then w
  else match rw_sent w with
       | Some _ => w
       | None => mkRW (rw_header w) (Some (code, rw_header w)) (rw_body w) (rw_flusher w) (rw_hijacker w) (rw_hijacked w)
       end.

Definition bodyAllowedForStatus (code : Z) : bool :=
  negb ((100 <=? code)%Z && (code <=? 199)%Z || (code =? 204)%Z || (code =? 304)%Z).

(** The number of bytes accepted; what is refused is an error in Go that no
    caller in the router looks at. *)
Definition rw_Write (b : string) (w : ResponseWriter) : nat * ResponseWriter :=
  if rw_hijacked w then (0, w)
  else
    let w1 := rw_WriteHeader 200 w in
    match rw_sent w1 with
    | Some (code, _) =>
        if bodyAllowedForStatus code
        then (String.length b, mkRW (rw_header w1) (rw_sent w1) (rw_body w1 +:+ b) (rw_flusher w1) (rw_hijacker w1) (rw_hijacked w1))
        else (0, w1)
    | None => (0, w1)
    end.

(** [None] is the error of a writer that cannot be hijacked, or was before. *)
Definition rw_Hijack (w : ResponseWriter) : option ResponseWriter :=
  if rw_hijacker w && negb (rw_hijacked w)
  then Some (mkRW (rw_header w) (rw_sent w) (rw_body w) (rw_flusher w) (rw_hijacker w) true)
  else None.

(** [net.SplitHostPort], the host part. *)
Fixpoint last_index (c : ascii) (s : string) : option nat :=
  match s with
  | EmptyString => None
  | String a s' =>
      match last_index c s' with
      | Some i => Some (S i)
      | None => if Ascii.eqb a c then Some O else None
      end
  end.

Definition SplitHost (hostport : string) : option string :=
  match last_index ":" hostport with
  | None => None
  | Some i =>
      let unbracketed j k host :=
        if str_in "[" (str_drop j hostport) || str_in "]" (str_drop k hostport) then None else Some host in
      if strings_HasPrefix hostport "["
      then match strings_IndexByte hostport "]" with
           | Some e => if bool_decide (S e = i) then unbracketed 1 (S e) (str_take (e - 1) (str_drop 1 hostport)) else None
           | None => None
           end
      else
        let host := str_take i hostport in
        if str_in ":" host || str_in "%" host then None else unbracketed 0 0 host
  end.

Definition StatusText (code : Z) : string :=
  if (code =? 400)%Z then "Bad Request"
  else if (code =? 404)%Z then "Not Found"
  else if (code =? 500)%Z then "Internal Server Error"
  else if (code =? 502)%Z then "Bad Gateway"
  else "".

(** [copyHeader]: the values are appended to those already there.  Header maps
    that come from a connection have canonical keys. *)
Definition copyHeader (dst src : Header) : Header := union_with (λ a b, Some (a ++ b)) dst src.

(** [hopHeaders] of [net/http/httputil]. *)
Definition hopHeaders : list string :=
  ["Connection"; "Keep-Alive"; "Proxy-Authenticate"; "Proxy-Authorization"; "Te"; "Trailers"; "Transfer-Encoding"; "Upgrade"].

(** ** Lemmas *)

Lemma header_Get_Set k v h : header_Get k (header_Set k v h) = v.
Proof. unfold header_Get, header_Set. by rewrite lookup_insert_eq. Qed.

Lemma header_Get_Set_ne k k' v h :
  CanonicalHeaderKey k ≠ CanonicalHeaderKey k' → header_Get k (header_Set k' v h) = header_Get k h.
Proof. intros H. unfold header_Get, header_Set. by rewrite lookup_insert_ne. Qed.

Lemma header_Get_Del k h : header_Get k (header_Del k h) = EmptyString.
Proof. unfold header_Get, header_Del. by rewrite lookup_delete_eq. Qed.

Lemma header_Get_Del_ne k k' h :
  CanonicalHeaderKey k ≠ CanonicalHeaderKey k' → header_Get k (header_Del k' h) = header_Get k h.
Proof. intros H. unfold header_Get, header_Del. by rewrite lookup_delete_ne. Qed.

Lemma str_filter_id f s : str_forall f s = true → str_filter f s = s.
Proof. induction s as [|c s IH]; simpl; [done|]. intros [-> H]%andb_true_iff. by rewrite IH. Qed.
