(* ===== verification/Durations.v ===== *)
(** * Durations in JSON (src/common/duration.go)

    A duration is written as days, hours, minutes and seconds between quotes,
    such as [1d:2h:3m:4s], and read back through [time.ParseDuration].
    [Duration.Seconds] and [ParseDuration] are those of the Go 1.4 standard
    library, which compute in [float64].  What is written of a duration that is
    not negative is read back to the second. *)

From S2P Require Import Prelude GoStrings Floats Strconv Http.

Local Open Scope Z_scope.

(** ** The standard library *)

Definition Hour : Z := 60 * Minute.

Definition Duration_Seconds (d : Z) : float64 :=
  let sec := Z.quot d Second in
  let nsec := Z.rem d Second in
  f64_add (f64_of_Z sec) (f64_mul (f64_of_Z nsec) (f64_div (f64_of_Z 1) (f64_of_Z Second))).

Inductive duration_error :=
| InvalidDuration
| MissingUnit
| UnknownUnit (u : string)
| DurationOverflow
| BadNumber (e : num_error).

(** The digits at the front; an overflow is [None]. *)
Fixpoint leadingInt (x : Z) (s : string) : option (Z * string) :=
  match s with
  | EmptyString => Some (x, s)
  | String c s' =>
      if negb (is_digit c) then Some (x, s)
      else if (2 ^ 63 - 10) `div` 10 <=? x then None
      else leadingInt (x * 10 + digit_value c) s'
  end.

(** The text up to the next digit or point. *)
Fixpoint leadingUnit (s : string) : string * string :=
  match s with
  | EmptyString => ("", "")
  | String c s' =>
      if Ascii.eqb c "." || is_digit c then ("", s)
      else let '(u, rest) := leadingUnit s' in (String c u, rest)
  end.

(** Both encodings of the micro sign are known. *)
Definition unitMap (u : string) : option Z :=
  if String.eqb u "ns" then Some 1
  else if String.eqb u "us" then Some 1000
  else if String.eqb u (String "194" (String "181" "s")) then Some 1000
  else if String.eqb u (String "206" (String "188" "s")) then Some 1000
  else if String.eqb u "ms" then Some Millisecond
  else if String.eqb u "s" then Some Second
  else if String.eqb u "m" then Some Minute
  else if String.eqb u "h" then Some Hour
  else None.

Fixpoint f64_scale (n : nat) (scale : float64) : float64 :=
  match n with
  | O => scale
  | S n' => f64_scale n' (f64_mul scale (f64_of_Z 10))
  end.

(** A number before a unit: its value, the rest, and whether it had digits. *)
Definition ParseDuration_number (s : string) : option (float64 * string * bool) :=
  xs ← leadingInt 0 s;
  let '(x, s1) := xs in
  let g := f64_of_Z x in
  let pre := negb (String.length s =? String.length s1)%nat in
  match s1 with
  | String "." s2 =>
      ys ← leadingInt 0 s2;
      let '(y, s3) := ys in
      let n := (String.length s2 - String.length s3)%nat in
      let scale := f64_scale n (f64_of_Z 1) in
      Some (f64_add g (f64_div (f64_of_Z y) scale), s3, pre || negb (n =? 0)%nat)
  | _ => Some (g, s1, pre)
  end.

(** The loop over the elements; each one is at least a character long. *)
Fixpoint ParseDuration_loop (fuel : nat) (f : float64) (s : string) : res (duration_error + float64) :=
  match s with
  | EmptyString => Ok (inr f)
  | String c _ =>
      match fuel with
      | O => NoFuel
      | S fuel' =>
          if negb (Ascii.eqb c "." || is_digit c) then Ok (inl InvalidDuration)
          else
            match ParseDuration_number s with
            | None | Some (_, _, false) => Ok (inl InvalidDuration)
            | Some (g, s1, true) =>
                let '(u, s2) := leadingUnit s1 in
                if String.eqb u "" then Ok (inl MissingUnit)
                else match unitMap u with
                     | None => Ok (inl (UnknownUnit u))
                     | Some unit => ParseDuration_loop fuel' (f64_add f (f64_mul g (f64_of_Z unit))) s2
                     end
            end
      end
  end.

Definition ParseDuration (s : string) : res (duration_error + Z) :=
  let '(neg, s1) := match s with
                    | String "-" s' => (true, s')
                    | String "+" s' => (false, s')
                    | _ => (false, s)
                    end in
  if String.eqb s1 "0" then Ok (inr 0)
  else if String.eqb s1 "" then Ok (inl InvalidDuration)
  else
    r ← ParseDuration_loop (String.length s1) (f64_of_Z 0) s1;
    match r with
    | inl e => Ok (inl e)
    | inr f0 =>
        let f := if neg : bool then f64_opp f0 else f0 in
        if f64_lt f (f64_of_Z (- 2 ^ 63)) || f64_lt (f64_of_Z (2 ^ 63 - 1)) f then Ok (inl DurationOverflow)
        else Ok (inr (int64_of_f64 f))
    end.

(** [strings.Trim] with a one-byte cutset. *)
Fixpoint trim_byte_left (c : ascii) (s : string) : string :=
  match s with
  | String a s' => if Ascii.eqb a c then trim_byte_left c s' else s
  | EmptyString => EmptyString
  end.

Fixpoint trim_byte_right (c : ascii) (s : string) : string :=
  match s with
  | String a s' =>
      match trim_byte_right c s' with
      | EmptyString => if Ascii.eqb a c then EmptyString else String a EmptyString
      | t => String a t
      end
  | EmptyString => EmptyString
  end.

Definition strings_Trim (s : string) (c : ascii) : string := trim_byte_right c (trim_byte_left c s).

(** [s[:len(s)-1]]. *)
Definition but_last (s : string) : res string :=
  if String.eqb s "" then Panic "slice bounds out of range" else Ok (str_take (String.length s - 1) s).

(** ** Durations *)

Definition whole_seconds (d : Z) : Z := int64_of_f64 (Duration_Seconds d).

Definition formatDuration (d : Z) : string :=
  let t := whole_seconds d in
  let day := Z.quot t (60 * 60 * 24) in
  let t := Z.rem t (60 * 60 * 24) in
  let hour := Z.quot t (60 * 60) in
  let t := Z.rem t (60 * 60) in
  let min := Z.quot t 60 in
  let sec := Z.rem t 60 in
  strings_Join [pretty day; "d:"; pretty hour; "h:"; pretty min; "m:"; pretty sec; "s"] "".

Definition Duration_MarshalJSON (d : Z) : string := String dquote (formatDuration d +:+ String dquote "").

(** The new value of the receiver, or the error. *)
Definition Duration_UnmarshalJSON (b : string) : res (duration_error + Z) :=
  let str := strings_Trim b dquote in
  match strings_Split str ":" with
  | [] => Panic "index out of range"
  | ds :: rest =>
      ds' ← but_last ds;
      match ParseInt ds' with
      | (_, Some e) => Ok (inl (BadNumber e))
      | (di, None) =>
          match rest with
          | [] => Panic "index out of range"
          | hs :: us =>
              hs' ← but_last hs;
              match ParseInt hs' with
              | (_, Some e) => Ok (inl (BadNumber e))
              | (hi, None) =>
                  let hi := wrap64 (hi + wrap64 (di * 24)) in
                  ParseDuration (strings_Join ((pretty hi +:+ "h") :: us) "")
              end
          end
      end
  end.

Example format_sample : Duration_UnmarshalJSON (Duration_MarshalJSON (93784 * Second + 5)) = Ok (inr (93784 * Second)).
Proof. vm_compute. reflexivity. Qed.
Example parse_fraction : ParseDuration "1.5h-3m" = Ok (inl (UnknownUnit "h-")) ∧ ParseDuration "-1.5h" = Ok (inr (- 5400 * Second)).
Proof. vm_compute. auto. Qed.

(** * Durations survive their JSON *)


(** ** Whole seconds *)

Lemma round_aux_opp m e l : binary_round_aux 53 1024 true m e l = f64_opp (binary_round_aux 53 1024 false m e l).
Proof.
  unfold binary_round_aux. destruct (shr_fexp 53 1024 m e l) as [a b]. destruct (shr_fexp _ _ _ b _) as [c k].
  destruct (shr_m c); [done| |done]. by destruct (k <=? 1024 - 53).
Qed.

Lemma of_Z_opp z : 0 < z → f64_of_Z (- z) = f64_opp (f64_of_Z z).
Proof.
  intros Hz. destruct z as [|m|m]; [lia| |lia]. change (- Z.pos m) with (Z.neg m).
  unfold f64_of_Z. cbn [binary_normalize]. unfold binary_round.
  destruct (shl_align m 0 _). apply round_aux_opp.
Qed.

Lemma int64_opp x : f64_trunc x < 2 ^ 63 → 0 ≤ f64_trunc x → x ≠ S754_nan → (∀ s, x ≠ S754_infinity s) →
  int64_of_f64 (f64_opp x) = - f64_trunc x.
Proof.
  intros Hhi Hlo Hnan Hinf. assert (f64_trunc (f64_opp x) = - f64_trunc x) as Ht.
  { destruct x as [|s| |s m e]; [done|done|done|]. cbn. destruct s; cbn; lia. }
  unfold int64_of_f64. rewrite Ht. unfold min_int64, max_int64 in *.
  assert ((- 2 ^ 63 <=? - f64_trunc x) && (- f64_trunc x <=? 2 ^ 63 - 1) = true) as ->
    by (apply andb_true_iff; rewrite !Z.leb_le; lia).
  destruct x as [|s| |]; cbn; [done|by destruct (Hinf s)|done|done].
Qed.

Lemma exact53_small z : 0 ≤ z < 2 ^ 53 → exact53 z.
Proof.
  intros Hz. split; [split; [lia|]|exists z, 0; lia]. apply Z.lt_trans with (2 ^ 53); [lia|]. by apply Z.pow_lt_mono_r.
Qed.

Lemma int64_of_small z : Z.abs z < 2 ^ 53 → int64_of_f64 (f64_of_Z z) = z.
Proof.
  intros Hz. destruct (Z.le_gt_cases 0 z) as [Hpos|Hneg].
  - apply int64_exact; [|unfold max_int64; lia]. apply of_Z_exact, exact53_small. lia.
  - pose proof (of_Z_exact (- z) (exact53_small (- z) ltac:(lia))) as Hd. pose proof (trunc_exact _ _ Hd) as Ht.
    rewrite <- (Z.opp_involutive z) at 1. rewrite (of_Z_opp (- z)) by lia.
    rewrite int64_opp; rewrite ?Ht; [lia|lia|lia|..]; destruct Hd as [[-> _]|(_ & m & e & -> & _)]; done.
Qed.

Lemma of_Z_add_zero z : Z.abs z < 2 ^ 53 → f64_add (f64_of_Z z) (S754_zero false) = f64_of_Z z.
Proof.
  intros Hz. destruct (Z.eq_dec z 0) as [->|Hne]; [done|].
  destruct (of_Z_exact (Z.abs z)) as [[_ ?]|(_ & m & e & Habs & _)]; [apply exact53_small; lia|lia|].
  destruct (Z.abs_eq_or_opp z) as [Heq|Heq]; rewrite Heq in Habs; [by rewrite Habs|].
  replace z with (- - z) by lia. rewrite of_Z_opp, Habs by lia. done.
Qed.

Lemma whole_seconds_exact d : in_int64 d → Z.rem d Second = 0 → whole_seconds d = Z.quot d Second.
Proof.
  intros Hd Hr. unfold whole_seconds, Duration_Seconds. rewrite Hr.
  assert (Z.abs (Z.quot d Second) < 2 ^ 53) as Hq.
  { unfold in_int64 in Hd. pose proof (Z.quot_rem' d Second). unfold Second in *. lia. }
  replace (f64_mul (f64_of_Z 0) _) with (S754_zero false) by (vm_compute; reflexivity).
  by rewrite of_Z_add_zero, int64_of_small.
Qed.

(** ** Reading the elements *)

(** The rest of the text does not continue a unit. *)
Definition unit_ends (s : string) : Prop :=
  match s with
  | EmptyString => True
  | String c _ => is_digit c = true
  end.

Lemma leadingInt_digits s u t : ∀ x,
  0 ≤ x → all_digits s = true → is_digit u = false → dec_value x s < 2 ^ 63 - 20 →
  leadingInt x (s +:+ String u t) = Some (dec_value x s, String u t).
Proof.
  induction s as [|c s IH]; intros x Hx Hs Hu Hmax; [cbn; by rewrite Hu|].
  cbn [all_digits dec_value] in *. apply andb_true_iff in Hs as [Hc Hs]. cbn [String.append leadingInt]. rewrite Hc. cbn [negb].
  assert (0 ≤ digit_value c) as Hv.
  { unfold is_digit in Hc. apply andb_true_iff in Hc as [Hc _]. apply Z.leb_le in Hc. unfold digit_value. lia. }
  pose proof (dec_value_mono (x * 10 + digit_value c) s ltac:(lia) Hs).
  change ((2 ^ 63 - 10) `div` 10) with 922337203685477579. destruct (Z.leb_spec 922337203685477579 x); [lia|].
  apply IH; [lia|done..].
Qed.

Lemma leadingUnit_end s : unit_ends s → leadingUnit s = ("", s).
Proof. destruct s as [|c s]; [done|]. cbn. intros ->. by rewrite orb_true_r. Qed.

Lemma leadingUnit_one u s : is_digit u = false → Ascii.eqb u "." = false → unit_ends s →
  leadingUnit (String u s) = (String u "", s).
Proof.
  intros Hu Hp Hs. cbn [leadingUnit]. by rewrite Hu, Hp, leadingUnit_end.
Qed.

Lemma pretty_unit_ends n s : unit_ends (pretty (n : N) +:+ s).
Proof.
  destruct (pretty_digits n) as (H1 & _ & H3). by destruct (digits_head _ H1 H3) as (c & s' & -> & Hc).
Qed.

Lemma number_step n u s :
  Z.of_N n < 2 ^ 62 → is_digit u = false → Ascii.eqb u "." = false →
  ParseDuration_number (pretty n +:+ String u s) = Some (f64_of_Z (Z.of_N n), String u s, true).
Proof.
  intros Hn Hu Hp. destruct (pretty_digits n) as (H1 & H2 & H3). unfold ParseDuration_number.
  rewrite leadingInt_digits by (rewrite ?H2; done || lia). cbn [mbind option_bind].
  replace (String.length (pretty n +:+ String u s) =? String.length (String u s))%nat with false.
  - rewrite H2. cbn [negb]. destruct u as [[] [] [] [] [] [] [] []]; done.
  - symmetry. apply Nat.eqb_neq. rewrite str_length_app. destruct (digits_head _ H1 H3) as (c & s' & -> & _). cbn. lia.
Qed.

(** One element of the sum. *)
Lemma element_step fuel f a (n : N) u unit s :
  denotes f a → Z.of_N n < 2 ^ 62 → exact53 (Z.of_N n) → exact53 unit → exact53 (Z.of_N n * unit) → exact53 (a + Z.of_N n * unit) →
  is_digit u = false → Ascii.eqb u "." = false → unitMap (String u "") = Some unit → unit_ends s →
  ∃ f', denotes f' (a + Z.of_N n * unit)
    ∧ ParseDuration_loop (S fuel) f (pretty n +:+ String u s) = ParseDuration_loop fuel f' s.
Proof.
  intros Hf Hn Hen Heu Hp Hs Hu Hd Hm He. exists (f64_add f (f64_mul (f64_of_Z (Z.of_N n)) (f64_of_Z unit))). split.
  { apply add_exact; [done| |done]. apply mul_exact; [by apply of_Z_exact|by apply of_Z_exact|done]. }
  pose proof (number_step n u s Hn Hu Hd) as Hnum. destruct (pretty_digits n) as (H1 & _ & H3).
  destruct (digits_head _ H1 H3) as (c & s' & Heq & Hc). rewrite Heq in *. cbn [String.append ParseDuration_loop] in *.
  rewrite Hc, orb_true_r. cbn [negb]. rewrite Hnum, leadingUnit_one by done.
  cbn [String.eqb]. by rewrite Hm.
Qed.

(** ** Sums of hours, minutes and seconds *)

Lemma exact53_512 z : 0 ≤ z < 2 ^ 62 → (512 | z) → exact53 z.
Proof.
  intros Hz [k Hk]. split; [split; [lia|]|].
  - apply Z.lt_trans with (2 ^ 62); [lia|]. by apply Z.pow_lt_mono_r.
  - exists k, 9. lia.
Qed.

Lemma hms_step fuel f a (n : N) u unit s :
  denotes f a → 0 ≤ a → (512 | a) → (512 | unit) → Second ≤ unit ≤ Hour → a + Z.of_N n * unit < 2 ^ 62 →
  is_digit u = false → Ascii.eqb u "." = false → unitMap (String u "") = Some unit → unit_ends s →
  ∃ f', denotes f' (a + Z.of_N n * unit) ∧ (512 | a + Z.of_N n * unit)
    ∧ ParseDuration_loop (S fuel) f (pretty n +:+ String u s) = ParseDuration_loop fuel f' s.
Proof.
  unfold Hour, Minute, Second. intros Hf Ha Da Du Hu Hsum ????.
  assert ((512 | Z.of_N n * unit)) as Dn by (by apply Z.divide_mul_r).
  assert ((512 | a + Z.of_N n * unit)) as Ds by (by apply Z.divide_add_r).
  destruct (element_step fuel f a n u unit s) as (f' & ? & ?); try done.
  - nia.
  - apply exact53_small. nia.
  - apply exact53_small. lia.
  - apply exact53_512; [nia|done].
  - apply exact53_512; [nia|done].
  - eauto.
Qed.

Lemma loop_hms h m s k :
  (0 ≤ h ∧ 0 ≤ m ∧ 0 ≤ s)%Z → h * Hour + m * Minute + s * Second < 2 ^ 62 →
  ∃ f, denotes f (h * Hour + m * Minute + s * Second)
    ∧ ParseDuration_loop (S (S (S k))) (f64_of_Z 0) (pretty h +:+ String "h" (pretty m +:+ String "m" (pretty s +:+ "s"))) = Ok (inr f).
Proof.
  intros (Hh & Hm & Hs) Hsum. rewrite !pretty_nonneg by done.
  assert ((512 | Hour) ∧ (512 | Minute) ∧ (512 | Second)) as (D1 & D2 & D3) by (split_and!; by apply Znumtheory.Zmod_divide).
  assert (0 ≤ h * Hour ∧ 0 ≤ m * Minute ∧ 0 ≤ s * Second) as (P1 & P2 & P3) by (unfold Hour, Minute, Second; lia).
  destruct (hms_step (S (S k)) (f64_of_Z 0) 0 (Z.to_N h) "h" Hour (pretty (Z.to_N m) +:+ String "m" (pretty (Z.to_N s) +:+ "s")))
    as (f1 & Hf1 & E1 & L1); rewrite ?Z2N.id in * by done; try done; [by left|by apply Z.divide_0_r|lia|apply pretty_unit_ends|].
  destruct (hms_step (S k) f1 (0 + h * Hour) (Z.to_N m) "m" Minute (pretty (Z.to_N s) +:+ "s"))
    as (f2 & Hf2 & E2 & L2); rewrite ?Z2N.id in * by done; try done; [lia|apply pretty_unit_ends|].
  destruct (hms_step k f2 (0 + h * Hour + m * Minute) (Z.to_N s) "s" Second "")
    as (f3 & Hf3 & E3 & L3); rewrite ?Z2N.id in * by done; try done; [lia|].
  exists f3. rewrite L1, L2, L3. split; [done|]. by destruct k.
Qed.

(** The bounds [ParseDuration] compares with. *)
Lemma not_below f z : denotes f z → f64_lt f (f64_of_Z (- 2 ^ 63)) = false.
Proof.
  replace (f64_of_Z (- 2 ^ 63)) with (S754_finite true 4503599627370496 11) by (vm_compute; reflexivity).
  by intros [[-> _]|(_ & m & e & -> & _)].
Qed.

Lemma not_above f z : denotes f z → z ≤ 2 ^ 63 → f64_lt (f64_of_Z (2 ^ 63 - 1)) f = false.
Proof.
  intros Hf Hz. rewrite (lt_exact _ f (2 ^ 63) z); [by apply Z.ltb_ge| |done].
  right. split; [lia|]. by exists 4503599627370496%positive, 11.
Qed.

Lemma parse_hms h m s :
  (0 ≤ h ∧ 0 ≤ m ∧ 0 ≤ s)%Z → h * Hour + m * Minute + s * Second < 2 ^ 62 →
  ParseDuration (pretty h +:+ String "h" (pretty m +:+ String "m" (pretty s +:+ "s"))) = Ok (inr (h * Hour + m * Minute + s * Second)).
Proof.
  intros Hpos Hsum. set (t := pretty h +:+ _). unfold ParseDuration.
  assert (unit_ends t) as Ht by (unfold t; rewrite pretty_nonneg by lia; apply pretty_unit_ends).
  assert (∃ k, String.length t = S (S (S k))) as [k Hk].
  { unfold t. rewrite !str_length_app. cbn [String.length]. rewrite str_length_app. cbn [String.length].
    rewrite str_length_app. cbn [String.length]. exists (String.length (pretty h) + String.length (pretty m) + String.length (pretty s))%nat. lia. }
  destruct t as [|c t'] eqn:Heqt; [done|]. destruct (digit_not_sign c Ht) as [Hp Hm].
  destruct (loop_hms h m s k Hpos Hsum) as (f & Hf & Hloop). fold t in Hloop.
  replace (match String c t' with String "-" s' => (true, s') | String "+" s' => (false, s') | _ => (false, String c t') end)
    with (false, String c t') by (destruct c as [[] [] [] [] [] [] [] []]; done).
  assert (String.eqb (String c t') "0" = false ∧ String.eqb (String c t') "" = false) as [-> ->].
  { split; [|done]. apply String.eqb_neq. intros He. rewrite He in Hk. done. }
  rewrite Hk, <- Heqt, Hloop. cbn [mbind res_mbind]. rewrite (not_below f _ Hf), (not_above f _ Hf) by lia. cbn [orb].
  rewrite (int64_exact f _ Hf) by (unfold max_int64; lia). done.
Qed.

(** ** The text of a duration *)

Lemma Trim_quoted c s : str_in c s = false → strings_Trim (String c (s +:+ String c "")) c = s.
Proof.
  intros Hs. unfold strings_Trim. cbn [trim_byte_left]. rewrite Ascii.eqb_refl.
  assert (trim_byte_right c (s +:+ String c "") = s) as Hr.
  { clear - Hs. induction s as [|a s IH]; cbn; [by rewrite Ascii.eqb_refl|]. cbn in Hs.
    apply orb_false_iff in Hs as [Ha Hs]. rewrite IH, Ha by done. by destruct s. }
  destruct s as [|a s]; [cbn; by rewrite Ascii.eqb_refl|]. cbn in Hs. apply orb_false_iff in Hs as [Ha _].
  cbn [String.append trim_byte_left]. by rewrite Ha.
Qed.

Lemma all_digits_str_in c s : all_digits s = true → is_digit c = false → str_in c s = false.
Proof.
  induction s as [|a s IH]; [done|]. cbn. intros [Ha Hs]%andb_true_iff Hc. rewrite IH by done.
  destruct (Ascii.eqb_spec a c) as [->|]; [congruence|done].
Qed.

(** Only digits and a sign. *)
Lemma pretty_str_in c z : is_digit c = false → c ≠ "-"%char → str_in c (pretty (z : Z)) = false.
Proof.
  intros Hc Hne. destruct (Z.le_gt_cases 0 z) as [Hz|Hz].
  - rewrite pretty_nonneg by done. apply all_digits_str_in; [apply pretty_digits|done].
  - destruct z as [|n|n]; [lia|lia|]. change (pretty (Z.neg n)) with (String "-" (pretty (N.pos n))).
    cbn [str_in]. rewrite all_digits_str_in by (done || apply pretty_digits).
    destruct (Ascii.eqb_spec "-" c); [congruence|done].
Qed.

Lemma but_last_snoc s c : but_last (s +:+ String c "") = Ok s.
Proof.
  unfold but_last. destruct (String.eqb_spec (s +:+ String c "") "") as [He|_]; [by destruct s|].
  f_equal. rewrite str_length_app. cbn [String.length]. rewrite str_take_app; [done|lia].
Qed.

(** The elements of the text. *)
Definition elements (day hour min sec : Z) : list string :=
  [pretty day +:+ "d"; pretty hour +:+ "h"; pretty min +:+ "m"; pretty sec +:+ "s"].

Lemma elements_plain c day hour min sec :
  is_digit c = false → c ≠ "-"%char → str_in c "dhms" = false → Forall (λ x, str_in c x = false) (elements day hour min sec).
Proof.
  intros Hc Hm Hu. cbn [str_in] in Hu. rewrite !orb_false_iff in Hu. destruct Hu as (Hd & Hh & Hmm & Hs & _).
  repeat constructor; rewrite str_in_app, pretty_str_in by done; cbn [orb str_in]; by rewrite ?Hd, ?Hh, ?Hmm, ?Hs.
Qed.

Lemma formatted_elements day hour min sec :
  strings_Join [pretty day; "d:"; pretty hour; "h:"; pretty min; "m:"; pretty sec; "s"] "" = strings_Join (elements day hour min sec) ":".
Proof. cbn [strings_Join elements String.append]. by rewrite !str_app_assoc. Qed.

Lemma format_split day hour min sec :
  strings_Split (strings_Trim (String dquote (strings_Join [pretty day; "d:"; pretty hour; "h:"; pretty min; "m:"; pretty sec; "s"] ""
    +:+ String dquote "")) dquote) ":" = elements day hour min sec.
Proof.
  rewrite formatted_elements, Trim_quoted; [apply strings_Split_of_Join; [done|by apply elements_plain]|].
  apply str_in_Join; [by apply elements_plain|done].
Qed.

(** The divisions of [formatDuration], for either sign. *)
Lemma split_time t :
  Z.quot (Z.rem t 86400) 3600 + Z.quot t 86400 * 24 = Z.quot t 3600 ∧ Z.rem (Z.rem t 86400) 3600 = Z.rem t 3600
  ∧ Z.rem (Z.rem t 3600) 60 = Z.rem t 60.
Proof. Z.to_euclidean_division_equations. lia. Qed.

Lemma quot_small t k : 0 < k → Z.abs t < 2 ^ 62 → Z.abs (Z.quot t k) < 2 ^ 62.
Proof. intros Hk Ht. Z.to_euclidean_division_equations. nia. Qed.

(** What is left to parse after days have been added to the hours. *)
Lemma Unmarshal_parse d t :
  whole_seconds d = t → Z.abs t < 2 ^ 62 →
  Duration_UnmarshalJSON (Duration_MarshalJSON d)
  = ParseDuration (pretty (Z.quot t 3600) +:+ String "h"
      (pretty (Z.quot (Z.rem t 3600) 60) +:+ String "m" (pretty (Z.rem t 60) +:+ "s"))).
Proof.
  intros Ht Hsmall. unfold Duration_UnmarshalJSON, Duration_MarshalJSON, formatDuration. rewrite Ht, format_split.
  change (60 * 60 * 24) with 86400. change (60 * 60) with 3600. destruct (split_time t) as (E1 & E2 & E3). rewrite E2, E3.
  pose proof (quot_small t 86400 ltac:(lia) Hsmall). pose proof (quot_small t 3600 ltac:(lia) Hsmall).
  assert (Z.abs (Z.quot t 86400 * 24) < 2 ^ 63 ∧ Z.abs (Z.quot (Z.rem t 86400) 3600) < 2 ^ 63) as [B1 B2].
  { clear E1 E2 E3. Z.to_euclidean_division_equations. lia. }
  cbn [elements]. rewrite but_last_snoc. cbn [mbind res_mbind]. rewrite ParseInt_pretty by (unfold in_int64; lia).
  rewrite but_last_snoc. cbn [mbind res_mbind]. rewrite ParseInt_pretty by (unfold in_int64; lia).
  rewrite (wrap64_id (_ * 24)) by (unfold in_int64; lia). rewrite E1, wrap64_id by (unfold in_int64; lia).
  f_equal. cbn [strings_Join String.append]. by rewrite !str_app_assoc.
Qed.

(** ** Negative durations *)

(** A sign inside the text is taken for a part of the unit. *)
Lemma reject_step fuel f (n : N) u s :
  Z.of_N n < 2 ^ 62 → is_digit u = false → Ascii.eqb u "." = false → unitMap (String u "-") = None → unit_ends s →
  ParseDuration_loop (S fuel) f (pretty n +:+ String u (String "-" s)) = Ok (inl (UnknownUnit (String u "-"))).
Proof.
  intros Hn Hu Hd Hm He. pose proof (number_step n u (String "-" s) Hn Hu Hd) as Hnum.
  destruct (pretty_digits n) as (H1 & _ & H3). destruct (digits_head _ H1 H3) as (c & s' & Heq & Hc).
  rewrite Heq in *. cbn [String.append ParseDuration_loop] in *. rewrite Hc, orb_true_r. cbn [negb]. rewrite Hnum.
  cbn [leadingUnit]. rewrite Hu, Hd, leadingUnit_end by done. change (Ascii.eqb "-" "." || is_digit "-") with false.
  cbn [orb String.eqb]. by rewrite Hm.
Qed.

Lemma pretty_neg z : z < 0 → pretty z = String "-" (pretty (Z.to_N (- z))).
Proof. intros Hz. destruct z; [lia|lia|done]. Qed.

(** A text that starts with hours, in either sign, fails as its elements do. *)
Lemma parse_error h t e :
  h ≤ 0 → (∀ k, ParseDuration_loop (S (S k)) (f64_of_Z 0) (pretty (Z.to_N (- h)) +:+ String "h" t) = Ok (inl e)) →
  ParseDuration (pretty h +:+ String "h" t) = Ok (inl e).
Proof.
  intros Hh Hloop. set (b := pretty (Z.to_N (- h)) +:+ String "h" t) in *.
  assert (∃ c b', b = String c b' ∧ is_digit c = true ∧ String.eqb b "0" = false) as (c & b' & Hb & Hc & H0).
  { unfold b. destruct (pretty_digits (Z.to_N (- h))) as (H1 & _ & H3). destruct (digits_head _ H1 H3) as (c & s' & -> & Hc).
    eexists _, _. split_and!; [done|done|]. apply String.eqb_neq. intros [= _ Heq]. by destruct s'. }
  destruct (digit_not_sign c Hc) as [Hp Hm]. unfold ParseDuration.
  assert (match pretty h +:+ String "h" t with String "-" s' => (true, s') | String "+" s' => (false, s')
          | _ => (false, pretty h +:+ String "h" t) end = (bool_decide (h < 0), b)) as ->.
  { destruct (Z.eq_dec h 0) as [->|Hne].
    - change (pretty 0 +:+ String "h" t) with b. rewrite Hb. destruct c as [[] [] [] [] [] [] [] []]; done.
    - rewrite pretty_neg, bool_decide_true by lia. done. }
  rewrite H0, Hb. cbn [String.eqb]. rewrite <- Hb. destruct (String.length b) as [|[|k]] eqn:Hk; [by rewrite Hb in Hk| |by rewrite Hloop].
  rewrite Hb in Hk. cbn in Hk. injection Hk as Hk. destruct b'; [|done]. exfalso. clear - Hb. unfold b in Hb.
  destruct (pretty_digits (Z.to_N (- h))) as (H1 & _ & H3). destruct (digits_head _ H1 H3) as (a & s' & Heq & _).
  rewrite Heq in Hb. cbn in Hb. injection Hb as _ Hb. by destruct s'.
Qed.

Lemma reject_negative t :
  t < 0 → - 2 ^ 62 < t * Second → Z.rem t 3600 ≠ 0 →
  ∃ u, ParseDuration (pretty (Z.quot t 3600) +:+ String "h"
      (pretty (Z.quot (Z.rem t 3600) 60) +:+ String "m" (pretty (Z.rem t 60) +:+ "s"))) = Ok (inl (UnknownUnit u)).
Proof.
  intros Hneg Hlo Hr. set (h := Z.quot t 3600). set (m := Z.quot (Z.rem t 3600) 60). set (s := Z.rem t 60).
  assert (h ≤ 0 ∧ - h * Hour < 2 ^ 62 ∧ m ≤ 0 ∧ (m = 0 → s < 0)) as (Hh & Hb & Hm & Hms).
  { unfold h, m, s, Hour, Minute, Second in *. clear - Hneg Hlo Hr. Z.to_euclidean_division_equations. lia. }
  clearbody h m s. destruct (Z.eq_dec m 0) as [->|Hne].
  - exists "m-". apply parse_error; [done|]. intros k.
    destruct (hms_step (S k) (f64_of_Z 0) 0 (Z.to_N (- h)) "h" Hour (pretty 0%N +:+ String "m" (pretty s +:+ "s"))) as (f & _ & _ & Hl);
      [by left|done|by apply Z.divide_0_r|by apply Znumtheory.Zmod_divide|done|rewrite Z2N.id; lia|done..|].
    change (pretty 0) with (pretty 0%N). rewrite Hl, (pretty_neg s) by auto. apply reject_step; try done. apply pretty_unit_ends.
  - exists "h-". apply parse_error; [done|]. intros k. rewrite (pretty_neg m) by lia. unfold Hour, Minute, Second in Hb.
    apply reject_step; [rewrite Z2N.id; lia|done..|apply pretty_unit_ends].
Qed.

(** Durations in JSON.  A duration that is not negative is read back as its
    whole seconds; those are the exact quotient when the duration is a whole
    number of seconds.  A negative duration with minutes or seconds is written
    as a text that is rejected. *)
Theorem Duration_roundtrip d :
  let t := whole_seconds d in
  (in_int64 d → Z.rem d Second = 0 → t = Z.quot d Second)
  ∧ (0 ≤ t * Second < 2 ^ 62 → Duration_UnmarshalJSON (Duration_MarshalJSON d) = Ok (inr (t * Second)))
  ∧ (- 2 ^ 62 < t * Second < 0 → Z.rem t 3600 ≠ 0 →
     ∃ u, Duration_UnmarshalJSON (Duration_MarshalJSON d) = Ok (inl (UnknownUnit u))).
Proof.
  intros t. split; [apply whole_seconds_exact|]. split; intros Ht.
  - rewrite (Unmarshal_parse d t eq_refl) by (unfold Second in Ht; lia).
    assert (Z.quot t 3600 * Hour + Z.quot (Z.rem t 3600) 60 * Minute + Z.rem t 60 * Second = t * Second
      ∧ 0 ≤ Z.quot t 3600 ∧ 0 ≤ Z.quot (Z.rem t 3600) 60 ∧ 0 ≤ Z.rem t 60) as (E & H1 & H2 & H3).
    { unfold Hour, Minute, Second in *. clearbody t. Z.to_euclidean_division_equations. lia. }
    rewrite parse_hms by (done || lia). by rewrite E.
  - intros Hr. rewrite (Unmarshal_parse d t eq_refl) by (unfold Second in Ht; lia).
    apply reject_negative; [unfold Second in Ht; lia|lia|done].
Qed.

Lemma Duration_roundtrip_witness :
  Duration_UnmarshalJSON (Duration_MarshalJSON (200000 * Second + 7)) = Ok (inr (200000 * Second))
  ∧ (∃ u, Duration_UnmarshalJSON (Duration_MarshalJSON (- 61 * Second)) = Ok (inl (UnknownUnit u))).
Proof.
  split.
  - change (200000 * Second) with (whole_seconds (200000 * Second + 7) * Second) at 2.
    apply (Duration_roundtrip (200000 * Second + 7)). split; vm_compute; discriminate || reflexivity.
  - apply (Duration_roundtrip (- 61 * Second)); [split; vm_compute; reflexivity|vm_compute; discriminate].
Defined.

(** Long durations may gain a second: the nanoseconds are added in [float64]. *)
Example rounded_up : whole_seconds (2 ^ 24 * Second + 999999999) = 2 ^ 24 + 1.
Proof. vm_compute. reflexivity. Qed.

(** Texts without two colons, or with empty elements, crash the reader. *)
Example short_texts : Duration_UnmarshalJSON (String dquote (String dquote "")) = Panic "slice bounds out of range"
  ∧ Duration_UnmarshalJSON (String dquote ("5d" +:+ String dquote "")) = Panic "index out of range".
Proof. vm_compute. auto. Qed.
