(* ===== verification/Times.v ===== *)
(** * Instants as text ([time.Format], [time.Parse], src/common/duration.go)

    An instant is a number of nanoseconds since 1970.  What the sources use of
    Go 1.4's layouts is modelled: a layout is a list of chunks, formatting
    prints the fields of the civil date in the zone of the machine, parsing
    reads them chunk by chunk.  The zone is a parameter: the offset from UTC,
    in seconds, at an instant. *)

From S2P Require Import Prelude GoStrings Strconv Http.

Local Open Scope Z_scope.

(** ** Civil dates *)

Definition days_from_civil (y m d : Z) : Z :=
  let y := if m <=? 2 then y - 1 else y in
  let era := y `div` 400 in
  let yoe := y `mod` 400 in
  let mp := if 2 <? m then m - 3 else m + 9 in
  let doy := (153 * mp + 2) `div` 5 + d - 1 in
  era * 146097 + (yoe * 365 + yoe `div` 4 - yoe `div` 100 + doy) - 719468.

(** Year, month and day of a number of days since 1970. *)
Definition civil_from_days (z : Z) : Z * Z * Z :=
  let z := z + 719468 in
  let era := z `div` 146097 in
  let doe := z `mod` 146097 in
  let yoe := (doe - doe `div` 1460 + doe `div` 36524 - doe `div` 146096) `div` 365 in
  let doy := doe - (365 * yoe + yoe `div` 4 - yoe `div` 100) in
  let mp := (5 * doy + 2) `div` 153 in
  let d := doy - (153 * mp + 2) `div` 5 + 1 in
  let m := if mp <? 10 then mp + 3 else mp - 9 in
  let y := yoe + era * 400 in
  (if m <=? 2 then y + 1 else y, m, d).

Record civil := mkCivil {
  cv_year : Z;
  cv_month : Z;
  cv_day : Z;
  cv_hour : Z;
  cv_min : Z;
  cv_sec : Z;
  cv_nsec : Z;
  cv_zone : Z;
}.

(** [time.Date]: a day beyond the month runs into the next one. *)
Definition instant (c : civil) : Z :=
  let secs := days_from_civil (cv_year c) (cv_month c) (cv_day c) * 86400
              + cv_hour c * 3600 + cv_min c * 60 + cv_sec c - cv_zone c in
  secs * Second + cv_nsec c.

(** The fields of an instant in a zone. *)
Definition civil_of (zone t : Z) : civil :=
  let sec := t `div` Second + zone in
  let days := sec `div` 86400 in
  let rest := sec `mod` 86400 in
  let '(y, m, d) := civil_from_days days in
  mkCivil y m d (rest `div` 3600) (rest `mod` 3600 `div` 60) (rest `mod` 60) (t `mod` Second) zone.

(** ** Layouts *)

Inductive chunk :=
| Lit (s : string)
| LongYear
| ZeroMonth
| ZeroDay
| Hour24
| ZeroMinute
| ZeroSecond
| FracSecond9
| NumTZ
| ISO8601ColonTZ.

(** [2006-01-02 15:04:05 -0700] *)
Definition layout_common : list chunk :=
  [LongYear; Lit "-"; ZeroMonth; Lit "-"; ZeroDay; Lit " "; Hour24; Lit ":"; ZeroMinute; Lit ":"; ZeroSecond; Lit " "; NumTZ].
(** [02/01/2006:15:04:05 -0700] *)
Definition layout_access : list chunk :=
  [ZeroDay; Lit "/"; ZeroMonth; Lit "/"; LongYear; Lit ":"; Hour24; Lit ":"; ZeroMinute; Lit ":"; ZeroSecond; Lit " "; NumTZ].
(** [2006-01-02T15:04:05Z07:00] and with [.999999999]. *)
Definition layout_RFC3339 : list chunk :=
  [LongYear; Lit "-"; ZeroMonth; Lit "-"; ZeroDay; Lit "T"; Hour24; Lit ":"; ZeroMinute; Lit ":"; ZeroSecond; ISO8601ColonTZ].
Definition layout_RFC3339Nano : list chunk :=
  [LongYear; Lit "-"; ZeroMonth; Lit "-"; ZeroDay; Lit "T"; Hour24; Lit ":"; ZeroMinute; Lit ":"; ZeroSecond; FracSecond9; ISO8601ColonTZ].

Definition in_quotes (l : list chunk) : list chunk := Lit (String dquote "") :: l ++ [Lit (String dquote "")].

(** ** Formatting *)

Definition digit_char (n : Z) : ascii := ascii_of_N (Z.to_N (48 + n)).

(** The last [w] decimal digits. *)
Fixpoint fixed_digits (w : nat) (n : Z) (acc : string) : string :=
  match w with
  | O => acc
  | S w' => fixed_digits w' (n `div` 10) (String (digit_char (n `mod` 10)) acc)
  end.

Definition pad2 (n : Z) : string := fixed_digits 2 n "".

(** At least four digits. *)
Definition format_year (y : Z) : string :=
  (if y <? 0 then "-" else "") +:+ (if Z.abs y <? 10000 then fixed_digits 4 (Z.abs y) "" else pretty (Z.abs y)).

Fixpoint trim_zeros (s : string) : string :=
  match s with
  | EmptyString => EmptyString
  | String c s' =>
      match trim_zeros s' with
      | EmptyString => if Ascii.eqb c "0" then EmptyString else String c EmptyString
      | t => String c t
      end
  end.

(** Nanoseconds after the point, without zeros at the end. *)
Definition format_frac (nsec : Z) : string :=
  match trim_zeros (fixed_digits 9 nsec "") with
  | EmptyString => ""
  | ds => String "." ds
  end.

Definition format_zone (sep : string) (zone : Z) : string :=
  let minutes := Z.quot zone 60 in
  (if minutes <? 0 then "-" else "+") +:+ pad2 (Z.abs minutes `div` 60) +:+ sep +:+ pad2 (Z.abs minutes `mod` 60).

Definition format_chunk (c : civil) (k : chunk) : string :=
  match k with
  | Lit s => s
  | LongYear => format_year (cv_year c)
  | ZeroMonth => pad2 (cv_month c)
  | ZeroDay => pad2 (cv_day c)
  | Hour24 => pad2 (cv_hour c)
  | ZeroMinute => pad2 (cv_min c)
  | ZeroSecond => pad2 (cv_sec c)
  | FracSecond9 => format_frac (cv_nsec c)
  | NumTZ => format_zone "" (cv_zone c)
  | ISO8601ColonTZ => if cv_zone c =? 0 then "Z" else format_zone ":" (cv_zone c)
  end.

Definition time_Format (layout : list chunk) (zone t : Z) : string :=
  strings_Join (map (format_chunk (civil_of zone t)) layout) "".

(** ** Parsing *)

(** The fields are read into a record that starts with zeros. *)
Definition civil_zero : civil := mkCivil 0 0 0 0 0 0 0 0.

Fixpoint cutspace (s : string) : string :=
  match s with
  | String c s' => if Ascii.eqb c " " then cutspace s' else s
  | EmptyString => EmptyString
  end.

(** A space stands for any number of spaces, also for none at the end. *)
Fixpoint skip (value prefix : string) : option string :=
  match prefix with
  | EmptyString => Some value
  | String p prefix' =>
      if Ascii.eqb p " " then
        match value with
        | String v _ => if Ascii.eqb v " " then skip (cutspace value) prefix' else None
        | EmptyString => skip value prefix'
        end
      else match value with
           | String v value' => if Ascii.eqb v p then skip value' prefix' else None
           | EmptyString => None
           end
  end.

(** Two digits, or one where the layout allows it. *)
Definition getnum (fixed : bool) (s : string) : option (Z * string) :=
  match s with
  | String a s1 =>
      if negb (is_digit a) then None
      else match s1 with
           | String b s2 =>
               if is_digit b then Some (digit_value a * 10 + digit_value b, s2)
               else if fixed then None else Some (digit_value a, s1)
           | EmptyString => if fixed then None else Some (digit_value a, s1)
           end
  | EmptyString => None
  end.

(** [atoi] of the package: a sign and digits, which may be missing. *)
Definition time_atoi (s : string) : option Z :=
  let '(neg, ds) := match s with
                    | String c s' => if Ascii.eqb c "-" then (true, s') else if Ascii.eqb c "+" then (false, s') else (false, s)
                    | EmptyString => (false, s)
                    end in
  if all_digits ds && (dec_value 0 ds <? 2 ^ 63 - 10) then Some (if neg : bool then - dec_value 0 ds else dec_value 0 ds) else None.

Definition in_range (lo n hi : Z) : bool := (lo <=? n) && (n <=? hi).

Fixpoint leading_digits (s : string) : string * string :=
  match s with
  | String c s' => if is_digit c then let '(ds, rest) := leading_digits s' in (String c ds, rest) else ("", s)
  | EmptyString => ("", "")
  end.

(** [parseNanoseconds] of the digits after a point. *)
Definition parseNanoseconds (ds : string) : option Z :=
  n ← time_atoi ds;
  if in_range 0 n 999999999 then Some (n * 10 ^ Z.max 0 (9 - Z.of_nat (String.length ds))) else None.

Definition with_nsec (n : Z) (c : civil) : civil :=
  mkCivil (cv_year c) (cv_month c) (cv_day c) (cv_hour c) (cv_min c) (cv_sec c) n (cv_zone c).
Definition with_zone (n : Z) (c : civil) : civil :=
  mkCivil (cv_year c) (cv_month c) (cv_day c) (cv_hour c) (cv_min c) (cv_sec c) (cv_nsec c) n.

(** A fraction of a second is taken although the layout does not mention it. *)
Definition parse_fraction (c : civil) (value : string) : option (civil * string) :=
  match value with
  | String p (String d _ as rest) =>
      if Ascii.eqb p "." && is_digit d
      then let '(ds, rest') := leading_digits rest in n ← parseNanoseconds ds; Some (with_nsec n c, rest')
      else Some (c, value)
  | _ => Some (c, value)
  end.

(** Sign, hours and minutes of a zone, each cut out by position. *)
Definition parse_zone (c : civil) (sign hour min : string) (value : string) : option (civil * string) :=
  hr ← time_atoi hour;
  mm ← time_atoi min;
  let offset := (hr * 60 + mm) * 60 in
  if String.eqb sign "+" then Some (with_zone offset c, value)
  else if String.eqb sign "-" then Some (with_zone (- offset) c, value)
  else None.

Definition parse_chunk (c : civil) (k : chunk) (value : string) : option (civil * string) :=
  match k with
  | Lit s => v ← skip value s; Some (c, v)
  | LongYear =>
      match value with
      | String a _ =>
          if (String.length value <? 4)%nat || negb (is_digit a) then None
          else y ← time_atoi (str_take 4 value);
               Some (mkCivil y (cv_month c) (cv_day c) (cv_hour c) (cv_min c) (cv_sec c) (cv_nsec c) (cv_zone c), str_drop 4 value)
      | EmptyString => None
      end
  | ZeroMonth =>
      nv ← getnum true value;
      if in_range 1 (fst nv) 12
      then Some (mkCivil (cv_year c) (fst nv) (cv_day c) (cv_hour c) (cv_min c) (cv_sec c) (cv_nsec c) (cv_zone c), snd nv) else None
  | ZeroDay =>
      nv ← getnum true value;
      if in_range 0 (fst nv) 31
      then Some (mkCivil (cv_year c) (cv_month c) (fst nv) (cv_hour c) (cv_min c) (cv_sec c) (cv_nsec c) (cv_zone c), snd nv) else None
  | Hour24 =>
      nv ← getnum false value;
      if in_range 0 (fst nv) 23
      then Some (mkCivil (cv_year c) (cv_month c) (cv_day c) (fst nv) (cv_min c) (cv_sec c) (cv_nsec c) (cv_zone c), snd nv) else None
  | ZeroMinute =>
      nv ← getnum true value;
      if in_range 0 (fst nv) 59
      then Some (mkCivil (cv_year c) (cv_month c) (cv_day c) (cv_hour c) (fst nv) (cv_sec c) (cv_nsec c) (cv_zone c), snd nv) else None
  | ZeroSecond =>
      nv ← getnum true value;
      if in_range 0 (fst nv) 59
      then parse_fraction (mkCivil (cv_year c) (cv_month c) (cv_day c) (cv_hour c) (cv_min c) (fst nv) (cv_nsec c) (cv_zone c)) (snd nv)
      else None
  | FracSecond9 => Some (c, value)
  | NumTZ =>
      if (String.length value <? 5)%nat then None
      else parse_zone c (str_take 1 value) (str_take 2 (str_drop 1 value)) (str_take 2 (str_drop 3 value)) (str_drop 5 value)
  | ISO8601ColonTZ =>
      if strings_HasPrefix value "Z" then Some (with_zone 0 c, str_drop 1 value)
      else if (String.length value <? 6)%nat || negb (String.eqb (str_take 1 (str_drop 3 value)) ":") then None
      else parse_zone c (str_take 1 value) (str_take 2 (str_drop 1 value)) (str_take 2 (str_drop 4 value)) (str_drop 6 value)
  end.

Fixpoint parse_chunks (c : civil) (layout : list chunk) (value : string) : option civil :=
  match layout with
  | [] => if String.eqb value "" then Some c else None
  | k :: layout' => cv ← parse_chunk c k value; parse_chunks (fst cv) layout' (snd cv)
  end.

(** For layouts with a zone and without fractions of a second. *)
Definition time_Parse (layout : list chunk) (value : string) : option Z := instant <$> parse_chunks civil_zero layout value.

(** ** The common package *)

Definition Time_MarshalJSON (zone t : Z) : string := String dquote (time_Format layout_common zone t +:+ String dquote "").

Definition Time_UnmarshalJSON (b : string) : option Z := time_Parse (in_quotes layout_common) b.

Definition Elapsed (now t : Z) : Z := time_Sub now t.

Definition UnixToTime (unixTime : string) : Z * option num_error :=
  let '(unixTimeInt, err) := ParseInt unixTime in (unixTimeInt * Second, err).

Example access_sample : time_Format layout_access 7200 (1000000000 * Second) = "09/09/2001:03:46:40 +0200".
Proof. vm_compute. reflexivity. Qed.
Example parse_sample :
  time_Parse layout_RFC3339 (time_Format layout_RFC3339Nano (-19800) (1234567890 * Second + 120000000))
  = Some (1234567890 * Second + 120000000).
Proof. vm_compute. reflexivity. Qed.
Example json_sample : Time_UnmarshalJSON (Time_MarshalJSON 3600 (951782400 * Second + 5)) = Some (951782400 * Second).
Proof. vm_compute. reflexivity. Qed.
