(* ===== verification/TimeTheorems.v ===== *)
(** * Instants survive their text *)

From S2P Require Import Prelude GoStrings Strconv Http Times.

Local Open Scope Z_scope.

(** ** Civil dates

    The calendar repeats every 400 years; a day of such an era has a year of
    the era and a day of that year. *)

Lemma day_of_era doe : 0 ≤ doe < 146097 →
  let yoe := (doe - doe `div` 1460 + doe `div` 36524 - doe `div` 146096) `div` 365 in
  0 ≤ yoe ≤ 399 ∧ 0 ≤ doe - (365 * yoe + yoe `div` 4 - yoe `div` 100) ≤ 365.
Proof.
  intros H yoe. assert (0 ≤ yoe ≤ 399) as Hy by (subst yoe; Z.to_euclidean_division_equations; lia).
  split; [exact Hy|].
  assert (365 * yoe ≤ doe - doe `div` 1460 + doe `div` 36524 - doe `div` 146096 < 365 * yoe + 365) as Hq
    by (subst yoe; Z.to_euclidean_division_equations; lia).
  clearbody yoe.
  assert (doe `div` 146096 = 0 ∨ doe `div` 146096 = 1) as [E|E] by (Z.to_euclidean_division_equations; lia).
  - rewrite E in Hq. clear E.
    assert (yoe `div` 100 = 0 ∨ yoe `div` 100 = 1 ∨ yoe `div` 100 = 2 ∨ yoe `div` 100 = 3) as [G|[G|[G|G]]]
      by (Z.to_euclidean_division_equations; lia).
    all: rewrite G; Z.to_euclidean_division_equations; lia.
  - assert (doe = 146096) as -> by (Z.to_euclidean_division_equations; lia).
    change (365 * yoe ≤ 145999 < 365 * yoe + 365) in Hq. assert (yoe = 399) as -> by lia. vm_compute. split; discriminate.
Qed.

Lemma in_range_spec lo n hi : in_range lo n hi = true ↔ lo ≤ n ≤ hi.
Proof. unfold in_range. by rewrite andb_true_iff, !Z.leb_le. Qed.

Lemma civil_roundtrip z :
  let '(y, m, d) := civil_from_days z in days_from_civil y m d = z ∧ 1 ≤ m ≤ 12 ∧ 1 ≤ d ≤ 31.
Proof.
  unfold civil_from_days. pose proof (Z.mod_pos_bound (z + 719468) 146097 ltac:(lia)) as Hb.
  pose proof (Z.div_mod (z + 719468) 146097 ltac:(lia)) as Hdm.
  set (era := (z + 719468) `div` 146097) in *. set (doe := (z + 719468) `mod` 146097) in *.
  pose proof (day_of_era doe Hb) as Hc. cbv zeta in Hc.
  set (yoe := (doe - doe `div` 1460 + doe `div` 36524 - doe `div` 146096) `div` 365) in *.
  set (doy := doe - (365 * yoe + yoe `div` 4 - yoe `div` 100)) in *. set (mp := (5 * doy + 2) `div` 153) in *.
  destruct Hc as [Hyoe Hdoy].
  assert (0 ≤ mp ≤ 11 ∧ 1 ≤ doy - (153 * mp + 2) `div` 5 + 1 ≤ 31) as [Hmp Hday].
  { subst mp. clearbody doy. Z.to_euclidean_division_equations; lia. }
  assert (∀ y, (y = yoe + era * 400) → y `div` 400 = era ∧ y `mod` 400 = yoe) as Hy.
  { intros y ->. rewrite Z.div_add, Z.div_small, Z.mod_add, Z.mod_small by lia. lia. }
  destruct (Hy _ eq_refl) as [E1 E2]. unfold days_from_civil. destruct (Z.ltb_spec mp 10).
  - destruct (Z.leb_spec (mp + 3) 2); [lia|]. destruct (Z.ltb_spec 2 (mp + 3)); [|lia].
    rewrite E1, E2. replace (mp + 3 - 3) with mp by lia. lia.
  - destruct (Z.leb_spec (mp - 9) 2); [|lia]. destruct (Z.ltb_spec 2 (mp - 9)); [lia|].
    replace (yoe + era * 400 + 1 - 1) with (yoe + era * 400) by lia. rewrite E1, E2.
    replace (mp - 9 + 9) with mp by lia. lia.
Qed.

(** The fields of an instant are in their ranges and give it back. *)
Lemma civil_of_spec zone t :
  let c := civil_of zone t in
  instant c = t ∧ 1 ≤ cv_month c ≤ 12 ∧ 1 ≤ cv_day c ≤ 31 ∧ 0 ≤ cv_hour c ≤ 23 ∧ 0 ≤ cv_min c ≤ 59 ∧ 0 ≤ cv_sec c ≤ 59
  ∧ 0 ≤ cv_nsec c < Second ∧ cv_zone c = zone.
Proof.
  unfold civil_of. set (sec := t `div` Second + zone). pose proof (civil_roundtrip (sec `div` 86400)) as Hc.
  destruct (civil_from_days (sec `div` 86400)) as [[y m] d]. destruct Hc as (Hd & Hm & Hday).
  unfold instant. cbn [cv_year cv_month cv_day cv_hour cv_min cv_sec cv_nsec cv_zone]. rewrite Hd. unfold Second in *.
  clear Hd. split_and!; subst sec; Z.to_euclidean_division_equations; lia.
Qed.

(** ** Digits *)

Lemma digit_char_spec k : 0 ≤ k < 10 → is_digit (digit_char k) = true ∧ digit_value (digit_char k) = k.
Proof.
  intros Hk. assert (k = 0 ∨ k = 1 ∨ k = 2 ∨ k = 3 ∨ k = 4 ∨ k = 5 ∨ k = 6 ∨ k = 7 ∨ k = 8 ∨ k = 9) as Hc by lia.
  repeat destruct Hc as [->|Hc]; [done..|by subst].
Qed.

Lemma digit_char_mod n : is_digit (digit_char (n `mod` 10)) = true ∧ digit_value (digit_char (n `mod` 10)) = n `mod` 10.
Proof. apply digit_char_spec. apply Z.mod_pos_bound. lia. Qed.

Lemma fixed_digits_spec w n : ∀ acc, 0 ≤ n < 10 ^ Z.of_nat w → all_digits acc = true →
  all_digits (fixed_digits w n acc) = true ∧ dec_value 0 (fixed_digits w n acc) = dec_value n acc
  ∧ String.length (fixed_digits w n acc) = (w + String.length acc)%nat.
Proof.
  revert n; induction w as [|w IH]; intros n acc Hn Hacc; cbn [fixed_digits].
  - cbn in Hn. split_and!; [done| |done]. by replace n with 0 by lia.
  - rewrite Nat2Z.inj_succ, Z.pow_succ_r in Hn by lia. destruct (digit_char_mod n) as [Hd Hv].
    destruct (IH (n `div` 10) (String (digit_char (n `mod` 10)) acc)) as (H1 & H2 & H3).
    + split; [apply Z.div_pos; lia|]. apply Z.div_lt_upper_bound; lia.
    + cbn [all_digits]. by rewrite Hd.
    + split_and!; [done| |rewrite H3; cbn; lia]. rewrite H2. cbn [dec_value]. rewrite Hv.
      by replace (n `div` 10 * 10 + n `mod` 10) with n by (pose proof (Z.div_mod n 10); lia).
Qed.

Lemma pad2_app n s : pad2 n +:+ s = String (digit_char (n `div` 10 `mod` 10)) (String (digit_char (n `mod` 10)) s).
Proof. reflexivity. Qed.

Lemma getnum_pad2 fixed n s : 0 ≤ n < 100 → getnum fixed (pad2 n +:+ s) = Some (n, s).
Proof.
  intros Hn. rewrite pad2_app. cbn [getnum]. destruct (digit_char_mod (n `div` 10)) as [-> ->], (digit_char_mod n) as [-> ->].
  cbn [negb]. do 2 f_equal. rewrite (Z.mod_small (n `div` 10)) by (Z.to_euclidean_division_equations; lia).
  pose proof (Z.div_mod n 10). lia.
Qed.

Lemma time_atoi_digits s : all_digits s = true → s ≠ "" → dec_value 0 s < 2 ^ 63 - 10 → time_atoi s = Some (dec_value 0 s).
Proof.
  intros Hs Hne Hmax. destruct (digits_head s Hs Hne) as (c & s' & -> & Hc). destruct (digit_not_sign c Hc) as [Hp Hm].
  unfold time_atoi. rewrite Hp, Hm. cbv beta iota. rewrite Hs. by destruct (Z.ltb_spec (dec_value 0 (String c s')) (2 ^ 63 - 10)); [|lia].
Qed.

Lemma time_atoi_pad2 n : 0 ≤ n < 100 → time_atoi (pad2 n) = Some n.
Proof.
  intros Hn. destruct (fixed_digits_spec 2 n "") as (H1 & H2 & _); [lia|done|]. unfold pad2.
  rewrite time_atoi_digits, H2; [done|done|done|rewrite H2; cbn; lia].
Qed.

Lemma trim_zeros_spec s : all_digits s = true → ∃ k,
  all_digits (trim_zeros s) = true ∧ String.length s = (String.length (trim_zeros s) + k)%nat
  ∧ ∀ acc, dec_value acc s = dec_value acc (trim_zeros s) * 10 ^ Z.of_nat k.
Proof.
  induction s as [|c s IH]; [exists 0%nat; split_and!; [done..|intros; cbn; lia]|].
  cbn [all_digits]. intros [Hc Hs]%andb_true_iff. destruct (IH Hs) as (k & H1 & H2 & H3). cbn [trim_zeros].
  destruct (trim_zeros s) as [|a t] eqn:Et.
  - destruct (Ascii.eqb_spec c "0") as [->|Hn].
    + exists (S k). split_and!; [done|cbn in *; lia|]. intros acc. cbn [dec_value]. rewrite H3. cbn [dec_value].
      rewrite Nat2Z.inj_succ, Z.pow_succ_r by lia. change (digit_value "0") with 0. lia.
    + exists k. split_and!; [cbn [all_digits]; by rewrite Hc|cbn in *; lia|]. intros acc. cbn [dec_value]. by rewrite H3.
  - exists k. split_and!; [cbn [all_digits] in *; by rewrite Hc|cbn in *; lia|].
    intros acc. change (dec_value acc (String c (String a t))) with (dec_value (acc * 10 + digit_value c) (String a t)).
    cbn [dec_value]. by rewrite H3.
Qed.

Lemma leading_digits_app s v : all_digits s = true → (∀ a v', v = String a v' → is_digit a = false) →
  leading_digits (s +:+ v) = (s, v).
Proof.
  intros Hs Hv. induction s as [|c s IH].
  - destruct v as [|a v']; [done|]. cbn. by rewrite (Hv _ _ eq_refl).
  - cbn [all_digits] in Hs. apply andb_true_iff in Hs as [Hc Hs]. cbn [String.append leading_digits]. by rewrite Hc, IH.
Qed.

Lemma parseNanoseconds_trim n : 0 ≤ n < Second → trim_zeros (fixed_digits 9 n "") ≠ "" →
  parseNanoseconds (trim_zeros (fixed_digits 9 n "")) = Some n.
Proof.
  unfold Second. intros Hn Hne. destruct (fixed_digits_spec 9 n "") as (H1 & H2 & H3); [lia|done|].
  destruct (trim_zeros_spec _ H1) as (k & Hk1 & Hk2 & Hk3). specialize (Hk3 0). rewrite H2 in Hk3. cbn [dec_value] in Hk3.
  rewrite H3 in Hk2. cbn [Nat.add String.length] in Hk2. set (ds := trim_zeros _) in *.
  assert (0 < 10 ^ Z.of_nat k) by (apply Z.pow_pos_nonneg; lia).
  assert (0 ≤ dec_value 0 ds ≤ n) by nia.
  unfold parseNanoseconds. rewrite time_atoi_digits by (done || lia). cbn [mbind option_bind].
  rewrite (proj2 (in_range_spec _ _ _)) by lia. f_equal. rewrite Hk3. do 2 f_equal. lia.
Qed.

(** ** Chunks *)

Section chunks.
Context (cv : civil).
Context (Hyear : 0 ≤ cv_year cv ≤ 9999) (Hmonth : 1 ≤ cv_month cv ≤ 12) (Hday : 1 ≤ cv_day cv ≤ 31).
Context (Hhour : 0 ≤ cv_hour cv ≤ 23) (Hmin : 0 ≤ cv_min cv ≤ 59) (Hsec : 0 ≤ cv_sec cv ≤ 59).
Context (Hzone : Z.rem (cv_zone cv) 60 = 0) (Hzb : Z.abs (cv_zone cv) < 360000).

Abbreviation fmt L := (strings_Join (map (format_chunk cv) L) "").

Lemma fmt_cons k L : fmt (k :: L) = format_chunk cv k +:+ fmt L.
Proof. destruct L; [|done]. cbn. by rewrite str_app_nil_r. Qed.

Lemma parse_year c v :
  parse_chunk c LongYear (format_chunk cv LongYear +:+ v)
  = Some (mkCivil (cv_year cv) (cv_month c) (cv_day c) (cv_hour c) (cv_min c) (cv_sec c) (cv_nsec c) (cv_zone c), v).
Proof.
  cbn [format_chunk]. unfold format_year. destruct (Z.ltb_spec (cv_year cv) 0); [lia|]. rewrite Z.abs_eq by lia.
  destruct (Z.ltb_spec (cv_year cv) 10000); [|lia]. cbn [String.append].
  destruct (fixed_digits_spec 4 (cv_year cv) "") as (H1 & H2 & H3); [lia|done|].
  set (y := fixed_digits 4 (cv_year cv) "") in *. destruct (digits_head y H1) as (a & y' & Hy & Ha); [by destruct y|].
  rewrite Hy at 1. cbn [String.append parse_chunk]. change (String a (y' +:+ v)) with (String a y' +:+ v). rewrite <- Hy.
  rewrite Ha, str_length_app, H3. cbn [negb Nat.ltb Nat.leb orb Nat.add String.length].
  rewrite str_take_app, str_drop_app by done. rewrite (time_atoi_digits y), H2; [done|done|by rewrite Hy|rewrite H2; cbn; lia].
Qed.

Lemma parse_month c v :
  parse_chunk c ZeroMonth (format_chunk cv ZeroMonth +:+ v)
  = Some (mkCivil (cv_year c) (cv_month cv) (cv_day c) (cv_hour c) (cv_min c) (cv_sec c) (cv_nsec c) (cv_zone c), v).
Proof.
  cbn [parse_chunk format_chunk]. rewrite getnum_pad2 by lia. cbn [mbind option_bind fst snd].
  by rewrite (proj2 (in_range_spec _ _ _)) by lia.
Qed.

Lemma parse_day c v :
  parse_chunk c ZeroDay (format_chunk cv ZeroDay +:+ v)
  = Some (mkCivil (cv_year c) (cv_month c) (cv_day cv) (cv_hour c) (cv_min c) (cv_sec c) (cv_nsec c) (cv_zone c), v).
Proof.
  cbn [parse_chunk format_chunk]. rewrite getnum_pad2 by lia. cbn [mbind option_bind fst snd].
  by rewrite (proj2 (in_range_spec _ _ _)) by lia.
Qed.

Lemma parse_hour c v :
  parse_chunk c Hour24 (format_chunk cv Hour24 +:+ v)
  = Some (mkCivil (cv_year c) (cv_month c) (cv_day c) (cv_hour cv) (cv_min c) (cv_sec c) (cv_nsec c) (cv_zone c), v).
Proof.
  cbn [parse_chunk format_chunk]. rewrite getnum_pad2 by lia. cbn [mbind option_bind fst snd].
  by rewrite (proj2 (in_range_spec _ _ _)) by lia.
Qed.

Lemma parse_minute c v :
  parse_chunk c ZeroMinute (format_chunk cv ZeroMinute +:+ v)
  = Some (mkCivil (cv_year c) (cv_month c) (cv_day c) (cv_hour c) (cv_min cv) (cv_sec c) (cv_nsec c) (cv_zone c), v).
Proof.
  cbn [parse_chunk format_chunk]. rewrite getnum_pad2 by lia. cbn [mbind option_bind fst snd].
  by rewrite (proj2 (in_range_spec _ _ _)) by lia.
Qed.

Lemma parse_second c v :
  parse_chunk c ZeroSecond (format_chunk cv ZeroSecond +:+ v)
  = parse_fraction (mkCivil (cv_year c) (cv_month c) (cv_day c) (cv_hour c) (cv_min c) (cv_sec cv) (cv_nsec c) (cv_zone c)) v.
Proof.
  cbn [parse_chunk format_chunk]. rewrite getnum_pad2 by lia. cbn [mbind option_bind fst snd].
  by rewrite (proj2 (in_range_spec _ _ _)) by lia.
Qed.
Let minutes := Z.quot (cv_zone cv) 60.

Lemma parse_zone_fields c v :
  parse_zone c (if minutes <? 0 then "-" else "+") (pad2 (Z.abs minutes `div` 60)) (pad2 (Z.abs minutes `mod` 60)) v
  = Some (with_zone (cv_zone cv) c, v).
Proof.
  assert (0 ≤ Z.abs minutes < 6000 ∧ cv_zone cv = minutes * 60) as [Hm Hz]
    by (subst minutes; Z.to_euclidean_division_equations; lia).
  unfold parse_zone. rewrite !time_atoi_pad2 by (Z.to_euclidean_division_equations; lia). cbn [mbind option_bind].
  pose proof (Z.div_mod (Z.abs minutes) 60 ltac:(lia)) as Hdm.
  replace ((Z.abs minutes `div` 60 * 60 + Z.abs minutes `mod` 60) * 60) with (Z.abs (cv_zone cv)) by lia.
  destruct (Z.ltb_spec minutes 0); cbn [String.eqb Ascii.eqb Bool.eqb]; do 3 f_equal; lia.
Qed.

Lemma parse_num_tz c v : parse_chunk c NumTZ (format_chunk cv NumTZ +:+ v) = Some (with_zone (cv_zone cv) c, v).
Proof.
  rewrite <- (parse_zone_fields c v). cbn [format_chunk parse_chunk]. unfold format_zone. fold minutes. cbv zeta.
  by destruct (minutes <? 0).
Qed.

Lemma parse_colon_tz c v :
  parse_chunk c ISO8601ColonTZ (format_chunk cv ISO8601ColonTZ +:+ v) = Some (with_zone (cv_zone cv) c, v).
Proof.
  cbn [format_chunk]. destruct (Z.eqb_spec (cv_zone cv) 0) as [->|_].
  { cbn [parse_chunk]. by rewrite HasPrefix_app. }
  rewrite <- (parse_zone_fields c v). cbn [parse_chunk]. unfold format_zone. fold minutes. cbv zeta.
  by destruct (minutes <? 0).
Qed.

(** The text of a fraction is read with the seconds. *)
Lemma parse_fraction_none c v : (∀ v', v ≠ String "." v') → parse_fraction c v = Some (c, v).
Proof.
  intros Hv. destruct v as [|p [|d v']]; [done..|]. cbn [parse_fraction].
  destruct (Ascii.eqb_spec p "."); [by subst; destruct (Hv (String d v'))|done].
Qed.

Lemma parse_fraction_frac c v : 0 ≤ cv_nsec cv < Second → (∀ a v', v = String a v' → is_digit a = false ∧ a ≠ "."%char) →
  cv_nsec c = 0 → parse_fraction c (format_chunk cv FracSecond9 +:+ v) = Some (with_nsec (cv_nsec cv) c, v).
Proof.
  intros Hn Hv Hc. cbn [format_chunk]. unfold format_frac.
  destruct (fixed_digits_spec 9 (cv_nsec cv) "") as (H1 & H2 & H3); [unfold Second in Hn; lia|done|].
  destruct (trim_zeros_spec _ H1) as (k & Hk1 & Hk2 & Hk3). specialize (Hk3 0). rewrite H2 in Hk3. cbn [dec_value] in Hk3.
  destruct (trim_zeros _) as [|a ds'] eqn:Eds.
  - cbn [String.append]. rewrite parse_fraction_none by (intros v' ->; by destruct (Hv _ _ eq_refl)).
    cbn [dec_value] in Hk3. rewrite Z.mul_0_l in Hk3. rewrite Hk3. destruct c; cbn in *. by subst.
  - cbn [String.append parse_fraction]. cbn [all_digits] in Hk1. pose proof Hk1 as Hd. apply andb_true_iff in Hd as [Ha _].
    rewrite Ha. change (Ascii.eqb "." ".") with true. cbn [andb].
    change (String a (ds' +:+ v)) with (String a ds' +:+ v).
    rewrite leading_digits_app by (exact Hk1 || (intros ?? Hv'; by destruct (Hv _ _ Hv'))).
    rewrite <- Eds, parseNanoseconds_trim; [done|done|by rewrite Eds].
Qed.
Lemma parse_lit c p v : p ≠ " "%char → parse_chunk c (Lit (String p "")) (String p "" +:+ v) = Some (c, v).
Proof.
  intros Hp. cbn [parse_chunk skip String.append]. apply Ascii.eqb_neq in Hp. by rewrite Hp, Ascii.eqb_refl.
Qed.

Lemma parse_space c v : (∀ v', v ≠ String " " v') → parse_chunk c (Lit " ") (" " +:+ v) = Some (c, v).
Proof.
  intros Hv. cbn [parse_chunk skip String.append Ascii.eqb Bool.eqb cutspace].
  replace (cutspace v) with v; [done|]. destruct v as [|a v']; [done|]. cbn [cutspace].
  destruct (Ascii.eqb_spec a " "); [by subst; destruct (Hv v')|done].
Qed.

(** A field of two digits, or a sign, does not begin with a space or a point. *)
Lemma pad2_head n v a v' : pad2 n +:+ v = String a v' → is_digit a = true.
Proof. rewrite pad2_app. intros [= <- _]. apply digit_char_mod. Qed.

Lemma zone_head v a v' : format_chunk cv NumTZ +:+ v = String a v' → a = "-"%char ∨ a = "+"%char.
Proof. cbn [format_chunk]. unfold format_zone. fold minutes. destruct (minutes <? 0); intros [= <- _]; auto. Qed.

Lemma colon_zone_head v a v' : format_chunk cv ISO8601ColonTZ +:+ v = String a v' → a = "Z"%char ∨ a = "-"%char ∨ a = "+"%char.
Proof.
  cbn [format_chunk]. destruct (cv_zone cv =? 0); [intros [= <- _]; auto|].
  unfold format_zone. fold minutes. destruct (minutes <? 0); intros [= <- _]; auto.
Qed.

Lemma parse_chunks_cons c k L v c' v' : parse_chunk c k v = Some (c', v') → parse_chunks c (k :: L) v = parse_chunks c' L v'.
Proof. intros H. cbn [parse_chunks]. by rewrite H. Qed.

(** Each chunk reads what it printed. *)
Ltac parse_step :=
  first
    [ erewrite parse_chunks_cons by (apply parse_lit; discriminate)
    | erewrite parse_chunks_cons by apply parse_year
    | erewrite parse_chunks_cons by apply parse_month
    | erewrite parse_chunks_cons by apply parse_day
    | erewrite parse_chunks_cons by apply parse_hour
    | erewrite parse_chunks_cons by apply parse_minute
    | erewrite parse_chunks_cons by apply parse_num_tz
    | erewrite parse_chunks_cons by apply parse_colon_tz
    | erewrite parse_chunks_cons by (apply parse_space; intros ? Hv; apply pad2_head in Hv; discriminate)
    | erewrite parse_chunks_cons by (apply parse_space; intros ? Hv; apply zone_head in Hv as [|]; discriminate)
    | erewrite parse_chunks_cons by (rewrite parse_second; apply parse_fraction_none; discriminate) ];
  cbn [cv_year cv_month cv_day cv_hour cv_min cv_sec cv_nsec cv_zone with_zone].

(** What is printed with the layout of the sources is read back, without the nanoseconds. *)
Lemma parse_common_layout :
  parse_chunks civil_zero (in_quotes layout_common) (fmt (in_quotes layout_common)) = Some (with_nsec 0 cv).
Proof.
  unfold in_quotes, layout_common. cbn [app]. rewrite !fmt_cons. cbn [map strings_Join]. by repeat parse_step.
Qed.

(** RFC 3339, with the nanoseconds. *)
Lemma parse_RFC3339 : 0 ≤ cv_nsec cv < Second →
  parse_chunks civil_zero (in_quotes layout_RFC3339) (fmt (in_quotes layout_RFC3339Nano)) = Some cv.
Proof.
  intros Hn. unfold in_quotes, layout_RFC3339, layout_RFC3339Nano. cbn [app]. rewrite !fmt_cons. cbn [map strings_Join].
  do 11 parse_step. erewrite parse_chunks_cons.
  2:{ rewrite parse_second. apply parse_fraction_frac; [done| |done].
      intros a v' Hv. apply colon_zone_head in Hv as [-> | [-> | -> ]]; by split. }
  cbn [with_nsec cv_year cv_month cv_day cv_hour cv_min cv_sec cv_nsec cv_zone]. do 2 parse_step. by destruct cv.
Qed.
End chunks.

(** ** Round trips *)

Lemma quoted_Join cv L : strings_Join (map (format_chunk cv) (in_quotes L)) ""
  = String dquote (strings_Join (map (format_chunk cv) L) "" +:+ String dquote "").
Proof.
  unfold in_quotes. rewrite fmt_cons. cbn [format_chunk String.append]. f_equal.
  induction L as [|k L IH]; [done|]. cbn [app]. rewrite !fmt_cons, IH. by rewrite str_app_assoc.
Qed.

Lemma instant_with_nsec c t : instant c = t → 0 ≤ cv_nsec c < Second → instant (with_nsec 0 c) = t `div` Second * Second.
Proof.
  intros <- Hn. unfold instant, with_nsec. cbn [cv_year cv_month cv_day cv_hour cv_min cv_sec cv_nsec cv_zone].
  rewrite Z.div_add_l, (Z.div_small (cv_nsec c)) by (unfold Second in *; lia). lia.
Qed.

(** The JSON of a [common.Time] gives back the instant, cut to the whole
    second, for every instant whose year has four digits in the zone of the
    machine and every zone of whole minutes. *)
Theorem Time_roundtrip zone t :
  Z.rem zone 60 = 0 → Z.abs zone < 360000 → 0 ≤ cv_year (civil_of zone t) ≤ 9999 →
  Time_UnmarshalJSON (Time_MarshalJSON zone t) = Some (t `div` Second * Second).
Proof.
  intros Hz Hzb Hy. pose proof (civil_of_spec zone t) as Hc. cbv zeta in Hc.
  unfold Time_UnmarshalJSON, Time_MarshalJSON, time_Parse, time_Format. revert Hy Hc. generalize (civil_of zone t). intros c Hy.
  intros (Hi & Hm & Hd & Hh & Hmin & Hs & Hn & <-). rewrite <- quoted_Join, parse_common_layout by done.
  cbn [fmap option_fmap option_map]. f_equal. by apply instant_with_nsec.
Qed.

Lemma Time_roundtrip_witness :
  Time_UnmarshalJSON (Time_MarshalJSON 3600 (951782400 * Second + 5)) = Some (951782400 * Second).
Proof. rewrite (Time_roundtrip 3600); [reflexivity|reflexivity|lia|vm_compute; split; discriminate]. Defined.

(** The same for [time.Time] itself, which keeps the nanoseconds. *)
Lemma RFC3339_roundtrip zone t :
  Z.rem zone 60 = 0 → Z.abs zone < 360000 → 0 ≤ cv_year (civil_of zone t) ≤ 9999 →
  time_Parse (in_quotes layout_RFC3339) (String dquote (time_Format layout_RFC3339Nano zone t +:+ String dquote "")) = Some t.
Proof.
  intros Hz Hzb Hy. pose proof (civil_of_spec zone t) as Hc. cbv zeta in Hc.
  unfold time_Parse, time_Format. revert Hy Hc. generalize (civil_of zone t). intros c Hy.
  intros (Hi & Hm & Hd & Hh & Hmin & Hs & Hn & <-). rewrite <- quoted_Join, parse_RFC3339 by done.
  cbn [fmap option_fmap option_map]. by rewrite Hi.
Qed.

(** ** Years of four digits *)

Lemma days_year y m d : 1 ≤ m ≤ 12 → 1 ≤ d ≤ 31 →
  (days_from_civil y m d < 2932897 → y ≤ 9999) ∧ (-719528 ≤ days_from_civil y m d → 0 ≤ y).
Proof.
  intros Hm Hd. unfold days_from_civil. destruct (Z.leb_spec m 2) as [H1|H1].
  all: destruct (Z.ltb_spec 2 m) as [H2|H2]; try lia.
  - pose proof (Z.div_mod (y - 1) 400 ltac:(lia)). pose proof (Z.mod_pos_bound (y - 1) 400 ltac:(lia)).
    generalize dependent ((y - 1) `div` 400). generalize dependent ((y - 1) `mod` 400). intros yoe Hyoe era He.
    assert (306 ≤ (153 * (m + 9) + 2) `div` 5 + d - 1 ≤ 367) by (Z.to_euclidean_division_equations; lia).
    generalize dependent ((153 * (m + 9) + 2) `div` 5 + d - 1). intros doy Hdoy.
    split; intros H; Z.to_euclidean_division_equations; lia.
  - pose proof (Z.div_mod y 400 ltac:(lia)). pose proof (Z.mod_pos_bound y 400 ltac:(lia)).
    generalize dependent (y `div` 400). generalize dependent (y `mod` 400). intros yoe Hyoe era He.
    assert (0 ≤ (153 * (m - 3) + 2) `div` 5 + d - 1 ≤ 305) by (Z.to_euclidean_division_equations; lia).
    generalize dependent ((153 * (m - 3) + 2) `div` 5 + d - 1). intros doy Hdoy.
    split; intros H; Z.to_euclidean_division_equations; lia.
Qed.

(** From the year 1 to the day before the year 10000, in any zone. *)
Lemma civil_year zone t : Z.abs zone < 86400 → -62135596800 * Second ≤ t < (253402300800 - 86400) * Second →
  0 ≤ cv_year (civil_of zone t) ≤ 9999.
Proof.
  intros Hz Ht. unfold civil_of. set (sec := t `div` Second + zone).
  assert (-719528 ≤ sec `div` 86400 < 2932897) as Hd.
  { assert (-62135596800 ≤ t `div` Second < 253402300800 - 86400) as Hs.
    { split; [apply Z.div_le_lower_bound|apply Z.div_lt_upper_bound]; unfold Second in *; lia. }
    assert (-62135596800 - 86400 ≤ sec < 253402300800) by lia. clearbody sec.
    split; [apply Z.div_le_lower_bound|apply Z.div_lt_upper_bound]; lia. }
  pose proof (civil_roundtrip (sec `div` 86400)) as Hc. destruct (civil_from_days (sec `div` 86400)) as [[y m] d].
  cbn [cv_year]. destruct Hc as (Hc & Hm & Hday). destruct (days_year y m d Hm Hday). lia.
Qed.
