(* ===== verification/Json.v ===== *)
(** * JSON texts (package [encoding/json])

    The scanner of Go 1.4 accepts the JSON grammar; what it reads is kept as a
    tree whose strings and numbers are the tokens of the text, unquoted and
    converted only where they are stored.  Encoding writes such a tree
    without spaces. *)

From S2P Require Import Prelude GoStrings Utf8 Strconv Http.

Local Open Scope Z_scope.

Inductive json :=
| JNull
| JBool (b : bool)
| JNum (token : string)
| JStr (raw : string)
| JArr (l : list json)
| JObj (l : list (string * json)).

Definition backslash : ascii := "\".

(** ** Strings *)

Definition hex_digit (n : Z) : ascii := if n <? 10 then byte_of (48 + n) else byte_of (87 + n).

Definition hex_val (c : ascii) : option Z :=
  let n := byte_val c in
  if (48 <=? n) && (n <=? 57) then Some (n - 48)
  else if (97 <=? n) && (n <=? 102) then Some (n - 87)
  else if (65 <=? n) && (n <=? 70) then Some (n - 55)
  else None.

Definition u_escape (s : string) : string := String backslash (String "u" s).

(** What is written for a rune of a string. *)
Definition escape_rune (r : Z) : string :=
  if r <? 0x80 then
    let b := byte_of r in
    if Ascii.eqb b backslash || Ascii.eqb b dquote then String backslash (String b "")
    else if r =? 10 then String backslash "n"
    else if r =? 13 then String backslash "r"
    else if (r <? 0x20) || Ascii.eqb b "<" || Ascii.eqb b ">" || Ascii.eqb b "&"
    then u_escape (String "0" (String "0" (String (hex_digit (r `div` 16)) (String (hex_digit (r `mod` 16)) ""))))
    else String b ""
  else if (r =? 0x2028) || (r =? 0x2029) then u_escape ("202" +:+ String (hex_digit (r `mod` 16)) "")
  else EncodeRune r.

(** [encodeState.string], between the quotes. *)
Definition escape : string → string :=
  rune_fold "" (λ _ t, u_escape "fffd" +:+ t) (λ r t, escape_rune r +:+ t).

Definition unescape (e : ascii) : option ascii :=
  if Ascii.eqb e dquote || Ascii.eqb e backslash || Ascii.eqb e "/" || Ascii.eqb e "'" then Some e
  else if Ascii.eqb e "b" then Some (byte_of 8)
  else if Ascii.eqb e "f" then Some (byte_of 12)
  else if Ascii.eqb e "n" then Some (byte_of 10)
  else if Ascii.eqb e "r" then Some (byte_of 13)
  else if Ascii.eqb e "t" then Some (byte_of 9)
  else None.

Definition getu4 (a b c d : ascii) : option Z :=
  a ← hex_val a; b ← hex_val b; c ← hex_val c; d ← hex_val d;
  Some (((a * 16 + b) * 16 + c) * 16 + d).

(** [utf16.DecodeRune]; [None] is the replacement character. *)
Definition surrogate_pair (r1 r2 : Z) : option Z :=
  if (0xD800 <=? r1) && (r1 <? 0xDC00) && (0xDC00 <=? r2) && (r2 <? 0xE000)
  then Some ((r1 - 0xD800) * 1024 + (r2 - 0xDC00) + 0x10000) else None.

(** [unquote], of what is between the quotes. *)
Fixpoint unquote (s : string) : option string :=
  match s with
  | EmptyString => Some ""
  | String a s1 =>
      if Ascii.eqb a backslash then
        match s1 with
        | EmptyString => None
        | String e s2 =>
            if Ascii.eqb e "u" then
              match s2 with
              | String h1 (String h2 (String h3 (String h4 s6))) =>
                  rr ← getu4 h1 h2 h3 h4;
                  if is_surrogate rr then
                    match s6 with
                    | String b (String u (String g1 (String g2 (String g3 (String g4 s12))))) =>
                        match (if Ascii.eqb b backslash && Ascii.eqb u "u" then getu4 g1 g2 g3 g4 ≫= surrogate_pair rr else None) with
                        | Some dec => String.append (EncodeRune dec) <$> unquote s12
                        | None => String.append (EncodeRune RuneError) <$> unquote s6
                        end
                    | _ => String.append (EncodeRune RuneError) <$> unquote s6
                    end
                  else String.append (EncodeRune rr) <$> unquote s6
              | _ => None
              end
            else c ← unescape e; String c <$> unquote s2
        end
      else if Ascii.eqb a dquote || (byte_val a <? 0x20) then None
      else
        match DecodeRune s with
        | None => String.append (EncodeRune RuneError) <$> unquote s1
        | Some (r, n) =>
            String.append (EncodeRune r) <$>
            match n, s1 with
            | 1%nat, _ => unquote s1
            | 2%nat, String _ s2 => unquote s2
            | 3%nat, String _ (String _ s3) => unquote s3
            | 4%nat, String _ (String _ (String _ s4)) => unquote s4
            | _, _ => None
            end
        end
  end.

(** ** The scanner *)

Definition is_space (c : ascii) : bool :=
  Ascii.eqb c " " || Ascii.eqb c "009" || Ascii.eqb c "013" || Ascii.eqb c "010".

Fixpoint skip_space (s : string) : string :=
  match s with
  | String c s' => if is_space c then skip_space s' else s
  | EmptyString => ""
  end.

Definition simple_escape (e : ascii) : bool :=
  str_in e "bfnrt\/" || Ascii.eqb e dquote.

(** The rest of a string token after its opening quote. *)
Fixpoint scan_string (s : string) : option (string * string) :=
  match s with
  | EmptyString => None
  | String a s1 =>
      if Ascii.eqb a dquote then Some ("", s1)
      else if Ascii.eqb a backslash then
        match s1 with
        | String e s2 =>
            if simple_escape e then
              '(raw, rest) ← scan_string s2; Some (String a (String e raw), rest)
            else if Ascii.eqb e "u" then
              match s2 with
              | String h1 (String h2 (String h3 (String h4 s6))) =>
                  _ ← getu4 h1 h2 h3 h4;
                  '(raw, rest) ← scan_string s6;
                  Some (String a (String e (String h1 (String h2 (String h3 (String h4 raw))))), rest)
              | _ => None
              end
            else None
        | EmptyString => None
        end
      else if byte_val a <? 0x20 then None
      else '(raw, rest) ← scan_string s1; Some (String a raw, rest)
  end.

Fixpoint scan_digits (s : string) : string * string :=
  match s with
  | String c s' => if is_digit c then let '(ds, rest) := scan_digits s' in (String c ds, rest) else ("", s)
  | EmptyString => ("", "")
  end.

(** At least one digit. *)
Definition scan_digits1 (s : string) : option (string * string) :=
  let '(ds, rest) := scan_digits s in if String.eqb ds "" then None else Some (ds, rest).

(** A zero, or digits that do not start with one. *)
Definition scan_int (s : string) : option (string * string) :=
  match s with
  | String c s' => if Ascii.eqb c "0" then Some ("0", s') else scan_digits1 s
  | EmptyString => None
  end.

Definition scan_fraction (s : string) : option (string * string) :=
  match s with
  | String c s' => if Ascii.eqb c "." then '(ds, rest) ← scan_digits1 s'; Some (String c ds, rest) else Some ("", s)
  | EmptyString => Some ("", "")
  end.

Definition scan_sign (s : string) : string * string :=
  match s with
  | String c s' => if Ascii.eqb c "+" || Ascii.eqb c "-" then (String c "", s') else ("", s)
  | EmptyString => ("", "")
  end.

Definition scan_exponent (s : string) : option (string * string) :=
  match s with
  | String c s' =>
      if Ascii.eqb c "e" || Ascii.eqb c "E" then
        let '(sign, s1) := scan_sign s' in
        '(ds, rest) ← scan_digits1 s1; Some (String c (sign +:+ ds), rest)
      else Some ("", s)
  | EmptyString => Some ("", "")
  end.

Definition scan_number (s : string) : option (string * string) :=
  let '(minus, s0) := match s with
                      | String c s' => if Ascii.eqb c "-" then ("-", s') else ("", s)
                      | EmptyString => ("", "")
                      end in
  '(i, s1) ← scan_int s0;
  '(f, s2) ← scan_fraction s1;
  '(e, s3) ← scan_exponent s2;
  Some (minus +:+ i +:+ f +:+ e, s3).

Definition literal (word : string) (v : json) (s : string) : option (json * string) :=
  if strings_HasPrefix s word then Some (v, str_drop (String.length word) s) else None.

(** A value, its spaces in front of it; elements and members follow an opening
    bracket or a comma.  The fuel is the length of the text. *)
Fixpoint parse_value (fuel : nat) (s : string) : option (json * string) :=
  match fuel with
  | O => None
  | S fuel' =>
      match skip_space s with
      | EmptyString => None
      | String c s1 =>
          if Ascii.eqb c "{" then
            match skip_space s1 with
            | String d s2 =>
                if Ascii.eqb d "}" then Some (JObj [], s2)
                else '(l, rest) ← parse_members fuel' s1; Some (JObj l, rest)
            | EmptyString => None
            end
          else if Ascii.eqb c "[" then
            match skip_space s1 with
            | String d s2 =>
                if Ascii.eqb d "]" then Some (JArr [], s2)
                else '(l, rest) ← parse_elements fuel' s1; Some (JArr l, rest)
            | EmptyString => None
            end
          else if Ascii.eqb c dquote then '(raw, rest) ← scan_string s1; Some (JStr raw, rest)
          else if Ascii.eqb c "n" then literal "null" JNull (String c s1)
          else if Ascii.eqb c "t" then literal "true" (JBool true) (String c s1)
          else if Ascii.eqb c "f" then literal "false" (JBool false) (String c s1)
          else '(tok, rest) ← scan_number (String c s1); Some (JNum tok, rest)
      end
  end
with parse_elements (fuel : nat) (s : string) : option (list json * string) :=
  match fuel with
  | O => None
  | S fuel' =>
      '(v, rest) ← parse_value fuel' s;
      match skip_space rest with
      | String c rest' =>
          if Ascii.eqb c "]" then Some ([v], rest')
          else if Ascii.eqb c "," then '(l, rest'') ← parse_elements fuel' rest'; Some (v :: l, rest'')
          else None
      | EmptyString => None
      end
  end
with parse_members (fuel : nat) (s : string) : option (list (string * json) * string) :=
  match fuel with
  | O => None
  | S fuel' =>
      match skip_space s with
      | String q s1 =>
          if Ascii.eqb q dquote then
            '(key, s2) ← scan_string s1;
            match skip_space s2 with
            | String colon s3 =>
                if Ascii.eqb colon ":" then
                  '(v, rest) ← parse_value fuel' s3;
                  match skip_space rest with
                  | String c rest' =>
                      if Ascii.eqb c "}" then Some ([(key, v)], rest')
                      else if Ascii.eqb c "," then '(l, rest'') ← parse_members fuel' rest'; Some ((key, v) :: l, rest'')
                      else None
                  | EmptyString => None
                  end
                else None
            | EmptyString => None
            end
          else None
      | EmptyString => None
      end
  end.

(** A text is one value and spaces. *)
Definition parse_json (s : string) : option json :=
  '(v, rest) ← parse_value (2 * S (String.length s)) s;
  if String.eqb (skip_space rest) "" then Some v else None.

(** ** Writing *)

Definition quote_raw (raw : string) : string := String dquote (raw +:+ String dquote "").

Fixpoint print_json (v : json) : string :=
  match v with
  | JNull => "null"
  | JBool true => "true"
  | JBool false => "false"
  | JNum token => token
  | JStr raw => quote_raw raw
  | JArr l => "[" +:+ strings_Join (map print_json l) "," +:+ "]"
  | JObj l => "{" +:+ strings_Join (map (λ kv, quote_raw (fst kv) +:+ ":" +:+ print_json (snd kv)) l) "," +:+ "}"
  end.

(** Go strings and integers. *)
Definition json_string (s : string) : json := JStr (escape s).
Definition json_int (n : Z) : json := JNum (pretty n).

Example parse_example :
  parse_json (strings_Join [" { "; quote_raw "a"; " : [1, -2.5e3 ,true,null]  , "; quote_raw "\u00e9\n"; ":{}, "; quote_raw ""; ": [] } "] "")
  = Some (JObj [("a", JArr [JNum "1"; JNum "-2.5e3"; JBool true; JNull]); ("\u00e9\n", JObj []); ("", JArr [])]).
Proof. vm_compute. reflexivity. Qed.
Example unquote_example : unquote "\ud83d\ude00\ud83d-\u00e9\n" = Some (strings_Join [EncodeRune 0x1F600; EncodeRune RuneError; "-"; EncodeRune 0xE9; String "010" ""] "").
Proof. vm_compute. reflexivity. Qed.
Example escape_example : escape ("<a>" +:+ String "255" (EncodeRune 0x2028)) = "\u003ca\u003e\ufffd\u2028".
Proof. vm_compute. reflexivity. Qed.
Example not_json : parse_json "[01]" = None ∧ parse_json "[1,]" = None ∧ parse_json "{}x" = None ∧ parse_json "1." = None.
Proof. vm_compute. done. Qed.
