(* ===== verification/Uuid.v ===== *)
(** * Random identifiers (src/common/common.go, package [gouuid])

    A UUID is sixteen bytes, random but for the bits of its version and variant,
    and printed in hexadecimal groups.  The random bytes are an argument. *)

From S2P Require Import Prelude GoStrings Utf8 Json.

Local Open Scope Z_scope.

(** [[16]byte] *)
Abbreviation UUID := (list Z).

Definition ReservedNCS : Z := 0x80.
Definition ReservedRFC4122 : Z := 0x40.
Definition ReservedMicrosoft : Z := 0x20.
Definition ReservedFuture : Z := 0x00.

Definition at_byte (i : nat) (u : UUID) : Z := default 0 (u !! i).

(** Bytes stay bytes: the masks are below 256. *)
Definition setVariant (v : Z) (u : UUID) : UUID :=
  if v =? ReservedNCS then <[8%nat := Z.land (Z.lor (at_byte 8 u) ReservedNCS) 0xBF]> u
  else if v =? ReservedRFC4122 then <[8%nat := Z.land (Z.lor (at_byte 8 u) ReservedRFC4122) 0x7F]> u
  else if v =? ReservedMicrosoft then <[8%nat := Z.land (Z.lor (at_byte 8 u) ReservedMicrosoft) 0x3F]> u
  else u.

Definition Variant (u : UUID) : Z :=
  if Z.land (at_byte 8 u) ReservedNCS =? ReservedNCS then ReservedNCS
  else if Z.land (at_byte 8 u) ReservedRFC4122 =? ReservedRFC4122 then ReservedRFC4122
  else if Z.land (at_byte 8 u) ReservedMicrosoft =? ReservedMicrosoft then ReservedMicrosoft
  else ReservedFuture.

Definition setVersion (v : Z) (u : UUID) : UUID := <[6%nat := Z.lor (Z.land (at_byte 6 u) 0xF) (Z.shiftl v 4 `mod` 256)]> u.

Definition Version (u : UUID) : Z := Z.shiftr (at_byte 6 u) 4.

(** [rand]: what [rand.Read] fills the array with, [None] for its error. *)
Definition NewV4 (rand : option UUID) : option UUID := u ← rand; Some (setVersion 4 (setVariant ReservedRFC4122 u)).

(** [%x] of a slice of bytes. *)
Fixpoint hex_bytes (l : list Z) : string :=
  match l with
  | [] => ""
  | b :: l' => String (hex_digit (b `div` 16)) (String (hex_digit (b `mod` 16)) (hex_bytes l'))
  end.

(** [u[lo:hi]] *)
Definition bytes_range (lo hi : nat) (u : UUID) : list Z := take (hi - lo) (drop lo u).

Definition UUID_String (u : UUID) : string :=
  hex_bytes (bytes_range 0 4 u) +:+ "-" +:+ hex_bytes (bytes_range 4 6 u) +:+ "-" +:+ hex_bytes (bytes_range 6 8 u) +:+ "-"
  +:+ hex_bytes (bytes_range 8 10 u) +:+ "-" +:+ hex_bytes (drop 10 u).

Definition GenerateUUID (rand : option UUID) : option string := UUID_String <$> NewV4 rand.

(** ** Reading a UUID *)

Definition is_alnum (c : ascii) : bool :=
  ((97 <=? byte_val c) && (byte_val c <=? 122)) || ((48 <=? byte_val c) && (byte_val c <=? 57)).

(** [([a-z0-9]{n})] at the start of the text. *)
Fixpoint match_alnum (n : nat) (s : string) : option (string * string) :=
  match n, s with
  | O, _ => Some ("", s)
  | S n', String c s' => if is_alnum c then '(g, r) ← match_alnum n' s'; Some (String c g, r) else None
  | S _, EmptyString => None
  end.

Definition match_dash (s : string) : option string :=
  match s with String c s' => if Ascii.eqb c "-" then Some s' else None | EmptyString => None end.

(** The version's digit is one of 1 to 5. *)
Definition match_version (g : string) : bool :=
  match g with String c _ => (49 <=? byte_val c) && (byte_val c <=? 53) | EmptyString => false end.

(** The groups of [hexPattern], one after the other.  A prefix, or a bracket at
    either end, cannot be part of a group. *)
Definition hex_groups (s : string) : option string :=
  let s := strings_TrimSuffix (strings_TrimPrefix (strings_TrimPrefix s "urn:uuid:") "{") "}" in
  '(g1, s) ← match_alnum 8 s; s ← match_dash s;
  '(g2, s) ← match_alnum 4 s; s ← match_dash s;
  '(g3, s) ← match_alnum 4 s; s ← match_dash s;
  '(g4, s) ← match_alnum 4 s; s ← match_dash s;
  '(g5, s) ← match_alnum 12 s;
  if match_version g3 && String.eqb s "" then Some (g1 +:+ g2 +:+ g3 +:+ g4 +:+ g5) else None.

(** [hex.DecodeString] *)
Fixpoint hex_DecodeString (s : string) : option (list Z) :=
  match s with
  | EmptyString => Some []
  | String a (String b s') => x ← hex_val a; y ← hex_val b; l ← hex_DecodeString s'; Some (x * 16 + y :: l)
  | _ => None
  end.

Definition ParseHex (s : string) : option UUID := hash ← hex_groups s; hex_DecodeString hash.

(** ** Digits *)

Definition is_byte (b : Z) : Prop := 0 ≤ b < 256.

Lemma hex_digit_ok n : 0 ≤ n < 16 → is_alnum (hex_digit n) = true ∧ hex_val (hex_digit n) = Some n ∧ Ascii.eqb (hex_digit n) "{" = false
  ∧ Ascii.eqb (hex_digit n) "u" = false ∧ Ascii.eqb (hex_digit n) "}" = false.
Proof.
  intros Hn. assert (n = 0 ∨ n = 1 ∨ n = 2 ∨ n = 3 ∨ n = 4 ∨ n = 5 ∨ n = 6 ∨ n = 7 ∨ n = 8 ∨ n = 9 ∨ n = 10 ∨ n = 11 ∨ n = 12 ∨ n = 13 ∨ n = 14 ∨ n = 15) as Hc by lia.
  repeat destruct Hc as [->|Hc]; [by vm_compute..|subst; by vm_compute].
Qed.

Lemma byte_nibbles b : is_byte b → 0 ≤ b `div` 16 < 16 ∧ 0 ≤ b `mod` 16 < 16.
Proof. unfold is_byte. intros Hb. split; [split; [apply Z.div_pos; lia|apply Z.div_lt_upper_bound; lia]|apply Z.mod_pos_bound; lia]. Qed.

Lemma match_hex_bytes l rest : Forall is_byte l → match_alnum (2 * length l) (hex_bytes l +:+ rest) = Some (hex_bytes l, rest).
Proof.
  induction 1 as [|b l Hb _ IH]; [by destruct rest|]. destruct (byte_nibbles b Hb) as [H1 H2].
  replace (2 * length (b :: l))%nat with (S (S (2 * length l))) by (cbn; lia). cbn [hex_bytes String.append match_alnum].
  rewrite (proj1 (hex_digit_ok _ H1)), (proj1 (hex_digit_ok _ H2)), IH. done.
Qed.

Lemma hex_decode_bytes l : Forall is_byte l → hex_DecodeString (hex_bytes l) = Some l.
Proof.
  induction 1 as [|b l Hb _ IH]; [done|]. destruct (byte_nibbles b Hb) as [H1 H2]. cbn [hex_bytes hex_DecodeString].
  destruct (hex_digit_ok _ H1) as (_ & -> & _), (hex_digit_ok _ H2) as (_ & -> & _). cbn [mbind option_bind]. rewrite IH. cbn [mbind option_bind].
  do 2 f_equal. rewrite (Z.div_mod b 16) at 3 by lia. lia.
Qed.

Lemma hex_bytes_app l1 l2 : hex_bytes (l1 ++ l2) = hex_bytes l1 +:+ hex_bytes l2.
Proof. induction l1 as [|b l1 IH]; cbn; [done|]. by rewrite IH. Qed.

Lemma hex_bytes_length l : String.length (hex_bytes l) = (2 * length l)%nat.
Proof. induction l as [|b l IH]; cbn; [done|]. rewrite IH. lia. Qed.

(** ** The identifiers that are generated *)

Lemma byte_check (P : Z → bool) b : forallb P (seqZ 0 256) = true → is_byte b → P b = true.
Proof. intros HP Hb. rewrite forallb_forall in HP. apply HP, list_elem_of_In, elem_of_seqZ. unfold is_byte in Hb. lia. Qed.

Lemma version_byte b : is_byte b →
  let v := Z.lor (Z.land b 0xF) (Z.shiftl 4 4 `mod` 256) in is_byte v ∧ Z.shiftr v 4 = 4 ∧ v `div` 16 = 4 ∧ v `mod` 16 = b `mod` 16.
Proof.
  intros Hb v. pose proof (byte_check (λ b, let v := Z.lor (Z.land b 0xF) (Z.shiftl 4 4 `mod` 256) in
    (0 <=? v) && (v <? 256) && (Z.shiftr v 4 =? 4) && (v `div` 16 =? 4) && (v `mod` 16 =? b `mod` 16)) b eq_refl Hb) as Hc.
  cbv zeta in Hc. fold v in Hc. rewrite !andb_true_iff, !Z.eqb_eq, Z.leb_le, Z.ltb_lt in Hc. unfold is_byte. tauto.
Qed.

Lemma variant_byte b : is_byte b →
  let v := Z.land (Z.lor b ReservedRFC4122) 0x7F in
  is_byte v ∧ Z.testbit v 7 = false ∧ Z.testbit v 6 = true ∧ v `mod` 64 = b `mod` 64
  ∧ Z.land v ReservedNCS = 0 ∧ Z.land v ReservedRFC4122 = ReservedRFC4122.
Proof.
  intros Hb v. pose proof (byte_check (λ b, let v := Z.land (Z.lor b ReservedRFC4122) 0x7F in
    (0 <=? v) && (v <? 256) && negb (Z.testbit v 7) && Z.testbit v 6 && (v `mod` 64 =? b `mod` 64)
    && (Z.land v ReservedNCS =? 0) && (Z.land v ReservedRFC4122 =? ReservedRFC4122)) b eq_refl Hb) as Hc.
  cbv zeta in Hc. fold v in Hc. rewrite !andb_true_iff, !Z.eqb_eq, negb_true_iff, Z.leb_le, Z.ltb_lt in Hc. unfold is_byte. tauto.
Qed.

Lemma hex_bytes_plain l c : Forall is_byte l → c = "{"%char ∨ c = "u"%char ∨ c = "}"%char → str_in c (hex_bytes l) = false.
Proof.
  intros Hl Hc. induction Hl as [|b l Hb _ IH]; [done|]. destruct (byte_nibbles b Hb) as [H1 H2]. cbn [hex_bytes str_in]. rewrite IH, orb_false_r.
  destruct (hex_digit_ok _ H1) as (_ & _ & Ha1 & Ha2 & Ha3), (hex_digit_ok _ H2) as (_ & _ & Hb1 & Hb2 & Hb3).
  destruct Hc as [->|[->| ->]]; by rewrite ?Ha1, ?Ha2, ?Ha3, ?Hb1, ?Hb2, ?Hb3.
Qed.

Lemma TrimPrefix_without s pre c : str_in c s = false → str_in c pre = true → strings_TrimPrefix s pre = s.
Proof.
  intros Hs Hp. unfold strings_TrimPrefix. destruct (strings_HasPrefix s pre) eqn:Hpre; [|done]. apply HasPrefix_spec in Hpre.
  rewrite Hpre, str_in_app, Hp in Hs. done.
Qed.

Lemma TrimSuffix_without s suf c : str_in c s = false → str_in c suf = true → strings_TrimSuffix s suf = s.
Proof.
  intros Hs Hp. destruct (TrimSuffix_spec s suf) as [|Heq]; [done|]. rewrite Heq, str_in_app, Hp, orb_true_r in Hs. done.
Qed.

Lemma UUID_String_plain u c : Forall is_byte u → c = "{"%char ∨ c = "u"%char ∨ c = "}"%char → str_in c (UUID_String u) = false.
Proof.
  intros Hu Hc. unfold UUID_String, bytes_range. rewrite !str_in_app. rewrite !hex_bytes_plain by (try done; repeat first [apply Forall_take|apply Forall_drop]; done).
  by destruct Hc as [->|[->| ->]].
Qed.

Lemma match_group lo hi n u rest :
  Forall is_byte u → (hi ≤ length u)%nat → (n = 2 * (hi - lo))%nat →
  match_alnum n (hex_bytes (bytes_range lo hi u) +:+ rest) = Some (hex_bytes (bytes_range lo hi u), rest).
Proof.
  intros Hu Hhi ->. replace (hi - lo)%nat with (length (bytes_range lo hi u)) at 1 by (unfold bytes_range; rewrite length_take, length_drop; lia).
  apply match_hex_bytes. by apply Forall_take, Forall_drop.
Qed.

Lemma match_dash_app s : match_dash ("-" +:+ s) = Some s.
Proof. done. Qed.

Lemma ranges_app u : length u = 16%nat →
  bytes_range 0 4 u ++ bytes_range 4 6 u ++ bytes_range 6 8 u ++ bytes_range 8 10 u ++ bytes_range 10 16 u = u.
Proof. intros Hlen. do 16 (destruct u as [|? u]; [done|]). by destruct u. Qed.

(** What [UUID_String] prints is read back. *)
Lemma ParseHex_String u : length u = 16%nat → Forall is_byte u → at_byte 6 u `div` 16 = 4 → ParseHex (UUID_String u) = Some u.
Proof.
  intros Hlen Hu Hv. unfold ParseHex, hex_groups.
  rewrite (TrimPrefix_without _ "urn:uuid:" "u"), (TrimPrefix_without _ "{" "{"), (TrimSuffix_without _ "}" "}") by (first [done|apply UUID_String_plain; tauto]).
  assert (hex_bytes (drop 10 u) = hex_bytes (bytes_range 10 16 u) +:+ "") as Hlast.
  { rewrite str_app_nil_r. unfold bytes_range. by rewrite (take_ge (drop 10 u)) by (rewrite length_drop; lia). }
  unfold UUID_String. rewrite Hlast.
  repeat (rewrite match_group by (try done; lia); cbn [mbind option_bind]; rewrite ?match_dash_app; cbn [mbind option_bind]).
  assert (match_version (hex_bytes (bytes_range 6 8 u)) = true) as ->.
  { unfold bytes_range. clear Hlast Hu. do 8 (destruct u as [|? u]; [done|]). cbn in Hv |- *. by rewrite Hv. }
  cbn [andb]. rewrite String.eqb_refl, <- !hex_bytes_app, ranges_app by done. cbn [mbind option_bind]. by apply hex_decode_bytes.
Qed.

(** Generated identifiers.  From sixteen random bytes comes a text of 36
    characters that reads back as a UUID of version 4; its bytes are the random
    ones but for the version, four bits, and two bits of the ninth byte, which
    are 0 and 1, and not 1 and 0 as the variant of RFC 4122 has them. *)
Theorem GenerateUUID_spec r :
  length r = 16%nat → Forall is_byte r →
  ∃ s u, GenerateUUID (Some r) = Some s ∧ String.length s = 36%nat ∧ ParseHex s = Some u
    ∧ Version u = 4 ∧ Variant u = ReservedRFC4122 ∧ Z.testbit (at_byte 8 u) 7 = false ∧ Z.testbit (at_byte 8 u) 6 = true
    ∧ (∀ i, i ≠ 6%nat → i ≠ 8%nat → u !! i = r !! i)
    ∧ at_byte 6 u `mod` 16 = at_byte 6 r `mod` 16 ∧ at_byte 8 u `mod` 64 = at_byte 8 r `mod` 64.
Proof.
  intros Hlen Hr. assert (∀ i, (i < 16)%nat → ∃ b, r !! i = Some b ∧ is_byte b) as Hb.
  { intros i Hi. destruct (lookup_lt_is_Some_2 r i) as [b Hb]; [lia|]. exists b. split; [done|]. by apply (Forall_lookup_1 _ _ _ _ Hr Hb). }
  destruct (Hb 6%nat) as (b6 & H6 & Hb6); [lia|]. destruct (Hb 8%nat) as (b8 & H8 & Hb8); [lia|].
  destruct (version_byte b6 Hb6) as (Hv & Hver & Hdiv & Hmod6). destruct (variant_byte b8 Hb8) as (Hw & H7 & H6' & Hmod8 & Hncs & Hrfc).
  set (u := setVersion 4 (setVariant ReservedRFC4122 r)).
  assert (u = <[6%nat := Z.lor (Z.land b6 0xF) (Z.shiftl 4 4 `mod` 256)]> (<[8%nat := Z.land (Z.lor b8 ReservedRFC4122) 0x7F]> r)) as Hu.
  { subst u. unfold setVersion, setVariant, at_byte.
    change (ReservedRFC4122 =? ReservedNCS) with false. change (ReservedRFC4122 =? ReservedRFC4122) with true. cbv iota. rewrite H8. cbn [default from_option id].
    rewrite list_lookup_insert_ne by done. by rewrite H6. }
  assert (at_byte 6 u = Z.lor (Z.land b6 0xF) (Z.shiftl 4 4 `mod` 256)) as Hu6.
  { unfold at_byte. rewrite Hu, list_lookup_insert_eq by (rewrite length_insert; lia). done. }
  assert (at_byte 8 u = Z.land (Z.lor b8 ReservedRFC4122) 0x7F) as Hu8.
  { unfold at_byte. rewrite Hu, list_lookup_insert_ne, list_lookup_insert_eq by (done || lia). done. }
  assert (length u = 16%nat) as Hlu by (rewrite Hu, !length_insert; done).
  assert (Forall is_byte u) as Hbu by (rewrite Hu; by repeat apply Forall_insert).
  exists (UUID_String u), u. unfold Version, Variant. rewrite Hu6, Hu8. unfold at_byte. rewrite H6, H8. cbn [default from_option id].
  split_and!; [done| |by apply ParseHex_String; rewrite ?Hu6|done| |done|done| |done|done].
  - unfold UUID_String. rewrite !str_length_app, !hex_bytes_length. unfold bytes_range. rewrite !length_take, !length_drop, Hlu. done.
  - rewrite Hncs, Hrfc. done.
  - intros i Hi1 Hi2. by rewrite Hu, !list_lookup_insert_ne by done.
Qed.

Definition sample_random : UUID := [0x12; 0x34; 0x56; 0x78; 0x9A; 0xBC; 0xDE; 0xF0; 0xFF; 0xEE; 0xDD; 0xCC; 0xBB; 0xAA; 0x99; 0x00].

Lemma GenerateUUID_spec_witness :
  GenerateUUID (Some sample_random) = Some "12345678-9abc-4ef0-7fee-ddccbbaa9900"
  ∧ ∃ s u, GenerateUUID (Some sample_random) = Some s ∧ ParseHex s = Some u ∧ Version u = 4.
Proof.
  destruct (GenerateUUID_spec sample_random) as (s & u & Hs & _ & Hp & Hv & _); [reflexivity|repeat constructor; vm_compute; by try discriminate|].
  split; [vm_compute; reflexivity|]. by exists s, u.
Defined.
