(* ===== verification/LogText.v ===== *)
(** * Text of the access log ([strconv.Quote], [strconv.FormatFloat])

    Quoting keeps a value on one line whatever bytes it has; which runes above
    U+00FF count as printable is a table of the standard library and a
    parameter.  A floating-point number is written with the fewest digits
    that read back as the same number. *)

From S2P Require Import Prelude GoStrings Utf8 Floats Strconv Http Times Json.

Local Open Scope Z_scope.

(** ** Quoting *)

Section quote.
Context (IsPrint_table : Z → bool).

(** [strconv.IsPrint], whose fast check covers Latin-1. *)
Definition IsPrint (r : Z) : bool :=
  if r <=? 0xFF then ((0x20 <=? r) && (r <? 0x7F)) || ((0xA1 <=? r) && negb (r =? 0xAD)) else IsPrint_table r.

(** The last [n] hexadecimal digits. *)
Fixpoint hex_digits (n : nat) (r : Z) (acc : string) : string :=
  match n with
  | O => acc
  | S n' => hex_digits n' (r `div` 16) (String (hex_digit (r `mod` 16)) acc)
  end.

Definition short_escape (r : Z) : option ascii :=
  match r with
  | 7 => Some "a"%char
  | 8 => Some "b"%char
  | 12 => Some "f"%char
  | 10 => Some "n"%char
  | 13 => Some "r"%char
  | 9 => Some "t"%char
  | 11 => Some "v"%char
  | _ => None
  end.

Definition quote_rune (r : Z) : string :=
  if (r =? byte_val dquote) || (r =? byte_val backslash) then String backslash (String (byte_of r) "")
  else if IsPrint r then EncodeRune r
  else
    match short_escape r with
    | Some c => String backslash (String c "")
    | None =>
        if r <? 0x20 then String backslash (String "x" (hex_digits 2 r ""))
        else if r <? 0x10000 then String backslash (String "u" (hex_digits 4 r ""))
        else String backslash (String "U" (hex_digits 8 r ""))
    end.

Definition Quote (s : string) : string :=
  String dquote
    (rune_fold (String dquote "") (λ a t, String backslash (String "x" (hex_digits 2 (byte_val a) t))) (λ r t, quote_rune r +:+ t) s).
End quote.

(** ** Floating-point numbers *)

(** The float nearest to [c * 10 ^ x]. *)
Definition f64_of_decimal (c x : Z) : float64 :=
  match c with
  | Zpos m => if 0 <=? x then f64_of_Z (c * 10 ^ x) else f64_div (S754_finite false m 0) (S754_finite false (Z.to_pos (10 ^ (- x))) 0)
  | _ => f64_of_Z 0
  end.

(** The greatest [d] with [10 ^ d <= num / den]; at most [fuel] steps away
    from the guess. *)
Fixpoint decimal_exponent (fuel : nat) (num den d : Z) : Z :=
  match fuel with
  | O => d
  | S fuel' =>
      let ge k := if 0 <=? k then 10 ^ k * den <=? num else den <=? num * 10 ^ (- k) in
      if negb (ge d) then decimal_exponent fuel' num den (d - 1)
      else if ge (d + 1) then decimal_exponent fuel' num den (d + 1)
      else d
  end.

(** [num / den * 10 ^ k], rounded down, and whether the rest is at least a
    half (to even). *)
Definition scale_down (num den k : Z) : Z * bool :=
  let n := if 0 <=? k then num * 10 ^ k else num in
  let d := if 0 <=? k then den else den * 10 ^ (- k) in
  let q := n `div` d in
  let r := n `mod` d in
  (q, if 2 * r =? d then Z.odd q else d <? 2 * r).

(** The digits as an integer, and the decimal exponent of its last digit: the
    first number of digits for which rounding down or up reads back. *)
Fixpoint shortest_digits (fuel : nat) (p : Z) (f : float64) (num den d : Z) : Z * Z :=
  let k := p - 1 - d in
  let '(down, up_nearer) := scale_down num den k in
  let up := down + 1 in
  let okdown := SFeqb (f64_of_decimal down (- k)) f in
  let okup := SFeqb (f64_of_decimal up (- k)) f in
  if okdown && okup then (if up_nearer : bool then up else down, - k)
  else if okdown then (down, - k)
  else if okup then (up, - k)
  else
    match fuel with
    | O => (if up_nearer then up else down, - k)
    | S fuel' => shortest_digits fuel' (p + 1) f num den d
    end.

(** [c * 10 ^ x] without an exponent. *)
Definition format_fixed (c x : Z) : string :=
  if 0 <=? x then pretty (c * 10 ^ x)
  else
    let q := c `div` 10 ^ (- x) in
    let frac := trim_zeros (fixed_digits (Z.to_nat (- x)) (c `mod` 10 ^ (- x)) "") in
    match frac with
    | EmptyString => pretty q
    | _ => pretty q +:+ String "." frac
    end.

(** The shortest decimal [c * 10 ^ x] that reads as [m * 2 ^ e]. *)
Definition shortest (m : positive) (e : Z) : Z * Z :=
  let num := if 0 <=? e then Zpos m * 2 ^ e else Zpos m in
  let den := if 0 <=? e then 1 else 2 ^ (- e) in
  let guess := Z.log2 num * 3 `div` 10 - Z.log2 den * 3 `div` 10 in
  shortest_digits 16 1 (S754_finite false m e) num den (decimal_exponent 400 num den guess).

(** [FormatFloat(f, 'f', -1, 64)] for numbers that are not negative. *)
Definition FormatFloat (f : float64) : string :=
  match f with
  | S754_finite false m e => let '(c, x) := shortest m e in format_fixed c x
  | S754_zero _ => "0"
  | S754_infinity _ => "+Inf"
  | _ => "NaN"
  end.

Example float_samples :
  map FormatFloat [f64_div (f64_of_Z 1) (f64_of_Z 1000000000); f64_div (f64_of_Z 1234567) (f64_of_Z 1000000000); f64_of_Z 0;
    f64_of_Z 12000000000000000000000; f64_div (f64_of_Z 1) (f64_of_Z 3); f64_add (f64_div (f64_of_Z 1) (f64_of_Z 10)) (f64_div (f64_of_Z 2) (f64_of_Z 10))]
  = ["0.000000001"; "0.001234567"; "0"; "12000000000000000000000"; "0.3333333333333333"; "0.30000000000000004"].
Proof. vm_compute. reflexivity. Qed.
Example quote_sample :
  Quote (λ _, true) (String "010" ("a" +:+ String dquote (String "255" (EncodeRune 0xE9 +:+ EncodeRune 0xAD))))
  = String dquote ("\na\" +:+ String dquote ("\xff" +:+ EncodeRune 0xE9 +:+ "\u00ad" +:+ String dquote "")).
Proof. vm_compute. reflexivity. Qed.
