(* ===== verification/JsonSpec.v ===== *)
(** * JSON texts can be read back *)

From S2P Require Import Prelude GoStrings Utf8 Strconv Http Json.

Local Open Scope Z_scope.

(** ** Strings *)

Lemma escape_rune_eq r n s : (∀ t, DecodeRune (EncodeRune r +:+ t) = Some (r, n)) → String.length (EncodeRune r) = n →
  escape (EncodeRune r +:+ s) = escape_rune r +:+ escape s.
Proof. intros Hd Hn. unfold escape. by rewrite (rune_fold_rune _ _ _ r n). Qed.

(** A rune of one byte, by cases. *)
Lemma unquote_escape_ascii c t : byte_val c < 0x80 → unquote (escape_rune (byte_val c) +:+ t) = String c <$> unquote t.
Proof. destruct c as [[][][][][][][][]]; intros Hc; first [discriminate Hc|reflexivity]. Qed.

Lemma scan_escape_ascii c t : byte_val c < 0x80 →
  scan_string (escape_rune (byte_val c) +:+ t)
  = '(raw, rest) ← scan_string t; Some (escape_rune (byte_val c) +:+ raw, rest).
Proof. destruct c as [[][][][][][][][]]; intros Hc; first [discriminate Hc|reflexivity]. Qed.

Definition high_bytes : string → bool := str_forall (λ c, 0x80 <=? byte_val c).

Lemma EncodeRune_high r : 0x80 ≤ r → high_bytes (EncodeRune r) = true.
Proof.
  intros Hr. unfold EncodeRune. cbv zeta. assert (0x80 ≤ valid_rune r ≤ MaxRune) as Hv.
  { unfold valid_rune, RuneError, MaxRune. destruct (Z.ltb_spec r 0); [lia|].
    destruct (Z.ltb_spec 0x10FFFF r); cbn [orb]; [lia|]. case_match; lia. }
  unfold MaxRune in Hv. revert Hv. generalize (valid_rune r). intros v Hv.
  destruct (Z.leb_spec v 0x7F); [lia|]. unfold high_bytes.
  destruct (Z.leb_spec v 0x7FF); [|destruct (Z.leb_spec v 0xFFFF)]; cbn [str_forall].
  all: rewrite !byte_val_of by (Z.to_euclidean_division_equations; lia).
  all: repeat match goal with |- context [?x <=? ?y] => replace (x <=? y) with true; [|symmetry; apply Z.leb_le; Z.to_euclidean_division_equations; lia] end.
  all: done.
Qed.

Lemma high_not_special c : 0x80 ≤ byte_val c → Ascii.eqb c dquote = false ∧ Ascii.eqb c backslash = false ∧ (byte_val c <? 0x20) = false.
Proof.
  intros Hc. split_and!; [apply Ascii.eqb_neq; intros ->; by compute in Hc..|]. apply Z.ltb_ge. lia.
Qed.

Lemma scan_high s t : high_bytes s = true →
  scan_string (s +:+ t) = '(raw, rest) ← scan_string t; Some (s +:+ raw, rest).
Proof.
  induction s as [|c s IH]; [by intros _; cbn; destruct (scan_string t) as [[]|]|].
  unfold high_bytes in *. cbn [str_forall]. intros [Hc Hs]%andb_true_iff. apply Z.leb_le in Hc.
  destruct (high_not_special c Hc) as (H1 & H2 & H3). cbn [String.append scan_string]. rewrite H1, H2, H3, IH by done.
  by destruct (scan_string t) as [[]|].
Qed.

Lemma unquote_rune r n t : (∀ t, DecodeRune (EncodeRune r +:+ t) = Some (r, n)) → String.length (EncodeRune r) = n → 0x80 ≤ r →
  unquote (EncodeRune r +:+ t) = String.append (EncodeRune r) <$> unquote t.
Proof.
  intros Hd Hn Hr. pose proof (EncodeRune_high r Hr) as Hh. pose proof (EncodeRune_length r) as Hl. specialize (Hd t).
  destruct (EncodeRune r) as [|a [|b [|c [|d [|]]]]] eqn:He; cbn [String.length] in Hl, Hn; [lia| | | | |lia];
    subst n; cbn [String.append] in *; unfold high_bytes in Hh; cbn [str_forall] in Hh;
    apply andb_true_iff in Hh as [Ha%Z.leb_le _]; destruct (high_not_special a Ha) as (H1 & H2 & H3).
  all: cbn [unquote]; by rewrite H1, H2, H3, Hd, He.
Qed.

(** What is read back: bytes that start no rune have become U+FFFD. *)
Definition sanitize : string → string := rune_fold "" (λ _ t, EncodeRune RuneError +:+ t) (λ r t, EncodeRune r +:+ t).

Lemma sanitize_valid s : valid_utf8 s = true → sanitize s = s.
Proof.
  induction s as [|a s Hd IH|r n s Hd Hn Hr H1 IH] using utf8_ind; [done| |].
  - unfold valid_utf8. rewrite rune_fold_bad by done. discriminate.
  - rewrite (valid_utf8_rune r n) by done. intros Hv. unfold sanitize. rewrite (rune_fold_rune _ _ _ r n) by done.
    f_equal. by apply IH.
Qed.

Lemma escape_rune_high r : 0x80 ≤ r → r ≠ 0x2028 → r ≠ 0x2029 → escape_rune r = EncodeRune r.
Proof.
  intros Hr H1 H2. unfold escape_rune. destruct (Z.ltb_spec r 0x80); [lia|].
  apply Z.eqb_neq in H1, H2. by rewrite H1, H2.
Qed.

(** The three ways a rune is written. *)
Lemma escape_rune_cases (P : Z → Prop) r n :
  (∀ t, DecodeRune (EncodeRune r +:+ t) = Some (r, n)) → 0 ≤ r ≤ MaxRune →
  (∀ c, byte_val c < 0x80 → P (byte_val c)) → P 0x2028 → P 0x2029 →
  (0x80 ≤ r → escape_rune r = EncodeRune r → P r) → P r.
Proof.
  intros Hd Hr Hascii H28 H29 Hhigh. destruct (decide (r < 0x80)) as [Hlt|].
  { rewrite <- (byte_val_of r) by lia. apply Hascii. rewrite byte_val_of by lia. done. }
  destruct (decide (r = 0x2028)) as [->|]; [done|]. destruct (decide (r = 0x2029)) as [->|]; [done|].
  apply Hhigh; [lia|]. apply escape_rune_high; lia.
Qed.

Theorem unquote_escape s : unquote (escape s) = Some (sanitize s).
Proof.
  induction s as [|a s Hd IH|r n s Hd Hn Hr H1 IH] using utf8_ind; [done| |].
  - unfold escape, sanitize. rewrite !rune_fold_bad by done. fold (escape s) (sanitize s).
    change (unquote (u_escape "fffd" +:+ escape s)) with (String.append (EncodeRune RuneError) <$> unquote (escape s)).
    by rewrite IH.
  - rewrite (escape_rune_eq r n) by done. unfold sanitize. rewrite (rune_fold_rune _ _ _ r n) by done. fold (sanitize s).
    transitivity (String.append (EncodeRune r) <$> unquote (escape s)); [|by rewrite IH].
    generalize Hd, Hn. apply (escape_rune_cases (λ r, (∀ t, DecodeRune (EncodeRune r +:+ t) = Some (r, n)) → String.length (EncodeRune r) = n →
      unquote (escape_rune r +:+ escape s) = String.append (EncodeRune r) <$> unquote (escape s)) r n); [done|done| |done|done|].
    + intros c Hc _ _. rewrite unquote_escape_ascii, EncodeRune_1 by done. done.
    + intros Hlow -> _ _. by apply (unquote_rune r n).
Qed.

Lemma scan_escape s t : scan_string (escape s +:+ String dquote t) = Some (escape s, t).
Proof.
  induction s as [|a s Hd IH|r n s Hd Hn Hr H1 IH] using utf8_ind; [done| |].
  - unfold escape. rewrite !rune_fold_bad by done. fold (escape s). rewrite str_app_assoc.
    change (scan_string (u_escape "fffd" +:+ ?x)) with ('(raw, rest) ← scan_string x; Some (u_escape "fffd" +:+ raw, rest)).
    by rewrite IH.
  - rewrite (escape_rune_eq r n) by done. rewrite str_app_assoc.
    transitivity ('(raw, rest) ← scan_string (escape s +:+ String dquote t); Some (escape_rune r +:+ raw, rest)); [|by rewrite IH].
    apply (escape_rune_cases (λ r, scan_string (escape_rune r +:+ escape s +:+ String dquote t)
      = '(raw, rest) ← scan_string (escape s +:+ String dquote t); Some (escape_rune r +:+ raw, rest)) r n);
      [done|done|intros c Hc; by apply scan_escape_ascii|done|done|].
    intros Hlow ->. by apply scan_high, EncodeRune_high.
Qed.

(** ** Tokens in their context *)

Lemma scan_string_app t : ∀ s raw rest, scan_string s = Some (raw, rest) → scan_string (s +:+ t) = Some (raw, rest +:+ t).
Proof.
  fix IH 1. intros [|a s1] raw rest; [done|]. cbn [scan_string String.append].
  destruct (Ascii.eqb a dquote); [by intros [= <- <-]|]. destruct (Ascii.eqb a backslash).
  - destruct s1 as [|e s2]; [done|]. cbn [String.append]. destruct (simple_escape e).
    { destruct (scan_string s2) as [[raw' rest']|] eqn:Hs; [|done]. intros [= <- <-]. by rewrite (IH _ _ _ Hs). }
    destruct (Ascii.eqb e "u"); [|done]. destruct s2 as [|h1 [|h2 [|h3 [|h4 s6]]]]; [done..|]. cbn [String.append].
    destruct (getu4 h1 h2 h3 h4); [|done]. cbn [mbind option_bind].
    destruct (scan_string s6) as [[raw' rest']|] eqn:Hs; [|done]. intros [= <- <-]. by rewrite (IH _ _ _ Hs).
  - destruct (byte_val a <? 0x20); [done|].
    destruct (scan_string s1) as [[raw' rest']|] eqn:Hs; [|done]. intros [= <- <-]. by rewrite (IH _ _ _ Hs).
Qed.

(** What may follow a number: no character that would continue it. *)
Definition stops (t : string) : bool :=
  match t with
  | EmptyString => true
  | String c _ => is_space c || str_in c ",]}"
  end.

Lemma stops_head c t : stops (String c t) = true →
  is_digit c = false ∧ Ascii.eqb c "." = false ∧ Ascii.eqb c "e" = false ∧ Ascii.eqb c "E" = false
  ∧ Ascii.eqb c "+" = false ∧ Ascii.eqb c "-" = false.
Proof. destruct c as [[][][][][][][][]]; intros H; first [discriminate H|done]. Qed.

Section number.
Context (t : string) (Ht : stops t = true).

Lemma scan_digits_app s ds rest : scan_digits s = (ds, rest) → scan_digits (s +:+ t) = (ds, rest +:+ t).
Proof.
  revert ds rest; induction s as [|c s IH]; intros ds rest.
  - cbn. intros [= <- <-]. destruct t as [|c t']; [done|]. destruct (stops_head c t' Ht) as (H & _). cbn. by rewrite H.
  - cbn [scan_digits String.append]. destruct (is_digit c); [|by intros [= <- <-]].
    destruct (scan_digits s) as [ds' rest'] eqn:Hs. rewrite (IH _ _ eq_refl). by intros [= <- <-].
Qed.

Lemma scan_digits1_app s ds rest : scan_digits1 s = Some (ds, rest) → scan_digits1 (s +:+ t) = Some (ds, rest +:+ t).
Proof.
  unfold scan_digits1. destruct (scan_digits s) as [ds' rest'] eqn:Hs. rewrite (scan_digits_app _ _ _ Hs).
  by destruct (String.eqb ds' ""); [|intros [= <- <-]].
Qed.

Lemma scan_int_app s i rest : scan_int s = Some (i, rest) → scan_int (s +:+ t) = Some (i, rest +:+ t).
Proof.
  destruct s as [|c s]; [done|]. cbn [scan_int String.append]. destruct (Ascii.eqb c "0"); [by intros [= <- <-]|].
  apply (scan_digits1_app (String c s)).
Qed.

Lemma scan_fraction_app s f rest : scan_fraction s = Some (f, rest) → scan_fraction (s +:+ t) = Some (f, rest +:+ t).
Proof.
  destruct s as [|c s].
  - cbn. intros [= <- <-]. destruct t as [|c t']; [done|]. destruct (stops_head c t' Ht) as (_ & H & _). cbn. by rewrite H.
  - cbn [scan_fraction String.append]. destruct (Ascii.eqb c "."); [|by intros [= <- <-]].
    destruct (scan_digits1 s) as [[ds r]|] eqn:Hs; [|done]. rewrite (scan_digits1_app _ _ _ Hs). by intros [= <- <-].
Qed.

Lemma scan_exponent_app s e rest : scan_exponent s = Some (e, rest) → scan_exponent (s +:+ t) = Some (e, rest +:+ t).
Proof.
  destruct s as [|c s].
  - cbn. intros [= <- <-]. destruct t as [|c t']; [done|]. destruct (stops_head c t' Ht) as (_ & _ & H1 & H2 & _). cbn.
    by rewrite H1, H2.
  - cbn [scan_exponent String.append]. destruct (Ascii.eqb c "e" || Ascii.eqb c "E"); [|by intros [= <- <-]].
    destruct s as [|d s]; [done|]. cbn [scan_sign String.append]. destruct (Ascii.eqb d "+" || Ascii.eqb d "-").
    + destruct (scan_digits1 s) as [[ds r]|] eqn:Hs; [|done]. rewrite (scan_digits1_app _ _ _ Hs). by intros [= <- <-].
    + destruct (scan_digits1 (String d s)) as [[ds r]|] eqn:Hs; [|done].
      change (String d (s +:+ t)) with (String d s +:+ t). rewrite (scan_digits1_app _ _ _ Hs). by intros [= <- <-].
Qed.

Lemma scan_number_app s tok rest : scan_number s = Some (tok, rest) → scan_number (s +:+ t) = Some (tok, rest +:+ t).
Proof.
  assert (∀ minus s0, ('(i, s1) ← scan_int s0; '(f, s2) ← scan_fraction s1; '(e, s3) ← scan_exponent s2; Some (minus +:+ i +:+ f +:+ e, s3))
      = Some (tok, rest) →
    ('(i, s1) ← scan_int (s0 +:+ t); '(f, s2) ← scan_fraction s1; '(e, s3) ← scan_exponent s2; Some (minus +:+ i +:+ f +:+ e, s3))
      = Some (tok, rest +:+ t)) as Hparts.
  { intros minus s0. destruct (scan_int s0) as [[i s1]|] eqn:Hi; [|done]. rewrite (scan_int_app _ _ _ Hi). cbn [mbind option_bind].
    destruct (scan_fraction s1) as [[f s2]|] eqn:Hf; [|done]. rewrite (scan_fraction_app _ _ _ Hf). cbn [mbind option_bind].
    destruct (scan_exponent s2) as [[e s3]|] eqn:He; [|done]. rewrite (scan_exponent_app _ _ _ He). cbn [mbind option_bind].
    by intros [= <- <-]. }
  unfold scan_number. destruct s as [|c s]; [done|]. cbn [String.append].
  destruct (Ascii.eqb c "-"); [apply Hparts|apply (Hparts "" (String c s))].
Qed.
End number.

(** ** Trees *)

(** Tokens that are such. *)
Definition ok_raw (raw : string) : bool := bool_decide (scan_string (raw +:+ String dquote "") = Some (raw, "")).
Definition ok_number (tok : string) : bool := bool_decide (scan_number tok = Some (tok, "")).

Fixpoint json_ok (v : json) : bool :=
  match v with
  | JNull | JBool _ => true
  | JNum tok => ok_number tok
  | JStr raw => ok_raw raw
  | JArr l => forallb json_ok l
  | JObj l => forallb (λ kv, ok_raw (fst kv) && json_ok (snd kv)) l
  end.

Section json_induction.
Context (P : json → Prop).
Context (Hnull : P JNull) (Hbool : ∀ b, P (JBool b)) (Hnum : ∀ tok, P (JNum tok)) (Hstr : ∀ raw, P (JStr raw)).
Context (Harr : ∀ l, Forall P l → P (JArr l)) (Hobj : ∀ l, Forall (λ kv, P (snd kv)) l → P (JObj l)).

Fixpoint json_tree_ind (v : json) : P v :=
  match v with
  | JNull => Hnull
  | JBool b => Hbool b
  | JNum tok => Hnum tok
  | JStr raw => Hstr raw
  | JArr l => Harr l ((fix go l : Forall P l :=
                 match l with [] => Forall_nil_2 _ | v :: l' => Forall_cons_2 _ v l' (json_tree_ind v) (go l') end) l)
  | JObj l => Hobj l ((fix go l : Forall (λ kv, P (snd kv)) l :=
                 match l with [] => Forall_nil_2 _ | kv :: l' => Forall_cons_2 _ kv l' (json_tree_ind (snd kv)) (go l') end) l)
  end.
End json_induction.

Lemma scan_raw raw t : ok_raw raw = true → scan_string (raw +:+ String dquote t) = Some (raw, t).
Proof.
  unfold ok_raw. intros H%bool_decide_eq_true_1. apply (scan_string_app t) in H. by rewrite str_app_assoc in H.
Qed.

Lemma ok_raw_escape s : ok_raw (escape s) = true.
Proof. apply bool_decide_eq_true_2, scan_escape. Qed.

(** The first character of a value. *)
Definition value_head (c : ascii) : bool := str_in c "{[ntf-" || Ascii.eqb c dquote || is_digit c.

Lemma value_head_spec c : value_head c = true → is_space c = false ∧ Ascii.eqb c "]" = false ∧ Ascii.eqb c "}" = false.
Proof. destruct c as [[][][][][][][][]]; intros H; first [discriminate H|done]. Qed.

Lemma scan_digits1_head s ds rest : scan_digits1 s = Some (ds, rest) → ∃ c s', s = String c s' ∧ is_digit c = true.
Proof.
  unfold scan_digits1. destruct s as [|c s]; [done|]. cbn [scan_digits]. destruct (is_digit c) eqn:Hc; [eauto|done].
Qed.

Lemma number_head s tok rest : scan_number s = Some (tok, rest) →
  ∃ c s', s = String c s' ∧ (Ascii.eqb c "-" || is_digit c) = true.
Proof.
  unfold scan_number. destruct s as [|c s]; [done|]. destruct (Ascii.eqb c "-") eqn:Hc; [intros _; exists c, s; by rewrite Hc|].
  unfold scan_int. destruct (Ascii.eqb_spec c "0") as [->|_]; [intros _; by exists "0"%char, s|].
  destruct (scan_digits1 (String c s)) as [[ds r]|] eqn:Hs; [|done]. intros _.
  destruct (scan_digits1_head _ _ _ Hs) as (c' & s' & [= <- <-] & Hd). exists c, s. by rewrite Hd, orb_true_r.
Qed.

Lemma number_head_dispatch c : (Ascii.eqb c "-" || is_digit c) = true →
  value_head c = true ∧ Ascii.eqb c "{" = false ∧ Ascii.eqb c "[" = false ∧ Ascii.eqb c dquote = false ∧ Ascii.eqb c "n" = false
  ∧ Ascii.eqb c "t" = false ∧ Ascii.eqb c "f" = false.
Proof. destruct c as [[][][][][][][][]]; intros H; first [discriminate H|done]. Qed.

Lemma print_head v : json_ok v = true → ∃ c s, print_json v = String c s ∧ value_head c = true.
Proof.
  destruct v as [|[]|tok|raw|l|l]; cbn [json_ok print_json]; intros Hok; try by eexists _, _.
  unfold ok_number in Hok. apply bool_decide_eq_true_1, number_head in Hok as (c & s & -> & Hc).
  exists c, s. split; [done|]. by apply number_head_dispatch.
Qed.

Lemma skip_head c s : value_head c = true → skip_space (String c s) = String c s.
Proof. intros Hc. cbn. by destruct (value_head_spec c Hc) as [-> _]. Qed.

Lemma Join_cons_app (x y : string) l sep : strings_Join (x :: y :: l) sep = x +:+ sep +:+ strings_Join (y :: l) sep.
Proof. done. Qed.

Definition reads_back (v : json) : Prop := json_ok v = true →
  ∀ n t, (2 * String.length (print_json v) + 1 ≤ n)%nat → stops t = true → parse_value n (print_json v +:+ t) = Some (v, t).

Lemma elements_read_back l : Forall reads_back l → l ≠ [] → forallb json_ok l = true → ∀ n t,
  (2 * String.length (strings_Join (map print_json l) ",") + 2 ≤ n)%nat →
  parse_elements n (strings_Join (map print_json l) "," +:+ String "]" t) = Some (l, t).
Proof.
  induction l as [|v l IH]; [done|]. rewrite Forall_cons. intros [Hv Hl] _. cbn [forallb]. intros [Hok Hoks]%andb_true_iff n t Hn.
  destruct n as [|n]; [lia|]. cbn [parse_elements]. destruct l as [|v' l].
  - cbn [map strings_Join] in *. rewrite Hv by (done || lia). done.
  - cbn [map] in *. rewrite Join_cons_app, !str_length_app in Hn. cbn [String.length] in Hn. rewrite Join_cons_app, !str_app_assoc.
    rewrite Hv by (done || lia). cbn [mbind option_bind String.append]. change (skip_space (String "," ?x)) with (String "," x).
    cbv iota. change (Ascii.eqb "," "]") with false. change (Ascii.eqb "," ",") with true. cbv iota.
    rewrite IH by (done || lia). done.
Qed.

Definition print_member (kv : string * json) : string := quote_raw (fst kv) +:+ ":" +:+ print_json (snd kv).

Lemma print_member_length k v :
  String.length (print_member (k, v)) = (String.length k + String.length (print_json v) + 3)%nat.
Proof. unfold print_member, quote_raw. cbn [fst snd]. rewrite str_length_app. cbn [String.length String.append]. rewrite str_length_app. cbn. lia. Qed.

Lemma members_read_back l : Forall (λ kv, reads_back (snd kv)) l → l ≠ [] →
  forallb (λ kv, ok_raw (fst kv) && json_ok (snd kv)) l = true → ∀ n t,
  (2 * String.length (strings_Join (map print_member l) ",") + 2 ≤ n)%nat →
  parse_members n (strings_Join (map print_member l) "," +:+ String "}" t) = Some (l, t).
Proof.
  induction l as [|[k v] l IH]; [done|]. rewrite Forall_cons. intros [Hv Hl] _. cbn [forallb fst snd].
  intros [[Hk Hok]%andb_true_iff Hoks]%andb_true_iff n t Hn. destruct n as [|n]; [lia|]. cbn [fst snd] in Hv.
  assert (∀ tail, parse_members (S n) (print_member (k, v) +:+ tail) =
    ('(v, rest) ← parse_value n (print_json v +:+ tail);
     match skip_space rest with
     | String c rest' =>
         if Ascii.eqb c "}" then Some ([(k, v)], rest')
         else if Ascii.eqb c "," then '(l, rest'') ← parse_members n rest'; Some ((k, v) :: l, rest'')
         else None
     | EmptyString => None
     end)) as Hhead.
  { intros tail. unfold print_member. cbn [fst snd parse_members]. unfold quote_raw. cbn [String.append]. change (skip_space (String dquote ?x)) with (String dquote x).
    cbv iota. change (Ascii.eqb dquote dquote) with true. cbv iota. rewrite !str_app_assoc. cbn [String.append]. rewrite scan_raw by done. cbn [mbind option_bind].
    done. }
  destruct l as [|kv' l].
  - cbn [map strings_Join] in *. rewrite print_member_length in Hn. rewrite Hhead, Hv by (done || lia). done.
  - cbn [map] in *. rewrite Join_cons_app, !str_length_app, print_member_length in Hn. cbn [String.length] in Hn.
    rewrite Join_cons_app, !str_app_assoc, Hhead.
    rewrite Hv by (done || lia). cbn [mbind option_bind String.append]. change (skip_space (String "," ?x)) with (String "," x).
    cbv iota. change (Ascii.eqb "," "}") with false. change (Ascii.eqb "," ",") with true. cbv iota.
    rewrite IH by (done || lia). done.
Qed.

Lemma literal_app word v t : literal word v (word +:+ t) = Some (v, t).
Proof. unfold literal. by rewrite HasPrefix_app, str_drop_app. Qed.

Lemma value_reads_back v : reads_back v.
Proof.
  induction v as [|b|tok|raw|l IH|l IH] using json_tree_ind; intros Hok [|n] t Hn Ht; try lia.
  - exact (literal_app "null" JNull t).
  - destruct b; [exact (literal_app "true" (JBool true) t)|exact (literal_app "false" (JBool false) t)].
  - cbn [json_ok print_json] in *. unfold ok_number in Hok. apply bool_decide_eq_true_1 in Hok.
    pose proof (scan_number_app t Ht _ _ _ Hok) as Hs. destruct (number_head _ _ _ Hok) as (c & s & -> & Hc).
    destruct (number_head_dispatch c Hc) as (Hh & H1 & H2 & H3 & H4 & H5 & H6). cbn [String.append] in *.
    cbn [parse_value]. rewrite skip_head by done. rewrite H1, H2, H3, H4, H5, H6, Hs. done.
  - cbn [json_ok print_json] in *. unfold quote_raw. cbn [String.append parse_value]. rewrite skip_head by done.
    change (Ascii.eqb dquote "{") with false. change (Ascii.eqb dquote "[") with false. change (Ascii.eqb dquote dquote) with true.
    cbv iota. rewrite str_app_assoc. cbn [String.append]. by rewrite scan_raw.
  - cbn [json_ok print_json] in *. rewrite !str_length_app in Hn. cbn [String.length] in Hn. rewrite !str_app_assoc.
    cbn [String.append parse_value]. rewrite skip_head by done. cbv iota. change (Ascii.eqb "[" "{") with false.
    change (Ascii.eqb "[" "[") with true. cbv iota. destruct l as [|v l]; [done|].
    rewrite elements_read_back by (done || lia).
    destruct (print_head v) as (c & s & Hp & Hc); [cbn [forallb] in Hok; by apply andb_true_iff in Hok as [? _]|].
    destruct (value_head_spec c Hc) as (_ & Hb & _).
    assert (∃ s', strings_Join (map print_json (v :: l)) "," = String c s') as [s' ->]
      by (cbn [map]; rewrite Hp; destruct l; cbn; eauto).
    cbn [String.append]. rewrite skip_head by done. by rewrite Hb.
  - cbn [json_ok print_json] in *. rewrite !str_length_app in Hn. cbn [String.length] in Hn. rewrite !str_app_assoc.
    cbn [String.append parse_value]. rewrite skip_head by done. cbv iota. change (Ascii.eqb "{" "{") with true.
    cbv iota. destruct l as [|[k v] l]; [done|].
    change (map _ ((k, v) :: l)) with (map print_member ((k, v) :: l)) in *.
    rewrite members_read_back by (done || lia).
    assert (∃ s', strings_Join (map print_member ((k, v) :: l)) "," = String dquote s') as [s' ->]
      by (cbn [map]; destruct l; cbn; eauto).
    done.
Qed.

(** What is printed is parsed as what it was. *)
Theorem parse_print v : json_ok v = true → parse_json (print_json v) = Some v.
Proof.
  intros Hok. unfold parse_json. rewrite <- (str_app_nil_r (print_json v)) at 2.
  by rewrite value_reads_back by (done || lia).
Qed.

(** ** The fuel is enough *)

Abbreviation slen := String.length.

Lemma skip_space_length s : (slen (skip_space s) ≤ slen s)%nat.
Proof. induction s as [|c s IH]; [done|]. cbn. destruct (is_space c); cbn; lia. Qed.

Lemma skip_space_cons s c s' : skip_space s = String c s' → (slen s' < slen s)%nat.
Proof. intros H. pose proof (skip_space_length s) as Hl. rewrite H in Hl. cbn in Hl. lia. Qed.

Lemma scan_string_length : ∀ s raw rest, scan_string s = Some (raw, rest) → (slen rest < slen s)%nat.
Proof.
  fix IH 1. intros [|a s1] raw rest; [done|]. cbn [scan_string].
  destruct (Ascii.eqb a dquote); [intros [= <- <-]; cbn; lia|]. destruct (Ascii.eqb a backslash).
  - destruct s1 as [|e s2]; [done|]. destruct (simple_escape e).
    { destruct (scan_string s2) as [[raw' rest']|] eqn:Hs; [|done]. intros [= <- <-]. apply IH in Hs. cbn. lia. }
    destruct (Ascii.eqb e "u"); [|done]. destruct s2 as [|h1 [|h2 [|h3 [|h4 s6]]]]; [done..|].
    destruct (getu4 h1 h2 h3 h4); [|done]. cbn [mbind option_bind].
    destruct (scan_string s6) as [[raw' rest']|] eqn:Hs; [|done]. intros [= <- <-]. apply IH in Hs. cbn. lia.
  - destruct (byte_val a <? 0x20); [done|].
    destruct (scan_string s1) as [[raw' rest']|] eqn:Hs; [|done]. intros [= <- <-]. apply IH in Hs. cbn. lia.
Qed.

Lemma scan_digits_length s : (slen (snd (scan_digits s)) ≤ slen s)%nat.
Proof.
  induction s as [|c s IH]; [done|]. cbn [scan_digits]. destruct (is_digit c); [|done].
  destruct (scan_digits s). cbn in *. lia.
Qed.

Lemma scan_digits1_length s ds rest : scan_digits1 s = Some (ds, rest) → (slen rest < slen s)%nat.
Proof.
  intros H. destruct (scan_digits1_head _ _ _ H) as (c & s' & -> & Hc). unfold scan_digits1 in H. cbn [scan_digits] in H.
  rewrite Hc in H. pose proof (scan_digits_length s'). destruct (scan_digits s') as [ds' rest']. cbn in *. injection H as _ <-. lia.
Qed.

Lemma scan_number_length s tok rest : scan_number s = Some (tok, rest) → (slen rest < slen s)%nat.
Proof.
  assert (∀ s i r, scan_int s = Some (i, r) → (slen r < slen s)%nat) as Hint.
  { intros [|c s'] i r; [done|]. cbn [scan_int]. destruct (Ascii.eqb c "0"); [intros [= _ <-]; cbn; lia|apply scan_digits1_length]. }
  assert (∀ s f r, scan_fraction s = Some (f, r) → (slen r ≤ slen s)%nat) as Hfrac.
  { intros [|c s'] f r; cbn [scan_fraction]; [by intros [= _ <-]|]. destruct (Ascii.eqb c "."); [|intros [= _ <-]; done].
    destruct (scan_digits1 s') as [[ds r']|] eqn:Hs; [|done]. apply scan_digits1_length in Hs. intros [= _ <-]. cbn. lia. }
  assert (∀ s e r, scan_exponent s = Some (e, r) → (slen r ≤ slen s)%nat) as Hexp.
  { intros [|c s'] e r; cbn [scan_exponent]; [by intros [= _ <-]|].
    destruct (Ascii.eqb c "e" || Ascii.eqb c "E"); [|intros [= _ <-]; done].
    assert (slen (snd (scan_sign s')) ≤ slen s')%nat by (destruct s' as [|d s'']; [done|]; cbn; destruct (Ascii.eqb d "+" || Ascii.eqb d "-"); cbn; lia).
    destruct (scan_sign s') as [sg s1]. cbn [snd] in *.
    destruct (scan_digits1 s1) as [[ds r']|] eqn:Hs; [|done]. apply scan_digits1_length in Hs. intros [= _ <-]. cbn. lia. }
  assert (∀ minus s0, ('(i, s1) ← scan_int s0; '(f, s2) ← scan_fraction s1; '(e, s3) ← scan_exponent s2; Some (minus +:+ i +:+ f +:+ e, s3))
      = Some (tok, rest) → (slen rest < slen s0)%nat) as Hparts.
  { intros minus s0. destruct (scan_int s0) as [[i s1]|] eqn:Hi; [|done]. apply Hint in Hi. cbn [mbind option_bind].
    destruct (scan_fraction s1) as [[f s2]|] eqn:Hf; [|done]. apply Hfrac in Hf. cbn [mbind option_bind].
    destruct (scan_exponent s2) as [[e s3]|] eqn:He; [|done]. apply Hexp in He. cbn [mbind option_bind].
    intros [= _ <-]. lia. }
  unfold scan_number. destruct s as [|c s]; [done|].
  destruct (Ascii.eqb c "-"); intros H; apply Hparts in H; cbn in *; lia.
Qed.

Lemma literal_length word v s v' rest : literal word v s = Some (v', rest) → (0 < slen word)%nat → (slen rest < slen s)%nat.
Proof.
  unfold literal. destruct (strings_HasPrefix s word) eqn:Hp; [|done]. apply HasPrefix_spec in Hp. rewrite Hp.
  intros [= _ <-] Hw. rewrite str_drop_app by done. rewrite str_length_app. lia.
Qed.

Lemma parse_length n : (∀ s v rest, parse_value n s = Some (v, rest) → (slen rest < slen s)%nat)
  ∧ (∀ s l rest, parse_elements n s = Some (l, rest) → (slen rest < slen s)%nat)
  ∧ (∀ s l rest, parse_members n s = Some (l, rest) → (slen rest < slen s)%nat).
Proof.
  induction n as [|n (IHv & IHe & IHm)]; [done|]. split_and!; intros s v rest.
  - cbn [parse_value]. destruct (skip_space s) as [|c s1] eqn:Hs; [done|]. apply skip_space_cons in Hs.
    destruct (Ascii.eqb c "{").
    { destruct (skip_space s1) as [|d s2] eqn:Hs1; [done|]. apply skip_space_cons in Hs1.
      destruct (Ascii.eqb d "}"); [intros [= _ <-]; lia|].
      destruct (parse_members n s1) as [[l r]|] eqn:Hm; [|done]. apply IHm in Hm. intros [= _ <-]. lia. }
    destruct (Ascii.eqb c "[").
    { destruct (skip_space s1) as [|d s2] eqn:Hs1; [done|]. apply skip_space_cons in Hs1.
      destruct (Ascii.eqb d "]"); [intros [= _ <-]; lia|].
      destruct (parse_elements n s1) as [[l r]|] eqn:Hm; [|done]. apply IHe in Hm. intros [= _ <-]. lia. }
    destruct (Ascii.eqb c dquote).
    { destruct (scan_string s1) as [[raw r]|] eqn:Hr; [|done]. apply scan_string_length in Hr. intros [= _ <-]. lia. }
    destruct (Ascii.eqb c "n"); [intros H; apply literal_length in H; cbn in *; lia|].
    destruct (Ascii.eqb c "t"); [intros H; apply literal_length in H; cbn in *; lia|].
    destruct (Ascii.eqb c "f"); [intros H; apply literal_length in H; cbn in *; lia|].
    destruct (scan_number (String c s1)) as [[tok r]|] eqn:Hr; [|done]. apply scan_number_length in Hr. intros [= _ <-]. cbn in *. lia.
  - cbn [parse_elements]. destruct (parse_value n s) as [[v0 r0]|] eqn:Hv; [|done]. apply IHv in Hv. cbn [mbind option_bind].
    destruct (skip_space r0) as [|c r1] eqn:Hr; [done|]. apply skip_space_cons in Hr.
    destruct (Ascii.eqb c "]"); [intros [= _ <-]; lia|]. destruct (Ascii.eqb c ","); [|done].
    destruct (parse_elements n r1) as [[l r2]|] eqn:He; [|done]. apply IHe in He. intros [= _ <-]. lia.
  - cbn [parse_members]. destruct (skip_space s) as [|q s1] eqn:Hs; [done|]. apply skip_space_cons in Hs.
    destruct (Ascii.eqb q dquote); [|done]. destruct (scan_string s1) as [[key s2]|] eqn:Hk; [|done].
    apply scan_string_length in Hk. cbn [mbind option_bind]. destruct (skip_space s2) as [|colon s3] eqn:Hc; [done|].
    apply skip_space_cons in Hc. destruct (Ascii.eqb colon ":"); [|done].
    destruct (parse_value n s3) as [[v0 r0]|] eqn:Hv; [|done]. apply IHv in Hv. cbn [mbind option_bind].
    destruct (skip_space r0) as [|c r1] eqn:Hr; [done|]. apply skip_space_cons in Hr.
    destruct (Ascii.eqb c "}"); [intros [= _ <-]; lia|]. destruct (Ascii.eqb c ","); [|done].
    destruct (parse_members n r1) as [[l r2]|] eqn:He; [|done]. apply IHm in He. intros [= _ <-]. lia.
Qed.

(** Beyond twice the length of the text, the fuel does not matter. *)
Lemma parse_fuel n : ∀ m s,
  ((2 * slen s + 1 ≤ n)%nat → (2 * slen s + 1 ≤ m)%nat → parse_value n s = parse_value m s)
  ∧ ((2 * slen s + 2 ≤ n)%nat → (2 * slen s + 2 ≤ m)%nat → parse_elements n s = parse_elements m s)
  ∧ ((2 * slen s + 2 ≤ n)%nat → (2 * slen s + 2 ≤ m)%nat → parse_members n s = parse_members m s).
Proof.
  induction n as [|n IH]; intros m s; [split_and!; intros; lia|]. destruct m as [|m]; [split_and!; intros; lia|].
  split_and!; intros Hn Hm.
  - cbn [parse_value]. destruct (skip_space s) as [|c s1] eqn:Hs; [done|]. apply skip_space_cons in Hs.
    destruct (IH m s1) as (_ & He & Hmem). rewrite He, Hmem by lia. done.
  - cbn [parse_elements]. destruct (IH m s) as (Hv & _). rewrite Hv by lia.
    destruct (parse_value m s) as [[v0 r0]|] eqn:Hp; [|done]. apply (parse_length m) in Hp. cbn [mbind option_bind].
    destruct (skip_space r0) as [|c r1] eqn:Hr; [done|]. apply skip_space_cons in Hr.
    destruct (IH m r1) as (_ & He & _). rewrite He by lia. done.
  - cbn [parse_members]. destruct (skip_space s) as [|q s1] eqn:Hs; [done|]. apply skip_space_cons in Hs.
    destruct (Ascii.eqb q dquote); [|done]. destruct (scan_string s1) as [[key s2]|] eqn:Hk; [|done].
    apply scan_string_length in Hk. cbn [mbind option_bind]. destruct (skip_space s2) as [|colon s3] eqn:Hc; [done|].
    apply skip_space_cons in Hc. destruct (Ascii.eqb colon ":"); [|done]. destruct (IH m s3) as (Hv & _). rewrite Hv by lia.
    destruct (parse_value m s3) as [[v0 r0]|] eqn:Hp; [|done]. apply (parse_length m) in Hp. cbn [mbind option_bind].
    destruct (skip_space r0) as [|c r1] eqn:Hr; [done|]. apply skip_space_cons in Hr.
    destruct (IH m r1) as (_ & _ & He). rewrite He by lia. done.
Qed.
