(* ===== verification/JsonDecode.v ===== *)
(** * Storing JSON in Go values (package [encoding/json])

    [Unmarshal] first checks that the whole text is JSON and then walks over
    it.  A value of the wrong type is skipped: the first such error is
    returned at the end, and the rest is stored all the same.  An error of an
    [UnmarshalJSON] method ends the walk. *)

From S2P Require Import Prelude GoStrings Utf8 Strconv Base64 Http Json JsonSpec.

Local Open Scope Z_scope.

Inductive decode_error :=
| NoError
| TypeError
| Aborted.

#[export] Instance decode_error_eq_dec : EqDecision decode_error.
Proof. solve_decision. Defined.

Definition join_errors (e1 e2 : decode_error) : decode_error :=
  match e1, e2 with
  | Aborted, _ | _, Aborted => Aborted
  | NoError, e => e
  | TypeError, _ => TypeError
  end.

(** What is stored over the value that is there. *)
Abbreviation decoder T := (json → T → T * decode_error).

(** ** Basic kinds *)

Definition decode_string : decoder string := λ v old,
  match v with
  | JStr raw => match unquote raw with Some s => (s, NoError) | None => (old, Aborted) end
  | JNull => (old, NoError)
  | _ => (old, TypeError)
  end.

Definition decode_int : decoder Z := λ v old,
  match v with
  | JNum tok => match ParseInt tok with (n, None) => (n, NoError) | _ => (old, TypeError) end
  | JNull => (old, NoError)
  | _ => (old, TypeError)
  end.

(** An unsigned integer of [bits] bits. *)
Definition decode_uint (bits : Z) : decoder Z := λ v old,
  match v with
  | JNum tok => match ParseUint tok with
                | (n, None) => if n <? 2 ^ bits then (n, NoError) else (old, TypeError)
                | _ => (old, TypeError)
                end
  | JNull => (old, NoError)
  | _ => (old, TypeError)
  end.

(** ** Slices

    A slice keeps its backing array when it is written again: elements that
    were there before are what [null] leaves.  The array is zero beyond the
    list. *)

Record slice (A : Type) := mkSlice { backing : list A; slice_len : nat }.
Arguments mkSlice {A} _ _.
Arguments backing {A} _.
Arguments slice_len {A} _.

Definition elements {A} (s : slice A) : list A := take (slice_len s) (backing s).
Definition nil_slice {A} : slice A := mkSlice [] 0.

Section arrays.
Context {A : Type} (decode : decoder A) (zero : A).

(** The elements that were written, and the error. *)
Fixpoint decode_elements (l : list json) (old : list A) : list A * decode_error :=
  match l with
  | [] => ([], NoError)
  | v :: l' =>
      let '(x, e) := decode v (default zero (head old)) in
      match e with
      | Aborted => ([x], Aborted)
      | _ => let '(xs, e') := decode_elements l' (tail old) in (x :: xs, join_errors e e')
      end
  end.

Definition decode_slice : decoder (slice A) := λ v old,
  match v with
  | JArr [] => (nil_slice, NoError)
  | JArr l =>
      let '(xs, e) := decode_elements l (backing old) in
      (mkSlice (xs ++ drop (length xs) (backing old)) (length xs), e)
  | JNull => (nil_slice, NoError)
  | _ => (old, TypeError)
  end.
End arrays.

(** A [[]byte] is base64 in a string, or an array of numbers. *)
Definition decode_byte : decoder ascii := λ v old,
  let '(n, e) := decode_uint 8 v (byte_val old) in (byte_of n, e).

Definition decode_bytes : decoder (slice ascii) := λ v old,
  match v with
  | JStr raw =>
      match unquote raw with
      | None => (old, Aborted)
      | Some s =>
          match DecodeString StdEncoding s with
          | Some b => (mkSlice (String.list_ascii_of_string b) (String.length b), NoError)
          | None => (old, TypeError)
          end
      end
  | _ => decode_slice decode_byte "000"%char v old
  end.

(** ** Maps and structs *)

Fixpoint decode_entries (l : list (string * json)) (m : gmap string string) : gmap string string * decode_error :=
  match l with
  | [] => (m, NoError)
  | (k, v) :: l' =>
      match unquote k with
      | None => (m, Aborted)
      | Some key =>
          let '(s, e) := decode_string v "" in
          match e with
          | Aborted => (m, Aborted)
          | _ => let '(m', e') := decode_entries l' (<[key := s]> m) in (m', join_errors e e')
          end
      end
  end.

(** [map[string]string] *)
Definition decode_map : decoder (gmap string string) := λ v old,
  match v with
  | JObj l => decode_entries l old
  | JNull => (∅, NoError)
  | _ => (old, TypeError)
  end.

Definition upper_mask (c : ascii) : Z := Z.land (byte_val c) 0xDF.

(** [equalFold] of a field's name: letters in either case, the long s and the
    Kelvin sign. *)
Fixpoint equalFold (name key : string) : bool :=
  match name, key with
  | EmptyString, EmptyString => true
  | String a name', String b key1 =>
      if byte_val b <? 0x80 then
        (Ascii.eqb a b || ((65 <=? upper_mask a) && (upper_mask a <=? 90) && (upper_mask a =? upper_mask b))) && equalFold name' key1
      else
        match DecodeRune key with
        | Some (r, n) =>
            if (Ascii.eqb a "s" || Ascii.eqb a "S") && (r =? 0x17F) then
              match key1 with String _ key2 => equalFold name' key2 | EmptyString => false end
            else if (Ascii.eqb a "k" || Ascii.eqb a "K") && (r =? 0x212A) then
              match key1 with String _ (String _ key3) => equalFold name' key3 | _ => false end
            else false
        | None => false
        end
  | _, _ => false
  end.

Section structs.
Context {T : Type} (fields : list (string * decoder T)).

(** The field with this very name, or the first whose name folds to the key. *)
Definition find_field (key : string) : option (decoder T) :=
  match list_find (λ f, fst f = key) fields with
  | Some (_, f) => Some (snd f)
  | None => snd ∘ snd <$> list_find (λ f, equalFold (fst f) key = true) fields
  end.

Fixpoint decode_members (l : list (string * json)) (t : T) : T * decode_error :=
  match l with
  | [] => (t, NoError)
  | (k, v) :: l' =>
      match unquote k with
      | None => (t, Aborted)
      | Some key =>
          let '(t1, e) := match find_field key with Some decode => decode v t | None => (t, NoError) end in
          match e with
          | Aborted => (t1, Aborted)
          | _ => let '(t2, e') := decode_members l' t1 in (t2, join_errors e e')
          end
      end
  end.

Definition decode_struct : decoder T := λ v old,
  match v with
  | JObj l => decode_members l old
  | JNull => (old, NoError)
  | _ => (old, TypeError)
  end.
End structs.

(** The value after [json.Unmarshal], and whether it returned no error. *)
Definition Unmarshal {T} (decode : decoder T) (data : string) (old : T) : T * bool :=
  match parse_json data with
  | None => (old, false)
  | Some v => let '(t, e) := decode v old in (t, bool_decide (e = NoError))
  end.

(** A field of a struct. *)
Definition field {T X} (get : T → X) (set : X → T → T) (decode : decoder X) : decoder T := λ v t,
  let '(x, e) := decode v (get t) in (set x t, e).
