(* ===== verification/JsonDecodeSpec.v ===== *)
(** * Values survive their JSON *)

From S2P Require Import Prelude GoStrings Utf8 Strconv Base64 Http Json JsonSpec JsonDecode.

Local Open Scope Z_scope.

(** ** Text that is written as it is *)

Definition plain_char (c : ascii) : bool :=
  (0x20 <=? byte_val c) && (byte_val c <? 0x80) && negb (Ascii.eqb c backslash || Ascii.eqb c dquote || str_in c "<>&").
Abbreviation plain_text := (str_forall plain_char).

Lemma escape_plain s : plain_text s = true → escape s = s ∧ valid_utf8 s = true.
Proof.
  induction s as [|c s IH]; [done|]. cbn [str_forall]. intros [Hc Hs]%andb_true_iff. destruct (IH Hs) as [He Hv].
  assert (escape_rune (byte_val c) = String c "" ∧ byte_val c < 0x80) as [Hr Hb].
  { clear -Hc. destruct c as [[][][][][][][][]]; first [discriminate Hc|by split]. }
  unfold escape, valid_utf8 in *. cbn [rune_fold DecodeRune]. destruct (Z.ltb_spec (byte_val c) 0x80); [|lia].
  cbv iota beta. by rewrite Hr, He.
Qed.

Lemma plain_raw s : plain_text s = true → ok_raw s = true ∧ unquote s = Some s.
Proof.
  intros Hs. destruct (escape_plain s Hs) as [He Hv]. split; [rewrite <- He; apply ok_raw_escape|].
  rewrite <- He at 1. rewrite unquote_escape. f_equal. by apply sanitize_valid.
Qed.

Lemma plain_EncodeToString s : plain_text (EncodeToString StdEncoding s) = true.
Proof.
  assert (∀ n, (n < 64)%N → plain_char (enc_char StdEncoding n) = true) as Henc.
  { intros n Hn. apply (bool_decide_eq_true_1 _). revert n Hn. apply sextets. vm_compute. reflexivity. }
  induction s as [|a|a b|a b c s IH] using triples; [done|..].
  - destruct (sextet_bounds a a a) as (? & ? & _). cbn [EncodeToString str_forall]. by rewrite !Henc.
  - destruct (sextet_bounds a b b) as (? & ? & ? & ? & _). cbn [EncodeToString str_forall]. by rewrite !Henc.
  - destruct (sextet_bounds a b c) as (? & ? & ? & ? & ? & ?). cbn [EncodeToString str_forall]. by rewrite !Henc, IH.
Qed.

(** ** Numbers *)

Lemma scan_digits_all s : all_digits s = true → scan_digits s = (s, "").
Proof.
  induction s as [|c s IH]; [done|]. cbn [all_digits]. intros [Hc Hs]%andb_true_iff. cbn [scan_digits]. by rewrite Hc, IH.
Qed.

Lemma pretty_go_head n s : (0 < n)%N → ∃ c s', pretty_N_go n s = String c s' ∧ c ≠ "0"%char.
Proof.
  revert s. induction n as [n IH] using (well_founded_induction N.lt_wf_0). intros s Hn.
  rewrite pretty_N_go_step by done. destruct (decide (n `div` 10 = 0)%N) as [Hz|Hz].
  - rewrite Hz. change (pretty_N_go 0 ?x) with x. eexists _, _. split; [done|].
    assert (n < 10)%N as Hlt by (apply N.div_small_iff; done). rewrite N.mod_small by done.
    assert (n = 1 ∨ n = 2 ∨ n = 3 ∨ n = 4 ∨ n = 5 ∨ n = 6 ∨ n = 7 ∨ n = 8 ∨ n = 9)%N as Hc by lia.
    repeat destruct Hc as [->|Hc]; [done..|by subst].
  - apply IH; [apply N.div_lt; lia|by apply N.neq_0_lt_0].
Qed.

Lemma scan_int_pretty (n : N) : scan_int (pretty n) = Some (pretty n : string, "").
Proof.
  destruct (decide (n = 0%N)) as [->|Hn]; [done|]. destruct (pretty_digits n) as (Hd & _ & Hne).
  assert (∃ c s', (pretty n : string) = String c s' ∧ c ≠ "0"%char) as (c & s' & Hp & Hc).
  { unfold pretty, pretty_N. rewrite decide_False by done. apply pretty_go_head. lia. }
  rewrite Hp in *. cbn [scan_int]. apply Ascii.eqb_neq in Hc. rewrite Hc. unfold scan_digits1. by rewrite scan_digits_all.
Qed.

Lemma pretty_ok_number (z : Z) : ok_number (pretty z) = true.
Proof.
  apply bool_decide_eq_true_2. unfold scan_number. destruct (Z.le_gt_cases 0 z) as [Hz|Hz].
  - rewrite pretty_nonneg by done. pose proof (scan_int_pretty (Z.to_N z)) as Hs. destruct (pretty_digits (Z.to_N z)) as (Hd & _ & Hne).
    destruct (digits_head _ Hd Hne) as (c & s & Hp & Hc). rewrite Hp in *. destruct (digit_not_sign c Hc) as [_ Hm]. rewrite Hm, Hs.
    cbn. by rewrite !str_app_nil_r.
  - destruct z as [|n|n]; [lia|lia|]. change (pretty (Z.neg n)) with (String "-" (pretty (N.pos n))).
    cbv beta iota. change (Ascii.eqb "-" "-") with true. cbv beta iota. rewrite (scan_int_pretty (N.pos n)). cbn. by rewrite !str_app_nil_r.
Qed.

(** ** Decoding what was encoded *)

Lemma decode_string_string s old : decode_string (json_string s) old = (sanitize s, NoError).
Proof. cbn. by rewrite unquote_escape. Qed.

Lemma decode_string_valid s old : valid_utf8 s = true → decode_string (json_string s) old = (s, NoError).
Proof. intros Hs. by rewrite decode_string_string, sanitize_valid. Qed.

Lemma decode_int_int n old : in_int64 n → decode_int (json_int n) old = (n, NoError).
Proof. intros Hn. cbn. by rewrite ParseInt_pretty. Qed.

Lemma decode_uint_int bits n old : 0 ≤ n < 2 ^ bits → bits ≤ 64 → decode_uint bits (json_int n) old = (n, NoError).
Proof.
  intros Hn Hb. cbn. rewrite pretty_nonneg by lia. assert (2 ^ bits ≤ 2 ^ 64) by (apply Z.pow_le_mono_r; lia).
  rewrite ParseUint_pretty by (unfold max_uint64; lia). rewrite Z2N.id by lia. by destruct (Z.ltb_spec n (2 ^ bits)); [|lia].
Qed.

Lemma decode_elements_map {A B} (decode : decoder A) zero (enc : B → json) (f : B → A) l :
  (∀ x old, x ∈ l → decode (enc x) old = (f x, NoError)) →
  ∀ old, decode_elements decode zero (map enc l) old = (map f l, NoError).
Proof.
  induction l as [|x l IH]; intros Hd old; [done|]. cbn [map decode_elements]. rewrite Hd by (by left).
  rewrite IH by (intros; apply Hd; by right). done.
Qed.

Lemma decode_slice_map {A B} (decode : decoder A) zero (enc : B → json) (f : B → A) l old :
  (∀ x old, x ∈ l → decode (enc x) old = (f x, NoError)) →
  ∃ s, decode_slice decode zero (JArr (map enc l)) old = (s, NoError) ∧ elements s = map f l.
Proof.
  intros Hd. destruct l as [|x l]; [by eexists|]. cbn [decode_slice].
  pose proof (decode_elements_map decode zero enc f (x :: l) Hd (backing old)) as He. cbn [map] in He |- *. rewrite He.
  eexists. split; [done|]. unfold elements. cbn [slice_len backing].
  change (f x :: map f l) with (map f (x :: l)). by rewrite take_app_length.
Qed.

Lemma decode_bytes_base64 b old :
  ∃ s, decode_bytes (JStr (EncodeToString StdEncoding b)) old = (s, NoError)
    ∧ String.string_of_list_ascii (elements s) = b.
Proof.
  destruct (plain_raw _ (plain_EncodeToString b)) as [_ Hu]. cbn [decode_bytes]. rewrite Hu, DecodeString_EncodeToString by apply _.
  eexists. split; [done|]. unfold elements. cbn [slice_len backing].
  replace (String.length b) with (length (String.list_ascii_of_string b)) by (clear; induction b as [|c b IH]; [done|cbn; by rewrite IH]).
  rewrite firstn_all. apply String.string_of_list_ascii_of_string.
Qed.

(** The text of a value is read as that value. *)
Lemma Unmarshal_print {T} (decode : decoder T) v old : json_ok v = true →
  Unmarshal decode (print_json v) old = let '(t, e) := decode v old in (t, bool_decide (e = NoError)).
Proof. intros Hv. unfold Unmarshal. by rewrite parse_print. Qed.

(** One member that is stored without error. *)
Lemma decode_members_step {T} (fields : list (string * decoder T)) k v l t decode t1 :
  unquote k = Some k → find_field fields k = Some decode → decode v t = (t1, NoError) →
  decode_members fields ((k, v) :: l) t = decode_members fields l t1.
Proof. intros Hk Hf Hd. cbn [decode_members]. rewrite Hk, Hf, Hd. by destruct (decode_members fields l t1) as [? []]. Qed.

Lemma field_step {T X} (get : T → X) (set : X → T → T) (decode : decoder X) v t x :
  decode v (get t) = (x, NoError) → field get set decode v t = (set x t, NoError).
Proof. intros Hd. unfold field. by rewrite Hd. Qed.

(** What every field keeps, the struct keeps. *)
Lemma decode_members_inv {T} (P : T → Prop) (fields : list (string * decoder T)) l :
  Forall (λ f, ∀ v t, P t → P (fst (snd f v t))) fields → ∀ t, P t → P (fst (decode_members fields l t)).
Proof.
  intros Hf. induction l as [|[k v] l IH]; intros t Ht; [done|]. cbn [decode_members].
  destruct (unquote k) as [key|]; [|done].
  assert (P (fst (match find_field fields key with Some decode => decode v t | None => (t, NoError) end))) as H1.
  { unfold find_field. destruct (list_find (λ f, fst f = key) fields) as [[i f]|] eqn:E1.
    - apply list_find_Some in E1 as (Hi & _ & _). rewrite Forall_forall in Hf. apply (Hf f); [by eapply list_elem_of_lookup_2|done].
    - destruct (list_find (λ f, equalFold (fst f) key = true) fields) as [[i f]|] eqn:E2; [|done].
      apply list_find_Some in E2 as (Hi & _ & _). rewrite Forall_forall in Hf. apply (Hf f); [by eapply list_elem_of_lookup_2|done]. }
  destruct (match find_field fields key with Some decode => decode v t | None => (t, NoError) end) as [t1 e].
  cbn [fst] in H1. specialize (IH t1 H1). destruct (decode_members fields l t1) as [t2 e']. by destruct e.
Qed.

Lemma decode_uint_range bits v old : 0 ≤ old < 2 ^ bits → 0 ≤ fst (decode_uint bits v old) < 2 ^ bits.
Proof.
  intros Hold. destruct v as [| |tok| | |]; [done..| |done|done|done]. cbn [decode_uint].
  pose proof (ParseUint_range tok) as Hr. destruct (ParseUint tok) as [n [|]]; [done|]. cbn [fst] in Hr.
  destruct (Z.ltb_spec n (2 ^ bits)); cbn [fst]; lia.
Qed.

Lemma decode_int_range v old : in_int64 old → in_int64 (fst (decode_int v old)).
Proof.
  intros Hold. destruct v as [| |tok| | |]; [done..| |done|done|done]. cbn [decode_int].
  pose proof (ParseInt_range tok) as Hr. destruct (ParseInt tok) as [n [|]]; [done|]. by apply Hr.
Qed.
