(* ===== verification/FloatText.v ===== *)
(** * Floating-point numbers in JSON ([strconv.AppendFloat], [strconv.ParseFloat])

    The encoder of Go 1.4 writes a [float64] with the fewest digits and, from a
    million on and below a ten-thousandth, an exponent; the decoder reads every
    number of an [interface{}] as a [float64].  Integers of at most 53 bits
    survive both. *)

From S2P Require Import Prelude GoStrings Floats Strconv Http Times TimeTheorems LogText Json JsonSpec JsonDecode JsonDecodeSpec.

Local Open Scope Z_scope.

(** ** Writing *)

(** Without the zeros at the end. *)
Fixpoint strip_zeros (fuel : nat) (c x : Z) : Z * Z :=
  match fuel with
  | O => (c, x)
  | S fuel' => if (c `mod` 10 =? 0) && (0 <? c) then strip_zeros fuel' (c `div` 10) (x + 1) else (c, x)
  end.

Definition exponent_digits (n : Z) : string := if Z.abs n <? 10 then String "0" (pretty (Z.abs n)) else pretty (Z.abs n).

(** [%e] of the digits of [c], the last of which counts [10 ^ x]. *)
Definition format_scientific (c x : Z) : string :=
  match pretty c with
  | String d ds =>
      let exp := Z.of_nat (String.length ds) + x in
      String d ((if String.eqb ds "" then "" else String "." ds)
                +:+ String "e" (String (if exp <? 0 then "-"%char else "+"%char) (exponent_digits exp)))
  | EmptyString => ""
  end.

(** [FormatFloat(f, 'g', -1, 64)] of a number; infinities and NaN are refused by
    the encoder. *)
Definition format_g (f : float64) : option string :=
  match f with
  | S754_zero s => Some (if s then "-0" else "0")
  | S754_finite s m e =>
      let '(c0, x0) := shortest m e in
      let '(c, x) := strip_zeros 17 c0 x0 in
      let exp := Z.of_nat (String.length (pretty c)) - 1 + x in
      Some ((if s then "-" else "") +:+ if (exp <? -4) || (6 <=? exp) then format_scientific c x else format_fixed c x)
  | _ => None
  end.

(** ** Reading *)

Definition is_inf (f : float64) : bool := match f with S754_infinity _ => true | _ => false end.

(** The exponent stops growing at 10000, as in the library. *)
Fixpoint exponent_value (acc : Z) (s : string) : Z :=
  match s with
  | EmptyString => acc
  | String c s' => exponent_value (if acc <? 10000 then acc * 10 + digit_value c else acc) s'
  end.

(** The value of the text of an exponent, with its letter. *)
Definition read_exponent (e : string) : Z :=
  match e with
  | EmptyString => 0
  | String _ s =>
      let '(sign, ds) := scan_sign s in
      if String.eqb sign "-" then - exponent_value 0 ds else exponent_value 0 ds
  end.

(** [ParseFloat] of a number of the JSON grammar; [None] when it is too big. *)
Definition ParseFloat (tok : string) : option float64 :=
  let '(neg, s0) := match tok with
                    | String c s' => if Ascii.eqb c "-" then (true, s') else (false, tok)
                    | EmptyString => (false, "")
                    end in
  '(i, s1) ← scan_int s0;
  '(f, s2) ← scan_fraction s1;
  '(e, s3) ← scan_exponent s2;
  let fs := match f with String _ ds => ds | EmptyString => "" end in
  let r := f64_of_decimal (dec_value 0 (i +:+ fs)) (read_exponent e - Z.of_nat (String.length fs)) in
  if negb (String.eqb s3 "") || is_inf r then None else Some (if neg then f64_opp r else r).

Example float_texts :
  map format_g [f64_of_Z 999999; f64_of_Z 1000000; f64_of_Z 123456789; f64_of_Z 0; f64_opp (f64_of_Z 25);
    f64_div (f64_of_Z 1) (f64_of_Z 10000); f64_div (f64_of_Z 5) (f64_of_Z 10000000); f64_div (f64_of_Z 1) (f64_of_Z 3); f64_of_Z (10 ^ 22)]
  = [Some "999999"; Some "1e+06"; Some "1.23456789e+08"; Some "0"; Some "-25"; Some "0.0001"; Some "5e-07"; Some "0.3333333333333333"; Some "1e+22"].
Proof. vm_compute. reflexivity. Qed.

Example float_reads :
  map ParseFloat ["999999"; "1e+06"; "1.23456789e+08"; "-0"; "0.3333333333333333"; "5e-07"; "1e999"]
  = [Some (f64_of_Z 999999); Some (f64_of_Z 1000000); Some (f64_of_Z 123456789); Some (S754_zero true);
     Some (f64_div (f64_of_Z 1) (f64_of_Z 3)); Some (f64_div (f64_of_Z 5) (f64_of_Z 10000000)); None].
Proof. vm_compute. reflexivity. Qed.

(** ** The grammar of what is written *)

(** A text that does not go on with a digit. *)
Definition no_digit (t : string) : bool := match t with String c _ => negb (is_digit c) | EmptyString => true end.

Lemma scan_digits_until ds t : all_digits ds = true → no_digit t = true → scan_digits (ds +:+ t) = (ds, t).
Proof.
  intros Hd Ht. induction ds as [|c ds IH]; cbn [String.append].
  - destruct t as [|c t]; [done|]. cbn in Ht |- *. by destruct (is_digit c).
  - cbn [all_digits] in Hd. apply andb_true_iff in Hd as [Hc Hd]. cbn [scan_digits]. by rewrite Hc, IH.
Qed.

Lemma scan_int_until (n : N) t : no_digit t = true → scan_int (pretty n +:+ t) = Some (pretty n : string, t).
Proof.
  intros Ht. destruct (decide (n = 0%N)) as [->|Hn]; [done|]. destruct (pretty_digits n) as (Hd & _ & Hne).
  assert (∃ c s', (pretty n : string) = String c s' ∧ c ≠ "0"%char) as (c & s' & Hp & Hc).
  { unfold pretty, pretty_N. rewrite decide_False by done. apply pretty_go_head. lia. }
  rewrite Hp in *. cbn [String.append scan_int]. apply Ascii.eqb_neq in Hc. rewrite Hc. unfold scan_digits1.
  change (String c (s' +:+ t)) with (String c s' +:+ t). by rewrite scan_digits_until.
Qed.

(** A fraction, [f] being its digits. *)
Definition fraction_text (f : string) : string := if String.eqb f "" then "" else String "." f.

(** An exponent as it is written, or none. *)
Definition exponent_ok (e : string) : Prop :=
  e = "" ∨ ∃ sg ds, e = String "e" (String sg ds) ∧ (sg = "+"%char ∨ sg = "-"%char) ∧ all_digits ds = true ∧ ds ≠ "".

Lemma exponent_no_digit e : exponent_ok e → no_digit e = true.
Proof. by intros [->|(sg & ds & -> & _)]. Qed.

Lemma scan_fraction_text f e :
  all_digits f = true → exponent_ok e → scan_fraction (fraction_text f +:+ e) = Some (fraction_text f, e).
Proof.
  intros Hf He. unfold fraction_text. destruct (String.eqb_spec f "") as [->|Hne].
  - destruct He as [->|(sg & ds & -> & _)]; done.
  - cbn [String.append scan_fraction]. change (Ascii.eqb "." ".") with true. cbv iota. unfold scan_digits1.
    rewrite scan_digits_until by (done || by apply exponent_no_digit). destruct (String.eqb_spec f ""); [done|]. done.
Qed.

Lemma scan_exponent_text e : exponent_ok e → scan_exponent e = Some (e, "").
Proof.
  intros [->|(sg & ds & -> & Hsg & Hds & Hne)]; [done|]. cbn [scan_exponent]. change (Ascii.eqb "e" "e" || _) with true. cbv iota.
  assert (scan_sign (String sg ds) = (String sg "", ds)) as -> by (by destruct Hsg as [-> | ->]).
  unfold scan_digits1. rewrite scan_digits_all by done. destruct (String.eqb_spec ds ""); done.
Qed.

Definition number_text (neg : bool) (i : N) (f e : string) : string :=
  (if neg then "-" else "") +:+ pretty i +:+ fraction_text f +:+ e.

Lemma number_text_ok neg (i : N) f e :
  all_digits f = true → exponent_ok e →
  ok_number (number_text neg i f e) = true
  ∧ ParseFloat (number_text neg i f e) =
      let r := f64_of_decimal (dec_value 0 (pretty i +:+ f)) (read_exponent e - Z.of_nat (String.length f)) in
      if is_inf r then None else Some (if neg then f64_opp r else r).
Proof.
  intros Hf He. assert (no_digit (fraction_text f +:+ e) = true) as Hn.
  { unfold fraction_text. destruct (String.eqb f ""); [by apply exponent_no_digit|done]. }
  pose proof (scan_int_until i (fraction_text f +:+ e) Hn) as Hi.
  pose proof (scan_fraction_text f e Hf He) as Hfr. pose proof (scan_exponent_text e He) as Hex.
  assert (match fraction_text f with String _ ds => ds | EmptyString => "" end = f) as Hfs.
  { unfold fraction_text. by destruct (String.eqb_spec f "") as [->|]. }
  set (body := pretty i +:+ fraction_text f +:+ e) in *.
  assert (∃ c s, body = String c s ∧ Ascii.eqb c "-" = false) as (c & s & Hb & Hc).
  { destruct (pretty_digits i) as (Hd & _ & Hne). destruct (digits_head _ Hd Hne) as (c & s & Hp & Hc).
    exists c, (s +:+ fraction_text f +:+ e). unfold body. rewrite Hp. split; [done|]. by apply digit_not_sign. }
  assert (scan_number (number_text neg i f e) = Some (number_text neg i f e, "")) as Hs.
  { unfold scan_number, number_text. fold body. destruct neg; cbn [String.append].
    - change (Ascii.eqb "-" "-") with true. cbv iota beta. rewrite Hi. cbn. rewrite Hfr. cbn. rewrite Hex. cbn. by unfold body.
    - rewrite Hb, Hc, <- Hb, Hi. cbn. rewrite Hfr. cbn. rewrite Hex. cbn. by unfold body. }
  split; [by apply bool_decide_eq_true_2|]. unfold ParseFloat, number_text. fold body. destruct neg; cbn [String.append].
  - change (Ascii.eqb "-" "-") with true. cbv iota beta. rewrite Hi. cbn [mbind option_bind]. rewrite Hfr.
    cbn [mbind option_bind]. rewrite Hex. cbn [mbind option_bind]. rewrite Hfs. done.
  - rewrite Hb, Hc, <- Hb. cbv iota beta. rewrite Hi. cbn [mbind option_bind]. rewrite Hfr.
    cbn [mbind option_bind]. rewrite Hex. cbn [mbind option_bind]. rewrite Hfs. done.
Qed.

Lemma scale_down_nonneg num den k : 0 ≤ num → 0 < den → 0 ≤ fst (scale_down num den k).
Proof.
  intros Hn Hd. unfold scale_down. cbn [fst].
  destruct (Z.leb_spec 0 k); apply Z.div_pos; lia.
Qed.

Lemma shortest_digits_nonneg f num den d fuel : ∀ p, 0 ≤ num → 0 < den → 0 ≤ fst (shortest_digits fuel p f num den d).
Proof.
  induction fuel as [|fuel IH]; intros p Hn Hd; cbn [shortest_digits];
    pose proof (scale_down_nonneg num den (p - 1 - d) Hn Hd) as Hs; destruct (scale_down _ _ _) as [down up]; cbn [fst] in Hs;
    destruct (SFeqb _ f), (SFeqb _ f); cbn [andb]; destruct up; cbn [fst]; first [lia|by apply IH].
Qed.

Lemma float_parts m e :
  let num := if 0 <=? e then Zpos m * 2 ^ e else Zpos m in
  let den := if 0 <=? e then 1 else 2 ^ (- e) in 0 < num ∧ 0 < den.
Proof.
  cbv zeta. destruct (Z.leb_spec 0 e).
  - pose proof (pow2_pos e ltac:(lia)). split; [lia|done].
  - pose proof (pow2_pos (- e) ltac:(lia)). split; lia.
Qed.

Lemma shortest_nonneg m e : 0 ≤ fst (shortest m e).
Proof. destruct (float_parts m e) as [Hn Hd]. apply shortest_digits_nonneg; lia. Qed.

Lemma strip_zeros_nonneg fuel : ∀ c x, 0 ≤ c → 0 ≤ fst (strip_zeros fuel c x).
Proof.
  induction fuel as [|fuel IH]; intros c x Hc; cbn [strip_zeros]; [done|].
  destruct (_ && _); [|done]. apply IH. apply Z.div_pos; lia.
Qed.

Lemma digit_pretty c : is_digit c = true → String c "" = pretty (Z.to_N (digit_value c)).
Proof. destruct c as [[][][][][][][][]]; intros H; first [discriminate H|reflexivity]. Qed.

Lemma exponent_digits_ok n : all_digits (exponent_digits n) = true ∧ exponent_digits n ≠ "".
Proof.
  unfold exponent_digits. rewrite pretty_nonneg by lia. destruct (pretty_digits (Z.to_N (Z.abs n))) as (Hd & _ & Hne).
  destruct (Z.abs n <? 10); [|done]. split; [|done]. cbn [all_digits]. by rewrite Hd.
Qed.

(** Both layouts are in the grammar. *)
Lemma format_fixed_text c x : 0 ≤ c → ∃ i f, format_fixed c x = number_text false i f "" ∧ all_digits f = true.
Proof.
  intros Hc. unfold format_fixed, number_text. cbn [String.append]. destruct (Z.leb_spec 0 x) as [Hx|Hx].
  - pose proof (Z.pow_nonneg 10 x ltac:(lia)). exists (Z.to_N (c * 10 ^ x)), "". rewrite pretty_nonneg by nia.
    by rewrite !str_app_nil_r.
  - assert (0 < 10 ^ (- x)) as Hp by (apply Z.pow_pos_nonneg; lia).
    assert (0 ≤ c `div` 10 ^ (- x)) as Hq by (by apply Z.div_pos).
    destruct (fixed_digits_spec (Z.to_nat (- x)) (c `mod` 10 ^ (- x)) "") as (H1 & _); [|done|].
    { rewrite Z2Nat.id by lia. by apply Z.mod_pos_bound. }
    destruct (trim_zeros_spec _ H1) as (k & H2 & _). set (fr := trim_zeros _) in *.
    exists (Z.to_N (c `div` 10 ^ (- x))), fr. rewrite (pretty_nonneg _ Hq), str_app_nil_r. split; [|done].
    unfold fraction_text. destruct fr as [|a fr]; [by rewrite str_app_nil_r|done].
Qed.

Lemma format_scientific_text c x : 0 ≤ c → ∃ d ds e,
  pretty c = String d ds ∧ is_digit d = true ∧ all_digits ds = true ∧ exponent_ok e
  ∧ read_exponent e = (let n := Z.of_nat (String.length ds) + x in
                       if n <? 0 then - exponent_value 0 (exponent_digits n) else exponent_value 0 (exponent_digits n))
  ∧ format_scientific c x = number_text false (Z.to_N (digit_value d)) ds e.
Proof.
  intros Hc. unfold format_scientific. rewrite (pretty_nonneg c Hc). destruct (pretty_digits (Z.to_N c)) as (Hd & _ & Hne).
  destruct (digits_head _ Hd Hne) as (d & ds & Hp & Hdd). rewrite Hp in *. cbn [all_digits] in Hd. apply andb_true_iff in Hd as [_ Hds].
  set (n := Z.of_nat (String.length ds) + x). destruct (exponent_digits_ok n) as [He Hee].
  exists d, ds, (String "e" (String (if n <? 0 then "-"%char else "+"%char) (exponent_digits n))). split_and!; try done.
  - right. eexists _, _. split_and!; try done. destruct (n <? 0); auto.
  - cbn [read_exponent]. cbv zeta. fold n. destruct (n <? 0); reflexivity.
  - unfold number_text. rewrite <- digit_pretty by done. reflexivity.
Qed.

(** What the encoder writes is a number for the decoder. *)
Lemma format_g_ok f t : format_g f = Some t → ok_number t = true.
Proof.
  assert (exponent_ok "") as Hno by (by left).
  destruct f as [s|s| |s m e]; cbn [format_g]; try done; [intros [= <-]; by destruct s|].
  pose proof (shortest_nonneg m e) as H0. destruct (shortest m e) as [c0 x0]. pose proof (strip_zeros_nonneg 17 c0 x0 H0) as H1.
  destruct (strip_zeros 17 c0 x0) as [c x]. cbn [fst] in *. intros [= <-].
  destruct (_ || _).
  - destruct (format_scientific_text c x H1) as (d & ds & ex & _ & _ & Hds & Hex & _ & ->).
    by apply (number_text_ok s (Z.to_N (digit_value d)) ds ex).
  - destruct (format_fixed_text c x H1) as (i & fr & -> & Hfr). by apply (number_text_ok s i fr "").
Qed.

(** ** Integers *)

Lemma log10_exists n : 0 < n → ∃ d, 0 ≤ d ∧ 10 ^ d ≤ n < 10 ^ (d + 1).
Proof.
  intros Hn. assert (∀ k : nat, n < 10 ^ Z.of_nat k → ∃ d, 0 ≤ d ∧ 10 ^ d ≤ n < 10 ^ (d + 1)) as H.
  { induction k as [|k IH]; intros Hk; [cbn in Hk; lia|]. destruct (Z.le_gt_cases (10 ^ Z.of_nat k) n); [|by apply IH].
    exists (Z.of_nat k). split_and!; [lia|done|]. by replace (Z.of_nat k + 1) with (Z.of_nat (S k)) by lia. }
  apply (H (Z.to_nat n)). rewrite Z2Nat.id by lia. apply Z.pow_gt_lin_r; lia.
Qed.

Section integer.
Context (n den d : Z) (Hn : 0 < n) (Hden : 0 < den) (Hd : 0 ≤ d) (Hlo : 10 ^ d ≤ n) (Hhi : n < 10 ^ (d + 1)).

Lemma decimal_exponent_int fuel : ∀ d0, Z.abs (d0 - d) < Z.of_nat fuel → decimal_exponent fuel (n * den) den d0 = d.
Proof.
  assert (∀ k, (if 0 <=? k then 10 ^ k * den <=? n * den else den <=? n * den * 10 ^ (- k)) = (k <=? d)) as Hge.
  { intros k. destruct (Z.leb_spec 0 k) as [Hk|Hk].
    - destruct (Z.leb_spec k d) as [Hkd|Hkd].
      + apply Z.leb_le. pose proof (Z.pow_le_mono_r 10 k d). nia.
      + apply Z.leb_gt. pose proof (Z.pow_le_mono_r 10 (d + 1) k). nia.
    - rewrite (proj2 (Z.leb_le k d)) by lia. apply Z.leb_le. assert (0 < 10 ^ (- k)) by (apply Z.pow_pos_nonneg; lia).
      assert (1 ≤ n * 10 ^ (- k)) by nia. replace (n * den * 10 ^ (- k)) with (n * 10 ^ (- k) * den) by ring. nia. }
  induction fuel as [|fuel IH]; intros d0 Hf; [lia|]. cbn [decimal_exponent]. rewrite !Hge.
  destruct (Z.leb_spec d0 d) as [H1|H1]; cbn [negb]; [|apply IH; lia].
  destruct (Z.leb_spec (d0 + 1) d) as [H2|H2]; [apply IH; lia|lia].
Qed.

(** The loop stops at the latest with all the digits of the integer. *)
Lemma shortest_digits_int f fuel : ∀ p,
  SFeqb (f64_of_Z n) f = true → 1 ≤ p ≤ d + 1 → d + 1 ≤ p + Z.of_nat fuel →
  let '(c, x) := shortest_digits fuel p f (n * den) den d in
  0 ≤ x ≤ d ∧ 0 ≤ c ≤ n + 1 ∧ SFeqb (f64_of_decimal c x) f = true.
Proof.
  induction fuel as [|fuel IH]; intros p Hf Hp Hfuel; cbn [shortest_digits]; set (k := p - 1 - d).
  all: assert (0 ≤ fst (scale_down (n * den) den k) ≤ n ∧
    (k = 0 → fst (scale_down (n * den) den k) = n)) as [Hs Hk0].
  1, 3: unfold scale_down; cbn [fst]; destruct (Z.leb_spec 0 k) as [Hk|Hk];
    [replace k with 0 by lia; rewrite Z.pow_0_r, Z.mul_1_r, Z.div_mul by lia; lia|];
    assert (0 < 10 ^ (- k)) by (apply Z.pow_pos_nonneg; lia); split; [|lia]; split; [apply Z.div_pos; nia|];
    apply Z.div_le_upper_bound; nia.
  all: destruct (scale_down (n * den) den k) as [down up]; cbn [fst] in *.
  all: destruct (SFeqb (f64_of_decimal down (- k)) f) eqn:E1, (SFeqb (f64_of_decimal (down + 1) (- k)) f) eqn:E2; cbn [andb].
  1-3, 5-7: try destruct up; (split_and!; [lia..|done]).
  all: assert (k ≠ 0) by (intros Hk; rewrite (Hk0 Hk), Hk in E1; cbn in E1; destruct n as [|z|z]; [lia| |lia];
    cbn [f64_of_decimal Z.opp] in E1; rewrite Z.leb_refl, Z.pow_0_r, Z.mul_1_r in E1; congruence).
  - lia.
  - apply IH; [done|lia|lia].
Qed.
End integer.

Lemma strip_zeros_int fuel : ∀ c x, 0 < c → 0 ≤ x →
  let '(c', x') := strip_zeros fuel c x in 0 < c' ≤ c ∧ x ≤ x' ≤ x + Z.of_nat fuel ∧ c' * 10 ^ x' = c * 10 ^ x.
Proof.
  induction fuel as [|fuel IH]; intros c x Hc Hx; cbn [strip_zeros]; [lia|].
  destruct (Z.eqb_spec (c `mod` 10) 0) as [Hm|Hm]; cbn [andb]; [|lia].
  destruct (Z.ltb_spec 0 c); [|lia]. pose proof (Z.div_mod c 10 ltac:(lia)) as Hdm.
  specialize (IH (c `div` 10) (x + 1) ltac:(lia) ltac:(lia)). destruct (strip_zeros fuel (c `div` 10) (x + 1)) as [c' x'].
  destruct IH as (H1 & H2 & H3). split_and!; [lia..|]. rewrite H3, Z.pow_add_r by lia. nia.
Qed.

Lemma f64_of_decimal_int c x : 0 < c → 0 ≤ x → f64_of_decimal c x = f64_of_Z (c * 10 ^ x).
Proof. intros Hc Hx. destruct c as [|z|z]; [lia| |lia]. unfold f64_of_decimal. by rewrite (proj2 (Z.leb_le 0 x)). Qed.

Lemma SFeqb_finite a m e : SFeqb a (S754_finite false m e) = true → a = S754_finite false m e.
Proof.
  unfold SFeqb. destruct a as [s|s| |[] m' e']; cbn [SFcompare]; try done; [by destruct s|].
  destruct (Z.compare_spec e' e) as [->| |]; [|done|done].
  change (Pos.compare_cont Eq m' m) with (m' ?= m)%positive. by destruct (Pos.compare_spec m' m) as [->| |].
Qed.

Lemma pretty_go_length k : ∀ (n : N) s, Z.of_N n < 10 ^ Z.of_nat k → (String.length (pretty_N_go n s) ≤ k + String.length s)%nat.
Proof.
  induction k as [|k IH]; intros n s Hn.
  - assert (n = 0%N) as -> by (cbn in Hn; lia). done.
  - destruct (decide (n = 0%N)) as [->|Hz]; [change (pretty_N_go 0 s) with s; lia|]. rewrite pretty_N_go_step by lia.
    rewrite Nat2Z.inj_succ, Z.pow_succ_r in Hn by lia.
    etransitivity; [apply IH|cbn; lia]. rewrite N2Z.inj_div. apply Z.div_lt_upper_bound; lia.
Qed.

Lemma pretty_length (n : N) k : (0 < k)%nat → Z.of_N n < 10 ^ Z.of_nat k → (String.length (pretty n) ≤ k)%nat.
Proof.
  intros Hk Hn. unfold pretty, pretty_N. case_decide; [cbn; lia|]. pose proof (pretty_go_length k n "" Hn) as H1.
  cbn [String.length] in H1. lia.
Qed.

Lemma exponent_value_dec s : ∀ acc, 0 ≤ acc → all_digits s = true → dec_value acc s < 10000 → exponent_value acc s = dec_value acc s.
Proof.
  induction s as [|c s IH]; intros acc Ha Hs Hm; [done|]. cbn [all_digits dec_value exponent_value] in *.
  apply andb_true_iff in Hs as [Hc Hs]. assert (0 ≤ digit_value c) as Hv.
  { unfold is_digit in Hc. apply andb_true_iff in Hc as [Hc _]. apply Z.leb_le in Hc. unfold digit_value. lia. }
  pose proof (dec_value_mono (acc * 10 + digit_value c) s ltac:(lia) Hs). rewrite (proj2 (Z.ltb_lt acc 10000)) by lia.
  apply IH; [lia|done|done].
Qed.

Lemma exponent_digits_value n : 0 ≤ n < 10000 → exponent_value 0 (exponent_digits n) = n.
Proof.
  intros Hn. destruct (exponent_digits_ok n) as [Hd _].
  assert (dec_value 0 (exponent_digits n) = n) as Hv.
  { unfold exponent_digits. rewrite Z.abs_eq, pretty_nonneg by lia. destruct (pretty_digits (Z.to_N n)) as (_ & Hv & _).
    destruct (n <? 10); cbn [dec_value]; [change (0 * 10 + digit_value "0") with 0|]; rewrite Hv; lia. }
  rewrite exponent_value_dec; [done|done|done|]. rewrite Hv. lia.
Qed.

(** The digits of an integer below 2^53, and that they are enough. *)
Lemma shortest_int n : 0 < n < 2 ^ 53 → ∃ m e c x,
  f64_of_Z n = S754_finite false m e ∧ shortest m e = (c, x) ∧ 0 ≤ x ≤ 16 ∧ 0 < c ≤ n + 1 ∧ f64_of_decimal c x = f64_of_Z n.
Proof.
  intros Hn. assert (exact53 n) as Hex.
  { split; [split; [lia|]|exists n, 0; lia]. etransitivity; [apply Hn|]. apply Z.pow_lt_mono_r; lia. }
  destruct (of_Z_exact n Hex) as [[_ ->]|(_ & m & e & Hf & Hdig & Hsc)]; [lia|].
  exists m, e. rewrite Hf. unfold shortest.
  set (num := if 0 <=? e then _ else _). set (den := if 0 <=? e then _ else _).
  pose proof (digits_bounds m) as [Hm1 Hm2]. rewrite Hdig in Hm1, Hm2.
  assert (-52 ≤ e ≤ 0) as He.
  { unfold scaled in Hsc. split.
    - destruct (Z.le_gt_cases (-52) e) as [|Hgt]; [done|]. rewrite Z.max_r, Z.max_l, Z.pow_0_r in Hsc by lia.
      assert (2 ^ 53 ≤ 2 ^ (- e)) by (apply Z.pow_le_mono_r; lia). nia.
    - destruct (Z.le_gt_cases e 0) as [|Hgt]; [done|]. rewrite Z.max_l, Z.max_r, Z.pow_0_r in Hsc by lia.
      assert (2 ^ 1 ≤ 2 ^ e) by (apply Z.pow_le_mono_r; lia). nia. }
  assert (0 < den) as Hden by (unfold den; destruct (0 <=? e); [lia|apply pow2_pos; lia]).
  assert (num = n * den) as Hnum.
  { unfold num, den. unfold scaled in Hsc. destruct (Z.leb_spec 0 e).
    - rewrite Z.max_l, Z.max_r, Z.pow_0_r in Hsc by lia. lia.
    - rewrite Z.max_r, Z.max_l, Z.pow_0_r in Hsc by lia. lia. }
  destruct (log10_exists n) as (d & Hd & Hlo & Hhi); [lia|].
  assert (d ≤ 15) as Hd15.
  { destruct (Z.le_gt_cases d 15) as [|Hgt]; [done|]. assert (10 ^ 16 ≤ 10 ^ d) by (apply Z.pow_le_mono_r; lia). lia. }
  assert (Z.log2 num = 52 ∧ 0 ≤ Z.log2 den ≤ 52) as [Hl1 Hl2].
  { unfold num, den. destruct (Z.leb_spec 0 e).
    - replace e with 0 by lia. rewrite Z.pow_0_r, Z.mul_1_r. split; [apply Z.log2_unique; lia|cbn; lia].
    - split; [apply Z.log2_unique; lia|]. rewrite Z.log2_pow2 by lia. lia. }
  rewrite Hl1, Hnum, (decimal_exponent_int n den d) by (first [lia|Z.to_euclidean_division_equations; lia]).
  assert (SFeqb (f64_of_Z n) (S754_finite false m e) = true) as Hrefl.
  { rewrite Hf. unfold SFeqb. cbn [SFcompare]. rewrite Z.compare_refl.
    change (Pos.compare_cont Eq m m) with (m ?= m)%positive. by rewrite Pos.compare_refl. }
  pose proof (shortest_digits_int n den d ltac:(lia) Hden Hd Hlo Hhi _ 16 1 Hrefl ltac:(lia) ltac:(lia)) as Hsd.
  destruct (shortest_digits 16 1 _ (n * den) den d) as [c x]. destruct Hsd as (Hx & Hc & Heq).
  exists c, x. apply SFeqb_finite in Heq. assert (c ≠ 0) by (by intros ->).
  split_and!; first [lia|done].
Qed.

Lemma format_g_finite (s : bool) m e c0 x0 c x :
  shortest m e = (c0, x0) → strip_zeros 17 c0 x0 = (c, x) →
  let exp := Z.of_nat (String.length (pretty c)) - 1 + x in
  format_g (S754_finite s m e)
  = Some ((if s then "-" else "") +:+ if (exp <? -4) || (6 <=? exp) then format_scientific c x else format_fixed c x).
Proof. intros H1 H2. unfold format_g. by rewrite H1, H2. Qed.

(** The encoder writes [f], and the decoder reads it back. *)
Definition reads_back (f : float64) : Prop := ∃ t, format_g f = Some t ∧ ParseFloat t = Some f.

(** The value of a JSON number that is an integer, with a sign. *)
Definition signed (s : bool) (f : float64) : float64 := if s then f64_opp f else f.

(** Both layouts of [c * 10 ^ x] read as the float nearest to that integer. *)
Lemma ParseFloat_layouts (s : bool) c x n (b : bool) :
  0 < c < 10 ^ 17 → 0 ≤ x < 1000 → f64_of_Z (c * 10 ^ x) = f64_of_Z n → is_inf (f64_of_Z n) = false →
  ParseFloat ((if s then "-" else "") +:+ if b then format_scientific c x else format_fixed c x) = Some (signed s (f64_of_Z n)).
Proof.
  intros Hc Hx Hdec Hinf. destruct b.
  - destruct (format_scientific_text c x ltac:(lia)) as (dg & ds & ex & Hp & Hdg & Hds & Hex & Hre & ->).
    destruct (number_text_ok s (Z.to_N (digit_value dg)) ds ex Hds Hex) as [_ Hpf].
    change (number_text s (Z.to_N (digit_value dg)) ds ex)
      with ((if s then "-" else "") +:+ number_text false (Z.to_N (digit_value dg)) ds ex) in Hpf. rewrite Hpf. cbv zeta.
    rewrite <- digit_pretty by done. change (String dg "" +:+ ds) with (String dg ds). rewrite <- Hp, pretty_nonneg by lia.
    destruct (pretty_digits (Z.to_N c)) as (_ & -> & _). rewrite Z2N.id by lia.
    assert (String.length ds < 17)%nat as Hlen.
    { pose proof (pretty_length (Z.to_N c) 17 ltac:(lia)) as Hl. rewrite <- pretty_nonneg, Hp in Hl by lia. cbn [String.length] in Hl.
      rewrite Z2N.id in Hl by lia. specialize (Hl (proj2 Hc)). lia. }
    rewrite Hre. cbv zeta. rewrite (proj2 (Z.ltb_ge _ 0)) by lia. rewrite exponent_digits_value by lia.
    replace (Z.of_nat (String.length ds) + x - Z.of_nat (String.length ds)) with x by lia.
    rewrite f64_of_decimal_int, Hdec, Hinf by lia. by destruct s.
  - unfold format_fixed. rewrite (proj2 (Z.leb_le 0 x)) by lia. rewrite pretty_nonneg by nia.
    destruct (number_text_ok s (Z.to_N (c * 10 ^ x)) "" "" eq_refl (or_introl eq_refl)) as [_ Hpf].
    unfold number_text in Hpf. change (fraction_text "") with "" in Hpf. rewrite !str_app_nil_r in Hpf. rewrite Hpf. cbv zeta.
    destruct (pretty_digits (Z.to_N (c * 10 ^ x))) as (_ & -> & _). rewrite Z2N.id by nia.
    change (read_exponent "" - Z.of_nat (String.length "")) with 0.
    rewrite f64_of_decimal_int, Z.pow_0_r, Z.mul_1_r, Hdec, Hinf by nia. by destruct s.
Qed.

(** Integers of at most 53 bits survive. *)
Lemma reads_back_int s n : 0 ≤ n < 2 ^ 53 → reads_back (signed s (f64_of_Z n)).
Proof.
  intros Hn. destruct (decide (n = 0)) as [->|Hz]; [destruct s; eexists; by split|].
  destruct (shortest_int n ltac:(lia)) as (m & e & c0 & x0 & Hf & Hsh & Hx0 & Hc0 & Hdec).
  rewrite f64_of_decimal_int in Hdec by lia.
  pose proof (strip_zeros_int 17 c0 x0 ltac:(lia) ltac:(lia)) as Hst. destruct (strip_zeros 17 c0 x0) as [c x] eqn:Es.
  destruct Hst as (Hc & Hx & Hcx). rewrite <- Hcx in Hdec.
  pose proof (format_g_finite s m e c0 x0 c x Hsh Es) as Ht. cbv zeta in Ht.
  assert (signed s (f64_of_Z n) = S754_finite s m e) as Hs by (rewrite Hf; by destruct s).
  eexists. rewrite Hs at 1. split; [exact Ht|]. apply ParseFloat_layouts; [lia|lia|done|by rewrite Hf].
Qed.

(** The text of an integer reads as the float nearest to it. *)
Lemma ParseFloat_int (s : bool) n : 0 ≤ n < 2 ^ 53 →
  ParseFloat ((if s then "-" else "") +:+ pretty (Z.to_N n)) = Some (signed s (f64_of_Z n)).
Proof.
  intros Hn. destruct (number_text_ok s (Z.to_N n) "" "" eq_refl (or_introl eq_refl)) as [_ Hpf].
  unfold number_text in Hpf. change (fraction_text "") with "" in Hpf. rewrite !str_app_nil_r in Hpf. rewrite Hpf. cbv zeta.
  destruct (pretty_digits (Z.to_N n)) as (_ & -> & _). rewrite Z2N.id by lia.
  change (read_exponent "" - Z.of_nat (String.length "")) with 0. destruct (decide (n = 0)) as [->|]; [by destruct s|].
  rewrite f64_of_decimal_int, Z.pow_0_r, Z.mul_1_r by lia.
  destruct (shortest_int n ltac:(lia)) as (m & e & _ & _ & -> & _). by destruct s.
Qed.

(** A [float64] from an integer of either sign. *)
Definition float_of_int (z : Z) : float64 := signed (z <? 0) (f64_of_Z (Z.abs z)).

Lemma json_int_reads z : Z.abs z < 2 ^ 53 → ParseFloat (pretty z) = Some (float_of_int z) ∧ reads_back (float_of_int z).
Proof.
  intros Hz. split; [|apply reads_back_int; lia]. unfold float_of_int. destruct (Z.ltb_spec z 0) as [Hneg|Hpos].
  - destruct z as [|p|p]; [lia|lia|]. apply (ParseFloat_int true (Z.pos p)). lia.
  - rewrite pretty_nonneg by done. rewrite Z.abs_eq by done. apply (ParseFloat_int false z). lia.
Qed.
