(* ===== verification/MessageJson.v ===== *)
(** * The JSON of messages on the bus (src/router/registry_message.go, src/common/component.go)

    How [json.Unmarshal] fills a [RegistryMessage] and [json.Marshal] writes a
    [RouterStart]. *)

From S2P Require Import Prelude GoStrings Utf8 Strconv Http Json JsonSpec JsonDecode JsonDecodeSpec Uris.

Local Open Scope Z_scope.

Record RegistryMessage := mkRM {
  rm_Host : string;
  rm_Port : Z;
  rm_Uris : list Uri;
  rm_Tags : gmap string string;
  rm_App : string;
  rm_StaleThresholdInSeconds : Z;
  rm_RouteServiceUrl : string;
  rm_PrivateInstanceId : string;
}.

Record RouterStart := mkStart {
  Id : string;
  Hosts : list string;
  MinimumRegisterIntervalInSeconds : Z;
  PruneThresholdInSeconds : Z;
}.

(** The struct while it is filled: [Uris] is a slice with its backing array. *)
Record rm_struct := mkStruct {
  s_Host : string;
  s_Port : Z;
  s_Uris : slice Uri;
  s_Tags : gmap string string;
  s_App : string;
  s_Stale : Z;
  s_RouteServiceUrl : string;
  s_PrivateInstanceId : string;
}.

Definition rm_zero : rm_struct := mkStruct "" 0 nil_slice ∅ "" 0 "" "".
Definition rm_of (m : rm_struct) : RegistryMessage :=
  mkRM (s_Host m) (s_Port m) (elements (s_Uris m)) (s_Tags m) (s_App m) (s_Stale m) (s_RouteServiceUrl m) (s_PrivateInstanceId m).

(** [route.Uri] is a string. *)
Definition rm_fields : list (string * decoder rm_struct) :=
  [("host", field s_Host
      (λ x '(mkStruct h p u t a s r i), mkStruct x p u t a s r i) decode_string);
   ("port", field s_Port
      (λ x '(mkStruct h p u t a s r i), mkStruct h x u t a s r i) (decode_uint 16));
   ("uris", field s_Uris
      (λ x '(mkStruct h p u t a s r i), mkStruct h p x t a s r i) (decode_slice decode_string ""));
   ("tags", field s_Tags
      (λ x '(mkStruct h p u t a s r i), mkStruct h p u x a s r i) decode_map);
   ("app", field s_App
      (λ x '(mkStruct h p u t a s r i), mkStruct h p u t x s r i) decode_string);
   ("stale_threshold_in_seconds", field s_Stale
      (λ x '(mkStruct h p u t a s r i), mkStruct h p u t a x r i) decode_int);
   ("route_service_url", field s_RouteServiceUrl
      (λ x '(mkStruct h p u t a s r i), mkStruct h p u t a s x i) decode_string);
   ("private_instance_id", field s_PrivateInstanceId
      (λ x '(mkStruct h p u t a s r i), mkStruct h p u t a s r x) decode_string)].

Definition UnmarshalMessage (payload : string) : option RegistryMessage :=
  let '(m, ok) := Unmarshal (decode_struct rm_fields) payload rm_zero in
  if ok then Some (rm_of m) else None.

(** What [json.Marshal] makes of the two; [tags] are the entries of the map in
    the order of their keys. *)
Definition message_json (rm : RegistryMessage) (tags : list (string * string)) : json :=
  JObj [("host", json_string (rm_Host rm)); ("port", json_int (rm_Port rm));
        ("uris", JArr (map json_string (rm_Uris rm)));
        ("tags", JObj (map (λ kv, (escape (fst kv), json_string (snd kv))) tags));
        ("app", json_string (rm_App rm));
        ("stale_threshold_in_seconds", json_int (rm_StaleThresholdInSeconds rm));
        ("route_service_url", json_string (rm_RouteServiceUrl rm));
        ("private_instance_id", json_string (rm_PrivateInstanceId rm))].

Definition start_json (d : RouterStart) : json :=
  JObj [("id", json_string (Id d)); ("hosts", JArr (map json_string (Hosts d)));
        ("minimumRegisterIntervalInSeconds", json_int (MinimumRegisterIntervalInSeconds d));
        ("pruneThresholdInSeconds", json_int (PruneThresholdInSeconds d))].

Definition MarshalStart (d : RouterStart) : string := print_json (start_json d).

(** ** Reading back *)

(** Strings are UTF-8 and numbers have the width of their fields. *)
Definition encodable (rm : RegistryMessage) : Prop :=
  valid_utf8 (rm_Host rm) = true ∧ valid_utf8 (rm_App rm) = true ∧ valid_utf8 (rm_RouteServiceUrl rm) = true
  ∧ valid_utf8 (rm_PrivateInstanceId rm) = true ∧ forallb valid_utf8 (rm_Uris rm) = true
  ∧ 0 ≤ rm_Port rm < 65536 ∧ in_int64 (rm_StaleThresholdInSeconds rm).

Definition encodable_tags (tags : list (string * string)) : bool :=
  forallb (λ kv, valid_utf8 (fst kv) && valid_utf8 (snd kv)) tags.

Lemma decode_entries_tags tags : ∀ m, encodable_tags tags = true →
  decode_entries (map (λ kv, (escape (fst kv), json_string (snd kv))) tags) m
  = (foldl (λ m kv, <[fst kv := snd kv]> m) m tags, NoError).
Proof.
  induction tags as [|[k v] tags IH]; intros m; [done|]. cbn [encodable_tags forallb fst snd].
  intros [[Hk Hv]%andb_true_iff Ht]%andb_true_iff. cbn [map decode_entries fst snd foldl].
  rewrite unquote_escape, sanitize_valid, decode_string_valid by done. cbv iota beta. by rewrite IH.
Qed.

Lemma foldl_insert_list (l : list (string * string)) : NoDup (fst <$> l) → ∀ m : gmap string string,
  foldl (λ m kv, <[fst kv := snd kv]> m) m l = list_to_map l ∪ m.
Proof.
  induction l as [|[k v] l IH]; intros Hnd m; cbn [foldl]; [by rewrite list_to_map_nil, (left_id_L ∅ _)|]. cbn [fmap list_fmap fst snd] in *.
  apply NoDup_cons in Hnd as [Hk Hnd]. rewrite IH by done. cbn [list_to_map foldr fst snd].
  rewrite <- insert_union_r by (by apply not_elem_of_list_to_map_1). by rewrite insert_union_l.
Qed.

Lemma json_ok_strings l : forallb json_ok (map json_string l) = true.
Proof. induction l as [|s l IH]; [done|]. cbn [map forallb]. unfold json_string at 1. cbn [json_ok]. by rewrite ok_raw_escape. Qed.

Lemma json_ok_tags tags : json_ok (JObj (map (λ kv, (escape (fst kv), json_string (snd kv))) tags)) = true.
Proof.
  cbn [json_ok]. induction tags as [|kv tags IH]; [done|]. cbn [map forallb fst snd]. unfold json_string at 1. cbn [json_ok].
  by rewrite !ok_raw_escape.
Qed.

Lemma json_ok_string s : json_ok (json_string s) = true.
Proof. apply ok_raw_escape. Qed.

Lemma json_ok_int n : json_ok (json_int n) = true.
Proof. apply pretty_ok_number. Qed.

(** C28: A registration that a client encodes as JSON is the registration the
    router decodes, field by field, whatever order the tags come in. *)
Theorem message_roundtrip rm tags :
  encodable rm → encodable_tags tags = true → NoDup (fst <$> tags) → rm_Tags rm = list_to_map tags →
  UnmarshalMessage (print_json (message_json rm tags)) = Some rm.
Proof.
  intros (Hh & Ha & Hr & Hi & Hu & Hp & Hs) Ht Hnd Htags. unfold UnmarshalMessage. rewrite Unmarshal_print.
  2:{ unfold message_json. cbn [json_ok forallb fst snd]. rewrite !json_ok_string, !json_ok_int.
      rewrite (json_ok_strings (rm_Uris rm)). change (forallb _ (map _ tags)) with (json_ok (JObj (map (λ kv, (escape (fst kv), json_string (snd kv))) tags))).
      rewrite json_ok_tags. reflexivity. }
  unfold message_json. cbn [decode_struct].
  destruct (decode_slice_map decode_string "" json_string id (rm_Uris rm) nil_slice) as (us & Hus & Hel).
  { intros x old Hx. apply decode_string_valid. rewrite forallb_forall in Hu. by apply Hu, list_elem_of_In. }
  pose proof (decode_entries_tags tags ∅ Ht) as Htm. rewrite foldl_insert_list, (right_id_L ∅ _) in Htm by done.
  unfold rm_zero.
  repeat (erewrite decode_members_step; [|reflexivity|reflexivity|
    apply field_step; cbn [s_Host s_Port s_Uris s_Tags s_App s_Stale s_RouteServiceUrl s_PrivateInstanceId];
    first [by apply decode_string_valid|by apply decode_int_int|by apply decode_uint_int|exact Hus|exact Htm]]; cbv beta iota).
  cbn [decode_members]. rewrite bool_decide_true by done. cbv iota. unfold rm_of.
  cbn [s_Host s_Port s_Uris s_Tags s_App s_Stale s_RouteServiceUrl s_PrivateInstanceId]. rewrite Hel, map_id, <- Htags.
  by destruct rm.
Qed.

(** Whatever arrives, the numbers of a message have the width of their fields. *)
Lemma UnmarshalMessage_range payload rm :
  UnmarshalMessage payload = Some rm → 0 ≤ rm_Port rm < 65536 ∧ in_int64 (rm_StaleThresholdInSeconds rm).
Proof.
  unfold UnmarshalMessage, Unmarshal. destruct (parse_json payload) as [v|]; [|done].
  set (P := λ m, 0 ≤ s_Port m < 65536 ∧ in_int64 (s_Stale m)). assert (P rm_zero) as H0 by done.
  assert (P (fst (decode_struct rm_fields v rm_zero))) as Hp.
  { destruct v as [| | | | |l]; [done..|]. cbn [decode_struct]. apply decode_members_inv; [|done].
    repeat (apply Forall_cons; split); [..|by apply Forall_nil]; intros v [h p u t a s r i] [Hp Hs]; unfold P, field; cbn in *.
    all: try (by case_match).
    - pose proof (decode_uint_range 16 v p Hp). by destruct (decode_uint 16 v p).
    - pose proof (decode_int_range v s Hs). by destruct (decode_int v s). }
  destruct (decode_struct rm_fields v rm_zero) as [m e]. destruct (bool_decide _); [|done]. by intros [= <-].
Qed.

Definition sample_rm : RegistryMessage :=
  mkRM "10.0.0.7" 8080 ["Shop.example.com/"; "shop.example.com/caf" +:+ EncodeRune 0xE9] {["component" := "dea-1"; "a" := "<b>"]}
    "app7" 60 "" "id7".

Lemma message_roundtrip_witness :
  UnmarshalMessage (print_json (message_json sample_rm [("a", "<b>"); ("component", "dea-1")])) = Some sample_rm.
Proof.
  apply message_roundtrip.
  - unfold encodable, in_int64. split_and!; vm_compute; first [reflexivity|discriminate].
  - reflexivity.
  - apply NoDup_cons; split; [set_solver|apply NoDup_singleton].
  - vm_compute. reflexivity.
Defined.

(** Names of fields in another case, unknown ones, spaces, [null] and a number
    with a fraction. *)
Definition json_text (pieces : list string) : string := strings_Join pieces (String dquote "").

Example loose_message :
  UnmarshalMessage (json_text ["{ "; "HOST"; " : "; "h"; ", "; "x"; ":[{}], "; "Uri"; ":null, "; "URIS"; ":["; "a"; "], "; "tags"; ":null}"])
  = Some (mkRM "h" 0 ["a"] ∅ "" 0 "" "").
Proof. vm_compute. reflexivity. Qed.
Example bad_port : UnmarshalMessage (json_text ["{"; "port"; ":65536}"]) = None ∧ UnmarshalMessage (json_text ["{"; "port"; ":80.0}"]) = None.
Proof. vm_compute. done. Qed.
(** A slice that is written twice keeps the elements [null] stands for. *)
Example null_element :
  UnmarshalMessage (json_text ["{"; "uris"; ":["; "a"; ","; "b"; "],"; "uris"; ":[null]}"]) = Some (mkRM "" 0 ["a"] ∅ "" 0 "" "").
Proof. vm_compute. reflexivity. Qed.
