(* ===== verification/RegistryJson.v ===== *)
(** * The routes page (src/route/endpoint.go, src/route/pool.go, src/registry/registry.go)

    [MarshalJSON] of endpoints, pools and the registry.  The encoder writes
    the entries of a map in the order of their keys, whatever order Go ranges
    over it. *)

From stdpp Require Import sorting.
From S2P Require Import Prelude GoStrings Utf8 Floats Strconv Http Durations Json JsonSpec JsonDecode JsonDecodeSpec.
From S2P Require Import MessageJson Uris Pool PoolSpec Trie TrieSpec TraversalSpec Registry RegistrySpec RegistryTheorems.

(** ** Maps *)

Definition key_le {A} (a b : string * A) : Prop := String.le (fst a) (fst b).
#[export] Instance key_le_dec {A} (a b : string * A) : Decision (key_le a b).
Proof. unfold key_le. apply _. Defined.
#[export] Instance key_le_total {A} : Total (@key_le A).
Proof. intros a b. apply String.le_total. Qed.
#[export] Instance key_le_trans {A} : Transitive (@key_le A).
Proof. intros a b c. unfold key_le. apply transitivity. Qed.

Definition sorted_entries {A} (m : gmap string A) : list (string * A) := merge_sort key_le (map_to_list m).

Lemma sorted_entries_elem {A} (m : gmap string A) k v : (k, v) ∈ sorted_entries m ↔ m !! k = Some v.
Proof. unfold sorted_entries. by rewrite merge_sort_Permutation, elem_of_map_to_list. Qed.

Lemma sorted_entries_keys {A} (m : gmap string A) : NoDup (fst <$> sorted_entries m) ∧ StronglySorted key_le (sorted_entries m).
Proof.
  unfold sorted_entries. split; [rewrite merge_sort_Permutation; apply NoDup_fst_map_to_list|apply (StronglySorted_merge_sort _)].
Qed.

Lemma StronglySorted_keys {A B} (l : list (string * A)) (l' : list (string * B)) :
  fst <$> l' = fst <$> l → StronglySorted key_le l → StronglySorted key_le l'.
Proof.
  revert l; induction l' as [|[k y] l' IH]; intros [|[k0 x] l]; try done; [constructor|]. cbn. intros [= -> Hk] Hs.
  apply StronglySorted_inv in Hs as [Hs Hall]. constructor; [by eapply IH|].
  pose proof (proj1 (Forall_forall _ _) Hall) as Hle. apply Forall_forall.
  intros [k' y'] Hin. unfold key_le in *. cbn [fst] in *. assert (k' ∈ fst <$> l) as Hin'.
  { rewrite <- Hk. apply list_elem_of_fmap. by exists (k', y'). }
  apply list_elem_of_fmap in Hin' as ([k'' x'] & -> & Hin'). by apply (Hle (k'', x')).
Qed.

(** ** Endpoints and pools *)

(** [int(e.staleThreshold.Seconds())] *)
Definition ttl (e : Endpoint) : Z := int64_of_f64 (Duration_Seconds (staleThreshold e)).

Definition endpoint_json (e : Endpoint) : json :=
  JObj ([("address", json_string (addr e)); ("ttl", json_int (ttl e))]
        ++ if String.eqb (RouteServiceUrl e) "" then [] else [("route_service_url", json_string (RouteServiceUrl e))]).

Definition Endpoint_MarshalJSON (e : Endpoint) : string := print_json (endpoint_json e).

(** The structs are copied from the pool, in the order of the slice. *)
Definition pool_json (p : Pool) : res json :=
  endpoints ← foldM (λ acc ptr, e ← deref p ptr; Ok (acc ++ [ep (el_endpoint e)])) [] (endpoints p);
  Ok (JArr (map endpoint_json endpoints)).

Definition Pool_MarshalJSON (p : Pool) : res string := j ← pool_json p; Ok (print_json j).

(** ** The registry *)

Definition registry_json (range : gmap string positive → list (string * positive)) (r : RouteRegistry) : res json :=
  m ← routes_map range r;
  l ← foldM (λ acc '(uri, v), p ← pool_of r v; j ← pool_json p; Ok (acc ++ [(escape uri, j)])) [] (sorted_entries m);
  Ok (JObj l).

Definition RouteRegistry_MarshalJSON (range : gmap string positive → list (string * positive)) (r : RouteRegistry) : res string :=
  j ← registry_json range r; Ok (print_json j).

(** ** What the page shows *)

(** The seconds an endpoint was registered with, for every threshold a
    duration can hold. *)
Lemma ttl_NewEndpoint ptr app host port id tags n url :
  in_int64 (n * Second) → ttl (NewEndpoint ptr app host port id tags n url) = n.
Proof.
  intros Hn. unfold ttl. cbn [ep NewEndpoint staleThreshold]. unfold seconds_to_duration. rewrite wrap64_id by done.
  change (whole_seconds (n * Second) = n). rewrite whole_seconds_exact; [|done|apply Z.rem_mul; done].
  by apply Z.quot_mul.
Qed.

Lemma endpoint_json_ok e : json_ok (endpoint_json e) = true.
Proof.
  unfold endpoint_json. destruct (String.eqb (RouteServiceUrl e) ""); cbn [app json_ok forallb fst snd].
  all: by rewrite ?json_ok_string, ?json_ok_int.
Qed.

Lemma pool_json_Each p l : Each p = Ok l → pool_json p = Ok (JArr (map (λ e : EndpointRef, endpoint_json e) l)).
Proof.
  unfold Each, pool_json. intros H.
  assert (∀ es acc l, foldM (λ acc ptr, e ← deref p ptr; Ok (acc ++ [el_endpoint e])) acc es = Ok l →
    foldM (λ acc ptr, e ← deref p ptr; Ok (acc ++ [ep (el_endpoint e)])) (map ep acc) es = Ok (map ep l)) as Hmap.
  { clear H l. induction es as [|ptr es IH]; intros acc l; cbn [foldM]; [by intros [= <-]|].
    destruct (deref p ptr) as [e| |]; [|done..]. cbn [mbind res_mbind]. intros H. rewrite <- (IH _ _ H). by rewrite map_app. }
  apply Hmap in H. cbn [map] in H. rewrite H. cbn [mbind res_mbind]. by rewrite map_map.
Qed.

Definition page_member (kv : string * list EndpointRef) : string * json :=
  (escape (fst kv), JArr (map (λ e : EndpointRef, endpoint_json e) (snd kv))).
Definition page_json (entries : list (string * list EndpointRef)) : json := JObj (map page_member entries).

Lemma page_json_ok entries : json_ok (page_json entries) = true.
Proof.
  cbn [page_json json_ok]. induction entries as [|[k es] entries IH]; [done|]. cbn [map forallb].
  unfold page_member at 1 2. cbn [fst snd json_ok]. rewrite ok_raw_escape. assert (forallb json_ok (map (λ e : EndpointRef, endpoint_json e) es) = true) as ->; [|done].
  induction es as [|e es IHe]; [done|]. cbn [map forallb]. by rewrite endpoint_json_ok.
Qed.

(** C27: The routes page is a JSON text that can be read back, whatever order
    Go ranges over maps in. If every registered path begins with a host, that
    is a first segment that is not empty ([host_path]), its keys are the
    registered paths joined with slashes, in order and each once, and under
    each key stand the endpoints of its pool with address, seconds until they
    are stale and route service, in the order of the pool. The router also
    takes URIs that begin with two slashes; their routes can share a key with
    others ([slash_uri_hidden]). *)
Theorem routes_page range r :
  (∀ m, range m ≡ₚ map_to_list m) → registry_wf r → (∀ q, is_Some (pool_ref r q) → host_path q) →
  ∃ text entries, RouteRegistry_MarshalJSON range r = Ok text ∧ parse_json text = Some (page_json entries)
    ∧ NoDup (fst <$> entries) ∧ StronglySorted key_le entries
    ∧ ∀ k es, (k, es) ∈ entries ↔
        ∃ q v p, k = strings_Join q "/" ∧ pool_ref r q = Some v ∧ pools r !! v = Some p ∧ Each p = Ok es.
Proof.
  intros Hrange Hwf Hhost. destruct (routes_map_spec range r Hrange Hwf Hhost) as (m & Hm & Hmap).
  destruct (sorted_entries_keys m) as [Hnd Hsorted].
  assert (∀ l, (∀ k v, (k, v) ∈ l → m !! k = Some v) → ∀ acc,
    ∃ entries, foldM (λ acc '(uri, v), p ← pool_of r v; j ← pool_json p; Ok (acc ++ [(escape uri, j)])) acc l
        = Ok (acc ++ map page_member entries)
      ∧ Forall2 (λ kv ke, fst ke = fst kv ∧ ∃ p, pools r !! snd kv = Some p ∧ Each p = Ok (snd ke)) l entries) as Hfold.
  { induction l as [|[k v] l IH]; intros Hl acc; [exists []; by rewrite app_nil_r|].
    assert (m !! k = Some v) as Hk by (apply Hl; by left). apply Hmap in Hk as (q & -> & Hq).
    destruct (reg_pools r Hwf q v Hq) as (p & Hp & Hpwf). destruct (Each_spec p Hpwf) as (es & Hes & _).
    cbn [foldM]. unfold pool_of. rewrite Hp. cbn [or_panic mbind res_mbind]. rewrite (pool_json_Each _ _ Hes). cbn [mbind res_mbind].
    destruct (IH (λ k v H, Hl k v (list_elem_of_further _ _ _ H)) (acc ++ [page_member (strings_Join q "/", es)]))
      as (entries & Hf & Hall).
    exists ((strings_Join q "/", es) :: entries). split; [etransitivity; [exact Hf|by rewrite <- app_assoc]|]. constructor; [|done]. eauto. }
  destruct (Hfold (sorted_entries m) (λ k v, proj1 (sorted_entries_elem m k v)) []) as (entries & Hf & Hall).
  assert (fst <$> entries = fst <$> sorted_entries m) as Hkeys.
  { clear -Hall. induction Hall as [|kv ke l l' [H _] _ IH]; [done|]. cbn. by rewrite H, IH. }
  exists (print_json (page_json entries)), entries.
  unfold RouteRegistry_MarshalJSON, registry_json. rewrite Hm. cbn [mbind res_mbind]. rewrite Hf. cbn [mbind res_mbind app].
  split_and!; [done|apply parse_print, page_json_ok|by rewrite Hkeys|by apply (StronglySorted_keys (sorted_entries m))|].
  intros k es. split.
  - intros Hin. apply list_elem_of_lookup in Hin as [i Hi]. destruct (Forall2_lookup_r _ _ _ _ _ Hall Hi) as ([k' v] & Hk & Heq & p & Hp & Hes).
    cbn [fst snd] in *. subst k'. apply list_elem_of_lookup_2, sorted_entries_elem, Hmap in Hk as (q & -> & Hq). eauto 10.
  - intros (q & v & p & -> & Hq & Hp & Hes). assert ((strings_Join q "/", v) ∈ sorted_entries m) as Hin.
    { apply sorted_entries_elem, Hmap. eauto. }
    apply list_elem_of_lookup in Hin as [i Hi]. destruct (Forall2_lookup_l _ _ _ _ _ Hall Hi) as ([k' es'] & Hk & Heq & p' & Hp' & Hes').
    cbn [fst snd] in *. subst k'. assert (p' = p) as -> by congruence. assert (es' = es) as -> by congruence.
    by eapply list_elem_of_lookup_2.
Qed.

Lemma routes_page_witness :
  ∃ text entries, RouteRegistry_MarshalJSON map_to_list sample = Ok text ∧ parse_json text = Some (page_json entries)
    ∧ NoDup (fst <$> entries) ∧ StronglySorted key_le entries
    ∧ ∀ k es, (k, es) ∈ entries ↔
        ∃ q v p, k = strings_Join q "/" ∧ pool_ref sample q = Some v ∧ pools sample !! v = Some p ∧ Each p = Ok es.
Proof. apply (routes_page map_to_list sample map_to_list_range sample_wf sample_paths). Defined.

Example sample_page : RouteRegistry_MarshalJSON map_to_list sample = Ok (json_text
    ["{"; "*.example.com"; ":[{"; "address"; ":"; "10.0.0.3:80"; ","; "ttl"; ":0}],"; "a.example.com"; ":[{";
      "address"; ":"; "10.0.0.1:80"; ","; "ttl"; ":0}],"; "a.example.com/v2"; ":[{"; "address"; ":";
      "10.0.0.2:80"; ","; "ttl"; ":0}]}"]).
Proof. vm_compute. reflexivity. Qed.

(** The URIs [//foo] and [foo] are different paths of the trie, but have the same
    key on the page: one of the two routes is missing, which one depends on the
    order Go ranges in. *)
Definition slash_ops : list reg_op :=
  [OpRegister 0 0 "//foo" (NewEndpoint 1 "app" "10.0.0.1" 80 "id1" ∅ 0 ""); OpRegister 0 0 "foo" (NewEndpoint 2 "app" "10.0.0.2" 80 "id2" ∅ 0 "")].

Definition slash_registry : RouteRegistry :=
  match foldM (reg_step map_to_list) (NewRouteRegistry 0 (120 * Second)) slash_ops with Ok r => r | _ => NewRouteRegistry 0 0 end.

Example slash_uri_hidden :
  is_Some (pool_ref slash_registry [""; "foo"]) ∧ is_Some (pool_ref slash_registry ["foo"])
  ∧ (size <$> match routes_map map_to_list slash_registry with Ok m => Some m | _ => None end) = Some 1.
Proof. vm_compute. split; [eauto|]. split; [eauto|reflexivity]. Qed.
