(* ===== verification/LogCounter.v ===== *)
(** * Log counter and process statistics (src/common/log_counter.go, src/common/process_status.go)

    The levels of the logging library (gosteno), whose fatal messages panic.  The
    log counter is a sink of it that counts records per level; its methods run
    under its lock.  The process statistics are read from the operating system
    once a second. *)

From S2P Require Import Prelude GoStrings Utf8 Floats Strconv Http Json JsonSpec JsonDecode JsonDecodeSpec.
From S2P Require Import MessageJson Uris Pool PoolSpec Trie TrieSpec Registry RegistrySpec RegistryJson.

Local Open Scope Z_scope.

(** ** The levels of the logger (package [gosteno]) *)

Record LogLevel := mkLevel {
  level_Name : string;
  Priority : Z;
}.

#[export] Instance LogLevel_eq_dec : EqDecision LogLevel.
Proof. solve_decision. Defined.

Definition LOG_OFF : LogLevel := mkLevel "off" 0.
Definition LOG_FATAL : LogLevel := mkLevel "fatal" 1.
Definition LOG_ERROR : LogLevel := mkLevel "error" 5.
Definition LOG_WARN : LogLevel := mkLevel "warn" 10.
Definition LOG_INFO : LogLevel := mkLevel "info" 15.
Definition LOG_DEBUG : LogLevel := mkLevel "debug" 16.
Definition LOG_DEBUG1 : LogLevel := mkLevel "debug1" 17.
Definition LOG_DEBUG2 : LogLevel := mkLevel "debug2" 18.
Definition LOG_ALL : LogLevel := mkLevel "all" 30.

Definition levels : list LogLevel :=
  [LOG_OFF; LOG_FATAL; LOG_ERROR; LOG_WARN; LOG_INFO; LOG_DEBUG; LOG_DEBUG1; LOG_DEBUG2; LOG_ALL].

Definition GetLogLevel (name : string) : option LogLevel := find (λ x, String.eqb (level_Name x) name) levels.

(** Only one level is below fatal. *)
Lemma GetLogLevel_off name level : GetLogLevel name = Some level → Priority level < 1 → name = "off".
Proof.
  unfold GetLogLevel. intros [Hin Heq]%find_some Hp. apply String.eqb_eq in Heq as <-. unfold levels in Hin. cbn in Hin.
  repeat (destruct Hin as [<-|Hin]; [by try (cbn in Hp; lia)|]). done.
Qed.

(** [Log] of a logger of the given level, as its caller sees it: the records
    that go to the sinks are left out, a fatal one then panics. *)
Definition Log (level x : LogLevel) (m : string) : res unit :=
  if Priority level <? Priority x then Ok tt
  else if bool_decide (x = LOG_FATAL) then Panic m else Ok tt.

Definition Fatal (level : LogLevel) (m : string) : res unit := Log level LOG_FATAL m.

Lemma Fatal_panics level m : 1 ≤ Priority level → Fatal level m = Panic m.
Proof. intros Hl. unfold Fatal, Log. cbn. by destruct (Z.ltb_spec (Priority level) 1); [lia|]. Qed.

Lemma Fatal_silent level m : Priority level < 1 → Fatal level m = Ok tt.
Proof. intros Hl. unfold Fatal, Log. cbn. by destruct (Z.ltb_spec (Priority level) 1); [|lia]. Qed.

(** ** The log counter *)

Abbreviation LogCounter := (gmap string Z).

Definition NewLogCounter : LogCounter := ∅.

(** [int] wraps; a level that was not counted reads as zero. *)
Definition GetCount (key : string) (counts : LogCounter) : Z := default 0 (counts !! key).

(** [level] is [record.Level.Name]. *)
Definition AddRecord (level : string) (counts : LogCounter) : LogCounter :=
  <[level := wrap64 (GetCount level counts + 1)]> counts.

Definition counts_json (counts : LogCounter) : json :=
  JObj (map (λ kv, (escape (fst kv), json_int (snd kv))) (sorted_entries counts)).

Definition LogCounter_MarshalJSON (counts : LogCounter) : string := print_json (counts_json counts).

Definition occurrences (level : string) (records : list string) : Z :=
  Z.of_nat (length (filter (λ l, l = level) records)).

(** The counter has counted every record, and only the levels that occurred
    are in it. *)
Lemma AddRecord_counts records level :
  Z.of_nat (length records) < 2 ^ 63 →
  let counts := foldl (λ c l, AddRecord l c) NewLogCounter records in
  GetCount level counts = occurrences level records
  ∧ (is_Some (counts !! level) ↔ level ∈ records).
Proof.
  intros Hlen. cbv zeta. induction records as [|x records IH] using rev_ind; [by split; [|split; [intros [? ?]|intros ?%not_elem_of_nil]]|].
  rewrite length_app in Hlen. cbn in Hlen. destruct IH as [IH1 IH2]; [lia|].
  rewrite foldl_app. cbn [foldl]. set (c := foldl _ _ records) in *. unfold AddRecord, GetCount, occurrences in *.
  rewrite filter_app, length_app, elem_of_app, list_elem_of_singleton. rewrite filter_cons, filter_nil.
  assert (Z.of_nat (length (filter (λ l, l = level) records)) ≤ Z.of_nat (length records)) by (apply Nat2Z.inj_le, length_filter).
  destruct (decide (x = level)) as [->|Hne].
  - rewrite lookup_insert_eq, ?decide_True by done. cbn [length]. change (default 0 (Some ?x)) with x. split; [|split; eauto].
    rewrite IH1, wrap64_id; [lia|]. unfold in_int64. lia.
  - rewrite lookup_insert_ne, ?decide_False by done. cbn [length]. rewrite IH1, IH2. split; [lia|]. naive_solver.
Qed.

Lemma counts_json_ok counts : json_ok (counts_json counts) = true.
Proof.
  unfold counts_json. cbn [json_ok]. induction (sorted_entries counts) as [|kv l IH]; [done|]. cbn [map forallb fst snd].
  by rewrite ok_raw_escape, json_ok_int.
Qed.

(** ** Process statistics *)

(** What [getrusage] reports: kilobytes, and seconds with microseconds. *)
Record Rusage := mkRusage {
  Maxrss : Z;
  Utime : Z * Z;
  Stime : Z * Z;
}.

(** [Timeval.Nano] *)
Definition Nano (tv : Z * Z) : Z := wrap64 (fst tv * 1000000000 + snd tv * 1000).

Definition RefreshInterval : Z := 1 * Second.

(** [held] says that the write lock is taken by a call that has not returned;
    [stopSignal] is a channel nobody makes. *)
Record ProcessStatus := mkProcess {
  p_rusage : Rusage;
  lastCpuTime : Z;
  ps_stopped : bool;
  held : bool;
  CpuUsage : float64;
  MemRss : Z;
}.

Definition NewProcessStatus : ProcessStatus := mkProcess (mkRusage 0 (0, 0) (0, 0)) 0 false false (f64_of_Z 0) 0.

(** [usage] is the answer of [getrusage].  Its error is fatal; with logging
    switched off the last reading is used again.  [None] when the call waits for
    the lock. *)
Definition Update (level : LogLevel) (usage : string + Rusage) (p : ProcessStatus) : option (res ProcessStatus) :=
  match (match usage with inl e => _ ← Fatal level e; Ok (p_rusage p) | inr u => Ok u end) with
  | Ok rusage =>
      if held p then None
      else
        let t := wrap64 (Nano (Utime rusage) + Nano (Stime rusage)) in
        Some (Ok (mkProcess rusage t (ps_stopped p) (held p)
                    (f64_div (f64_of_Z (wrap64 (t - lastCpuTime p))) (f64_of_Z RefreshInterval)) (Maxrss rusage)))
  | Panic m => Some (Panic m)
  | NoFuel => Some NoFuel
  end.

(** The goroutine that updates. *)
Definition updated (level : LogLevel) (p : option (res ProcessStatus)) (usage : string + Rusage) : option (res ProcessStatus) :=
  match p with
  | Some (Ok p) => Update level usage p
  | _ => p
  end.

(** What readers see under the read lock. *)
Definition read_status (p : ProcessStatus) : option (Z * float64) :=
  if held p then None else Some (MemRss p, CpuUsage p).

(** The state it leaves and whether the call returns.  Sending on the channel,
    which is nil, blocks for good, with the lock held. *)
Definition StopUpdate (p : ProcessStatus) : option (ProcessStatus * bool) :=
  if held p then None
  else if ps_stopped p then Some (p, true)
  else Some (mkProcess (p_rusage p) (lastCpuTime p) true true (CpuUsage p) (MemRss p), false).

Lemma Update_free level u p p' : Update level u p = Some (Ok p') → held p' = false ∧ ps_stopped p' = ps_stopped p.
Proof.
  unfold Update. destruct (match u with inl e => _ | inr u => _ end) as [r| |]; [|done..].
  destruct (held p) eqn:Hh; [done|]. by intros [= <-].
Qed.

(** A failing [getrusage] ends the process, unless logging is off. *)
Lemma Update_fails level e p : 1 ≤ Priority level → Update level (inl e) p = Some (Panic e).
Proof. intros Hl. unfold Update. by rewrite Fatal_panics. Qed.

(** The first [StopUpdate] never returns, and nothing proceeds after it:
    neither further updates nor readers of the statistics. *)
Theorem StopUpdate_blocks level usages p :
  foldl (updated level) (Some (Ok NewProcessStatus)) usages = Some (Ok p) →
  ∃ p', StopUpdate p = Some (p', false) ∧ (∀ u, Update level (inr u) p' = None) ∧ read_status p' = None ∧ StopUpdate p' = None.
Proof.
  intros Hrun. assert (held p = false ∧ ps_stopped p = false) as [Hh Hs].
  { revert p Hrun. induction usages as [|u usages IH] using rev_ind; intros p; [by intros [= <-]|].
    rewrite foldl_app. cbn [foldl]. destruct (foldl _ _ usages) as [[p0| |]|]; cbn [updated]; try done.
    intros [Hh Hs]%Update_free. split; [done|]. rewrite Hs. by apply IH. }
  eexists. unfold StopUpdate at 1. rewrite Hh, Hs. split; [done|]. done.
Qed.

(** The share of the last second the process spent on a processor: the
    nanoseconds between two readings divided by a second's. *)
Lemma Update_usage level u1 u2 p p1 p2 :
  Update level (inr u1) p = Some (Ok p1) → Update level (inr u2) p1 = Some (Ok p2) →
  MemRss p2 = Maxrss u2
  ∧ CpuUsage p2 = f64_div (f64_of_Z (wrap64 (wrap64 (Nano (Utime u2) + Nano (Stime u2)) - wrap64 (Nano (Utime u1) + Nano (Stime u1)))))
                    (f64_of_Z 1000000000).
Proof.
  unfold Update. destruct (held p); [done|]. intros [= <-]. cbn [held lastCpuTime]. intros [= <-]. done.
Qed.
