(* ===== verification/RouteService.v ===== *)
(** * Route services (src/route_service, src/common/secure/crypto.go)

    A route may name a service that sees its requests first.  The router
    sends the request there with an encrypted signature of the URL and the
    time; when the service sends it back, the signature is checked before the
    request may go to a back end.

    The AEAD ([crypto/cipher]) and the JSON codec ([encoding/json]) are
    interfaces here; byte slices are strings. *)

From S2P Require Import Prelude GoStrings Base64 Http.

(** ** Encryption *)

(** [cipher.AEAD] without additional data: the router always passes [[]byte{}]. *)
Record AEAD := mkAEAD {
  NonceSize : nat;
  aead_Seal : string → string → string;
  aead_Open : string → string → option string;
}.

Definition bad_nonce : string := "cipher: incorrect nonce length given to GCM".

(** [Seal] and [Open] panic on a nonce of another length. *)
Definition Seal (g : AEAD) (nonce plainText : string) : res string :=
  if bool_decide (String.length nonce = NonceSize g) then Ok (aead_Seal g nonce plainText) else Panic bad_nonce.
Definition Open (g : AEAD) (nonce cipherText : string) : res (option string) :=
  if bool_decide (String.length nonce = NonceSize g) then Ok (aead_Open g nonce cipherText) else Panic bad_nonce.

(** The [secure.Crypto] interface; the source of randomness is an argument
    and [None] is an error. *)
Record Crypto := mkCrypto {
  Encrypt : (nat → option string) → string → res (option (string * string));
  Decrypt : string → string → res (option string);
}.

(** [rand.Read] fills the whole buffer or fails. *)
Definition randomBytes (rand : nat → option string) (size : nat) : option string :=
  b ← rand size;
  if bool_decide (String.length b = size) then Some b else None.

Definition generateNonce (rand : nat → option string) (g : AEAD) : option string := randomBytes rand (NonceSize g).

Definition gcm_Encrypt (g : AEAD) (rand : nat → option string) (plainText : string) : res (option (string * string)) :=
  match generateNonce rand g with
  | None => Ok None
  | Some nonce => cipherText ← Seal g nonce plainText; Ok (Some (cipherText, nonce))
  end.

Definition gcm_Decrypt (g : AEAD) (cipherText nonce : string) : res (option string) :=
  r ← Open g nonce cipherText;
  match r with
  | Some plainText => Ok (Some plainText)
  | None => Ok None
  end.

Definition AesGCM (g : AEAD) : Crypto := mkCrypto (gcm_Encrypt g) (gcm_Decrypt g).

(** The ciphers: AES in GCM under a key, and the key derivation. *)
Record Ciphers := mkCiphers {
  aes_gcm : string → AEAD;
  pbkdf2_Key : string → string → nat → nat → string;
}.

(** [aes.NewCipher] takes keys of three lengths; [NewGCM] takes every cipher
    with blocks of 16 bytes, as AES has. *)
Definition NewAesGCM (lib : Ciphers) (key : string) : option AEAD :=
  if bool_decide (String.length key ∈ [16; 24; 32]) then Some (aes_gcm lib key) else None.

Definition NewPbkdf2 (lib : Ciphers) (input : string) (keyLen : nat) : string := pbkdf2_Key lib input "" 4096 keyLen.

(** ** Signatures (header.go) *)

Record Signature := mkSignature {
  ForwardedUrl : string;
  RequestedTime : Z;
}.

Record Metadata := mkMetadata { Nonce : string }.

(** The zero [time.Time]: January 1 of year 1. *)
Definition time_zero : Z := -62135596800 * Second.

(** [json.Marshal] and [json.Unmarshal] at the two types.  [Unmarshal] leaves
    what it could fill in, also when it fails. *)
Record Json := mkJson {
  MarshalSignature : Signature → option string;
  MarshalMetadata : Metadata → option string;
  UnmarshalSignature : string → Signature * bool;
  UnmarshalMetadata : string → Metadata * bool;
}.

Inductive rs_error :=
| NoMetadata
| BadBase64
| DecryptFailed
| BadJson
| EncryptFailed
| RouteServiceExpired
| RouteServiceForwardedUrlMismatch.

#[export] Instance rs_error_eq_dec : EqDecision rs_error.
Proof. solve_decision. Defined.

Section json.
Context (json : Json).

Definition BuildSignatureAndMetadata (rand : nat → option string) (crypto : Crypto) (signature : Signature)
    : res (rs_error + (string * string)) :=
  match MarshalSignature json signature with
  | None => Ok (inl BadJson)
  | Some signatureJson =>
      r ← Encrypt crypto rand signatureJson;
      match r with
      | None => Ok (inl EncryptFailed)
      | Some (signatureJsonEncrypted, nonce) =>
          match MarshalMetadata json (mkMetadata nonce) with
          | None => Ok (inl BadJson)
          | Some metadataJson =>
              let metadataHeader := EncodeToString URLEncoding metadataJson in
              let signatureHeader := EncodeToString URLEncoding signatureJsonEncrypted in
              Ok (inr (signatureHeader, metadataHeader))
          end
      end
  end.

(** The error of decoding the metadata is overwritten by the next call. *)
Definition SignatureFromHeaders (signatureHeader metadataHeader : string) (crypto : Crypto)
    : res (rs_error + Signature) :=
  if String.eqb metadataHeader "" then Ok (inl NoMetadata)
  else
    match DecodeString URLEncoding metadataHeader with
    | None => Ok (inl BadBase64)
    | Some metadataDecoded =>
        let '(metadata, _) := UnmarshalMetadata json metadataDecoded in
        match DecodeString URLEncoding signatureHeader with
        | None => Ok (inl BadBase64)
        | Some signatureDecoded =>
            r ← Decrypt crypto signatureDecoded (Nonce metadata);
            match r with
            | None => Ok (inl DecryptFailed)
            | Some signatureDecrypted =>
                let '(signature, ok) := UnmarshalSignature json signatureDecrypted in
                Ok (if ok : bool then inr signature else inl BadJson)
            end
        end
    end.

(** ** The configuration (route_service_config.go) *)

Definition RouteServiceSignature : string := "X-CF-Proxy-Signature".
Definition RouteServiceForwardedUrl : string := "X-CF-Forwarded-Url".
Definition RouteServiceMetadata : string := "X-CF-Proxy-Metadata".

Record RouteServiceConfig := mkRSC {
  routeServiceEnabled : bool;
  routeServiceTimeout : Z;
  crypto : Crypto;
  cryptoPrev : option Crypto;
}.

Record RouteServiceArgs := mkArgs {
  UrlString : string;
  ParsedUrl : option positive;
  args_Signature : string;
  args_Metadata : string;
  ForwardedUrlRaw : string;
}.

Definition NewRouteServiceConfig (enabled : bool) (timeout : Z) (c : Crypto) (prev : option Crypto)
    : RouteServiceConfig := mkRSC enabled timeout c prev.

Definition RouteServiceEnabled (rs : RouteServiceConfig) : bool := routeServiceEnabled rs.

Definition GenerateSignatureAndMetadata (rand : nat → option string) (now : Z) (rs : RouteServiceConfig)
    (forwardedUrlRaw : string) : res (rs_error + (string * string)) :=
  BuildSignatureAndMetadata rand (crypto rs) (mkSignature forwardedUrlRaw now).

(** Sets the three headers and redirects the request to the service. *)
Definition SetupRouteServiceRequest (request : Request) (args : RouteServiceArgs) (s : store)
    : res (Request * store) :=
  s1 ← update_header (r_Header request) (λ h,
         header_Set RouteServiceForwardedUrl (ForwardedUrlRaw args)
           (header_Set RouteServiceMetadata (args_Metadata args)
             (header_Set RouteServiceSignature (args_Signature args) h))) s;
  p ← or_panic nil_deref (ParsedUrl args);
  u ← get_url p s1;
  Ok (set_URL p (set_Host (u_Host u) request), s1).

Definition validateSignatureTimeout (now : Z) (rs : RouteServiceConfig) (signature : Signature) : option rs_error :=
  if (routeServiceTimeout rs <? time_Sub now (RequestedTime signature))%Z then Some RouteServiceExpired else None.

Definition validateForwardedUrl (signature : Signature) (requestUrl : string) : option rs_error :=
  if String.eqb requestUrl (ForwardedUrl signature) then None else Some RouteServiceForwardedUrlMismatch.

Definition ValidateSignature (now : Z) (rs : RouteServiceConfig) (h : Header) (requestUrl : string)
    : res (option rs_error) :=
  let metadataHeader := header_Get RouteServiceMetadata h in
  let signatureHeader := header_Get RouteServiceSignature h in
  r ← SignatureFromHeaders signatureHeader metadataHeader (crypto rs);
  match r with
  | inl err =>
      match cryptoPrev rs with
      | Some prev =>
          r' ← SignatureFromHeaders signatureHeader metadataHeader prev;
          Ok (match r' with inl err' => Some err' | inr _ => None end)
      | None => Ok (Some err)
      end
  | inr signature =>
      match validateSignatureTimeout now rs signature with
      | Some err => Ok (Some err)
      | None => Ok (validateForwardedUrl signature requestUrl)
      end
  end.
End json.
