(* ===== verification/SignatureJson.v ===== *)
(** * The JSON of route service signatures (src/route_service/header.go)

    [json.Marshal] and [json.Unmarshal] at [Signature] and [Metadata], an
    implementation of the interface [Json], and the law the signatures rely
    on.  The clock's zone is a parameter. *)

From S2P Require Import Prelude GoStrings Utf8 Strconv Base64 Http Times TimeTheorems Json JsonSpec JsonDecode.
From S2P Require Import JsonDecodeSpec RouteService.

Local Open Scope Z_scope.

(** Times that survive the trip through JSON: from year 1 on, and with a year of
    four digits in every zone. *)
Definition json_time_max : Z := (253402300800 - 86400) * Second.
Definition signable (s : Signature) : Prop := time_zero ≤ RequestedTime s < json_time_max.

(** The signature as it comes back: JSON is UTF-8, so every byte of the URL that
    is not part of a valid sequence is replaced by U+FFFD. *)
Definition read_back (s : Signature) : Signature := mkSignature (sanitize (ForwardedUrl s)) (RequestedTime s).

Class JsonLaws (json : Json) : Prop := {
  json_signature : ∀ s, signable s →
    ∃ j, MarshalSignature json s = Some j ∧ UnmarshalSignature json j = (read_back s, true);
  json_metadata : ∀ m, ∃ j, MarshalMetadata json m = Some j ∧ j ≠ EmptyString ∧ UnmarshalMetadata json j = (m, true);
}.

(** ** Times *)

(** [Time.MarshalJSON] refuses years of five digits. *)
Definition json_time (zone t : Z) : option json :=
  let y := cv_year (civil_of zone t) in
  if (y <? 0) || (10000 <=? y) then None else Some (JStr (time_Format layout_RFC3339Nano zone t)).

(** [Time.UnmarshalJSON] parses the token itself; its error ends the walk. *)
Definition decode_time : decoder Z := λ v old,
  match v with
  | JStr raw =>
      match time_Parse (in_quotes layout_RFC3339) (quote_raw raw) with
      | Some t => (t, NoError)
      | None => (time_zero, Aborted)
      end
  | _ => (time_zero, Aborted)
  end.

(** ** The two structs *)

Definition signature_json (zone : Z) (s : Signature) : option json :=
  t ← json_time zone (RequestedTime s);
  Some (JObj [("forwarded_url", json_string (ForwardedUrl s)); ("requested_time", t)]).

Definition signature_fields : list (string * decoder Signature) :=
  [("forwarded_url", field ForwardedUrl (λ x s, mkSignature x (RequestedTime s)) decode_string);
   ("requested_time", field RequestedTime (λ x s, mkSignature (ForwardedUrl s) x) decode_time)].

Definition metadata_json (m : Metadata) : json := JObj [("nonce", JStr (EncodeToString StdEncoding (Nonce m)))].

Definition metadata_fields : list (string * decoder (slice ascii)) := [("nonce", decode_bytes)].

Definition encoding_json (zone : Z → Z) : Json := {|
  MarshalSignature s := print_json <$> signature_json (zone (RequestedTime s)) s;
  MarshalMetadata m := Some (print_json (metadata_json m));
  UnmarshalSignature j := Unmarshal (decode_struct signature_fields) j (mkSignature "" time_zero);
  UnmarshalMetadata j :=
    let '(nonce, ok) := Unmarshal (decode_struct metadata_fields) j nil_slice in
    (mkMetadata (String.string_of_list_ascii (elements nonce)), ok)
|}.

(** ** The text of a time is plain *)

Lemma plain_text_app s t : plain_text s = true → plain_text t = true → plain_text (s +:+ t) = true.
Proof. intros Hs Ht. induction s as [|c s IH]; [done|]. cbn in *. apply andb_true_iff in Hs as [-> Hs]. by apply IH. Qed.

Lemma plain_text_digits s : all_digits s = true → plain_text s = true.
Proof.
  induction s as [|c s IH]; [done|]. cbn [all_digits str_forall]. intros [Hc Hs]%andb_true_iff. rewrite IH by done.
  clear -Hc. destruct c as [[][][][][][][][]]; first [discriminate Hc|done].
Qed.

Lemma plain_fixed_digits w : ∀ n acc, all_digits acc = true → plain_text (fixed_digits w n acc) = true.
Proof.
  induction w as [|w IH]; intros n acc Hacc; cbn [fixed_digits]; [by apply plain_text_digits|]. apply IH. cbn [all_digits].
  by rewrite (proj1 (digit_char_mod n)).
Qed.

Lemma plain_trim s : plain_text s = true → plain_text (trim_zeros s) = true.
Proof.
  induction s as [|c s IH]; [done|]. cbn [str_forall trim_zeros]. intros [Hc Hs]%andb_true_iff. specialize (IH Hs).
  destruct (trim_zeros s); [destruct (Ascii.eqb c "0"); [done|]|]; cbn in *; by rewrite Hc.
Qed.

Definition plain_lit (k : chunk) : bool := match k with Lit s => plain_text s | _ => true end.

Lemma plain_chunk c k : plain_lit k = true → plain_text (format_chunk c k) = true.
Proof.
  assert (∀ sep z, plain_text sep = true → plain_text (format_zone sep z) = true) as Hzone.
  { intros sep z Hsep. unfold format_zone. cbv zeta. apply plain_text_app; [by destruct (_ <? 0)|].
    repeat (apply plain_text_app; [first [done|by apply plain_fixed_digits]|]). by apply plain_fixed_digits. }
  intros Hlit. destruct k; cbn [format_chunk]; try (by apply plain_fixed_digits).
  - exact Hlit.
  - unfold format_year. apply plain_text_app; [by destruct (_ <? 0)|].
    destruct (_ <? 10000); [by apply plain_fixed_digits|]. apply plain_text_digits. rewrite pretty_nonneg by lia. apply pretty_digits.
  - unfold format_frac. pose proof (plain_trim (fixed_digits 9 (cv_nsec c) "")) as Ht.
    destruct (trim_zeros _); [done|]. cbn [str_forall] in *. by apply Ht, plain_fixed_digits.
  - by apply Hzone.
  - destruct (_ =? 0); [done|by apply Hzone].
Qed.

Lemma plain_Format L zone t : forallb plain_lit L = true → plain_text (time_Format L zone t) = true.
Proof.
  unfold time_Format. induction L as [|k L IH]; [done|]. cbn [forallb]. intros [Hk HL]%andb_true_iff. rewrite fmt_cons.
  apply plain_text_app; [by apply plain_chunk|by apply IH].
Qed.

(** ** The laws *)

Class ZoneOk (zone : Z → Z) : Prop := zone_ok : ∀ t, Z.rem (zone t) 60 = 0 ∧ Z.abs (zone t) < 86400.

#[export] Instance UTC_ok : ZoneOk (λ _, 0).
Proof. done. Qed.

(** Whatever the URL: what is not UTF-8 in it comes back as U+FFFD. *)
Lemma encoding_signature zone `{!ZoneOk zone} url t : time_zero ≤ t < json_time_max →
  ∃ j, MarshalSignature (encoding_json zone) (mkSignature url t) = Some j
    ∧ UnmarshalSignature (encoding_json zone) j = (mkSignature (sanitize url) t, true).
Proof.
  intros Ht. destruct (zone_ok t) as [Hz Hzb]. destruct (civil_year (zone t) t Hzb Ht) as [Hy1 Hy2].
  unfold encoding_json. cbn [MarshalSignature UnmarshalSignature RequestedTime]. unfold signature_json, json_time.
  cbn [RequestedTime ForwardedUrl].
  destruct (Z.ltb_spec (cv_year (civil_of (zone t) t)) 0); [lia|].
  destruct (Z.leb_spec 10000 (cv_year (civil_of (zone t) t))); [lia|]. cbn [orb mbind option_bind fmap option_fmap option_map].
  eexists. split; [done|].
  pose proof (RFC3339_roundtrip (zone t) t Hz ltac:(lia) ltac:(lia)) as Hp.
  pose proof (plain_Format layout_RFC3339Nano (zone t) t eq_refl) as Hplain. revert Hp Hplain.
  generalize (time_Format layout_RFC3339Nano (zone t) t). intros raw Hp Hplain. rewrite Unmarshal_print.
  - cbn [decode_struct decode_members]. change (unquote "forwarded_url") with (Some "forwarded_url").
    change (unquote "requested_time") with (Some "requested_time"). cbv iota.
    change (find_field signature_fields "forwarded_url")
      with (Some (field ForwardedUrl (λ x s, mkSignature x (RequestedTime s)) decode_string)).
    change (find_field signature_fields "requested_time")
      with (Some (field RequestedTime (λ x s, mkSignature (ForwardedUrl s) x) decode_time)). cbv iota. unfold field.
    rewrite decode_string_string. cbn [ForwardedUrl RequestedTime decode_time]. unfold quote_raw. rewrite Hp. done.
  - cbn [json_ok forallb fst snd]. unfold json_string. cbn [json_ok]. rewrite ok_raw_escape, (proj1 (plain_raw raw Hplain)). done.
Qed.

#[export] Instance encoding_json_laws zone `{!ZoneOk zone} : JsonLaws (encoding_json zone).
Proof.
  split.
  - intros [url t] Ht. by apply encoding_signature.
  - intros [n]. unfold encoding_json. cbn [MarshalMetadata UnmarshalMetadata]. eexists. split_and!; [done|done|].
    unfold metadata_json. cbn [Nonce]. rewrite Unmarshal_print.
    + cbn [decode_struct decode_members]. change (unquote "nonce") with (Some "nonce"). cbv iota.
      change (find_field metadata_fields "nonce") with (Some decode_bytes). cbv iota.
      destruct (decode_bytes_base64 n nil_slice) as (s & -> & Hs). cbn [join_errors]. by rewrite Hs.
    + cbn [json_ok forallb fst snd]. by rewrite (proj1 (plain_raw _ (plain_EncodeToString n))).
Qed.

(** A metadata text without a nonce, and one that spells it out. *)
Example empty_metadata : UnmarshalMetadata (encoding_json (λ _, 0)) "{}" = (mkMetadata "", true).
Proof. vm_compute. reflexivity. Qed.
Example array_nonce : UnmarshalMetadata (encoding_json (λ _, 0)) (strings_Join ["{"; quote_raw "NONCE"; ":[97,98]}"] "") = (mkMetadata "ab", true).
Proof. vm_compute. reflexivity. Qed.
