(* ===== verification/RouteServiceTheorems.v ===== *)
(** * What a route service signature guarantees

    The theorems are proved against the interfaces [CryptoLaws] and
    [JsonLaws]; [AesGCM] over a correct AEAD is an instance of the first,
    [encoding_json] of the second. *)

From S2P Require Import Prelude GoStrings Utf8 Base64 Http Json JsonSpec JsonDecode RouteService SignatureJson.

(** [Decrypt] inverts [Encrypt], whatever randomness it used. *)
Class CryptoLaws (c : Crypto) : Prop := {
  decrypt_encrypt : ∀ rand plain ct nonce,
    Encrypt c rand plain = Ok (Some (ct, nonce)) → Decrypt c ct nonce = Ok (Some plain);
}.

(** Opening inverts sealing under the same nonce. *)
Class AEADLaws (g : AEAD) : Prop := {
  open_seal : ∀ nonce plain, String.length nonce = NonceSize g →
    aead_Open g nonce (aead_Seal g nonce plain) = Some plain;
}.

#[export] Instance AesGCM_laws g `{!AEADLaws g} : CryptoLaws (AesGCM g).
Proof.
  split. intros rand plain ct nonce. unfold AesGCM, gcm_Encrypt, gcm_Decrypt, Seal, Open. cbn.
  destruct (generateNonce rand g) as [n|] eqn:Hn; [|done].
  unfold generateNonce, randomBytes in Hn. destruct (rand (NonceSize g)) as [b|]; [|done]. cbn in Hn.
  case_bool_decide as Hlen; [|done]. injection Hn as <-. rewrite bool_decide_eq_true_2 by done. cbn.
  intros [= <- <-]. rewrite bool_decide_eq_true_2 by done. cbn. by rewrite open_seal.
Qed.

Section laws.
Context (json : Json) `{!JsonLaws json}.

(** Headers that carry a signature and its metadata. *)
Definition carries (sm : string * string) (h : Header) : Prop :=
  header_Get RouteServiceSignature h = fst sm ∧ header_Get RouteServiceMetadata h = snd sm.

Lemma SignatureFromHeaders_Build rand c s sm :
  CryptoLaws c → signable s →
  BuildSignatureAndMetadata json rand c s = Ok (inr sm) →
  SignatureFromHeaders json (fst sm) (snd sm) c = Ok (inr (read_back s)).
Proof.
  intros Hc Hs. unfold BuildSignatureAndMetadata. destruct (json_signature s Hs) as (j & -> & Hj).
  destruct (Encrypt c rand j) as [[[ct nonce]|]| |] eqn:He; [|done..]. cbn.
  destruct (json_metadata (mkMetadata nonce)) as (jm & -> & Hne & Hjm). intros [= <-].
  unfold SignatureFromHeaders. cbn [fst snd].
  destruct (String.eqb_spec (EncodeToString URLEncoding jm) "") as [E|_]; [by apply EncodeToString_empty in E|].
  rewrite !DecodeString_EncodeToString, Hjm by apply _. cbn [Nonce].
  rewrite (decrypt_encrypt _ _ _ _ He). cbn. by rewrite Hj.
Qed.

Lemma Validate_Build rand rs t0 t url requestUrl sm h :
  CryptoLaws (crypto rs) → signable (mkSignature url t0) →
  GenerateSignatureAndMetadata json rand t0 rs url = Ok (inr sm) → carries sm h →
  ValidateSignature json t rs h requestUrl
  = Ok (if (routeServiceTimeout rs <? time_Sub t t0)%Z then Some RouteServiceExpired
        else if String.eqb requestUrl (sanitize url) then None else Some RouteServiceForwardedUrlMismatch).
Proof.
  intros Hc Hs Hgen [Hsig Hmeta]. unfold ValidateSignature. rewrite Hsig, Hmeta.
  rewrite (SignatureFromHeaders_Build _ _ _ _ Hc Hs Hgen). cbn [mbind res_mbind read_back ForwardedUrl RequestedTime].
  unfold validateSignatureTimeout, validateForwardedUrl. cbn [ForwardedUrl RequestedTime]. by destruct (_ <? _)%Z.
Qed.

(** C19: With a cipher that opens what it sealed ([CryptoLaws]), a signature
    made by [GenerateSignatureAndMetadata], at a time of years 1 to 9999, and
    sent back in the headers of a request is accepted exactly while it is not
    older than the timeout and the URL of the request is the signed one as JSON
    carries it: the URL itself if it is valid UTF-8 ([sanitize_valid]), and
    otherwise the one with U+FFFD for its invalid bytes, so that the very URL
    that was signed is refused ([non_utf8_url_refused]).  Otherwise the error
    says which of the two failed, the timeout first. *)
Theorem signature_roundtrip rand rs t0 t url requestUrl sm h :
  CryptoLaws (crypto rs) → signable (mkSignature url t0) →
  GenerateSignatureAndMetadata json rand t0 rs url = Ok (inr sm) → carries sm h →
  ValidateSignature json t rs h requestUrl
  = Ok (if (routeServiceTimeout rs <? time_Sub t t0)%Z then Some RouteServiceExpired
        else if String.eqb requestUrl (sanitize url) then None else Some RouteServiceForwardedUrlMismatch)
  ∧ (valid_utf8 url = true → sanitize url = url).
Proof. intros Hc Hs Hgen Hcar. split; [by eapply Validate_Build|apply sanitize_valid]. Qed.

(** Signing succeeds whenever the source of randomness does. *)
Lemma Generate_AesGCM rand g nonce enabled timeout prev t0 url :
  signable (mkSignature url t0) → rand (NonceSize g) = Some nonce → String.length nonce = NonceSize g →
  ∃ sm, GenerateSignatureAndMetadata json rand t0 (mkRSC enabled timeout (AesGCM g) prev) url = Ok (inr sm).
Proof.
  intros Hs Hr Hlen. unfold GenerateSignatureAndMetadata, BuildSignatureAndMetadata.
  destruct (json_signature _ Hs) as (j & -> & _). cbn. unfold gcm_Encrypt, generateNonce, randomBytes, Seal.
  rewrite Hr. cbn. repeat (rewrite bool_decide_eq_true_2 by done; cbn).
  destruct (json_metadata (mkMetadata nonce)) as (jm & -> & _). eauto.
Qed.

(** What it takes for the headers to give a signature. *)
Lemma SignatureFromHeaders_Ok sigH metaH c s :
  SignatureFromHeaders json sigH metaH c = Ok (inr s) →
  ∃ ct nonce j, Decrypt c ct nonce = Ok (Some j) ∧ UnmarshalSignature json j = (s, true).
Proof.
  unfold SignatureFromHeaders. destruct (String.eqb metaH ""); [done|].
  destruct (DecodeString URLEncoding metaH) as [m|]; [|done].
  destruct (UnmarshalMetadata json m) as [md ok]. destruct (DecodeString URLEncoding sigH) as [ct|]; [|done].
  destruct (Decrypt c ct (Nonce md)) as [[j|]| |] eqn:Hd; [|done..]. cbn.
  destruct (UnmarshalSignature json j) as [s' []] eqn:Hu; [|done]. intros [= <-]. eauto.
Qed.

(** The signatures a key has been used on so far. *)
Definition authentic (c : Crypto) (issued : list Signature) : Prop :=
  ∀ ct nonce j, Decrypt c ct nonce = Ok (Some j) → ∃ s, s ∈ issued ∧ MarshalSignature json s = Some j.

(** C18: With an AEAD that opens only what was sealed under its key, and no
    previous key, every accepted request carries a signature the router issued
    itself, at a time of years 1 to 9999 and no longer ago than the timeout, and
    its URL is the one that was signed as JSON carries it (with U+FFFD for the
    bytes that are not UTF-8): for this very URL, if the signed one is valid
    UTF-8. *)
Theorem accepted_was_signed t rs issued h requestUrl :
  cryptoPrev rs = None → authentic (crypto rs) issued → Forall signable issued →
  ValidateSignature json t rs h requestUrl = Ok None →
  ∃ s, s ∈ issued ∧ requestUrl = sanitize (ForwardedUrl s)
    ∧ (valid_utf8 (ForwardedUrl s) = true → requestUrl = ForwardedUrl s)
    ∧ (time_Sub t (RequestedTime s) ≤ routeServiceTimeout rs)%Z.
Proof.
  intros Hprev Hauth Hall. unfold ValidateSignature. rewrite Hprev.
  destruct (SignatureFromHeaders _ _ _ _) as [[err|s]| |] eqn:Hs; [done| |done..]. cbn.
  unfold validateSignatureTimeout, validateForwardedUrl.
  destruct (Z.ltb_spec (routeServiceTimeout rs) (time_Sub t (RequestedTime s))) as [|Hle]; [done|].
  destruct (String.eqb_spec requestUrl (ForwardedUrl s)) as [->|]; [|done]. intros _.
  destruct (SignatureFromHeaders_Ok _ _ _ _ Hs) as (ct & nonce & j & Hd & Hu).
  destruct (Hauth _ _ _ Hd) as (s' & Hin & Hm).
  destruct (json_signature s') as (j' & Hm' & Hu'); [by apply (proj1 (Forall_forall _ _) Hall)|].
  assert (s = read_back s') as -> by congruence. exists s'. split_and!; [done|done| |done].
  intros Hv. by apply sanitize_valid.
Qed.

(** C37: Under the previous key only the decryption is checked: a signature
    issued with it is accepted for every URL and at any time, however old,
    once the current key no longer opens it. *)
Theorem previous_key_unchecked rand rs0 rs t0 url sm h :
  CryptoLaws (crypto rs0) → signable (mkSignature url t0) →
  GenerateSignatureAndMetadata json rand t0 rs0 url = Ok (inr sm) → carries sm h →
  cryptoPrev rs = Some (crypto rs0) →
  (∃ err, SignatureFromHeaders json (fst sm) (snd sm) (crypto rs) = Ok (inl err)) →
  ∀ t requestUrl, ValidateSignature json t rs h requestUrl = Ok None.
Proof.
  intros Hc Hs Hgen [Hsig Hmeta] Hprev [err Herr] t requestUrl. unfold ValidateSignature.
  rewrite Hsig, Hmeta, Herr. cbn. rewrite Hprev.
  by rewrite (SignatureFromHeaders_Build _ _ _ _ Hc Hs Hgen).
Qed.
End laws.

(** The error of decoding the metadata is dropped, so a request whose
    metadata holds no nonce of the right length (no JSON at all, for instance)
    and whose signature is well-formed base64 makes the validation panic. *)
Theorem bad_nonce_panics json g enabled timeout prev t h requestUrl metadata m ok ct :
  DecodeString URLEncoding (header_Get RouteServiceMetadata h) = Some metadata →
  header_Get RouteServiceMetadata h ≠ "" →
  UnmarshalMetadata json metadata = (m, ok) → String.length (Nonce m) ≠ NonceSize g →
  DecodeString URLEncoding (header_Get RouteServiceSignature h) = Some ct →
  ValidateSignature json t (mkRSC enabled timeout (AesGCM g) prev) h requestUrl = Panic bad_nonce.
Proof.
  intros Hmeta Hne Hm Hlen Hsig. unfold ValidateSignature, SignatureFromHeaders.
  destruct (String.eqb_spec (header_Get RouteServiceMetadata h) "") as [|_]; [done|].
  rewrite Hmeta, Hm, Hsig. cbn. unfold gcm_Decrypt, Open. by rewrite bool_decide_eq_false_2.
Qed.

(** The URL is signed as JSON, which is UTF-8: a request whose URL is not (a
    byte above 127 sent as it is) never comes back from the route service. *)
Theorem non_utf8_url_refused json `{!JsonLaws json} rand rs t0 t url sm h :
  CryptoLaws (crypto rs) → signable (mkSignature url t0) → sanitize url ≠ url →
  GenerateSignatureAndMetadata json rand t0 rs url = Ok (inr sm) → carries sm h →
  ∃ err, ValidateSignature json t rs h url = Ok (Some err).
Proof.
  intros Hc Ht Hurl Hgen Hcar. rewrite (Validate_Build json _ _ _ _ _ _ _ _ Hc Ht Hgen Hcar).
  destruct (_ <? _)%Z; [by eexists|]. destruct (String.eqb_spec url (sanitize url)); [congruence|by eexists].
Qed.

(** ** Concrete instances *)

Definition sample_json : Json := encoding_json (λ _, 0%Z).

#[export] Instance sample_json_laws : JsonLaws sample_json := _.

(** Sealing puts the key and the nonce in front. *)
Definition sample_aead (key : string) : AEAD := {|
  NonceSize := 2;
  aead_Seal nonce plain := key +:+ nonce +:+ plain;
  aead_Open nonce ct :=
    if strings_HasPrefix ct (key +:+ nonce) then Some (strings_TrimPrefix ct (key +:+ nonce)) else None
|}.

#[export] Instance sample_aead_laws key : AEADLaws (sample_aead key).
Proof.
  split. intros nonce plain _. cbn. rewrite <- str_app_assoc. by rewrite HasPrefix_app, TrimPrefix_app.
Qed.

Definition sample_rand (n : nat) : option string := if bool_decide (n = 2) then Some "xy" else None.
Definition rsc_old : RouteServiceConfig := mkRSC true (60 * Second) (AesGCM (sample_aead "old")) None.
Definition rsc_new : RouteServiceConfig :=
  mkRSC true (60 * Second) (AesGCM (sample_aead "new")) (Some (AesGCM (sample_aead "old"))).
Definition sample_url : string := "http://app.example.com/".
Definition sample_sm : string * string :=
  match GenerateSignatureAndMetadata sample_json sample_rand (100 * Second) rsc_old sample_url with
  | Ok (inr sm) => sm
  | _ => ("", "")
  end.
Definition sample_headers : Header :=
  header_Set RouteServiceSignature (fst sample_sm) (header_Set RouteServiceMetadata (snd sample_sm) ∅).

Lemma sample_carries : carries sample_sm sample_headers.
Proof. split; vm_compute; reflexivity. Qed.

Lemma sample_signable : signable (mkSignature sample_url (100 * Second)).
Proof. split; vm_compute; [discriminate|reflexivity]. Qed.

Lemma sample_generated :
  GenerateSignatureAndMetadata sample_json sample_rand (100 * Second) rsc_old sample_url = Ok (inr sample_sm).
Proof. vm_compute. reflexivity. Qed.

Lemma signature_roundtrip_witness :
  ValidateSignature sample_json (130 * Second) rsc_old sample_headers sample_url = Ok None ∧
  ValidateSignature sample_json (200 * Second) rsc_old sample_headers sample_url = Ok (Some RouteServiceExpired).
Proof.
  split.
  - apply (signature_roundtrip sample_json sample_rand rsc_old (100 * Second) (130 * Second) sample_url sample_url
      sample_sm sample_headers); [apply _|apply sample_signable|apply sample_generated|apply sample_carries].
  - apply (signature_roundtrip sample_json sample_rand rsc_old (100 * Second) (200 * Second) sample_url sample_url
      sample_sm sample_headers); [apply _|apply sample_signable|apply sample_generated|apply sample_carries].
Defined.

(** An AEAD that opens one message. *)
Definition single_aead (m : string) : AEAD := {|
  NonceSize := 2;
  aead_Seal nonce plain := if String.eqb plain m then nonce +:+ plain else EmptyString;
  aead_Open nonce ct := if String.eqb ct (nonce +:+ m) then Some m else None
|}.

Definition rsc_single : RouteServiceConfig :=
  mkRSC true (60 * Second) (AesGCM (single_aead (default "" (MarshalSignature sample_json (mkSignature sample_url (100 * Second)%Z))))) None.
Definition single_headers : Header :=
  match GenerateSignatureAndMetadata sample_json sample_rand (100 * Second) rsc_single sample_url with
  | Ok (inr sm) => header_Set RouteServiceSignature (fst sm) (header_Set RouteServiceMetadata (snd sm) ∅)
  | _ => ∅
  end.

Lemma accepted_was_signed_witness :
  ∃ s, s ∈ [mkSignature sample_url (100 * Second)] ∧ sample_url = sanitize (ForwardedUrl s)
    ∧ (valid_utf8 (ForwardedUrl s) = true → sample_url = ForwardedUrl s)
    ∧ (time_Sub (130 * Second) (RequestedTime s) ≤ routeServiceTimeout rsc_single)%Z.
Proof.
  apply (accepted_was_signed sample_json (130 * Second) rsc_single [mkSignature sample_url (100 * Second)]
           single_headers sample_url); [done| | |vm_compute; reflexivity].
  - intros ct nonce j. cbn [crypto rsc_single Decrypt AesGCM]. unfold gcm_Decrypt, Open, single_aead. cbn [NonceSize aead_Open].
    case_bool_decide; [|done]. cbn [mbind res_mbind]. destruct (String.eqb _ _); [|done].
    intros [= <-]. eexists. split; [by left|]. reflexivity.
  - constructor; [apply sample_signable|constructor].
Defined.

Lemma previous_key_unchecked_witness :
  ValidateSignature sample_json (1000000 * Second) rsc_new sample_headers "http://elsewhere/" = Ok None.
Proof.
  apply (previous_key_unchecked sample_json sample_rand rsc_old rsc_new (100 * Second) sample_url sample_sm
    sample_headers); [apply _|apply sample_signable|apply sample_generated|apply sample_carries|reflexivity|].
  exists DecryptFailed. vm_compute. reflexivity.
Defined.

Definition bogus_headers : Header :=
  header_Set RouteServiceSignature (EncodeToString URLEncoding "signature")
    (header_Set RouteServiceMetadata (EncodeToString URLEncoding "{}") ∅).

Lemma bad_nonce_panics_witness :
  ValidateSignature sample_json 0 rsc_new bogus_headers sample_url = Panic bad_nonce.
Proof.
  apply (bad_nonce_panics sample_json (sample_aead "new") true (60 * Second) (cryptoPrev rsc_new) 0 bogus_headers
    sample_url "{}" (mkMetadata "") true "signature"); vm_compute; first [reflexivity|discriminate].
Defined.

Definition latin1_url : string := sample_url +:+ String "233" "".
Definition latin1_sm : string * string :=
  match GenerateSignatureAndMetadata sample_json sample_rand (100 * Second) rsc_old latin1_url with
  | Ok (inr sm) => sm
  | _ => ("", "")
  end.
Definition latin1_headers : Header :=
  header_Set RouteServiceSignature (fst latin1_sm) (header_Set RouteServiceMetadata (snd latin1_sm) ∅).

Lemma non_utf8_url_refused_witness :
  ∃ err, ValidateSignature sample_json (101 * Second) rsc_old latin1_headers latin1_url = Ok (Some err).
Proof.
  apply (non_utf8_url_refused sample_json sample_rand rsc_old (100 * Second) (101 * Second) latin1_url latin1_sm).
  - apply _.
  - split; vm_compute; [discriminate|reflexivity].
  - vm_compute. discriminate.
  - vm_compute. reflexivity.
  - split; vm_compute; reflexivity.
Defined.
