(* ===== verification/AccessLog.v ===== *)
(** * The access log (src/access_log)

    One record per request, as the proxy fills it in.  Its text is in the file
    of the logger. *)

From S2P Require Import Prelude GoStrings Http Pool.

Record AccessLogRecord := mkALR {
  al_Request : Request;
  al_StatusCode : Z;
  al_RouteEndpoint : option EndpointRef;
  StartedAt : Z;
  FirstByteAt : Z;
  FinishedAt : Z;
  BodyBytesSent : Z;
  RequestBytesReceived : Z;
  ExtraHeadersToLog : list string;
  record : string;
}.

Definition set_al_StatusCode (c : Z) (r : AccessLogRecord) : AccessLogRecord :=
  mkALR (al_Request r) c (al_RouteEndpoint r) (StartedAt r) (FirstByteAt r) (FinishedAt r) (BodyBytesSent r)
    (RequestBytesReceived r) (ExtraHeadersToLog r) (record r).
Definition set_RouteEndpoint (e : option EndpointRef) (r : AccessLogRecord) : AccessLogRecord :=
  mkALR (al_Request r) (al_StatusCode r) e (StartedAt r) (FirstByteAt r) (FinishedAt r) (BodyBytesSent r)
    (RequestBytesReceived r) (ExtraHeadersToLog r) (record r).
Definition set_FirstByteAt (t : Z) (r : AccessLogRecord) : AccessLogRecord :=
  mkALR (al_Request r) (al_StatusCode r) (al_RouteEndpoint r) (StartedAt r) t (FinishedAt r) (BodyBytesSent r)
    (RequestBytesReceived r) (ExtraHeadersToLog r) (record r).
Definition set_FinishedAt (t : Z) (r : AccessLogRecord) : AccessLogRecord :=
  mkALR (al_Request r) (al_StatusCode r) (al_RouteEndpoint r) (StartedAt r) (FirstByteAt r) t (BodyBytesSent r)
    (RequestBytesReceived r) (ExtraHeadersToLog r) (record r).
Definition set_BodyBytesSent (n : Z) (r : AccessLogRecord) : AccessLogRecord :=
  mkALR (al_Request r) (al_StatusCode r) (al_RouteEndpoint r) (StartedAt r) (FirstByteAt r) (FinishedAt r) n
    (RequestBytesReceived r) (ExtraHeadersToLog r) (record r).
Definition set_RequestBytesReceived (n : Z) (r : AccessLogRecord) : AccessLogRecord :=
  mkALR (al_Request r) (al_StatusCode r) (al_RouteEndpoint r) (StartedAt r) (FirstByteAt r) (FinishedAt r)
    (BodyBytesSent r) n (ExtraHeadersToLog r) (record r).
Definition set_record (s : string) (r : AccessLogRecord) : AccessLogRecord :=
  mkALR (al_Request r) (al_StatusCode r) (al_RouteEndpoint r) (StartedAt r) (FirstByteAt r) (FinishedAt r)
    (BodyBytesSent r) (RequestBytesReceived r) (ExtraHeadersToLog r) s.

(** [URL.RequestURI]; the escaped path is taken as it is stored. *)
Definition url_RequestURI (u : URL) : string :=
  let result :=
    if String.eqb (Opaque u) "" then if String.eqb (Path u) "" then "/" else Path u
    else if strings_HasPrefix (Opaque u) "//" then Scheme u +:+ ":" +:+ Opaque u else Opaque u in
  if String.eqb (RawQuery u) "" then result else result +:+ "?" +:+ RawQuery u.
