(* ===== verification/Proxy.v ===== *)
(** * The proxy (src/proxy)

    [ServeHTTP] takes a request through its whole life: the protocol check,
    the heartbeat, the route lookup, upgrades, route services, the choice of a
    back end with retries, the response, sticky sessions and the access log.

    Handlers run in a state monad whose state survives a panic, because the
    access log is written by a deferred call.  What comes from outside (the
    clock, random numbers, connections, the back end's answers) is asked of an
    environment, question by question. *)

From S2P Require Import Prelude GoStrings Uris Pool Registry Http RouteService AccessLog.

Definition VcapCookieId : string := "__VCAP_ID__".
Definition StickyCookieKey : string := "JSESSIONID".
Definition maxRetries : nat := 3.

(** ** The outside world *)

(** An error of the network stack; [ne_op] is the operation of a [net.OpError]. *)
Record net_error := mkNetError { ne_op : option string; ne_text : string }.

Inductive go_error :=
| NetError (e : net_error)
| noEndpointsAvailable
| NoHijack
| SignatureError (e : rs_error)
| UrlError.

(** Every question has a number, so that the answers may differ. *)
Record Env := mkEnv {
  env_now : nat → Z;
  env_clock : nat → nat → Z;
  env_draw : nat → nat;
  env_uuid : nat → option string;
  env_rand : nat → nat → option string;
  env_transport : nat → Request → URL → Header → net_error + Response;
  env_read : nat → Z;
  env_dial : nat → string → option net_error;
  env_write : nat → option net_error;
  env_url_Parse : string → option URL;
  env_json : Json;
}.

(** What is told to a [metrics.ProxyReporter]. *)
Inductive capture :=
| CaptureBadRequest
| CaptureBadGateway
| CaptureRoutingRequest (b : Endpoint)
| CaptureRoutingResponse (b : Endpoint) (res : option Response) (startedAt latency : Z).

(** What happens on connections other than the response writer's. *)
Inductive conn_event :=
| RoundTripTo (url : URL) (host : string) (h : Header)
| DialTo (addr : string) (ok : bool)
| WriteRequest (addr : string) (host : string) (h : Header)
| ForwardIO (addr : string)
| RawResponse (text : string)
| CloseClient
| CloseBackend.

(** ** The proxy, its request handler and its response writer *)

Record proxy := mkProxy {
  px_ip : string;
  px_traceKey : string;
  px_secureCookies : bool;
  px_routeServiceConfig : RouteServiceConfig;
  px_ExtraHeadersToLog : list string;
}.

Record proxyResponseWriter := mkPRW {
  pw_status : Z;
  pw_size : Z;
  pw_done : bool;
}.

Record PState := mkPS {
  ps_store : store;
  ps_request : Request;
  ps_body_count : Z;
  ps_rw : ResponseWriter;
  ps_pw : proxyResponseWriter;
  ps_log : AccessLogRecord;
  ps_registry : RouteRegistry;
  ps_iter : endpointIterator;
  ps_captures : list capture;
  ps_conns : list conn_event;
  ps_logged : list AccessLogRecord;
  ps_tick : nat;
}.

Definition with_store (x : store) (s : PState) : PState :=
  mkPS x (ps_request s) (ps_body_count s) (ps_rw s) (ps_pw s) (ps_log s) (ps_registry s) (ps_iter s) (ps_captures s) (ps_conns s) (ps_logged s) (ps_tick s).
Definition with_request (x : Request) (s : PState) : PState :=
  mkPS (ps_store s) x (ps_body_count s) (ps_rw s) (ps_pw s) (ps_log s) (ps_registry s) (ps_iter s) (ps_captures s) (ps_conns s) (ps_logged s) (ps_tick s).
Definition with_body_count (x : Z) (s : PState) : PState :=
  mkPS (ps_store s) (ps_request s) x (ps_rw s) (ps_pw s) (ps_log s) (ps_registry s) (ps_iter s) (ps_captures s) (ps_conns s) (ps_logged s) (ps_tick s).
Definition with_rw (x : ResponseWriter) (s : PState) : PState :=
  mkPS (ps_store s) (ps_request s) (ps_body_count s) x (ps_pw s) (ps_log s) (ps_registry s) (ps_iter s) (ps_captures s) (ps_conns s) (ps_logged s) (ps_tick s).
Definition with_pw (x : proxyResponseWriter) (s : PState) : PState :=
  mkPS (ps_store s) (ps_request s) (ps_body_count s) (ps_rw s) x (ps_log s) (ps_registry s) (ps_iter s) (ps_captures s) (ps_conns s) (ps_logged s) (ps_tick s).
Definition with_log (x : AccessLogRecord) (s : PState) : PState :=
  mkPS (ps_store s) (ps_request s) (ps_body_count s) (ps_rw s) (ps_pw s) x (ps_registry s) (ps_iter s) (ps_captures s) (ps_conns s) (ps_logged s) (ps_tick s).
Definition with_registry (x : RouteRegistry) (s : PState) : PState :=
  mkPS (ps_store s) (ps_request s) (ps_body_count s) (ps_rw s) (ps_pw s) (ps_log s) x (ps_iter s) (ps_captures s) (ps_conns s) (ps_logged s) (ps_tick s).
Definition with_iter (x : endpointIterator) (s : PState) : PState :=
  mkPS (ps_store s) (ps_request s) (ps_body_count s) (ps_rw s) (ps_pw s) (ps_log s) (ps_registry s) x (ps_captures s) (ps_conns s) (ps_logged s) (ps_tick s).
Definition with_captures (x : list capture) (s : PState) : PState :=
  mkPS (ps_store s) (ps_request s) (ps_body_count s) (ps_rw s) (ps_pw s) (ps_log s) (ps_registry s) (ps_iter s) x (ps_conns s) (ps_logged s) (ps_tick s).
Definition with_conns (x : list conn_event) (s : PState) : PState :=
  mkPS (ps_store s) (ps_request s) (ps_body_count s) (ps_rw s) (ps_pw s) (ps_log s) (ps_registry s) (ps_iter s) (ps_captures s) x (ps_logged s) (ps_tick s).
Definition with_logged (x : list AccessLogRecord) (s : PState) : PState :=
  mkPS (ps_store s) (ps_request s) (ps_body_count s) (ps_rw s) (ps_pw s) (ps_log s) (ps_registry s) (ps_iter s) (ps_captures s) (ps_conns s) x (ps_tick s).
Definition with_tick (x : nat) (s : PState) : PState :=
  mkPS (ps_store s) (ps_request s) (ps_body_count s) (ps_rw s) (ps_pw s) (ps_log s) (ps_registry s) (ps_iter s) (ps_captures s) (ps_conns s) (ps_logged s) x.

(** ** The monad *)

Definition M (A : Type) : Type := PState → PState * res A.

#[export] Instance M_ret : MRet M := λ A a s, (s, Ok a).
#[export] Instance M_bind : MBind M := λ A B k m s,
  match m s with
  | (s', Ok a) => k a s'
  | (s', Panic e) => (s', Panic e)
  | (s', NoFuel) => (s', NoFuel)
  end.

Definition get {A} (f : PState → A) : M A := λ s, (s, Ok (f s)).
Definition modify (f : PState → PState) : M unit := λ s, (f s, Ok tt).
Definition lift {A} (m : res A) : M A := λ s, (s, m).

(** The next answer of the environment. *)
Definition ask {A} (f : nat → A) : M A := λ s, (with_tick (S (ps_tick s)) s, Ok (f (ps_tick s))).

Definition on_store (f : store → res store) : M unit :=
  st ← get ps_store; st' ← lift (f st); modify (with_store st').

Definition report (c : capture) : M unit := modify (λ s, with_captures (ps_captures s ++ [c]) s).
Definition conn (c : conn_event) : M unit := modify (λ s, with_conns (ps_conns s ++ [c]) s).
Definition set_log (f : AccessLogRecord → AccessLogRecord) : M unit := modify (λ s, with_log (f (ps_log s)) s).

(** ** The response writer (responsewriter.go) *)

(** The conversion to [http.Flusher] panics if the writer is none. *)
Definition NewProxyResponseWriter (w : ResponseWriter) : res proxyResponseWriter :=
  if rw_flusher w then Ok (mkPRW 0 0 false)
  else Panic "interface conversion: missing method Flush".

Definition pw_Header (f : Header → Header) : M unit :=
  modify (λ s, with_rw (with_rw_header (f (rw_header (ps_rw s))) (ps_rw s)) s).

Definition pw_Hijack : M bool :=
  w ← get ps_rw;
  match rw_Hijack w with
  | Some w' => _ ← modify (with_rw w'); mret true
  | None => mret false
  end.

Definition pw_WriteHeader (code : Z) : M unit :=
  modify (λ s,
    if pw_done (ps_pw s) then s
    else
      let s1 := with_rw (rw_WriteHeader code (ps_rw s)) s in
      if (pw_status (ps_pw s) =? 0)%Z
      then with_pw (mkPRW code (pw_size (ps_pw s)) (pw_done (ps_pw s))) s1
      else s1).

Definition pw_Write (b : string) : M unit :=
  pw ← get ps_pw;
  if pw_done pw then mret tt
  else
    _ ← (if (pw_status pw =? 0)%Z then pw_WriteHeader 200 else mret tt);
    modify (λ s,
      let '(size, w) := rw_Write b (ps_rw s) in
      with_pw (mkPRW (pw_status (ps_pw s)) (wrap64 (pw_size (ps_pw s) + Z.of_nat size)) (pw_done (ps_pw s)))
        (with_rw w s)).

Definition pw_Done : M unit :=
  modify (λ s, with_pw (mkPRW (pw_status (ps_pw s)) (pw_size (ps_pw s)) true) s).

(** [http.Error] *)
Definition http_Error (body : string) (code : Z) : M unit :=
  _ ← pw_Header (header_Set "Content-Type" "text/plain; charset=utf-8");
  _ ← pw_WriteHeader code;
  pw_Write (body +:+ String "010" EmptyString).

(** ** The request handler (request_handler.go) *)

Definition writeStatus (code : Z) (message : string) : M unit :=
  let body := pretty code +:+ " " +:+ StatusText code +:+ ": " +:+ message in
  _ ← set_log (set_al_StatusCode code);
  _ ← http_Error body code;
  if (299 <? code)%Z then pw_Header (header_Del "Connection") else mret tt.

Definition HandleHeartbeat : M unit :=
  _ ← pw_Header (header_Set "Cache-Control" "private, max-age=0");
  _ ← pw_Header (header_Set "Expires" "0");
  _ ← set_log (set_al_StatusCode 200);
  _ ← pw_WriteHeader 200;
  _ ← pw_Write ("ok" +:+ String "010" EmptyString);
  modify (λ s, with_request (set_Close true (ps_request s)) s).

Definition crlf : string := String "013" (String "010" EmptyString).

Definition HandleUnsupportedProtocol : M unit :=
  ok ← pw_Hijack;
  if ok : bool then
    _ ← set_log (set_al_StatusCode 400);
    _ ← conn (RawResponse ("HTTP/1.0 400 Bad Request" +:+ crlf +:+ crlf));
    conn CloseClient
  else writeStatus 400 "Unsupported protocol".

Definition HandleMissingRoute : M unit :=
  _ ← pw_Header (header_Set "X-Cf-RouterError" "unknown_route");
  req ← get ps_request;
  writeStatus 404 ("Requested route ('" +:+ Host req +:+ "') does not exist.").

Definition HandleBadGateway : M unit :=
  _ ← pw_Header (header_Set "X-Cf-RouterError" "endpoint_failure");
  _ ← writeStatus 502 "Registered endpoint failed to handle the request.";
  pw_Done.

Definition HandleBadSignature : M unit :=
  _ ← writeStatus 400 "Failed to validate Route Service Signature";
  pw_Done.

Definition HandleRouteServiceFailure : M unit :=
  _ ← writeStatus 500 "Route service request failed.";
  pw_Done.

Definition HandleUnsupportedRouteService : M unit :=
  _ ← pw_Header (header_Set "X-Cf-RouterError" "route_service_unsupported");
  _ ← writeStatus 502 "Support for route services is disabled.";
  pw_Done.

Section with_env.
Context (env : Env).

(** ** Headers of forwarded requests *)

Definition setRequestXForwardedFor (request : Request) : M unit :=
  match SplitHost (RemoteAddr request) with
  | None => mret tt
  | Some clientIP =>
      on_store (update_header (r_Header request) (λ h,
        let clientIP' :=
          match h !! "X-Forwarded-For" with
          | Some prior => strings_Join prior ", " +:+ ", " +:+ clientIP
          | None => clientIP
          end in
        header_Set "X-Forwarded-For" clientIP' h))
  end.

Definition setRequestXRequestStart (request : Request) : M unit :=
  st ← get ps_store;
  h ← lift (get_header (r_Header request) st);
  match h !! CanonicalHeaderKey "X-Request-Start" with
  | Some _ => mret tt
  | None =>
      now ← ask (env_now env);
      on_store (update_header (r_Header request) (header_Set "X-Request-Start" (pretty (Z.quot now Millisecond))))
  end.

Definition setRequestXVcapRequestId (request : Request) : M unit :=
  uuid ← ask (env_uuid env);
  match uuid with
  | Some id => on_store (update_header (r_Header request) (header_Set VcapRequestIdHeader id))
  | None => mret tt
  end.

Definition setRequestXCfInstanceId (request : Request) (endpoint : Endpoint) : M unit :=
  let value :=
    if String.eqb (PrivateInstanceId endpoint) "" then CanonicalAddr endpoint else PrivateInstanceId endpoint in
  on_store (update_header (r_Header request) (header_Set CfInstanceIdHeader value)).

(** ** Endpoint iterators: the pool's iterator, wrapped to log and count *)

Definition afterNext (endpoint : option EndpointRef) : M unit :=
  match endpoint with
  | Some e => _ ← set_log (set_RouteEndpoint (Some e)); report (CaptureRoutingRequest e)
  | None => mret tt
  end.

Definition iter_Next (pool : positive) : M (option EndpointRef) :=
  reg ← get ps_registry;
  it ← get ps_iter;
  p ← lift (pool_of reg pool);
  clock ← ask (env_clock env);
  draw ← ask (env_draw env);
  r ← lift (Next clock draw it p);
  let '(e, it', p') := r in
  _ ← modify (λ s, with_iter it' (with_registry (with_pools (<[pool := p']> (pools reg)) reg) s));
  _ ← afterNext e;
  mret e.

Definition iter_EndpointFailed (pool : positive) : M unit :=
  reg ← get ps_registry;
  it ← get ps_iter;
  p ← lift (pool_of reg pool);
  now ← ask (env_now env);
  p' ← lift (EndpointFailed now it p);
  modify (with_registry (with_pools (<[pool := p']> (pools reg)) reg)).

(** ** Upgraded connections (request_handler.go) *)

Definition setRequestURL (addr : string) (request : Request) : M unit :=
  on_store (update_url (r_URL request) (λ u, mkURL "http" (Opaque u) addr (Path u) (RawQuery u))).

Definition handler_setupRequest (endpoint : Endpoint) : M unit :=
  request ← get ps_request;
  _ ← setRequestURL (CanonicalAddr endpoint) request;
  _ ← setRequestXForwardedFor request;
  _ ← setRequestXRequestStart request;
  setRequestXVcapRequestId request.

(** The loop both upgrades share: an endpoint that answered the dial, or the
    error of the last of at most [maxRetries] attempts. *)
Fixpoint dial_loop (fuel : nat) (pool : positive) (retry : nat) (connected : Endpoint → M unit)
    : M (go_error + Endpoint) :=
  match fuel with
  | O => lift NoFuel
  | S fuel' =>
      e ← iter_Next pool;
      match e with
      | None =>
          _ ← report CaptureBadGateway;
          _ ← HandleBadGateway;
          mret (inl noEndpointsAvailable)
      | Some endpoint =>
          err ← ask (λ k, env_dial env k (CanonicalAddr endpoint));
          _ ← conn (DialTo (CanonicalAddr endpoint) (bool_decide (err = None)));
          match err with
          | None => _ ← connected endpoint; mret (inr (ep endpoint))
          | Some err =>
              _ ← iter_EndpointFailed pool;
              if bool_decide (S retry = maxRetries) then mret (inl (NetError err))
              else dial_loop fuel' pool (S retry) connected
          end
      end
  end.

(** The deferred closing of both connections. *)
Definition close_conns (r : go_error + Endpoint) : M unit :=
  _ ← conn CloseClient;
  match r with
  | inr _ => conn CloseBackend
  | inl _ => mret tt
  end.

Definition serveTcp (pool : positive) : M (option go_error) :=
  ok ← pw_Hijack;
  if negb ok then mret (Some NoHijack)
  else
    r ← dial_loop maxRetries pool 0 (λ _, mret tt);
    _ ← match r with
        | inr endpoint => conn (ForwardIO (CanonicalAddr endpoint))
        | inl _ => mret tt
        end;
    _ ← close_conns r;
    mret (match r with inl err => Some err | inr _ => None end).

Definition serveWebSocket (pool : positive) : M (option go_error) :=
  ok ← pw_Hijack;
  if negb ok then mret (Some NoHijack)
  else
    r ← dial_loop maxRetries pool 0 handler_setupRequest;
    res ← match r with
          | inr endpoint =>
              request ← get ps_request;
              st ← get ps_store;
              h ← lift (get_header (r_Header request) st);
              werr ← ask (env_write env);
              _ ← conn (WriteRequest (CanonicalAddr endpoint) (Host request) h);
              match werr with
              | Some err => mret (Some (NetError err))
              | None => _ ← conn (ForwardIO (CanonicalAddr endpoint)); mret None
              end
          | inl err => mret (Some err)
          end;
    _ ← close_conns r;
    mret res.

Definition HandleTcpRequest (pool : positive) : M unit :=
  _ ← set_log (set_al_StatusCode 101);
  err ← serveTcp pool;
  match err with
  | Some _ => writeStatus 400 "TCP forwarding to endpoint failed."
  | None => mret tt
  end.

Definition HandleWebSocketRequest (pool : positive) : M unit :=
  _ ← set_log (set_al_StatusCode 101);
  err ← serveWebSocket pool;
  match err with
  | Some _ => writeStatus 400 "WebSocket request to endpoint failed."
  | None => mret tt
  end.
End with_env.
