(* ===== verification/ProxyServe.v ===== *)
(** * Serving a request (src/proxy/proxy.go, src/proxy/proxy_round_tripper.go)

    The round trippers with their retries, the director that rewrites the
    request, the reverse proxy of [net/http/httputil] (as of Go 1.4) between
    them, and [ServeHTTP], which ties the router together. *)

From S2P Require Import Prelude GoStrings Uris Pool Registry Http Uuid RouteService AccessLog Proxy.

(** ** What the request asks for *)

Definition hostWithoutPort (req : Request) : string :=
  match strings_IndexByte (Host req) ":" with
  | Some pos => str_take pos (Host req)
  | None => Host req
  end.

Definition getStickySession (h : Header) : string :=
  match request_Cookie StickyCookieKey h with
  | Some _ => default "" (request_Cookie VcapCookieId h)
  | None => ""
  end.

Definition isProtocolSupported (request : Request) : bool :=
  (ProtoMajor request =? 1)%Z && ((ProtoMinor request =? 0)%Z || (ProtoMinor request =? 1)%Z).

Definition isLoadBalancerHeartbeat (h : Header) : bool := String.eqb (header_Get "User-Agent" h) "HTTP-Monitor/1.1".

Fixpoint upgrade_loop (h : Header) (connection : list string) : string :=
  match connection with
  | [] => ""
  | v :: l => if strings_Contains (strings_ToLower v) "upgrade" then header_Get "Upgrade" h else upgrade_loop h l
  end.

Definition upgradeHeader (h : Header) : string :=
  upgrade_loop h (default [] (h !! CanonicalHeaderKey "Connection")).

Definition isWebSocketUpgrade (h : Header) : bool := String.eqb (strings_ToLower (upgradeHeader h)) "websocket".

Definition isTcpUpgrade (h : Header) : bool := String.eqb (upgradeHeader h) "tcp".

Definition forwardingToRouteService (rsUrl sigHeader : string) : bool :=
  String.eqb sigHeader "" && negb (String.eqb rsUrl "").

Definition hasBeenToRouteService (rsUrl sigHeader : string) : bool :=
  negb (String.eqb sigHeader "") && negb (String.eqb rsUrl "").

(** ** Headers of the response *)

Definition setTraceHeaders (routerIp addr : string) (h : Header) : Header :=
  header_Set CfRouteEndpointHeader addr (header_Set VcapBackendHeader addr (header_Set VcapRouterHeader routerIp h)).

(** The loop over the cookies of the response: whether the session cookie is
    among them, and the age to copy. *)
Fixpoint session_cookie (cookies : list (string * string * Z)) : option Z :=
  match cookies with
  | [] => None
  | (name, _, age) :: l =>
      if String.eqb name StickyCookieKey then Some (if (age <? 0)%Z then age else 0%Z) else session_cookie l
  end.

Definition setupStickySession (response : Header) (endpoint : Endpoint) (originalEndpointId : string)
    (secureCookies : bool) (path : string) (h : Header) : Header :=
  let changed := negb (String.eqb originalEndpointId "")
                 && negb (String.eqb originalEndpointId (PrivateInstanceId endpoint)) in
  let '(sticky, maxAge) :=
    match session_cookie (response_Cookies response) with
    | Some age => (true, age)
    | None => (changed, 0%Z)
    end in
  if sticky : bool
  then SetCookie (mkCookie VcapCookieId (PrivateInstanceId endpoint) path maxAge true secureCookies) h
  else h.

Definition newRouteServiceEndpoint : Endpoint := mkEndpoint "" "" ∅ "" 0 "".

Definition retryableError (err : net_error) : bool := bool_decide (ne_op err = Some "dial").

Section serve.
Context (env : Env) (p : proxy).

Definition lookup (request : Request) : M (option positive) :=
  reg ← get ps_registry;
  lift (Lookup (hostWithoutPort request +:+ RequestURI request) reg).

(** ** Round trippers *)

Definition transport_RoundTrip (request : Request) : M (net_error + Response) :=
  st ← get ps_store;
  u ← lift (get_url (r_URL request) st);
  h ← lift (get_header (r_Header request) st);
  _ ← conn (RoundTripTo u (Host request) h);
  n ← ask (env_read env);
  _ ← modify (λ s, with_body_count (wrap64 (ps_body_count s + n)) s);
  ask (λ k, env_transport env k request u h).

(** The transport as the proxy uses it, wrapped by [dropsonde]: every attempt
    gets an id of its own, all zeros where none could be generated.  The events
    that are emitted are left out. *)
Definition instrumented_RoundTrip (request : Request) : M (net_error + Response) :=
  requestId ← ask (env_uuid env);
  _ ← on_store (update_header (r_Header request)
        (header_Set "X-CF-RequestID" (default (UUID_String (replicate 16 0%Z)) requestId)));
  transport_RoundTrip request.

Definition selectEndpoint (pool : positive) : M (go_error + EndpointRef) :=
  endpoint ← iter_Next env pool;
  match endpoint with
  | None =>
      _ ← report CaptureBadGateway;
      _ ← HandleBadGateway;
      mret (inl noEndpointsAvailable)
  | Some e => mret (inr e)
  end.

Definition setupRequest (request : Request) (endpoint : Endpoint) : M unit :=
  _ ← on_store (update_url (r_URL request) (λ u, mkURL (Scheme u) (Opaque u) (CanonicalAddr endpoint) (Path u) (RawQuery u)));
  _ ← on_store (update_header (r_Header request) (header_Set "X-CF-ApplicationID" (ApplicationId endpoint)));
  setRequestXCfInstanceId request endpoint.

(** [left] attempts remain; the last endpoint and its answer are what the loop
    leaves behind, an error on the left is an early return. *)
Fixpoint backend_loop (left : nat) (pool : positive) (request : Request)
    (last : option (EndpointRef * (net_error + Response)))
    : M (go_error + option (EndpointRef * (net_error + Response))) :=
  match left with
  | O => mret (inr last)
  | S left' =>
      sel ← selectEndpoint pool;
      match sel with
      | inl err => mret (inl err)
      | inr endpoint =>
          _ ← setupRequest request endpoint;
          res ← instrumented_RoundTrip request;
          match res with
          | inr _ => mret (inr (Some (endpoint, res)))
          | inl err =>
              if retryableError err
              then _ ← iter_EndpointFailed env pool;
                   backend_loop left' pool request (Some (endpoint, res))
              else mret (inr (Some (endpoint, res)))
          end
      end
  end.

Definition AfterRoundTrip : Type := option Response → Endpoint → option net_error → M unit.

Definition trip_result (r : net_error + Response) : option Response * option net_error :=
  match r with
  | inl err => (None, Some err)
  | inr rsp => (Some rsp, None)
  end.

Definition BackendRoundTrip (pool : positive) (after : AfterRoundTrip) (request : Request) : M (go_error + Response) :=
  r ← backend_loop maxRetries pool request None;
  match r with
  | inl err => mret (inl err)
  | inr None => lift (Panic nil_deref)
  | inr (Some (endpoint, res)) =>
      let '(rsp, err) := trip_result res in
      _ ← after rsp (ep endpoint) err;
      mret (match res with inl e => inl (NetError e) | inr rsp => inr rsp end)
  end.

Fixpoint route_service_loop (left : nat) (request : Request) (last : option (net_error + Response))
    : M (option (net_error + Response)) :=
  match left with
  | O => mret last
  | S left' =>
      res ← instrumented_RoundTrip request;
      match res with
      | inr _ => mret (Some res)
      | inl err => if retryableError err then route_service_loop left' request (Some res) else mret (Some res)
      end
  end.

Definition RouteServiceRoundTrip (after : AfterRoundTrip) (request : Request) : M (go_error + Response) :=
  r ← route_service_loop maxRetries request None;
  match r with
  | None => lift (Panic nil_deref)
  | Some res =>
      let '(rsp, err) := trip_result res in
      _ ← after rsp newRouteServiceEndpoint err;
      mret (match res with inl e => inl (NetError e) | inr rsp => inr rsp end)
  end.

Definition ProxyRoundTrip (backend : bool) (pool : positive) (after : AfterRoundTrip) (request : Request)
    : M (go_error + Response) :=
  if backend then BackendRoundTrip pool after request else RouteServiceRoundTrip after request.

(** ** The director *)

(** [target] is a copy of [source] that shares its URL and its header map. *)
Definition SetupProxyRequest (source target : Request) (args : RouteServiceArgs) : M Request :=
  _ ← on_store (update_url (r_URL target) (λ u, mkURL "http" (RequestURI source) (Host source) (Path u) ""));
  _ ← setRequestXRequestStart env source;
  _ ← setRequestXVcapRequestId env source;
  st ← get ps_store;
  h ← lift (get_header (r_Header target) st);
  let sig := header_Get RouteServiceSignature h in
  if forwardingToRouteService (UrlString args) sig then
    r ← lift (SetupRouteServiceRequest target args st);
    _ ← modify (with_store (snd r));
    mret (fst r)
  else if hasBeenToRouteService (UrlString args) sig then
    _ ← on_store (update_header (r_Header target)
          (λ h, header_Del RouteServiceMetadata (header_Del RouteServiceSignature h)));
    mret target
  else mret target.

(** ** [httputil.ReverseProxy] *)

Definition has_hop_header (h : Header) : bool := existsb (λ k, negb (String.eqb (header_Get k h) "")) hopHeaders.

Definition del_hop_headers (h : Header) : Header := foldl (λ h k, header_Del k h) h hopHeaders.

(** The header map is copied before the first deletion; a map without
    hop-by-hop headers stays shared with the original request. *)
Definition remove_hop_headers (req outreq : Request) : M Request :=
  st ← get ps_store;
  h ← lift (get_header (r_Header outreq) st);
  if has_hop_header h then
    h0 ← lift (get_header (r_Header req) st);
    let ptr := fresh_ptr (headers st) in
    let copy := foldl (λ c k, if String.eqb (header_Get k h) "" then c else header_Del k c) (copyHeader ∅ h0) hopHeaders in
    _ ← modify (with_store (put_header ptr copy st));
    mret (set_HeaderMap ptr outreq)
  else mret outreq.

Definition ReverseProxy_ServeHTTP (director : Request → M Request) (roundTrip : Request → M (go_error + Response))
    : M unit :=
  req ← get ps_request;
  target ← director req;
  outreq ← remove_hop_headers req (set_Close false (set_Proto 1 1 target));
  _ ← setRequestXForwardedFor outreq;
  r ← roundTrip outreq;
  match r with
  | inl _ => pw_WriteHeader 500
  | inr rsp =>
      _ ← pw_Header (λ h, copyHeader h (del_hop_headers (rsp_Header rsp)));
      _ ← pw_WriteHeader (StatusCode rsp);
      if String.eqb (rsp_Body rsp) "" then mret tt else pw_Write (rsp_Body rsp)
  end.

(** ** [ServeHTTP] *)

Definition zero_args : RouteServiceArgs := mkArgs "" None "" "" "".

(** [url.Parse] allocates the URL it returns. *)
Definition buildRouteServiceArgs (routeServiceUrl forwardedUrlRaw : string) : M (go_error + RouteServiceArgs) :=
  now ← ask (env_now env);
  rand ← ask (env_rand env);
  r ← lift (GenerateSignatureAndMetadata (env_json env) rand now (px_routeServiceConfig p) forwardedUrlRaw);
  match r with
  | inl err => mret (inl (SignatureError err))
  | inr (sig, metadata) =>
      match env_url_Parse env routeServiceUrl with
      | None => mret (inl UrlError)
      | Some rsURL =>
          st ← get ps_store;
          let ptr := fresh_ptr (urls st) in
          _ ← modify (with_store (put_url ptr rsURL st));
          mret (inr (mkArgs routeServiceUrl (Some ptr) sig metadata forwardedUrlRaw))
      end
  end.

(** The callback given to the round tripper. *)
Definition after (startedAt : Z) (pool : positive) (stickyEndpointId : string) : AfterRoundTrip := λ rsp endpoint err,
  now ← ask (env_now env);
  _ ← set_log (set_FirstByteAt now);
  _ ← match rsp with
      | Some r => set_log (set_al_StatusCode (StatusCode r))
      | None => mret tt
      end;
  request ← get ps_request;
  st ← get ps_store;
  h ← lift (get_header (r_Header request) st);
  _ ← (if negb (String.eqb (px_traceKey p) "") && String.eqb (header_Get VcapTraceHeader h) (px_traceKey p)
       then pw_Header (setTraceHeaders (px_ip p) (CanonicalAddr endpoint)) else mret tt);
  now' ← ask (env_now env);
  _ ← report (CaptureRoutingResponse endpoint rsp startedAt (time_Sub now' startedAt));
  match err with
  | Some e => _ ← report CaptureBadGateway; HandleBadGateway
  | None =>
      if String.eqb (PrivateInstanceId endpoint) "" then mret tt
      else
        r ← lift (or_panic nil_deref rsp);
        reg ← get ps_registry;
        pl ← lift (pool_of reg pool);
        pw_Header (setupStickySession (rsp_Header r) endpoint stickyEndpointId (px_secureCookies p) (ContextPath pl))
  end.

Definition finish : M unit := now ← ask (env_now env); set_log (set_FinishedAt now).

(** From the check of the route service on: either a failure that has been
    answered, or whether to go to a back end, and the service's data. *)
Definition route_service_step (routeServiceUrl : string) (request : Request) (h : Header)
    : M (option (bool * RouteServiceArgs)) :=
  if negb (String.eqb routeServiceUrl "") && negb (RouteServiceEnabled (px_routeServiceConfig p)) then
    _ ← HandleUnsupportedRouteService; mret None
  else if String.eqb routeServiceUrl "" then mret (Some (true, zero_args))
  else
    let rsSignature := header_Get RouteServiceSignature h in
    let forwardedUrlRaw := "http" +:+ "://" +:+ Host request +:+ RequestURI request in
    if hasBeenToRouteService routeServiceUrl rsSignature then
      now ← ask (env_now env);
      err ← lift (ValidateSignature (env_json env) now (px_routeServiceConfig p) h forwardedUrlRaw);
      match err with
      | Some _ => _ ← HandleBadSignature; mret None
      | None => mret (Some (true, mkArgs routeServiceUrl None "" "" ""))
      end
    else
      r ← buildRouteServiceArgs routeServiceUrl forwardedUrlRaw;
      match r with
      | inl _ => _ ← HandleRouteServiceFailure; mret None
      | inr args => mret (Some (false, args))
      end.

Definition forward (startedAt : Z) (pool : positive) (stickyEndpointId : string) (backend : bool)
    (args : RouteServiceArgs) : M unit :=
  request ← get ps_request;
  _ ← ReverseProxy_ServeHTTP (λ outreq, SetupProxyRequest request outreq args)
        (ProxyRoundTrip backend pool (after startedAt pool stickyEndpointId));
  _ ← finish;
  pw ← get ps_pw;
  set_log (set_BodyBytesSent (pw_size pw)).

(** A request whose route is known. *)
Definition serve_pool (startedAt : Z) (request : Request) (h : Header) (pool : positive) : M unit :=
  let stickyEndpointId := getStickySession h in
  _ ← modify (with_iter (Endpoints stickyEndpointId));
  if isTcpUpgrade h then _ ← HandleTcpRequest env pool; finish
  else if isWebSocketUpgrade h then _ ← HandleWebSocketRequest env pool; finish
  else
    reg ← get ps_registry;
    pl ← lift (pool_of reg pool);
    routeServiceUrl ← lift (Pool_RouteServiceUrl pl);
    go ← route_service_step routeServiceUrl request h;
    match go with
    | None => mret tt
    | Some (backend, args) => forward startedAt pool stickyEndpointId backend args
    end.

(** Everything after the deferred call is set up. *)
Definition serve (startedAt : Z) : M unit :=
  request ← get ps_request;
  st ← get ps_store;
  h ← lift (get_header (r_Header request) st);
  if negb (isProtocolSupported request) then HandleUnsupportedProtocol
  else if isLoadBalancerHeartbeat h then HandleHeartbeat
  else
    routePool ← lookup request;
    match routePool with
    | None => _ ← report CaptureBadRequest; HandleMissingRoute
    | Some pool => serve_pool startedAt request h pool
    end.

Definition log_request : PState → PState := λ s,
  let r := set_RequestBytesReceived (ps_body_count s) (ps_log s) in
  with_logged (ps_logged s ++ [r]) (with_log r s).

(** A request on a response writer, in a router with the given registry. *)
Definition ServeHTTP (responseWriter : ResponseWriter) (request : Request) (st : store) (reg : RouteRegistry)
    : res (PState * res unit) :=
  let startedAt := env_now env 0 in
  let accessLog := mkALR request 0 None startedAt zero_time zero_time 0 0 (px_ExtraHeadersToLog p) "" in
  pw ← NewProxyResponseWriter responseWriter;
  let s := mkPS st request 0 responseWriter pw accessLog reg (newEndpointIterator "") [] [] [] 1 in
  let '(s', r) := serve startedAt s in
  Ok (log_request s', r).
End serve.
