(* ===== verification/ProxySpec.v ===== *)
(** * Reasoning about the proxy

    [wp] is total correctness for the proxy's monad: the computation returns
    without a panic, and the result and final state satisfy the postcondition.
    The lemmas below give one rule per building block of the proxy. *)

From S2P Require Import Prelude GoStrings Uris Pool PoolSpec PoolTheorems Trie TrieSpec Registry RegistrySpec.
From S2P Require Import Http Uuid RouteService AccessLog Proxy ProxyServe.

Definition wp {A} (m : M A) (Q : A → PState → Prop) (s : PState) : Prop :=
  ∃ a s', m s = (s', Ok a) ∧ Q a s'.

Section rules.
Context {A B : Type}.
Implicit Types (m : M A) (Q : A → PState → Prop).

Lemma wp_ret (a : A) Q s : Q a s → wp (mret a) Q s.
Proof. intros H. by exists a, s. Qed.

Lemma wp_bind (m : M A) (k : A → M B) (Q : B → PState → Prop) s :
  wp m (λ a, wp (k a) Q) s → wp (m ≫= k) Q s.
Proof.
  intros (a & s1 & Hm & b & s2 & Hk & HQ). exists b, s2. split; [|done].
  unfold mbind, M_bind. by rewrite Hm.
Qed.

Lemma wp_mono m Q Q' s : wp m Q s → (∀ a s', Q a s' → Q' a s') → wp m Q' s.
Proof. intros (a & s' & Hm & HQ) Himp. exists a, s'. auto. Qed.

Lemma wp_get (f : PState → A) Q s : Q (f s) s → wp (get f) Q s.
Proof. intros H. by exists (f s), s. Qed.

Lemma wp_modify f (Q : unit → PState → Prop) s : Q tt (f s) → wp (modify f) Q s.
Proof. intros H. by exists tt, (f s). Qed.

Lemma wp_ask (f : nat → A) Q s : (∀ a, Q a (with_tick (S (ps_tick s)) s)) → wp (ask f) Q s.
Proof. intros H. by eexists _, _. Qed.

(** The answer itself, where it matters. *)
Lemma wp_ask_at (f : nat → A) Q s : Q (f (ps_tick s)) (with_tick (S (ps_tick s)) s) → wp (ask f) Q s.
Proof. intros H. by eexists _, _. Qed.

Lemma wp_lift (m : res A) a Q s : m = Ok a → Q a s → wp (lift m) Q s.
Proof. intros -> H. by exists a, s. Qed.

Lemma wp_eq m s s' a Q : m s = (s', Ok a) → Q a s' → wp m Q s.
Proof. intros H HQ. by exists a, s'. Qed.
End rules.

(** The same as an equation. *)
Lemma run_bind {A B} (m : M A) (k : A → M B) s s1 a : m s = (s1, Ok a) → (m ≫= k) s = k a s1.
Proof. intros H. unfold mbind, M_bind. by rewrite H. Qed.

(** One step through straight-line code. *)
Ltac wp_step :=
  lazymatch goal with
  | |- wp (_ ≫= _) _ _ => apply wp_bind
  | |- wp (mret _) _ _ => apply wp_ret
  | |- wp (get _) _ _ => apply wp_get
  | |- wp (modify _) _ _ => apply wp_modify
  | |- wp (report _) _ _ => apply wp_modify
  | |- wp (conn _) _ _ => apply wp_modify
  | |- wp (set_log _) _ _ => apply wp_modify
  | |- wp (pw_Header _) _ _ => apply wp_modify
  | |- wp (ask _) _ _ => apply wp_ask; intros ?
  end.
Ltac wp_steps := repeat wp_step.

(** Running a straight-line computation on a concrete state. *)
Ltac unfold_M :=
  unfold http_Error, pw_Write, pw_WriteHeader, pw_Header, pw_Done, set_log, modify, get, mbind, M_bind, mret, M_ret.

(** ** The response writer *)

(** A writer whose connection was taken over sends nothing more. *)
Definition quiet (w w' : ResponseWriter) : Prop :=
  rw_hijacked w' = rw_hijacked w ∧ (rw_hijacked w = true → rw_sent w' = rw_sent w ∧ rw_body w' = rw_body w).

Lemma quiet_refl w : quiet w w.
Proof. done. Qed.

Lemma quiet_trans w1 w2 w3 : quiet w1 w2 → quiet w2 w3 → quiet w1 w3.
Proof.
  intros [H1 K1] [H2 K2]. split; [congruence|]. intros H. destruct (K1 H) as [<- <-]. apply K2. congruence.
Qed.

Lemma quiet_WriteHeader code w : quiet w (rw_WriteHeader code w).
Proof. unfold rw_WriteHeader. destruct (rw_hijacked w) eqn:E; [done|]. split; [|congruence]. by destruct (rw_sent w). Qed.

Lemma quiet_Write b w : quiet w (snd (rw_Write b w)).
Proof.
  unfold rw_Write. destruct (rw_hijacked w) eqn:E; [done|]. split; [|congruence].
  pose proof (proj1 (quiet_WriteHeader 200 w)) as H.
  destruct (rw_sent (rw_WriteHeader 200 w)) as [[c h]|]; [|done]. by destruct (bodyAllowedForStatus c).
Qed.

(** Only the writer and the log record change. *)
Definition answer (s s' : PState) : Prop :=
  ∃ rw pw log, s' = with_rw rw (with_pw pw (with_log log s)) ∧ quiet (ps_rw s) rw.

Lemma answer_refl s : answer s s.
Proof. exists (ps_rw s), (ps_pw s), (ps_log s). by destruct s. Qed.

Lemma answer_trans s1 s2 s3 : answer s1 s2 → answer s2 s3 → answer s1 s3.
Proof.
  intros (rw & pw & log & -> & H) (rw' & pw' & log' & -> & H'). exists rw', pw', log'. split; [done|].
  by eapply quiet_trans.
Qed.

(** Nothing has been sent yet. *)
Definition unanswered (s : PState) : Prop :=
  rw_sent (ps_rw s) = None ∧ rw_hijacked (ps_rw s) = false ∧ rw_body (ps_rw s) = "" ∧ ps_pw s = mkPRW 0 0 false.

(** The status in the log is the one the client got, unless the connection
    has been taken over. *)
Definition answered (s : PState) : Prop :=
  rw_hijacked (ps_rw s) = true ∨ ∃ h, rw_sent (ps_rw s) = Some (al_StatusCode (ps_log s), h).

(** A computation that touches the writer and the log record only, and the
    record by [f]. *)
Definition writes (f : AccessLogRecord → AccessLogRecord) (m : M unit) : Prop :=
  ∀ s, ∃ s', m s = (s', Ok tt) ∧ answer s s' ∧ ps_log s' = f (ps_log s).

Lemma writes_wp f m Q s :
  writes f m → (∀ s', answer s s' → ps_log s' = f (ps_log s) → Q tt s') → wp m Q s.
Proof. intros Hm H. destruct (Hm s) as (s' & Hs & Ha & Hl). exists tt, s'. auto. Qed.

Lemma writes_seq f g m (k : unit → M unit) :
  writes f m → writes g (k tt) → writes (λ r, g (f r)) (m ≫= k).
Proof.
  intros Hm Hk s. destruct (Hm s) as (s1 & H1 & Ha1 & Hl1). destruct (Hk s1) as (s2 & H2 & Ha2 & Hl2).
  exists s2. unfold mbind, M_bind. rewrite H1. split_and!; [done|by eapply answer_trans|]. by rewrite Hl2, Hl1.
Qed.

Lemma writes_ret : writes (λ r, r) (mret tt).
Proof. intros s. exists s. split_and!; [done|apply answer_refl|done]. Qed.

Lemma writes_if f (b : bool) m1 m2 : writes f m1 → writes f m2 → writes f (if b then m1 else m2).
Proof. by destruct b. Qed.

Lemma writes_set_log f : writes f (set_log f).
Proof. intros s. eexists. split_and!; [done| |done]. by eexists (ps_rw s), (ps_pw s), _. Qed.

Lemma writes_Header f : writes (λ r, r) (pw_Header f).
Proof. intros s. eexists. split_and!; [done| |done]. eexists _, (ps_pw s), (ps_log s). split; [by destruct s|done]. Qed.

Lemma writes_Done : writes (λ r, r) pw_Done.
Proof. intros s. eexists. split_and!; [done| |done]. exists (ps_rw s), (mkPRW (pw_status (ps_pw s)) (pw_size (ps_pw s)) true), (ps_log s). split; [by destruct s|done]. Qed.

Lemma writes_WriteHeader code : writes (λ r, r) (pw_WriteHeader code).
Proof.
  intros s. unfold pw_WriteHeader, modify. eexists. split; [done|].
  destruct (pw_done (ps_pw s)); [split; [apply answer_refl|done]|].
  destruct (_ =? 0)%Z; (split; [|done]).
  - eexists _, _, (ps_log s). split; [by destruct s|]. apply quiet_WriteHeader.
  - eexists _, (ps_pw s), (ps_log s). split; [by destruct s|]. apply quiet_WriteHeader.
Qed.

Lemma writes_Write b : writes (λ r, r) (pw_Write b).
Proof.
  intros s. unfold pw_Write, mbind, M_bind, get. destruct (pw_done (ps_pw s)); [apply writes_ret|].
  revert s. assert (∀ m, writes (λ r, r) m → writes (λ r, r) (_ ← m; modify (λ s, let '(size, w) := rw_Write b (ps_rw s) in
      with_pw (mkPRW (pw_status (ps_pw s)) (wrap64 (pw_size (ps_pw s) + Z.of_nat size)) (pw_done (ps_pw s)))
        (with_rw w s)))) as Hw.
  { intros m Hm. apply (writes_seq (λ r, r) (λ r, r)); [done|]. intros s. unfold modify. eexists. split; [done|].
    pose proof (quiet_Write b (ps_rw s)) as Hh. destruct (rw_Write b (ps_rw s)) as [n w].
    split; [|done]. eexists w, _, (ps_log s). split; [by destruct s|done]. }
  intros s. apply (Hw _ (writes_if _ _ _ _ (writes_WriteHeader 200) writes_ret)).
Qed.

#[export] Hint Resolve writes_ret writes_if writes_set_log writes_Header writes_Done writes_WriteHeader writes_Write : gorouter.

(** A status line and the handlers built on it. *)
Lemma writes_writeStatus code msg : writes (set_al_StatusCode code) (writeStatus code msg).
Proof.
  unfold writeStatus, http_Error. apply (writes_seq _ (λ r, r)); [auto with gorouter|].
  apply (writes_seq (λ r, r) (λ r, r)); [|destruct (299 <? code)%Z; auto with gorouter].
  apply (writes_seq (λ r, r) (λ r, r)); [auto with gorouter|]. apply (writes_seq (λ r, r) (λ r, r)); auto with gorouter.
Qed.

Lemma writes_error code msg : writes (set_al_StatusCode code) (_ ← writeStatus code msg; pw_Done).
Proof. apply (writes_seq _ (λ r, r)); [apply writes_writeStatus|apply writes_Done]. Qed.

Lemma writes_headed_error f code msg :
  writes (set_al_StatusCode code) (_ ← pw_Header f; _ ← writeStatus code msg; pw_Done).
Proof. apply (writes_seq (λ r, r)); [apply writes_Header|apply writes_error]. Qed.

Lemma writes_HandleBadGateway : writes (set_al_StatusCode 502) HandleBadGateway.
Proof. apply writes_headed_error. Qed.

(** What the client gets from [writeStatus] if nothing was sent before. *)
Definition error_header (h : Header) : Header := header_Set "Content-Type" "text/plain; charset=utf-8" h.
Definition error_body (code : Z) (msg : string) : string :=
  (pretty code +:+ " " +:+ StatusText code +:+ ": " +:+ msg) +:+ String "010" EmptyString.

Definition sent_error (code : Z) (h : Header) (msg : string) (s : PState) : Prop :=
  rw_sent (ps_rw s) = Some (code, error_header h) ∧ rw_body (ps_rw s) = error_body code msg
  ∧ rw_hijacked (ps_rw s) = false.

Lemma writeStatus_sends code msg s :
  unanswered s → (299 < code)%Z → code ≠ 304%Z →
  ∃ s', writeStatus code msg s = (s', Ok tt) ∧ sent_error code (rw_header (ps_rw s)) msg s'
    ∧ pw_done (ps_pw s') = false.
Proof.
  intros (Hs & Hh & Hb & Hp) Hc Hc'. destruct s as [st req bc rw pw log reg it cap con lg tk].
  destruct rw as [h sent body fl hj hij]. cbn in Hs, Hh, Hb, Hp. subst.
  unfold writeStatus. assert (bodyAllowedForStatus code = true) as Hbody by (unfold bodyAllowedForStatus; lia).
  destruct (Z.ltb_spec 299 code); [|lia]. unfold_M. cbn -[bodyAllowedForStatus Z.eqb pretty].
  change (0 =? 0)%Z with true. cbn -[bodyAllowedForStatus Z.eqb pretty].
  destruct (Z.eqb_spec code 0); [lia|]. cbn -[bodyAllowedForStatus pretty].
  unfold rw_Write. cbn -[bodyAllowedForStatus pretty]. rewrite Hbody. eexists. split; [reflexivity|]. done.
Qed.

(** ** Choosing an endpoint *)

Lemma wf_indexed p k ptr e :
  pool_wf p → index p !! k = Some ptr → elems p !! ptr = Some e →
  wf_endpoint (el_endpoint e) ∧ contents p !! addr (el_endpoint e) = Some (view_of e).
Proof.
  intros Hwf Hi He. destruct (index_elem p Hwf _ _ Hi) as (e0 & He0 & Hs & _).
  assert (e0 = e) as -> by congruence. destruct (wf_slice _ Hwf _ _ Hs) as (e1 & He1 & _ & Hw & _).
  assert (e1 = e) as -> by congruence. split; [done|]. apply contents_lookup; [done|].
  exists ptr, e. split_and!; try done. by eapply list_elem_of_lookup_2.
Qed.

(** The endpoint [e] itself, not only its address, is on the list. *)
Definition routed (m : gmap string view) (e : EndpointRef) : Prop := ∃ t f, m !! addr e = Some (e, t, f).

(** The endpoints and their times, without the failures. *)
Definition unfailed (m : gmap string view) : gmap string (EndpointRef * Z) := fst <$> m.

Lemma routed_is_Some m e : routed m e → is_Some (m !! addr e).
Proof. intros (t & f & H). eauto. Qed.

Lemma routed_unfailed m m' e : unfailed m = unfailed m' → routed m e → routed m' e.
Proof.
  intros Heq (t & f & H). assert (unfailed m !! addr e = Some (e, t)) as Hu by (unfold unfailed; by rewrite lookup_fmap, H).
  rewrite Heq in Hu. unfold unfailed in Hu. apply lookup_fmap_Some in Hu as ([[e' t'] f'] & [= -> ->] & Hm). by exists t, f'.
Qed.

Lemma unfailed_dom m m' : unfailed m = unfailed m' → dom m = dom m'.
Proof. intros H. apply (f_equal dom) in H. unfold unfailed in H. by rewrite !dom_fmap_L in H. Qed.

Lemma unfailed_fmap g m : (∀ v, fst (g v) = fst v) → unfailed (g <$> m) = unfailed m.
Proof. intros Hg. unfold unfailed. rewrite <- map_fmap_compose. apply map_fmap_ext. intros k v _. apply Hg. Qed.

Lemma unfailed_alter g a m : (∀ v, fst (g v) = fst v) → unfailed (alter g a m) = unfailed m.
Proof.
  intros Hg. unfold unfailed. apply map_eq. intros k. rewrite !lookup_fmap. destruct (decide (a = k)) as [<-|Hne].
  - rewrite lookup_alter_eq. destruct (m !! a) as [v|]; [|done]. simpl. f_equal. apply Hg.
  - by rewrite lookup_alter_ne.
Qed.

Lemma routed_nonempty m (r : EndpointRef) : routed m r → m ≠ ∅.
Proof. intros (t & f & Hv) ->. by rewrite lookup_empty in Hv. Qed.

(** The two halves of an iterator's [Next]: the session's endpoint, looked up
    by its id, and round robin. *)
Lemma findById_routed id p :
  pool_wf p → ∃ e, (if String.eqb id "" then Ok None else findById id p) = Ok e ∧
    ∀ r : EndpointRef, e = Some r → wf_endpoint r ∧ routed (contents p) r.
Proof.
  intros Hwf. destruct (String.eqb _ _); [by exists None|]. unfold findById.
  destruct (index p !! id) as [ptr|] eqn:Hi; [|by exists None].
  destruct (index_elem p Hwf _ _ Hi) as (e0 & He0 & _). rewrite (deref_Some _ _ _ He0). simpl.
  eexists. split; [done|]. intros r [= <-]. destruct (wf_indexed p _ _ _ Hwf Hi He0) as [? Hv]. split; [done|]. by eexists _, _.
Qed.

(** The route service of a pool is that of one of its endpoints. *)
Lemma RouteServiceUrl_routed pl :
  pool_wf pl → ∃ url, Pool_RouteServiceUrl pl = Ok url ∧
    (url ≠ "" → ∃ e : EndpointRef, routed (contents pl) e ∧ RouteServiceUrl e = url).
Proof.
  intros Hwf. unfold Pool_RouteServiceUrl. destruct (endpoints pl) as [|ptr l] eqn:He; [by exists ""|].
  destruct (wf_slice _ Hwf 0 ptr) as (el & Hel & _ & _ & Hidx); [by rewrite He|].
  rewrite (deref_Some _ _ _ Hel). cbn. eexists. split; [done|]. intros _. exists (el_endpoint el). split; [|done].
  destruct (wf_indexed pl _ _ _ Hwf Hidx Hel) as [_ ?]. by eexists _, _.
Qed.

Lemma next_routed clock draw p :
  pool_wf p →
  ∃ e p', next clock draw p = Ok (e, p') ∧ pool_wf p'
    ∧ (e = None ↔ contents p = ∅)
    ∧ (∀ r : EndpointRef, e = Some r → wf_endpoint r ∧ routed (contents p) r)
    ∧ unfailed (contents p') = unfailed (contents p).
Proof.
  intros Hwf. destruct (decide (endpoints p = [])) as [Hnil|Hnil].
  { rewrite next_empty by done. eexists _, p. split_and!; try done. split; [|done]. intros _. by apply empty_contents. }
  destruct (next_spec clock draw p Hwf Hnil) as (k & r & p' & -> & _ & _ & Hr).
  destruct Hr as (ptr & el & Hslot & Hel & -> & _ & _ & _ & Hwf' & Hc).
  destruct (wf_slice _ Hwf _ _ Hslot) as (el' & Hel' & _ & Hw & Hidx). assert (el' = el) as -> by congruence.
  assert (routed (contents p) (el_endpoint el)) as Hin.
  { destruct (wf_indexed p _ _ _ Hwf Hidx Hel) as [_ ?]. by eexists _, _. }
  eexists _, p'. split_and!; [done|done| | |].
  - split; [done|]. intros H. by destruct (routed_nonempty _ _ Hin).
  - intros r [= <-]. done.
  - rewrite Hc. case_bool_decide; [by apply unfailed_fmap|by apply unfailed_alter].
Qed.

(** The endpoint an iterator returns is in the pool, and no pool gains or
    loses an endpoint by it. *)
Lemma Next_spec clock draw it p :
  pool_wf p →
  ∃ e p', Next clock draw it p = Ok (e, mkIter "" e, p') ∧ pool_wf p'
    ∧ (e = None ↔ contents p = ∅)
    ∧ (∀ r : EndpointRef, e = Some r → wf_endpoint r ∧ routed (contents p) r)
    ∧ unfailed (contents p') = unfailed (contents p).
Proof.
  intros Hwf. unfold Next. destruct (findById_routed (initialEndpoint it) p Hwf) as (e & -> & He).
  simpl. destruct e as [r|].
  - eexists _, p. simpl. split_and!; try done. specialize (He r eq_refl) as [_ Hin]. split; [done|].
    intros H. by destruct (routed_nonempty _ _ Hin).
  - destruct (next_routed clock draw p Hwf) as (e & p' & -> & ?). simpl. by exists e, p'.
Qed.

(** The pool of a request and its iterator are in order. *)
Record live (pool : positive) (s : PState) : Prop := {
  lv_registry : registry_wf (ps_registry s);
  lv_pool : ∃ q, pool_ref (ps_registry s) q = Some pool;
  lv_iter : ∀ e : EndpointRef, lastEndpoint (ps_iter s) = Some e → wf_endpoint e;
}.

(** The objects a request points to exist. *)
Definition valid (r : Request) (st : store) : Prop :=
  is_Some (headers st !! r_Header r) ∧ is_Some (urls st !! r_URL r).

Lemma live_pool pool s : live pool s → ∃ q p, pool_ref (ps_registry s) q = Some pool
  ∧ pools (ps_registry s) !! pool = Some p ∧ pool_wf p ∧ pool_of (ps_registry s) pool = Ok p.
Proof.
  intros [Hr [q Hq] _]. destruct (reg_pools _ Hr _ _ Hq) as (p & Hp & Hwf). exists q, p.
  split_and!; try done. unfold pool_of. by rewrite Hp.
Qed.

(** [live] depends on the registry and the iterator only. *)
Lemma live_same pool s s' :
  live pool s → ps_registry s' = ps_registry s → ps_iter s' = ps_iter s → live pool s'.
Proof. intros [H1 H2 H3] Hr Hi. split; by rewrite ?Hr, ?Hi. Qed.

Lemma live_answer pool s s' : live pool s → answer s s' → live pool s'.
Proof. intros H (rw & pw & log & -> & _). by eapply live_same. Qed.

Definition endpoint_log (e : option EndpointRef) (r : AccessLogRecord) : AccessLogRecord :=
  match e with
  | Some _ => set_RouteEndpoint e r
  | None => r
  end.

Definition endpoint_captures (e : option EndpointRef) : list capture :=
  match e with
  | Some r => [CaptureRoutingRequest r]
  | None => []
  end.

(** The same endpoints, registered at the same times, under the same paths:
    only the marks of failures may differ. *)
Definition same_endpoints (r r' : RouteRegistry) : Prop :=
  ∀ q, pool_ref r' q = pool_ref r q ∧ unfailed (routes r' q) = unfailed (routes r q).

Lemma same_endpoints_trans r1 r2 r3 : same_endpoints r1 r2 → same_endpoints r2 r3 → same_endpoints r1 r3.
Proof. intros H1 H2 q. destruct (H1 q) as [<- <-]. apply H2. Qed.

Lemma same_endpoints_refl r : same_endpoints r r.
Proof. done. Qed.

Lemma live_write pool s p p' it' s' :
  live pool s → pools (ps_registry s) !! pool = Some p → pool_wf p' → unfailed (contents p') = unfailed (contents p) →
  (∀ e : EndpointRef, lastEndpoint it' = Some e → wf_endpoint e) →
  ps_registry s' = with_pools (<[pool := p']> (pools (ps_registry s))) (ps_registry s) → ps_iter s' = it' →
  live pool s' ∧ same_endpoints (ps_registry s) (ps_registry s').
Proof.
  intros [Hr [q Hq] Hi] Hp Hwf' Hdom Hit Hreg <-. destruct (write_pool _ pool p' q Hr Hq Hwf') as [Hr' Hroutes].
  split.
  - split; [by rewrite Hreg| |done]. exists q. by rewrite Hreg.
  - intros q'. rewrite Hreg, Hroutes. case_bool_decide as Heq; [|done]. subst q'. rewrite Hdom. split; [done|].
    by rewrite (routes_Some _ q pool p Hq Hp).
Qed.

Lemma wp_iter_Next env pool Q s :
  live pool s →
  (∀ e s', live pool s' → same_endpoints (ps_registry s) (ps_registry s') →
     ps_store s' = ps_store s → ps_request s' = ps_request s → ps_rw s' = ps_rw s → ps_pw s' = ps_pw s →
     ps_conns s' = ps_conns s → ps_log s' = endpoint_log e (ps_log s) →
     ps_captures s' = ps_captures s ++ endpoint_captures e →
     (∀ q, pool_ref (ps_registry s) q = Some pool → (e = None ↔ routes (ps_registry s) q = ∅)) → 
     (∀ q (r : EndpointRef), pool_ref (ps_registry s) q = Some pool → e = Some r →
        routed (routes (ps_registry s) q) r) →
     Q e s') →
  wp (iter_Next env pool) Q s.
Proof.
  intros Hlive HQ. destruct (live_pool _ _ Hlive) as (q & p & Hq & Hp & Hwf & Hof). unfold iter_Next. wp_steps.
  eapply wp_lift; [done|]. wp_steps. rename a into clock, a0 into draw.
  destruct (Next_spec clock draw (ps_iter s) p Hwf) as (e & p' & HN & Hwf' & Hnone & Hin & Hdom).
  eapply wp_lift; [done|]. cbv beta iota. wp_steps. set (s2 := with_iter _ _).
  destruct (live_write pool s p p' (mkIter "" e) s2) as [Hlive' Hsame]; try done.
  { intros r Hr. by apply Hin. }
  assert (∀ s3, live pool s3 → ps_registry s3 = ps_registry s2 → ps_store s3 = ps_store s → ps_request s3 = ps_request s →
    ps_rw s3 = ps_rw s → ps_pw s3 = ps_pw s → ps_conns s3 = ps_conns s → ps_log s3 = endpoint_log e (ps_log s) →
    ps_captures s3 = ps_captures s ++ endpoint_captures e → Q e s3) as Hfin.
  { intros s3 Hl Hr ????? Hlog Hcap. apply HQ; try done.
    - by rewrite Hr.
    - intros q' Hq'. by rewrite (routes_Some _ _ _ _ Hq' Hp).
    - intros q' r Hq' He. rewrite (routes_Some _ _ _ _ Hq' Hp). by apply Hin. }
  unfold afterNext. destruct e as [r|]; wp_steps; apply Hfin; try done.
  - by eapply live_same.
  - simpl. by rewrite app_nil_r.
Qed.

Lemma wp_iter_EndpointFailed env pool Q s :
  live pool s →
  (∀ s', live pool s' → same_endpoints (ps_registry s) (ps_registry s') →
     ps_store s' = ps_store s → ps_request s' = ps_request s → ps_rw s' = ps_rw s → ps_pw s' = ps_pw s →
     ps_conns s' = ps_conns s → ps_log s' = ps_log s → ps_captures s' = ps_captures s → Q tt s') →
  wp (iter_EndpointFailed env pool) Q s.
Proof.
  intros Hlive HQ. destruct (live_pool _ _ Hlive) as (q & p & Hq & Hp & Hwf & Hof). unfold iter_EndpointFailed. wp_steps.
  eapply wp_lift; [done|]. wp_steps. rename a into now.
  assert (∃ p', EndpointFailed now (ps_iter s) p = Ok p' ∧ pool_wf p' ∧ unfailed (contents p') = unfailed (contents p))
    as (p' & Hf & Hwf' & Hdom).
  { unfold EndpointFailed. destruct (lastEndpoint (ps_iter s)) as [e|] eqn:He; [|by exists p].
    destruct (endpointFailed_spec now e p Hwf) as (p' & -> & Hwf' & Hc & _); [by eapply lv_iter|].
    exists p'. split_and!; try done. rewrite Hc. by apply unfailed_alter. }
  eapply wp_lift; [done|]. wp_steps. set (s2 := with_registry _ _).
  destruct (live_write pool s p p' (ps_iter s) s2) as [Hlive' Hsame]; try done; [apply Hlive|]. by apply HQ.
Qed.

(** ** Headers and URLs of requests *)

Lemma wp_update_header p f h Q s :
  headers (ps_store s) !! p = Some h → Q tt (with_store (put_header p (f h) (ps_store s)) s) →
  wp (on_store (update_header p f)) Q s.
Proof.
  intros Hh HQ. unfold on_store. wp_steps. eapply wp_lift; [|by wp_steps].
  unfold update_header, get_header. by rewrite Hh.
Qed.

Lemma wp_update_url p f u Q s :
  urls (ps_store s) !! p = Some u → Q tt (with_store (put_url p (f u) (ps_store s)) s) →
  wp (on_store (update_url p f)) Q s.
Proof.
  intros Hu HQ. unfold on_store. wp_steps. eapply wp_lift; [|by wp_steps].
  unfold update_url, get_url. by rewrite Hu.
Qed.

(** Allocated objects stay allocated. *)
Definition store_le (st st' : store) : Prop := ∀ r, valid r st → valid r st'.

Lemma store_le_refl st : store_le st st.
Proof. by intros r. Qed.

Lemma store_le_trans st1 st2 st3 : store_le st1 st2 → store_le st2 st3 → store_le st1 st3.
Proof. intros H1 H2 r Hr. auto. Qed.

Lemma put_header_le p h st : store_le st (put_header p h st).
Proof.
  intros r [Hh Hu]. split; [|done]. simpl. destruct (decide (p = r_Header r)) as [->|]; [by rewrite lookup_insert_eq|].
  by rewrite lookup_insert_ne.
Qed.

Lemma put_url_le p u st : store_le st (put_url p u st).
Proof.
  intros r [Hh Hu]. split; [done|]. simpl. destruct (decide (p = r_URL r)) as [->|]; [by rewrite lookup_insert_eq|].
  by rewrite lookup_insert_ne.
Qed.

(** ** Attempts at back ends *)

Definition instance_id (e : Endpoint) : string :=
  if String.eqb (PrivateInstanceId e) "" then CanonicalAddr e else PrivateInstanceId e.

(** The headers an attempt sets; the others stay as they are. *)
Definition backend_keys : list string :=
  [CanonicalHeaderKey "X-CF-ApplicationID"; CanonicalHeaderKey CfInstanceIdHeader; CanonicalHeaderKey "X-CF-RequestID"].
Definition backend_headers (h h' : Header) : Prop := ∀ k, k ∉ backend_keys → h' !! k = h !! k.

Definition at_host (addr : string) (u : URL) : URL := mkURL (Scheme u) (Opaque u) addr (Path u) (RawQuery u).

(** A round trip of [request], which came with URL [u] and headers [h], to [e]. *)
Definition backend_trip (request : Request) (u : URL) (h : Header) (e : EndpointRef) (ev : conn_event) : Prop :=
  ∃ h', ev = RoundTripTo (at_host (addr e) u) (Host request) h' ∧ backend_headers h h'
    ∧ header_Get "X-CF-ApplicationID" h' = ApplicationId e ∧ header_Get CfInstanceIdHeader h' = instance_id e.

(** The request as it is before, between and after attempts. *)
Definition at_backend (request : Request) (u : URL) (h : Header) (st : store) : Prop :=
  ∃ a h', urls st !! r_URL request = Some (at_host a u) ∧ headers st !! r_Header request = Some h' ∧ backend_headers h h'.

Lemma backend_headers_set h h' e :
  backend_headers h h' →
  ∀ id, backend_headers h (header_Set "X-CF-RequestID" id
    (header_Set CfInstanceIdHeader (instance_id e) (header_Set "X-CF-ApplicationID" (ApplicationId e) h'))).
Proof.
  intros H id k Hk. unfold backend_keys in Hk. rewrite !not_elem_of_cons in Hk. unfold header_Set.
  rewrite !lookup_insert_ne by (intros Heq; rewrite Heq in Hk; tauto). apply H. unfold backend_keys. rewrite !not_elem_of_cons. tauto.
Qed.

(** An attempt: the request is addressed and sent. *)
Lemma wp_attempt env request u h (e : EndpointRef) Q s :
  at_backend request u h (ps_store s) →
  (∀ r s' ev, backend_trip request u h e ev → at_backend request u h (ps_store s') → store_le (ps_store s) (ps_store s') →
     ps_conns s' = ps_conns s ++ [ev] → ps_registry s' = ps_registry s → ps_iter s' = ps_iter s →
     ps_request s' = ps_request s → ps_rw s' = ps_rw s → ps_pw s' = ps_pw s → ps_log s' = ps_log s →
     ps_captures s' = ps_captures s → Q r s') →
  wp (_ ← setupRequest request e; instrumented_RoundTrip env request) Q s.
Proof.
  intros (a & h' & Hu & Hh & Hb) HQ. unfold setupRequest, instrumented_RoundTrip, transport_RoundTrip, setRequestXCfInstanceId. do 2 wp_step.
  eapply wp_update_url; [done|]. wp_step. eapply wp_update_header; [done|].
  eapply wp_update_header; [simpl; by rewrite lookup_insert_eq|]. wp_step. wp_step. rename a0 into id. wp_step.
  eapply wp_update_header; [simpl; by rewrite lookup_insert_eq|]. wp_steps.
  eapply wp_lift; [unfold get_url; simpl; by rewrite lookup_insert_eq|]. wp_steps.
  eapply wp_lift; [unfold get_header; simpl; by rewrite lookup_insert_eq|]. wp_steps.
  set (h2 := header_Set _ _ _). pose proof (backend_headers_set h h' e Hb (default (UUID_String (replicate 16 0%Z)) id)) as Hb2.
  apply (HQ _ _ (RoundTripTo (at_host (addr e) u) (Host request) h2)); simpl; try done.
  - exists h2. split_and!; [done|exact Hb2| |].
    + unfold h2. do 2 rewrite header_Get_Set_ne by (vm_compute; discriminate). apply header_Get_Set.
    + unfold h2. rewrite header_Get_Set_ne by (vm_compute; discriminate). apply header_Get_Set.
  - exists (addr e), h2. simpl. by rewrite !lookup_insert_eq.
  - intros r Hr. by apply put_header_le, put_header_le, put_header_le, put_url_le.
Qed.

Lemma wp_assoc {A B C} (m : M A) (k : A → M B) (k' : B → M C) Q s :
  wp ((m ≫= k) ≫= k') Q s → wp (m ≫= (λ a, k a ≫= k')) Q s.
Proof.
  intros (c & s' & H & HQ). exists c, s'. split; [|done]. rewrite <- H. unfold mbind, M_bind.
  by destruct (m s) as [s1 []].
Qed.

Definition routing_requests (es : list EndpointRef) : list capture := map (λ e : EndpointRef, CaptureRoutingRequest e) es.

Lemma routes_empty r q : dom (routes r q) = ∅ ↔ routes r q = ∅.
Proof. apply dom_empty_iff_L. Qed.

Lemma selectEndpoint_spec env pool Q s :
  live pool s →
  (∀ s' (e : EndpointRef), live pool s' → same_endpoints (ps_registry s) (ps_registry s') →
     ps_store s' = ps_store s → ps_request s' = ps_request s → ps_rw s' = ps_rw s → ps_pw s' = ps_pw s →
     ps_conns s' = ps_conns s → ps_log s' = set_RouteEndpoint (Some e) (ps_log s) →
     ps_captures s' = ps_captures s ++ [CaptureRoutingRequest e] → 
     (∀ q, pool_ref (ps_registry s) q = Some pool → routed (routes (ps_registry s) q) e) → Q (inr e) s') →
  (∀ s1 s', live pool s1 → same_endpoints (ps_registry s) (ps_registry s1) → ps_store s1 = ps_store s →
     ps_request s1 = ps_request s → ps_rw s1 = ps_rw s → ps_pw s1 = ps_pw s →
     ps_conns s1 = ps_conns s → ps_log s1 = ps_log s → ps_captures s1 = ps_captures s ++ [CaptureBadGateway] →
     (∀ q, pool_ref (ps_registry s) q = Some pool → routes (ps_registry s) q = ∅) →
     HandleBadGateway s1 = (s', Ok tt) → Q (inl noEndpointsAvailable) s') →
  wp (selectEndpoint env pool) Q s.
Proof.
  intros Hlive Hsome Hnone. unfold selectEndpoint. wp_step. apply wp_iter_Next; [done|].
  intros [e|] s1 Hl Hs Hst Hrq Hrw Hpw Hcn Hlog Hcap Hemp Hin.
  - wp_step. apply Hsome; try done. intros q Hq. by eapply Hin.
  - wp_step. wp_step. wp_step. destruct (writes_HandleBadGateway (with_captures (ps_captures s1 ++ [CaptureBadGateway]) s1))
      as (s' & Hh & _). eapply wp_eq; [done|]. wp_step.
    eapply (Hnone (with_captures (ps_captures s1 ++ [CaptureBadGateway]) s1)); try done.
    + by eapply live_same.
    + simpl. rewrite Hcap. simpl. by rewrite app_nil_r.
    + intros q Hq. by apply Hemp.
Qed.

(** What has changed between [s] and [s'] after attempts at the endpoints [es]. *)
Record tried (request : Request) (u : URL) (h : Header) (pool : positive) (es : list EndpointRef) (s s' : PState)
    : Prop := {
  tr_live : live pool s';
  tr_same : same_endpoints (ps_registry s) (ps_registry s');
  tr_request : ps_request s' = ps_request s;
  tr_store : store_le (ps_store s) (ps_store s');
  tr_backend : at_backend request u h (ps_store s');
  tr_trips : ∃ trips, ps_conns s' = ps_conns s ++ trips ∧ Forall2 (backend_trip request u h) es trips;
  tr_rw : ps_rw s' = ps_rw s;
  tr_pw : ps_pw s' = ps_pw s;
  tr_log : ps_log s' = endpoint_log (last es) (ps_log s);
  tr_captures : ps_captures s' = ps_captures s ++ routing_requests es;
  tr_routed : ∀ q, pool_ref (ps_registry s) q = Some pool →
    Forall (λ r : EndpointRef, routed (routes (ps_registry s) q) r) es;
}.

Definition nonempty_pool (pool : positive) (s : PState) : Prop :=
  ∃ q, pool_ref (ps_registry s) q = Some pool ∧ routes (ps_registry s) q ≠ ∅.

Lemma nonempty_same pool s s' :
  nonempty_pool pool s → same_endpoints (ps_registry s) (ps_registry s') → nonempty_pool pool s'.
Proof.
  intros (q & Hq & Hne) Hs. exists q. destruct (Hs q) as [-> Hd]. split; [done|]. intros H. apply Hne.
  apply routes_empty. rewrite <- (unfailed_dom _ _ Hd). by apply routes_empty.
Qed.

Lemma routed_same s s' q e :
  same_endpoints (ps_registry s) (ps_registry s') →
  routed (routes (ps_registry s') q) e → routed (routes (ps_registry s) q) e.
Proof. intros Hs. apply routed_unfailed, Hs. Qed.

Lemma tried_nil request u h pool s : live pool s → at_backend request u h (ps_store s) → tried request u h pool [] s s.
Proof.
  intros Hl Hb. split; try done.
  - apply store_le_refl.
  - exists []. by rewrite app_nil_r.
  - simpl. by rewrite app_nil_r.
Qed.

(** A failure mark changes the registry only. *)
Lemma tried_marked request u h pool es s s1 s2 :
  tried request u h pool es s s1 → live pool s2 → same_endpoints (ps_registry s1) (ps_registry s2) →
  ps_store s2 = ps_store s1 → ps_request s2 = ps_request s1 → ps_rw s2 = ps_rw s1 → ps_pw s2 = ps_pw s1 →
  ps_conns s2 = ps_conns s1 → ps_log s2 = ps_log s1 → ps_captures s2 = ps_captures s1 →
  tried request u h pool es s s2.
Proof.
  intros [] Hl Hs Hst ??????. split; try rewrite Hst; try done; try congruence; [by eapply same_endpoints_trans|].
  destruct tr_trips0 as (trips & ? & ?). exists trips. split; congruence.
Qed.

(** One more endpoint: chosen from [s1], attempted until [s2]. *)
Lemma wp_try env request u h pool es s s1 left lst Q :
  tried request u h pool es s s1 → nonempty_pool pool s →
  (∀ (e : EndpointRef) x s2, tried request u h pool (es ++ [e]) s s2 →
     wp (match x with
         | inr _ => mret (inr (Some (e, x)))
         | inl err =>
             if retryableError err
             then _ ← iter_EndpointFailed env pool; backend_loop env left pool request (Some (e, x))
             else mret (inr (Some (e, x)))
         end) Q s2) →
  wp (backend_loop env (S left) pool request lst) Q s1.
Proof.
  intros [Hl Hs Hrq Hst Hb (trips & Hc & Ht) Hrw Hpw Hlog Hcap Hin] Hne HQ.
  cbn [backend_loop]. wp_step. apply selectEndpoint_spec; [done| |].
  - intros s2 e Hl2 Hs2 Hst2 Hrq2 Hrw2 Hpw2 Hcn2 Hlog2 Hcap2 Hin2. apply wp_assoc. wp_step.
    apply (wp_attempt env request u h e); [by rewrite Hst2|].
    intros x s3 ev Htrip Hb3 Hle Hcn3 Hreg3 Hit3 Hrq3 Hrw3 Hpw3 Hlog3 Hcap3. apply HQ. split; try done; try congruence.
    + by eapply live_same.
    + rewrite Hreg3. by eapply same_endpoints_trans.
    + rewrite <- Hst2 in Hst. by eapply store_le_trans.
    + exists (trips ++ [ev]). rewrite Hcn3, Hcn2, Hc, <- app_assoc. split; [done|]. by apply Forall2_app; [|constructor].
    + rewrite last_snoc, Hlog3, Hlog2, Hlog. simpl. by destruct (last es).
    + unfold routing_requests. rewrite Hcap3, Hcap2, Hcap, map_app, <- app_assoc. done.
    + intros q Hq. apply Forall_app. split; [by apply Hin|]. constructor; [|constructor].
      eapply routed_same; [done|]. apply Hin2. by rewrite (proj1 (Hs q)).
  - intros s2 s' ????????? Hemp _. destruct (nonempty_same _ _ _ Hne Hs) as (q & Hq & Hn). by destruct Hn; apply Hemp.
Qed.

(** The loop stops at the first answer that is not a failed dial, and after
    [left] attempts. *)
Lemma backend_loop_spec env request u h pool s left : ∀ es s1 lst,
  tried request u h pool es s s1 → nonempty_pool pool s →
  wp (backend_loop env (S left) pool request lst)
     (λ r s', ∃ (e : EndpointRef) x es', r = inr (Some (e, x)) ∧ tried request u h pool (es ++ es' ++ [e]) s s'
        ∧ length es' ≤ left ∧ (∀ err, x = inl err → retryableError err = true → length es' = left)) s1.
Proof.
  induction left as [|left IH]; intros es s1 lst Htried Hne; eapply wp_try; try done; intros e x s2 Ht2.
  all: destruct x as [err|rsp]; [destruct (retryableError err) eqn:Hr|].
  2, 5: wp_step; exists e, (inl err), []; split_and!; simpl; first [done|lia|intros; congruence].
  2, 4: wp_step; exists e, (inr rsp), []; split_and!; simpl; first [done|lia|intros; congruence].
  all: wp_step; apply wp_iter_EndpointFailed; [apply Ht2|]; intros s3 Hl3 Hs3 ???????;
    assert (tried request u h pool (es ++ [e]) s s3) as Ht3 by (by eapply tried_marked).
  - cbn [backend_loop]. wp_step. by exists e, (inl err), [].
  - eapply wp_mono; [by apply (IH (es ++ [e]))|]. intros r s' (e' & x' & es' & -> & Ht' & Hlen & Hret).
    rewrite <- !app_assoc in Ht'. exists e', x', (e :: es'). split_and!; [done|done|simpl; lia|].
    intros err' Hx Hr'. simpl. by rewrite (Hret err' Hx Hr').
Qed.

(** ** After the round trip *)

Definition gateway_message : string := "Registered endpoint failed to handle the request.".
Definition router_error (code : string) (h : Header) : Header := header_Set "X-Cf-RouterError" code h.

(** The client has got a 502 and gets nothing more. *)
Definition bad_gateway (h : Header) (s : PState) : Prop :=
  sent_error 502 (router_error "endpoint_failure" h) gateway_message s
  ∧ pw_done (ps_pw s) = true ∧ al_StatusCode (ps_log s) = 502%Z.

Lemma unanswered_header f s : unanswered s → unanswered (with_rw (with_rw_header (f (rw_header (ps_rw s))) (ps_rw s)) s).
Proof. by intros (H1 & H2 & H3 & H4). Qed.

Lemma wp_writeStatus code msg Q s :
  unanswered s → (299 < code)%Z → code ≠ 304%Z →
  (∀ s', answer s s' → ps_log s' = set_al_StatusCode code (ps_log s) → sent_error code (rw_header (ps_rw s)) msg s' → Q tt s') →
  wp (writeStatus code msg) Q s.
Proof.
  intros Hun Hc Hc' HQ. destruct (writeStatus_sends code msg s Hun Hc Hc') as (s' & Hs & Hsent & _).
  destruct (writes_writeStatus code msg s) as (s1 & Hs1 & Ha & Hl). assert (s1 = s') as -> by congruence.
  eapply wp_eq; [done|]. by apply HQ.
Qed.

(** An error status after which the writer is closed. *)
Lemma wp_error code msg Q s :
  unanswered s → (299 < code)%Z → code ≠ 304%Z →
  (∀ s', answer s s' → ps_log s' = set_al_StatusCode code (ps_log s) → sent_error code (rw_header (ps_rw s)) msg s' →
     pw_done (ps_pw s') = true → Q tt s') →
  wp (_ ← writeStatus code msg; pw_Done) Q s.
Proof.
  intros Hun Hc Hc' HQ. wp_step. apply wp_writeStatus; [done..|]. intros s1 Ha Hl Hs. unfold pw_Done. wp_step.
  apply HQ; [|done..]. eapply answer_trans; [done|].
  exists (ps_rw s1), (mkPRW (pw_status (ps_pw s1)) (pw_size (ps_pw s1)) true), (ps_log s1). split; [by destruct s1|done].
Qed.

Lemma wp_HandleBadGateway Q s :
  unanswered s →
  (∀ s', answer s s' → ps_log s' = set_al_StatusCode 502 (ps_log s) → bad_gateway (rw_header (ps_rw s)) s' → Q tt s') →
  wp HandleBadGateway Q s.
Proof.
  intros Hun HQ. unfold HandleBadGateway. wp_step. wp_step. apply wp_error; [by apply unanswered_header|done|done|].
  intros s' Ha Hl Hs Hd. apply HQ; [|done|].
  - eapply answer_trans; [|done]. eexists _, (ps_pw s), (ps_log s). split; [by destruct s|done].
  - split_and!; [done|done|by rewrite Hl].
Qed.

Section after.
Context (env : Env) (p : proxy).

(** The headers of the response as the callback leaves them. *)
Definition after_headers (hreq : Header) (e : Endpoint) (rsp : Header) (sticky path : string) (h : Header) : Header :=
  let h1 := if negb (String.eqb (px_traceKey p) "") && String.eqb (header_Get VcapTraceHeader hreq) (px_traceKey p)
            then setTraceHeaders (px_ip p) (CanonicalAddr e) h else h in
  if String.eqb (PrivateInstanceId e) "" then h1
  else setupStickySession rsp e sticky (px_secureCookies p) path h1.

(** What the callback does, for both outcomes of the trip. *)
Record after_end (pool : positive) (t0 : Z) (sticky : string) (e : Endpoint) (x : net_error + Response) (s s' : PState)
    : Prop := {
  ae_registry : ps_registry s' = ps_registry s;
  ae_iter : ps_iter s' = ps_iter s;
  ae_store : ps_store s' = ps_store s;
  ae_request : ps_request s' = ps_request s;
  ae_conns : ps_conns s' = ps_conns s;
  ae_endpoint : al_RouteEndpoint (ps_log s') = al_RouteEndpoint (ps_log s);
  ae_outcome :
    match x with
    | inr rsp => unanswered s' ∧ al_StatusCode (ps_log s') = StatusCode rsp
        ∧ (∃ lat, ps_captures s' = ps_captures s ++ [CaptureRoutingResponse e (Some rsp) t0 lat])
        ∧ ∃ hreq path, headers (ps_store s) !! r_Header (ps_request s) = Some hreq
            ∧ rw_header (ps_rw s') = after_headers hreq e (rsp_Header rsp) sticky path (rw_header (ps_rw s))
    | inl _ => (∃ h, bad_gateway h s')
        ∧ ∃ lat, ps_captures s' = ps_captures s ++ [CaptureRoutingResponse e None t0 lat; CaptureBadGateway]
    end;
}.

Lemma wp_after pool t0 sticky e x Q s :
  live pool s → unanswered s → valid (ps_request s) (ps_store s) →
  (∀ s', after_end pool t0 sticky e x s s' → Q tt s') →
  wp (after env p t0 pool sticky (fst (trip_result x)) e (snd (trip_result x))) Q s.
Proof.
  intros Hlive Hun [[hreq Hh] _] HQ. unfold after. wp_steps.
  destruct (live_pool _ _ Hlive) as (q & pl & _ & _ & _ & Hof).
  assert (∀ t c, get_header (r_Header (ps_request s)) (ps_store (with_tick t (with_log c s))) = Ok hreq) as Hget.
  { intros t c. unfold get_header. simpl. by rewrite Hh. }
  destruct x as [err|rsp]; cbn [trip_result fst snd]; wp_steps.
  - eapply wp_lift; [apply Hget|]. wp_step. destruct (negb _ && _).
    all: wp_steps; apply wp_HandleBadGateway; [done|]; intros s' (rw & pw & log & -> & Hhj) Hl Hb;
      apply HQ; split; try done; [cbn in Hl; cbn; by rewrite Hl|]; split; [by eexists|]; simpl; rewrite <- app_assoc; by eexists.
  - eapply wp_lift; [apply (Hget _ _)|]. wp_step. destruct (negb _ && _) eqn:Htr.
    all: wp_steps; destruct (String.eqb (PrivateInstanceId e) "") eqn:Hid; wp_steps.
    2, 4: eapply wp_lift; [done|]; wp_steps; eapply wp_lift; [done|]; wp_steps.
    all: apply HQ; split; try done; split_and!; try done; [by eexists|]; exists hreq, (contextPath pl); (split; [done|]);
      unfold after_headers; rewrite Htr, Hid; reflexivity.
Qed.
End after.

(** ** Round trips *)

(** What both round trippers guarantee: a response is still to be written and
    its status is in the log, or a 502 has been sent. *)
Record tripped (pool : positive) (s : PState) (r : go_error + Response) (s' : PState) : Prop := {
  tp_live : live pool s';
  tp_same : same_endpoints (ps_registry s) (ps_registry s');
  tp_request : ps_request s' = ps_request s;
  tp_outcome :
    match r with
    | inr rsp => unanswered s' ∧ al_StatusCode (ps_log s') = StatusCode rsp
    | inl _ => ∃ h, bad_gateway h s'
    end;
}.

(** The captures of a request whose attempts at [es] ended with [r]. *)
Definition trip_captures (t0 : Z) (es : list EndpointRef) (r : go_error + Response) (cs : list capture) : Prop :=
  match last es with
  | None => r = inl noEndpointsAvailable ∧ cs = [CaptureBadGateway]
  | Some e =>
      ∃ lat, cs = routing_requests es ++
        match r with
        | inr rsp => [CaptureRoutingResponse e (Some rsp) t0 lat]
        | inl _ => [CaptureRoutingResponse e None t0 lat; CaptureBadGateway]
        end
  end.

Lemma unanswered_same s s' : unanswered s → ps_rw s' = ps_rw s → ps_pw s' = ps_pw s → unanswered s'.
Proof. unfold unanswered. by intros H -> ->. Qed.

Section trips.
Context (env : Env) (p : proxy) (t0 : Z) (sticky : string) (pool : positive).

(** The attempts, the captures and the client's view of a trip to a back end. *)
Record backend_end (request : Request) (u : URL) (h : Header) (s : PState) (r : go_error + Response)
    (es : list EndpointRef) (s' : PState) : Prop := {
  be_tripped : tripped pool s r s';
  be_bound : length es ≤ maxRetries;
  be_trips : ∃ trips, ps_conns s' = ps_conns s ++ trips ∧ Forall2 (backend_trip request u h) es trips;
  be_captures : ∃ cs, ps_captures s' = ps_captures s ++ cs ∧ trip_captures t0 es r cs;
  be_endpoint : al_RouteEndpoint (ps_log s') = al_RouteEndpoint (endpoint_log (last es) (ps_log s));
  be_dials : ∀ err, r = inl (NetError err) → retryableError err = true → length es = maxRetries;
  be_routed : ∀ q, pool_ref (ps_registry s) q = Some pool →
    Forall (λ e : EndpointRef, routed (routes (ps_registry s) q) e) es ∧ (es = [] → routes (ps_registry s) q = ∅);
  be_headers : ∀ rsp, r = inr rsp → ∃ (e : EndpointRef) hreq path, last es = Some e
    ∧ rw_header (ps_rw s') = after_headers p hreq e (rsp_Header rsp) sticky path (rw_header (ps_rw s));
}.

Lemma BackendRoundTrip_nonempty request u h s :
  live pool s → unanswered s → valid (ps_request s) (ps_store s) → at_backend request u h (ps_store s) →
  nonempty_pool pool s →
  wp (BackendRoundTrip env pool (after env p t0 pool sticky) request)
     (λ r s', ∃ es, backend_end request u h s r es s') s.
Proof.
  intros Hl Hun Hval Hb Hne. unfold BackendRoundTrip. wp_step.
  eapply wp_mono; [apply (backend_loop_spec env request u h pool s 2 [] s None); [by apply tried_nil|done]|].
  intros r s1 (e & x & es & -> & [Hl1 Hs1 Hrq1 Hst1 Hb1 (trips & Hc & Ht) Hrw1 Hpw1 Hlog1 Hcap1 Hin1] & Hlen & Hret).
  cbv beta iota. rewrite app_nil_l in *. rewrite last_snoc in Hlog1. rewrite (surjective_pairing (trip_result x)).
  cbv beta iota. wp_step. apply wp_after; [done|by eapply unanswered_same|rewrite Hrq1; by apply Hst1|].
  intros s2 [Hreg Hit Hst Hrq Hcn Hep Hout]. wp_step. exists (es ++ [e]). split.
  - split; [by eapply live_same|by rewrite Hreg|by rewrite Hrq|].
    destruct x as [err|rsp]; [by destruct Hout as [? _]|]. by destruct Hout as (? & ? & _).
  - rewrite length_app. simpl. unfold maxRetries. lia.
  - exists trips. by rewrite Hcn, Hc.
  - unfold trip_captures. rewrite last_snoc. destruct x as [err|rsp].
    + destruct Hout as [_ [lat Hcap]]. rewrite Hcap1, <- app_assoc in Hcap. eexists. split; [done|]. by exists lat.
    + destruct Hout as (_ & _ & [lat Hcap] & _). rewrite Hcap1, <- app_assoc in Hcap. eexists. split; [done|]. by exists lat.
  - by rewrite last_snoc, Hep, Hlog1.
  - intros err Hr Hretry. rewrite length_app. simpl. unfold maxRetries. destruct x as [err'|]; [|done].
    injection Hr as ->. rewrite (Hret err eq_refl Hretry). lia.
  - intros q Hq. split; [by apply Hin1|]. by destruct es.
  - intros rsp Hr. destruct x as [|rsp']; [done|]. injection Hr as ->. destruct Hout as (_ & _ & _ & hreq & path & _ & Hh).
    exists e, hreq, path. rewrite last_snoc, Hh, Hrw1. done.
Qed.

Lemma BackendRoundTrip_empty request u h s q :
  live pool s → unanswered s → pool_ref (ps_registry s) q = Some pool → routes (ps_registry s) q = ∅ →
  wp (BackendRoundTrip env pool (after env p t0 pool sticky) request)
     (λ r s', backend_end request u h s r [] s') s.
Proof.
  intros Hl Hun Hq Hemp. unfold BackendRoundTrip. cbn [backend_loop maxRetries]. do 2 wp_step.
  apply selectEndpoint_spec; [done| |].
  { intros s1 e ????????? Hin. specialize (Hin q Hq) as (? & ? & Hin). by rewrite Hemp, lookup_empty in Hin. }
  intros s1 s' Hl1 Hs1 Hst1 Hrq1 Hrw1 Hpw1 Hcn1 Hlog1 Hcap1 Hall Hgw. do 2 wp_step.
  destruct (wp_HandleBadGateway (λ _ s', answer s1 s' ∧ ps_log s' = set_al_StatusCode 502 (ps_log s1)
    ∧ bad_gateway (rw_header (ps_rw s1)) s') s1) as (a & s2 & H2 & Ha & Hlog & Hbg); [by eapply unanswered_same|done|].
  assert (s2 = s') as -> by congruence. destruct Ha as (rw & pw & log & -> & Hhj). split; try done.
  - split; simpl; try done; [by eapply live_same|by eexists].
  - simpl. unfold maxRetries. lia.
  - exists []. rewrite app_nil_r. by split.
  - exists [CaptureBadGateway]. done.
  - cbn in Hlog. rewrite Hlog. simpl. by rewrite Hlog1.
  - intros q' Hq'. split; [constructor|]. intros _. by apply Hall.
Qed.

Lemma BackendRoundTrip_spec request u h s :
  live pool s → unanswered s → valid (ps_request s) (ps_store s) → at_backend request u h (ps_store s) →
  wp (BackendRoundTrip env pool (after env p t0 pool sticky) request)
     (λ r s', ∃ es, backend_end request u h s r es s') s.
Proof.
  intros Hl Hun Hval Hb. destruct (lv_pool _ _ Hl) as [q Hq].
  destruct (decide (routes (ps_registry s) q = ∅)) as [He|Hne].
  - eapply wp_mono; [by apply (BackendRoundTrip_empty request u h s q)|]. intros r s' H. by exists [].
  - apply BackendRoundTrip_nonempty; [done..|]. by exists q.
Qed.

(** A round trip to the route service: the headers but for the id of the attempt. *)
Definition service_trip (request : Request) (u : URL) (h : Header) (ev : conn_event) : Prop :=
  ∃ h', ev = RoundTripTo u (Host request) h' ∧ ∀ k, k ≠ CanonicalHeaderKey "X-CF-RequestID" → h' !! k = h !! k.

(** The route service gets the request, at most [maxRetries] times. *)
Record service_end (request : Request) (u : URL) (h : Header) (s : PState) (r : go_error + Response) (s' : PState)
    : Prop := {
  se_tripped : tripped pool s r s';
  se_trips : ∃ trips, 0 < length trips ≤ maxRetries ∧ ps_conns s' = ps_conns s ++ trips ∧ Forall (service_trip request u h) trips;
  se_captures : ∃ lat, ps_captures s' = ps_captures s ++
    match r with
    | inr rsp => [CaptureRoutingResponse newRouteServiceEndpoint (Some rsp) t0 lat]
    | inl _ => [CaptureRoutingResponse newRouteServiceEndpoint None t0 lat; CaptureBadGateway]
    end;
  se_endpoint : al_RouteEndpoint (ps_log s') = al_RouteEndpoint (ps_log s);
}.

(** Only trips of [request] lie between [s] and [s']. *)
Definition only_trips (request : Request) (u : URL) (h : Header) (trips : list conn_event) (s s' : PState) : Prop :=
  Forall (service_trip request u h) trips ∧
  ∃ bc tk h', (∀ k, k ≠ CanonicalHeaderKey "X-CF-RequestID" → h' !! k = h !! k)
    ∧ s' = with_body_count bc (with_tick tk (with_conns (ps_conns s ++ trips)
             (with_store (put_header (r_Header request) h' (ps_store s)) s))).

Lemma wp_transport request u h s trips s1 Q :
  urls (ps_store s) !! r_URL request = Some u → only_trips request u h trips s s1 →
  (∀ x s2 ev, only_trips request u h (trips ++ [ev]) s s2 → Q x s2) →
  wp (instrumented_RoundTrip env request) Q s1.
Proof.
  intros Hu (Hall & bc & tk & h' & Hh & ->) HQ. destruct s. cbn in *. unfold instrumented_RoundTrip. wp_step. wp_step. rename a into id.
  wp_step. eapply wp_update_header; [cbn; by rewrite lookup_insert_eq|]. unfold transport_RoundTrip. wp_step. wp_step. wp_step.
  eapply wp_lift; [unfold get_url; cbn; by rewrite Hu|]. wp_step.
  eapply wp_lift; [unfold get_header; cbn; by rewrite lookup_insert_eq|]. wp_steps.
  set (h2 := header_Set _ _ _).
  assert (∀ k, k ≠ CanonicalHeaderKey "X-CF-RequestID" → h2 !! k = h !! k) as Hh2.
  { intros k Hk. unfold h2, header_Set. rewrite lookup_insert_ne by done. by apply Hh. }
  apply (HQ _ _ (RoundTripTo u (Host request) h2)). split.
  - apply Forall_app. split; [done|]. constructor; [by exists h2|constructor].
  - eexists _, _, h2. split; [done|]. cbn. unfold put_header. cbn. rewrite insert_insert_eq, <- app_assoc. reflexivity.
Qed.

Lemma route_service_loop_S left request lst :
  route_service_loop env (S left) request lst
  = (res ← instrumented_RoundTrip env request;
     match res with
     | inr _ => mret (Some res)
     | inl err => if retryableError err then route_service_loop env left request (Some res) else mret (Some res)
     end).
Proof. done. Qed.

Lemma route_service_loop_spec request u h s left : ∀ trips s1 lst,
  urls (ps_store s) !! r_URL request = Some u → only_trips request u h trips s s1 →
  wp (route_service_loop env (S left) request lst)
     (λ r s', ∃ x new, r = Some x ∧ 0 < length new ≤ S left ∧ only_trips request u h (trips ++ new) s s') s1.
Proof.
  induction left as [|left IH]; intros trips s1 lst Hu Hone; rewrite route_service_loop_S; wp_step;
    apply (wp_transport request u h s trips); try done; intros x s2 ev Htwo.
  all: destruct x as [err|rsp]; [destruct (retryableError err)|].
  2, 3, 5, 6: wp_step; eexists _, [ev]; split_and!; [done|cbn; lia|cbn; lia|done].
  - apply wp_ret. eexists _, [ev]. split_and!; [done|cbn; lia|cbn; lia|done].
  - eapply wp_mono; [by apply (IH (trips ++ [ev]))|]. intros r s' (x & new & -> & Hm & Ht). exists x, (ev :: new).
    split_and!; [done|cbn; lia|cbn; lia|]. by rewrite <- app_assoc in Ht.
Qed.

Lemma RouteServiceRoundTrip_spec request u h s :
  live pool s → unanswered s → valid (ps_request s) (ps_store s) →
  urls (ps_store s) !! r_URL request = Some u → headers (ps_store s) !! r_Header request = Some h →
  wp (RouteServiceRoundTrip env (after env p t0 pool sticky) request) (service_end request u h s) s.
Proof.
  intros Hl Hun Hval Hu Hh. unfold RouteServiceRoundTrip. wp_step.
  eapply wp_mono; [apply (route_service_loop_spec request u h s 2 [] s None Hu)|].
  { split; [constructor|]. exists (ps_body_count s), (ps_tick s), h. split; [done|]. destruct s as [[hs us] ? ? ? ? ? ? ? ? ? ? ?]. cbn in *.
    unfold put_header. cbn. by rewrite app_nil_r, insert_id. }
  intros r s1 (x & trips & -> & Hm & Htrips & bc & tk & h' & Hh' & Hs1). cbv beta iota. rewrite (surjective_pairing (trip_result x)).
  cbv beta iota. wp_step. apply wp_after; [by rewrite Hs1; eapply live_same|by rewrite Hs1|rewrite Hs1; by apply put_header_le|].
  intros s2 [Hreg Hit Hst Hrq Hcn Hep Hout]. rewrite Hs1 in *. cbn in *. wp_step. split.
  - split; [by eapply live_same|by rewrite Hreg|done|].
    destruct x as [err|rsp]; [by destruct Hout as [? _]|]. by destruct Hout as (? & ? & _).
  - exists trips. split; [unfold maxRetries; lia|]. done.
  - destruct x as [err|rsp]; [destruct Hout as [_ [lat Hcap]]|destruct Hout as (_ & _ & [lat Hcap] & _)]; by exists lat.
  - done.
Qed.
End trips.
