(* ===== verification/Interleaving.v ===== *)
(** * Requests and the routing table, lock by lock

    The registry and each of its pools have a lock of their own, and a request
    takes them many times: once to look its route up, and again for every
    endpoint it asks its iterator for.  In between, registrations,
    unregistrations, pruning passes and other requests change the table.  Here a
    step is what runs under one hold of a lock, so that steps of any number of
    requests and of the table's writers follow each other in any order.

    A writer of the table holds the registry's lock throughout, and the pools'
    locks one after the other; what a request does to a pool between two of them
    concerns the failure marks and the round-robin index, which the writers do
    not read, so that it can be ordered before or after the writer. *)

From S2P Require Import Prelude GoStrings Uris Pool PoolSpec Trie TrieSpec Registry RegistrySpec PruneSpec.
From S2P Require Import RegistryTheorems Http RouteService AccessLog Proxy ProxyServe ProxySpec.

(** A request that has its pool: the URI it asked for, the pool, the iterator,
    and whether a call of [Next] is between [findById] and [next]. *)
Record request := mkReq {
  rq_uri : Uri;
  rq_pool : positive;
  rq_iter : endpointIterator;
  rq_between : bool;
}.

Record world := mkWorld {
  w_registry : RouteRegistry;
  w_requests : gmap nat request;
}.

Inductive event :=
| Table (op : reg_op)
| Arrive (i : nat) (uri : Uri) (sticky : string)
| AskService (i : nat)
| FindById (i : nat)
| FindNext (i : nat) (clock : nat → Z) (draw : nat)
| Failed (i : nat) (now : Z)
| Leave (i : nat).

(** What the step tells the request. *)
Inductive answer :=
| Nothing
| NoRoute
| Service (url : string)
| Handed (e : option EndpointRef).

Section world.
Context (range : gmap string positive → list (string * positive)).
Context (Hrange : ∀ m, range m ≡ₚ map_to_list m).

Definition set_request (i : nat) (rq : request) (w : world) : world :=
  mkWorld (w_registry w) (<[i := rq]> (w_requests w)).

(** Writing a pool of the registry. *)
Definition set_pool (v : positive) (p : Pool) (w : world) : world :=
  mkWorld (with_pools (<[v := p]> (pools (w_registry w))) (w_registry w)) (w_requests w).

(** The first half of [Next]: [findById], if the iterator still has an initial
    endpoint, which is then used up. *)
Definition Next_find (i : nat) (rq : request) (w : world) : res (world * answer) :=
  p ← pool_of (w_registry w) (rq_pool rq);
  e ← (if String.eqb (initialEndpoint (rq_iter rq)) "" then Ok None else findById (initialEndpoint (rq_iter rq)) p);
  Ok match e with
     | Some r => (set_request i (mkReq (rq_uri rq) (rq_pool rq) (mkIter "" (Some r)) false) w, Handed (Some r))
     | None => (set_request i (mkReq (rq_uri rq) (rq_pool rq) (mkIter "" (lastEndpoint (rq_iter rq))) true) w, Nothing)
     end.

(** The second half, reached when the first found nothing. *)
Definition Next_next (i : nat) (clock : nat → Z) (draw : nat) (rq : request) (w : world) : res (world * answer) :=
  p ← pool_of (w_registry w) (rq_pool rq);
  r ← next clock draw p;
  Ok (set_request i (mkReq (rq_uri rq) (rq_pool rq) (mkIter "" (fst r)) false) (set_pool (rq_pool rq) (snd r) w),
      Handed (fst r)).

(** A step; [None] when the event cannot happen in this state. *)
Definition step (w : world) (ev : event) : option (res (world * answer)) :=
  let idle i := rq ← w_requests w !! i; if rq_between rq then None else Some rq in
  match ev with
  | Table op => Some (r ← reg_step range (w_registry w) op; Ok (mkWorld r (w_requests w), Nothing))
  | Arrive i uri sticky =>
      match w_requests w !! i with
      | Some _ => None
      | None => Some (
          found ← Lookup uri (w_registry w);
          Ok match found with
             | None => (w, NoRoute)
             | Some v => (set_request i (mkReq uri v (Endpoints sticky) false) w, Nothing)
             end)
      end
  | AskService i => rq ← idle i; Some (
      p ← pool_of (w_registry w) (rq_pool rq);
      url ← Pool_RouteServiceUrl p;
      Ok (w, Service url))
  | FindById i => rq ← idle i; Some (Next_find i rq w)
  | FindNext i clock draw => rq ← w_requests w !! i; if rq_between rq then Some (Next_next i clock draw rq w) else None
  | Failed i now => rq ← idle i; Some (
      p ← pool_of (w_registry w) (rq_pool rq);
      p' ← EndpointFailed now (rq_iter rq) p;
      Ok (set_pool (rq_pool rq) p' w, Nothing))
  | Leave i => rq ← idle i; Some (Ok (mkWorld (w_registry w) (delete i (w_requests w)), Nothing))
  end.

(** With nothing in between, the two halves are the [Next] of the iterator. *)
Lemma Next_halves i clock draw rq w p :
  pools (w_registry w) !! rq_pool rq = Some p →
  match Next clock draw (rq_iter rq) p with
  | Ok (e, it, p') => ∃ w1 a1, Next_find i rq w = Ok (w1, a1) ∧
      ((a1 = Handed e ∧ w1 = set_request i (mkReq (rq_uri rq) (rq_pool rq) it false) w ∧ p' = p) ∨
       (a1 = Nothing ∧ ∃ rq1, w_requests w1 !! i = Some rq1 ∧ rq_between rq1 = true ∧
          Next_next i clock draw rq1 w1
          = Ok (set_request i (mkReq (rq_uri rq) (rq_pool rq) it false) (set_pool (rq_pool rq) p' w), Handed e)))
  | _ => True
  end.
Proof.
  intros Hp. unfold Next, Next_find, pool_of. rewrite Hp. cbn [or_panic mbind res_mbind].
  destruct (if String.eqb _ _ then _ else _) as [[r|]| |]; cbn [mbind res_mbind fst snd]; try done.
  { do 2 eexists. split; [done|]. by left. }
  destruct (next clock draw p) as [[e p']| |] eqn:Hn; cbn [mbind res_mbind fst snd]; try done.
  do 2 eexists. split; [done|]. right. split; [done|]. eexists. split_and!; [apply lookup_insert_eq|done|].
  unfold Next_next, pool_of. cbn [rq_pool w_registry set_request]. rewrite Hp. cbn [or_panic mbind res_mbind].
  rewrite Hn. unfold set_request, set_pool. cbn [mbind res_mbind fst snd rq_uri rq_pool w_registry w_requests].
  by rewrite insert_insert_eq.
Qed.

(** ** What the history of events says about the table *)

(** The event takes the endpoint [e], put on path [q] at time [t], off again:
    its address is unregistered, another endpoint takes over its address, or a
    pruning pass by all of whose clock readings it is stale. *)
Definition takes_off (thr : Z) (ev : event) (q : list string) (e : EndpointRef) (t : Z) : Prop :=
  match ev with
  | Table (OpRegister _ _ uri e') => segments (RouteKey uri) = q ∧ addr e' = addr e ∧ ep_ptr e' ≠ ep_ptr e
  | Table (OpUnregister uri e') => segments (RouteKey uri) = q ∧ addr e' = addr e
  | Table (OpPruneStale now) => ∀ v, view_stale (now v) thr (e, t, None) = true
  | _ => False
  end.

(** [e] was registered for [q] at time [t] and has not been taken off since. *)
Definition listed_by (thr : Z) (es : list event) (q : list string) (e : EndpointRef) (t : Z) : Prop :=
  ∃ es1 t0 uri es2, es = es1 ++ Table (OpRegister t0 t uri e) :: es2 ∧ segments (RouteKey uri) = q
    ∧ Forall (λ ev, ¬ takes_off thr ev q e t) es2.

Lemma listed_by_snoc thr es ev q e t :
  listed_by thr es q e t → ¬ takes_off thr ev q e t → listed_by thr (es ++ [ev]) q e t.
Proof.
  intros (es1 & t0 & uri & es2 & -> & Hq & Hall) Hev. exists es1, t0, uri, (es2 ++ [ev]).
  rewrite <- app_assoc. split_and!; [done..|]. apply Forall_app. by split; [|constructor].
Qed.

Lemma listed_by_new thr es t0 t uri e : listed_by thr (es ++ [Table (OpRegister t0 t uri e)]) (segments (RouteKey uri)) e t.
Proof. by exists es, t0, uri, []. Qed.

(** Everything in the table is there for a reason. *)
Definition justified (thr : Z) (es : list event) (T : table) : Prop :=
  ∀ q a (e : EndpointRef) t f, T q !! a = Some (e, t, f) → addr e = a ∧ listed_by thr es q e t.

Lemma unfailed_lookup (m : gmap string view) a e t f : m !! a = Some (e, t, f) → unfailed m !! a = Some (e, t).
Proof. intros H. unfold unfailed. by rewrite lookup_fmap, H. Qed.

Lemma justified_same thr es (T T' : table) :
  (∀ q, unfailed (T' q) = unfailed (T q)) → justified thr es T → justified thr es T'.
Proof.
  intros Hs HT q a e t f Hv%unfailed_lookup. rewrite Hs in Hv. unfold unfailed in Hv.
  apply lookup_fmap_Some in Hv as ([[e' t'] f'] & [= -> ->] & Hv). by eapply HT.
Qed.

Lemma put_view_lookup now (e : EndpointRef) m a e' t f :
  put_view now e m !! a = Some (e', t, f) →
  (a = addr e ∧ e' = e ∧ t = now) ∨ (m !! a = Some (e', t, f) ∧ (a = addr e → ep_ptr e = ep_ptr e')).
Proof.
  unfold put_view. destruct (m !! addr e) as [[[r0 u] f0]|] eqn:Hm; [case_bool_decide as Hp|].
  - intros H. right. split; [done|]. intros ->. congruence.
  - intros [[<- [= <- <- <-]]|[Hne H]]%lookup_insert_Some; [by left|]. right. split; [done|]. congruence.
  - intros [[<- [= <- <- <-]]|[Hne H]]%lookup_insert_Some; [by left|]. right. split; [done|]. congruence.
Qed.

Lemma table_step_justified thr es op (T T' : table) :
  table_step thr op T T' → justified thr es T → justified thr (es ++ [Table op]) T'.
Proof.
  intros Hstep HT q a e t f Hv. destruct Hstep as [t0 now uri e0 T T' HT'|uri e0 T T' HT'|now T T' HT'].
  - rewrite HT' in Hv. case_bool_decide as Hq.
    + apply put_view_lookup in Hv as [(-> & -> & ->)|[Hv Hp]]; [subst q; split; [done|apply listed_by_new]|].
      destruct (HT _ _ _ _ _ Hv) as [Ha Hl]. split; [done|]. apply listed_by_snoc; [done|].
      intros (_ & Haddr & Hne). apply Hne, Hp. congruence.
    + destruct (HT _ _ _ _ _ Hv) as [Ha Hl]. split; [done|]. apply listed_by_snoc; [done|]. by intros [? _].
  - rewrite HT' in Hv. case_bool_decide as Hq.
    + apply lookup_delete_Some in Hv as [Hne Hv]. destruct (HT _ _ _ _ _ Hv) as [Ha Hl]. split; [done|].
      apply listed_by_snoc; [done|]. intros [_ Haddr]. congruence.
    + destruct (HT _ _ _ _ _ Hv) as [Ha Hl]. split; [done|]. apply listed_by_snoc; [done|]. by intros [? _].
  - destruct (HT' q) as [v Hf]. rewrite Hf in Hv. apply map_lookup_filter_Some in Hv as [Hv Hs].
    destruct (HT _ _ _ _ _ Hv) as [Ha Hl]. split; [done|]. apply listed_by_snoc; [done|].
    intros Hall. specialize (Hall v). cbn [snd] in Hs. unfold view_stale, staleTime in *. cbn in *. congruence.
Qed.

(** ** The invariant *)

Record request_ok (r : RouteRegistry) (rq : request) : Prop := {
  ro_alloc : is_Some (pools r !! rq_pool rq);
  ro_covers : ∀ q, pool_ref r q = Some (rq_pool rq) → covers_uri q (rq_uri rq);
  ro_last : ∀ e : EndpointRef, lastEndpoint (rq_iter rq) = Some e → wf_endpoint e;
}.

Record consistent (thr : Z) (es : list event) (w : world) : Prop := {
  co_registry : registry_wf (w_registry w);
  co_backed : backed (w_registry w);
  co_threshold : dropletStaleThreshold (w_registry w) = thr;
  co_justified : justified thr es (routes (w_registry w));
  co_requests : map_Forall (λ _, request_ok (w_registry w)) (w_requests w);
}.

Lemma request_evolves r r' rq : evolves r r' → request_ok r rq → request_ok r' rq.
Proof. intros [_ HA HR] [Ha Hc Hl]. split; auto. Qed.

(** Changing a pool without changing its endpoints, in the trie or not. *)
Lemma mark_pool r v p p' :
  registry_wf r → backed r → pools r !! v = Some p → pool_wf p' → unfailed (contents p') = unfailed (contents p) →
  let r' := with_pools (<[v := p']> (pools r)) r in
  registry_wf r' ∧ evolves r r' ∧ same_endpoints r r'.
Proof.
  intros Hwf HB Hv Hwf' Hu r'. split_and!.
  - destruct Hwf as [Ht Hd Hp Hi]. split; try done. intros q w Hw. cbn [pools r' with_pools].
    destruct (decide (v = w)) as [<-|Hne]; [rewrite lookup_insert_eq; eauto|]. rewrite lookup_insert_ne by done. by eapply Hp.
  - apply (evolves_write r v p); [done..|]. destruct (HB v p Hv) as [_ [Hl|He]]; [by left|right].
    apply dom_empty_inv_L. rewrite (unfailed_dom _ _ Hu), He. apply dom_empty_L.
  - intros q. split; [done|]. unfold routes. change (pool_ref r' q) with (pool_ref r q).
    destruct (pool_ref r q) as [w|]; [|done]. cbn [pools r' with_pools].
    destruct (decide (v = w)) as [<-|Hne]; [by rewrite lookup_insert_eq, Hv, Hu|by rewrite lookup_insert_ne].
Qed.

Section step.
Context (thr : Z) (es : list event) (w : world) (Hw : consistent thr es w).

(** The pool a request holds: it is there, and its endpoints, if any, are
    those the table has on a path that covers the request. *)
Lemma held_pool i rq :
  w_requests w !! i = Some rq →
  ∃ p, pools (w_registry w) !! rq_pool rq = Some p ∧ pool_of (w_registry w) (rq_pool rq) = Ok p ∧ pool_wf p
    ∧ (∀ q, pool_ref (w_registry w) q = Some (rq_pool rq) → routes (w_registry w) q = contents p)
    ∧ ∀ e : EndpointRef, routed (contents p) e → ∃ q t, covers_uri q (rq_uri rq) ∧ listed_by thr es q e t.
Proof.
  intros Hi. destruct (co_requests _ _ _ Hw i rq Hi) as [[p Hp] Hc _]. destruct (co_backed _ _ _ Hw _ _ Hp) as [Hwf Hl].
  exists p. split_and!; [done|unfold pool_of; by rewrite Hp|done|by intros; eapply routes_Some|].
  intros e He. destruct Hl as [[q Hq]|Hempty]; [|by destruct (routed_nonempty _ _ He)].
  exists q. destruct He as (t & f & He). exists t. split; [by apply Hc|].
  apply (co_justified _ _ _ Hw q (addr e) e t f). by rewrite (routes_Some _ q _ p Hq Hp).
Qed.

Definition quiet_event (ev : event) : Prop := match ev with Table _ => False | _ => True end.

Lemma quiet_justified ev T : quiet_event ev → justified thr es T → justified thr (es ++ [ev]) T.
Proof.
  intros Hq HT q a e t f Hv. destruct (HT q a e t f Hv) as [Ha Hl]. split; [done|].
  apply listed_by_snoc; [done|]. destruct ev; [by destruct Hq|by intros []..].
Qed.

(** A request's step that leaves the registry alone, or only marks its pool. *)
Lemma quiet_step ev reqs :
  quiet_event ev → map_Forall (λ _, request_ok (w_registry w)) reqs →
  consistent thr (es ++ [ev]) (mkWorld (w_registry w) reqs).
Proof. destruct Hw as [H1 H2 H3 H4 H5]. intros Hq Hr. split; try done. by apply quiet_justified. Qed.

Lemma mark_step ev v p p' reqs :
  quiet_event ev → pools (w_registry w) !! v = Some p → pool_wf p' → unfailed (contents p') = unfailed (contents p) →
  map_Forall (λ _, request_ok (w_registry w)) reqs →
  let r' := with_pools (<[v := p']> (pools (w_registry w))) (w_registry w) in
  consistent thr (es ++ [ev]) (mkWorld r' reqs) ∧ same_endpoints (w_registry w) r'.
Proof.
  intros Hq Hv Hwf' Hu Hr r'. destruct Hw as [H1 H2 H3 H4 H5].
  destruct (mark_pool _ v p p' H1 H2 Hv Hwf' Hu) as (Hwf & Hev & Hs). split; [|done]. split; try done.
  - by apply Hev.
  - apply (justified_same thr _ (routes (w_registry w))); [intros q; apply Hs|]. by apply quiet_justified.
  - intros i rq Hi. apply (request_evolves (w_registry w)); [done|]. by apply (Hr i).
Qed.

Lemma set_request_ok i rq it b :
  w_requests w !! i = Some rq → (∀ e : EndpointRef, lastEndpoint it = Some e → wf_endpoint e) →
  map_Forall (λ _, request_ok (w_registry w)) (<[i := mkReq (rq_uri rq) (rq_pool rq) it b]> (w_requests w)).
Proof.
  intros Hi He. apply map_Forall_insert_2; [|apply (co_requests _ _ _ Hw)].
  destruct (co_requests _ _ _ Hw i rq Hi) as [H1 H2 _]. by split.
Qed.
End step.

(** ** What a step does *)

Definition asks (w : world) (ev : event) : option request :=
  match ev with
  | Table _ => None
  | Arrive i _ _ | AskService i | FindById i | FindNext i _ _ | Failed i _ | Leave i => w_requests w !! i
  end.

(** The answers are right at the moment of the step. *)
Definition answer_ok (thr : Z) (es : list event) (w : world) (ev : event) (a : answer) : Prop :=
  match a with
  | Nothing => True
  | NoRoute => ∃ i uri sticky, ev = Arrive i uri sticky ∧ ∀ q, covers_uri q uri → pool_ref (w_registry w) q = None
  | Service url => ∃ rq, asks w ev = Some rq ∧
      (url ≠ "" → ∃ q (e : EndpointRef) t, covers_uri q (rq_uri rq) ∧ listed_by thr es q e t ∧ RouteServiceUrl e = url)
  | Handed (Some e) => ∃ rq q t, asks w ev = Some rq ∧ covers_uri q (rq_uri rq) ∧ listed_by thr es q e t
  | Handed None => ∃ rq, asks w ev = Some rq ∧
      ∀ q, pool_ref (w_registry w) q = Some (rq_pool rq) → routes (w_registry w) q = ∅
  end.

Definition table_effect (thr : Z) (w : world) (ev : event) (w' : world) : Prop :=
  match ev with
  | Table op => table_step thr op (routes (w_registry w)) (routes (w_registry w'))
  | _ => same_endpoints (w_registry w) (w_registry w')
  end.

Definition event_wf (ev : event) : Prop := match ev with Table op => reg_op_wf op | _ => True end.

Lemma first_match_covers r uri :
  first_match (pool_ref r) (RouteKey uri :: wildcards (RouteKey uri)) = None →
  ∀ q, covers_uri q uri → pool_ref r q = None.
Proof. intros H q (u & Hu & Hc). apply first_match_None in H. rewrite Forall_forall in H. by apply (H u). Qed.

Lemma Lookup_allocated r uri v : registry_wf r → Lookup uri r = Ok (Some v) → linked r v.
Proof.
  intros Hwf Hl. rewrite Lookup_spec in Hl by done.
  assert (first_match (pool_ref r) (RouteKey uri :: wildcards (RouteKey uri)) = Some v) as Hm by congruence.
  apply first_match_Some in Hm as (us1 & u & us2 & q & rest & _ & _ & _ & Hq & _). by exists q.
Qed.

Definition stepped (thr : Z) (es : list event) (w : world) (ev : event) (x : res (world * answer)) : Prop :=
  ∃ w' a, x = Ok (w', a) ∧ answer_ok thr es w ev a ∧ table_effect thr w ev w' ∧ consistent thr (es ++ [ev]) w'.

Section steps.
Context (thr : Z) (es : list event) (w : world) (Hw : consistent thr es w).

Lemma table_stepped op :
  reg_op_wf op →
  stepped thr es w (Table op) (r ← reg_step range (w_registry w) op; Ok (mkWorld r (w_requests w), Nothing)).
Proof.
  intros Hop. destruct Hw as [H1 H2 H3 H4 H5].
  destruct (reg_step_sim range Hrange (w_registry w) op H1 Hop) as (r' & -> & Hwf & Hthr & Hstep & Hev).
  rewrite H3 in Hstep. cbn [mbind res_mbind]. do 2 eexists. split; [done|]. split; [done|]. split; [done|].
  split; cbn [w_registry w_requests]; [done|by apply Hev|congruence|by eapply table_step_justified|].
  intros i rq Hi. apply (request_evolves (w_registry w)); [done|]. by apply (H5 i).
Qed.

Lemma arrive_stepped i uri sticky :
  w_requests w !! i = None →
  stepped thr es w (Arrive i uri sticky) (
    found ← Lookup uri (w_registry w);
    Ok match found with
       | None => (w, NoRoute)
       | Some v => (set_request i (mkReq uri v (Endpoints sticky) false) w, Nothing)
       end).
Proof.
  intros Hi. pose proof (co_registry _ _ _ Hw) as Hwf. pose proof (Lookup_spec uri (w_registry w) Hwf) as Hl.
  rewrite Hl. cbn [mbind res_mbind]. destruct (first_match _ _) as [v|] eqn:Hm.
  - do 2 eexists. split; [done|]. split; [done|]. split; [done|]. apply quiet_step; [done|done|].
    apply map_Forall_insert_2; [|apply (co_requests _ _ _ Hw)]. split; cbn [rq_pool rq_uri rq_iter].
    + destruct (Lookup_allocated _ uri v Hwf Hl) as [q Hq]. destruct (reg_pools _ Hwf q v Hq) as (p & Hp & _). eauto.
    + intros q. by apply Lookup_covers.
    + done.
  - do 2 eexists. split; [done|]. split; [|split; [done|]].
    + exists i, uri, sticky. split; [done|]. by apply first_match_covers.
    + destruct w as [r reqs]. apply (quiet_step thr es (mkWorld r reqs)); [done|done|apply (co_requests _ _ _ Hw)].
Qed.

Lemma service_stepped i rq :
  w_requests w !! i = Some rq →
  stepped thr es w (AskService i) (
    p ← pool_of (w_registry w) (rq_pool rq); url ← Pool_RouteServiceUrl p; Ok (w, Service url)).
Proof.
  intros Hi. destruct (held_pool thr es w Hw i rq Hi) as (p & Hp & -> & Hwf & _ & Hl). cbn [mbind res_mbind].
  destruct (RouteServiceUrl_routed p Hwf) as (url & -> & Hurl). cbn [mbind res_mbind]. do 2 eexists. split; [done|].
  split; [|split; [done|]].
  - exists rq. split; [done|]. intros Hne. destruct (Hurl Hne) as (e & He & <-). destruct (Hl e He) as (q & t & ? & ?). eauto 10.
  - destruct w as [r reqs]. apply (quiet_step thr es (mkWorld r reqs)); [done|done|apply (co_requests _ _ _ Hw)].
Qed.

Lemma find_stepped i rq : w_requests w !! i = Some rq → stepped thr es w (FindById i) (Next_find i rq w).
Proof.
  intros Hi. destruct (held_pool thr es w Hw i rq Hi) as (p & Hp & Hof & Hwf & _ & Hl). unfold Next_find. rewrite Hof.
  cbn [mbind res_mbind]. destruct (findById_routed (initialEndpoint (rq_iter rq)) p Hwf) as (e & -> & He).
  cbn [mbind res_mbind]. destruct e as [e|]; do 2 eexists; (split; [done|]).
  - destruct (He e eq_refl) as [Hwfe Hin]. destruct (Hl e Hin) as (q & t & ? & ?). split; [by exists rq, q, t|].
    split; [done|]. apply quiet_step; [done|done|]. apply (set_request_ok thr es); [done|done|]. by intros e' [= <-].
  - split; [done|]. split; [done|]. apply quiet_step; [done|done|]. apply (set_request_ok thr es); [done|done|].
    apply (ro_last (w_registry w)). by apply (co_requests _ _ _ Hw i).
Qed.

Lemma next_stepped i clock draw rq :
  w_requests w !! i = Some rq → stepped thr es w (FindNext i clock draw) (Next_next i clock draw rq w).
Proof.
  intros Hi. destruct (held_pool thr es w Hw i rq Hi) as (p & Hp & Hof & Hwf & Hr & Hl). unfold Next_next. rewrite Hof.
  cbn [mbind res_mbind]. destruct (next_routed clock draw p Hwf) as (e & p' & -> & Hwf' & Hnone & He & Hu).
  cbn [mbind res_mbind fst snd].
  destruct (mark_step thr es w Hw (FindNext i clock draw) (rq_pool rq) p p'
    (<[i := mkReq (rq_uri rq) (rq_pool rq) (mkIter "" e) false]> (w_requests w))) as [Hc Hs]; [done..| |].
  { apply (set_request_ok thr es); [done|done|]. intros r Hr'. by apply He. }
  do 2 eexists. split; [done|]. split; [|by split]. destruct e as [e|].
  - destruct (He e eq_refl) as [_ Hin]. destruct (Hl e Hin) as (q & t & ? & ?). by exists rq, q, t.
  - exists rq. split; [done|]. intros q Hq. rewrite (Hr q Hq). by apply Hnone.
Qed.

Lemma failed_stepped i now rq :
  w_requests w !! i = Some rq →
  stepped thr es w (Failed i now) (
    p ← pool_of (w_registry w) (rq_pool rq); p' ← EndpointFailed now (rq_iter rq) p;
    Ok (set_pool (rq_pool rq) p' w, Nothing)).
Proof.
  intros Hi. destruct (held_pool thr es w Hw i rq Hi) as (p & Hp & Hof & Hwf & _). rewrite Hof. cbn [mbind res_mbind].
  assert (∃ p', EndpointFailed now (rq_iter rq) p = Ok p' ∧ pool_wf p' ∧ unfailed (contents p') = unfailed (contents p))
    as (p' & -> & Hwf' & Hu).
  { unfold EndpointFailed. destruct (lastEndpoint (rq_iter rq)) as [e|] eqn:He; [|by exists p].
    destruct (endpointFailed_spec now e p Hwf) as (p' & -> & Hwf' & Hc & _).
    { apply (ro_last (w_registry w) rq); [|done]. by apply (co_requests _ _ _ Hw i). }
    exists p'. split_and!; [done..|]. rewrite Hc. by apply unfailed_alter. }
  cbn [mbind res_mbind]. do 2 eexists. split; [done|]. split; [done|].
  destruct (mark_step thr es w Hw (Failed i now) (rq_pool rq) p p' (w_requests w)) as [Hc Hs]; [done..| |by split].
  apply (co_requests _ _ _ Hw).
Qed.
End steps.

Lemma step_spec thr es w ev x :
  consistent thr es w → event_wf ev → step w ev = Some x → stepped thr es w ev x.
Proof.
  intros Hw Hev. destruct ev as [op|i uri sticky|i|i|i clock draw|i now|i]; cbn [step].
  - intros [= <-]. by apply table_stepped.
  - destruct (w_requests w !! i) eqn:Hi; [done|]. intros [= <-]. by apply arrive_stepped.
  - intros (rq & (rq' & Hi & Hb)%bind_Some & [= <-])%bind_Some. destruct (rq_between rq'); simplify_eq. by apply service_stepped.
  - intros (rq & (rq' & Hi & Hb)%bind_Some & [= <-])%bind_Some. destruct (rq_between rq'); simplify_eq. by apply find_stepped.
  - intros (rq & Hi & Hx)%bind_Some. destruct (rq_between rq); simplify_eq. by apply next_stepped.
  - intros (rq & (rq' & Hi & Hb)%bind_Some & [= <-])%bind_Some. destruct (rq_between rq'); simplify_eq. by apply failed_stepped.
  - intros (rq & (rq' & Hi & Hb)%bind_Some & [= <-])%bind_Some. do 2 eexists. split; [done|]. split; [done|]. split; [done|].
    apply quiet_step; [done|done|]. apply map_Forall_delete, (co_requests _ _ _ Hw).
Qed.

(** ** Every interleaving *)

Definition start_world (interval thr : Z) : world := mkWorld (NewRouteRegistry interval thr) ∅.

(** The states that some order of events leads to, with the events so far. *)
Inductive reached (interval thr : Z) : list event → world → Prop :=
| reached_start : reached interval thr [] (start_world interval thr)
| reached_step es w ev w' a :
    reached interval thr es w → event_wf ev → step w ev = Some (Ok (w', a)) → reached interval thr (es ++ [ev]) w'.

Lemma start_consistent interval thr : consistent thr [] (start_world interval thr).
Proof.
  destruct (NewRouteRegistry_wf interval thr) as [Hwf Hr]. split; try done.
  intros q a e t f. cbn [start_world w_registry]. by rewrite Hr, lookup_empty.
Qed.

Lemma reached_consistent interval thr es w : reached interval thr es w → consistent thr es w.
Proof.
  induction 1 as [|es w ev w' a _ IH Hev Hs]; [apply start_consistent|].
  destruct (step_spec thr es w ev _ IH Hev Hs) as (w1 & a1 & [= <- <-] & _ & _ & Hc). done.
Qed.

(** C3: Requests and table changes in any order, lock by lock. In every state
    that any interleaving of registrations, unregistrations, pruning passes
    and the single steps of any number of requests can reach, as long as the
    private instance ids of registered and unregistered endpoints have no
    colon ([event_wf]; see [colon_id_panics]), no step panics; a request is
    told that it has no route only when no path that covers its URI has a
    pool; every endpoint an iterator hands out, and every route service it is
    sent to, was registered for a path that covers the request's URI and has
    not been unregistered, replaced or found stale by a pruning pass before
    this very step, even when the request's pool has left the trie since its
    lookup; nothing is handed out only when the pool has no endpoints; and
    only the table's own operations change the table, each as specified. *)
Theorem interleaved_requests interval thr es w ev x :
  reached interval thr es w → event_wf ev → step w ev = Some x →
  ∃ w' a, x = Ok (w', a) ∧ answer_ok thr es w ev a ∧ table_effect thr w ev w'.
Proof.
  intros Hw Hev Hs. destruct (step_spec thr es w ev x (reached_consistent _ _ _ _ Hw) Hev Hs) as (w' & a & ? & ? & ? & _).
  eauto.
Qed.

(** Running a list of events. *)
Fixpoint run (w : world) (es : list event) : option (world * list answer) :=
  match es with
  | [] => Some (w, [])
  | ev :: es' =>
      match step w ev with
      | Some (Ok (w1, a)) => r ← run w1 es'; Some (fst r, a :: snd r)
      | _ => None
      end
  end.

Lemma run_reached interval thr es : ∀ es0 w w' l,
  reached interval thr es0 w → Forall event_wf es → run w es = Some (w', l) → reached interval thr (es0 ++ es) w'.
Proof.
  induction es as [|ev es IH]; intros es0 w w' l Hr Hes; cbn [run]; [intros [= <- _]; by rewrite app_nil_r|].
  inversion Hes; subst. destruct (step w ev) as [[[w1 a]| |]|] eqn:Hs; try done.
  intros ([w2 l2] & Hrun & [= <- _])%bind_Some. change (ev :: es) with ([ev] ++ es). rewrite app_assoc.
  eapply (IH (es0 ++ [ev]) w1); [|done..]. by eapply reached_step.
Qed.
End world.

(** ** A concrete interleaving

    While request 0 is between the two halves of its first [Next], the only
    endpoint of its route is unregistered and another one takes its place. *)

Definition swap_run : list event :=
  [Table (OpRegister 0 0 "shop.example.com" back1);
   Arrive 0 "shop.example.com/cart" ""; Arrive 1 "Shop.example.com" "id1"; FindById 0; FindById 1;
   Table (OpUnregister "shop.example.com" back1); Table (OpRegister Second Second "shop.example.com" back2);
   Arrive 2 "shop.example.com" "id1"; FindById 2].

Definition swapped : world := from_option fst (start_world 0 0) (run map_to_list (start_world 0 (120 * Second)) swap_run).

(** The session of request 1 finds its endpoint while it is there; request 2
    finds it gone and is given the new one; request 0, whose pool has left the
    trie, is given none. *)
Example swap_answers :
  run map_to_list (start_world 0 (120 * Second)) swap_run
  = Some (swapped, [Nothing; Nothing; Nothing; Nothing; Handed (Some back1); Nothing; Nothing; Nothing; Nothing])
  ∧ (snd <$> run map_to_list swapped [FindNext 2 (λ _, 0)%Z 0; FindNext 0 (λ _, 0)%Z 0; Failed 0 0; Leave 0])
    = Some [Handed (Some back2); Handed None; Nothing; Nothing].
Proof. split; vm_compute; reflexivity. Qed.

Lemma swap_reached : reached map_to_list 0 (120 * Second) swap_run swapped.
Proof.
  eapply (run_reached map_to_list 0 (120 * Second) swap_run []); [apply reached_start| |apply swap_answers].
  repeat (constructor; [vm_compute; auto|]). constructor.
Qed.

Lemma interleaved_requests_witness :
  ∃ w' a, Next_next 2 (λ _, 0)%Z 0 (mkReq "shop.example.com" 2 (mkIter "" None) true) swapped = Ok (w', a)
    ∧ answer_ok (120 * Second) swap_run swapped (FindNext 2 (λ _, 0)%Z 0) a
    ∧ table_effect (120 * Second) swapped (FindNext 2 (λ _, 0)%Z 0) w'.
Proof.
  apply (interleaved_requests map_to_list map_to_list_range 0 (120 * Second) swap_run swapped (FindNext 2 (λ _, 0)%Z 0));
    [apply swap_reached|exact I|]. reflexivity.
Defined.
