(* ===== verification/ProxyForward.v ===== *)
(** * From the request to the round trip

    What the director, the removal of hop-by-hop headers and the forwarding
    header do to a request before a round tripper sees it, and how the reverse
    proxy answers the client afterwards. *)

From S2P Require Import Prelude GoStrings Uris Pool PoolSpec PoolTheorems Trie TrieSpec Registry RegistrySpec.
From S2P Require Import Http RouteService AccessLog Proxy ProxyServe ProxySpec.

(** ** Edits of headers *)

(** Only the header keys [ks] may differ. *)
Definition header_edit (ks : list string) (h h' : Header) : Prop := ∀ k, k ∉ ks → h' !! k = h !! k.

Lemma header_edit_trans ks1 ks2 h1 h2 h3 :
  header_edit ks1 h1 h2 → header_edit ks2 h2 h3 → header_edit (ks1 ++ ks2) h1 h3.
Proof. intros H1 H2 k Hk. rewrite H2, H1; [done|set_solver..]. Qed.

Lemma header_edit_Get ks k h h' :
  header_edit ks h h' → CanonicalHeaderKey k ∉ ks → header_Get k h' = header_Get k h.
Proof. intros He Hk. unfold header_Get. by rewrite He. Qed.

Lemma header_edit_Set k v h : header_edit [CanonicalHeaderKey k] h (header_Set k v h).
Proof. intros k' Hk. unfold header_Set. rewrite lookup_insert_ne; [done|set_solver]. Qed.

Lemma header_edit_Del k h : header_edit [CanonicalHeaderKey k] h (header_Del k h).
Proof. intros k' Hk. unfold header_Del. rewrite lookup_delete_ne; [done|set_solver]. Qed.

Lemma header_edit_refl ks h : header_edit ks h h.
Proof. by intros k. Qed.

(** Membership in lists of constant keys is decided by computation. *)
Lemma keys_in (k : string) (ks : list string) : bool_decide (k ∈ ks) = true → k ∈ ks.
Proof. apply bool_decide_eq_true_1. Qed.

Lemma keys_not_in (k : string) (ks : list string) : bool_decide (k ∈ ks) = false → k ∉ ks.
Proof. apply bool_decide_eq_false_1. Qed.

Lemma header_edit_sub ks ks' h h' :
  forallb (λ k, bool_decide (k ∈ ks')) ks = true → header_edit ks h h' → header_edit ks' h h'.
Proof.
  intros Hsub He k Hk. apply He. intros Hin. apply Hk.
  rewrite forallb_forall in Hsub. by apply keys_in, Hsub, list_elem_of_In.
Qed.

(** Only the store and the count of questions differ. *)
Definition restored (s s' : PState) : Prop :=
  ∃ st tk, s' = with_tick tk (with_store st s) ∧ store_le (ps_store s) st.

Lemma restored_refl s : restored s s.
Proof. exists (ps_store s), (ps_tick s). split; [by destruct s|apply store_le_refl]. Qed.

Lemma restored_trans s1 s2 s3 : restored s1 s2 → restored s2 s3 → restored s1 s3.
Proof.
  intros (st & tk & -> & H1) (st' & tk' & -> & H2). exists st', tk'. split; [done|]. cbn in H2. by eapply store_le_trans.
Qed.

Lemma restored_put_header p h s : restored s (with_store (put_header p h (ps_store s)) s).
Proof. exists (put_header p h (ps_store s)), (ps_tick s). split; [by destruct s|apply put_header_le]. Qed.

Lemma restored_put_url p u s : restored s (with_store (put_url p u (ps_store s)) s).
Proof. exists (put_url p u (ps_store s)), (ps_tick s). split; [by destruct s|apply put_url_le]. Qed.

Lemma restored_live pool s s' : restored s s' → live pool s → live pool s'.
Proof. intros (st & tk & -> & _) H. by eapply live_same. Qed.

Lemma restored_valid r s s' : restored s s' → valid r (ps_store s) → valid r (ps_store s').
Proof. intros (st & tk & -> & H) Hr. by apply H. Qed.

Section edits.
Context (env : Env).

(** [s'] is [s] with the header map of [p] edited at [ks], from [h] to [h']. *)
Definition edited (p : positive) (ks : list string) (h h' : Header) (s s' : PState) : Prop :=
  restored s s' ∧ headers (ps_store s') = <[p := h']> (headers (ps_store s)) ∧ urls (ps_store s') = urls (ps_store s)
  ∧ header_edit ks h h'.

Lemma edited_trans p ks1 ks2 h1 h2 h3 s1 s2 s3 :
  edited p ks1 h1 h2 s1 s2 → edited p ks2 h2 h3 s2 s3 → edited p (ks1 ++ ks2) h1 h3 s1 s3.
Proof.
  intros (Hr1 & Hh1 & Hu1 & He1) (Hr2 & Hh2 & Hu2 & He2). split_and!.
  - by eapply restored_trans.
  - by rewrite Hh2, Hh1, insert_insert_eq.
  - by rewrite Hu2.
  - by eapply header_edit_trans.
Qed.

Lemma edited_lookup p ks h h' s s' : edited p ks h h' s s' → headers (ps_store s') !! p = Some h'.
Proof. intros (_ & -> & _). by rewrite lookup_insert_eq. Qed.

Lemma edited_put p ks h h' tk s :
  header_edit ks h h' → edited p ks h h' s (with_tick tk (with_store (put_header p h' (ps_store s)) s)).
Proof.
  intros He. split_and!; try done. exists (put_header p h' (ps_store s)), tk. split; [done|]. apply put_header_le.
Qed.

Lemma edited_id p ks h tk s : headers (ps_store s) !! p = Some h → edited p ks h h s (with_tick tk s).
Proof.
  intros Hh. split_and!; try done.
  - exists (ps_store s), tk. split; [by destruct s|apply store_le_refl].
  - cbn. by rewrite insert_id.
Qed.

Lemma wp_setRequestXRequestStart r h Q s :
  headers (ps_store s) !! r_Header r = Some h →
  (∀ s' h', edited (r_Header r) [CanonicalHeaderKey "X-Request-Start"] h h' s s' →
     (is_Some (h !! CanonicalHeaderKey "X-Request-Start") → h' = h) → Q tt s') →
  wp (setRequestXRequestStart env r) Q s.
Proof.
  intros Hh HQ. unfold setRequestXRequestStart. wp_steps. eapply wp_lift; [unfold get_header; by rewrite Hh|].
  destruct (h !! CanonicalHeaderKey "X-Request-Start") eqn:E; wp_steps.
  - apply (HQ s h); [|done]. pose proof (edited_id (r_Header r) [CanonicalHeaderKey "X-Request-Start"] h (ps_tick s) s Hh) as He.
    by destruct s.
  - eapply wp_update_header; [done|]. apply (HQ _ (header_Set "X-Request-Start" (pretty (Z.quot a Millisecond)) h)).
    + apply (edited_put _ _ h _ (S (ps_tick s)) s). apply header_edit_Set.
    + intros []. congruence.
Qed.

Lemma wp_setRequestXVcapRequestId r h Q s :
  headers (ps_store s) !! r_Header r = Some h →
  (∀ s' h', edited (r_Header r) [CanonicalHeaderKey VcapRequestIdHeader] h h' s s' → Q tt s') →
  wp (setRequestXVcapRequestId env r) Q s.
Proof.
  intros Hh HQ. unfold setRequestXVcapRequestId. wp_steps. destruct a as [id|]; wp_steps.
  - eapply wp_update_header; [done|]. apply (HQ _ (header_Set VcapRequestIdHeader id h)).
    apply (edited_put _ _ h _ (S (ps_tick s)) s). apply header_edit_Set.
  - apply (HQ _ h). by apply edited_id.
Qed.

Lemma wp_setRequestXForwardedFor r h Q s :
  headers (ps_store s) !! r_Header r = Some h →
  (∀ s' h', edited (r_Header r) [CanonicalHeaderKey "X-Forwarded-For"] h h' s s' → Q tt s') →
  wp (setRequestXForwardedFor r) Q s.
Proof.
  intros Hh HQ. unfold setRequestXForwardedFor. destruct (SplitHost (RemoteAddr r)) as [ip|]; wp_steps.
  - eapply wp_update_header; [done|]. cbv beta zeta. set (v := match h !! "X-Forwarded-For" with Some _ => _ | None => _ end).
    apply (HQ _ (header_Set "X-Forwarded-For" v h)).
    pose proof (edited_put (r_Header r) _ h _ (ps_tick s) s (header_edit_Set "X-Forwarded-For" v h)) as He. by destruct s.
  - apply (HQ s h). pose proof (edited_id (r_Header r) [CanonicalHeaderKey "X-Forwarded-For"] h (ps_tick s) s Hh). by destruct s.
Qed.

(** ** The director *)

Definition service_headers : list string := [RouteServiceSignature; RouteServiceMetadata; RouteServiceForwardedUrl].

(** The keys the director may touch. *)
Definition director_keys : list string :=
  map CanonicalHeaderKey (["X-Request-Start"; VcapRequestIdHeader] ++ service_headers).

(** What becomes of the route service headers. *)
Definition service_header_rule (args : RouteServiceArgs) (h h' : Header) : Prop :=
  let sig := header_Get RouteServiceSignature h in
  if forwardingToRouteService (UrlString args) sig then
    header_Get RouteServiceSignature h' = args_Signature args ∧ header_Get RouteServiceMetadata h' = args_Metadata args
    ∧ header_Get RouteServiceForwardedUrl h' = ForwardedUrlRaw args
  else if hasBeenToRouteService (UrlString args) sig then
    h' !! CanonicalHeaderKey RouteServiceSignature = None ∧ h' !! CanonicalHeaderKey RouteServiceMetadata = None
  else True.

(** The URL of the outgoing request. *)
Definition director_url (source : Request) (args : RouteServiceArgs) (h : Header) (st : store) (u0 : URL) : option URL :=
  if forwardingToRouteService (UrlString args) (header_Get RouteServiceSignature h)
  then p ← ParsedUrl args; urls st !! p
  else Some (mkURL "http" (RequestURI source) (Host source) (Path u0) "").

Record directed (source : Request) (args : RouteServiceArgs) (h : Header) (u0 : URL) (s : PState) (t : Request) (s' : PState)
    : Prop := {
  dr_restored : restored s s';
  dr_header : r_Header t = r_Header source;
  dr_remote : RemoteAddr t = RemoteAddr source;
  dr_target : ∃ h' u, headers (ps_store s') !! r_Header source = Some h' ∧ urls (ps_store s') !! r_URL t = Some u
    ∧ header_edit director_keys h h' ∧ service_header_rule args h h' ∧ director_url source args h (ps_store s) u0 = Some u;
}.

(** [args] points to a URL other than the one of the request. *)
Definition args_ok (req : Request) (args : RouteServiceArgs) (st : store) : Prop :=
  ∀ p, ParsedUrl args = Some p → is_Some (urls st !! p) ∧ p ≠ r_URL req.

Lemma wp_SetupProxyRequest req args h u0 Q s :
  headers (ps_store s) !! r_Header req = Some h → urls (ps_store s) !! r_URL req = Some u0 →
  args_ok req args (ps_store s) →
  (forwardingToRouteService (UrlString args) (header_Get RouteServiceSignature h) = true → is_Some (ParsedUrl args)) →
  (∀ t s', directed req args h u0 s t s' → Q t s') →
  wp (SetupProxyRequest env req req args) Q s.
Proof.
  intros Hh Hu Hargs Hfwd HQ. unfold SetupProxyRequest. wp_step. eapply wp_update_url; [done|]. cbv beta.
  set (u1 := mkURL _ _ _ _ _). set (s1 := with_store _ s).
  assert (restored s s1) as Hr1 by apply restored_put_url.
  wp_step. apply (wp_setRequestXRequestStart req h); [done|]. intros s2 h2 He2 _. wp_step.
  apply (wp_setRequestXVcapRequestId req h2); [by eapply edited_lookup|]. intros s3 h3 He3. do 2 wp_step.
  pose proof (edited_trans _ _ _ _ _ _ _ _ _ He2 He3) as He. clear He2 He3. pose proof (edited_lookup _ _ _ _ _ _ He) as Hl.
  wp_step. eapply wp_lift; [unfold get_header; by rewrite Hl|]. cbv beta zeta.
  assert (restored s s3) as Hr3 by (eapply restored_trans; [done|]; apply He).
  assert (header_Get RouteServiceSignature h3 = header_Get RouteServiceSignature h) as Hsig.
  { eapply header_edit_Get; [apply He|]. apply keys_not_in. vm_compute. reflexivity. }
  rewrite Hsig. pose proof He as (_ & Hh3 & Hu3 & Hed).
  assert (urls (ps_store s3) = <[r_URL req := u1]> (urls (ps_store s))) as Hurls by (rewrite Hu3; done).
  destruct (forwardingToRouteService _ _) eqn:Hf; [|destruct (hasBeenToRouteService _ _) eqn:Hb].
  - destruct (Hfwd eq_refl) as [pp Hpp]. destruct (Hargs pp Hpp) as [[pu Hpu] Hne].
    wp_step. eapply wp_lift.
    { unfold SetupRouteServiceRequest, update_header, get_header. rewrite Hl. cbn. rewrite Hpp. cbn. unfold get_url. cbn.
      rewrite Hurls, lookup_insert_ne, Hpu by done. cbn. reflexivity. }
    wp_steps. cbn [fst snd]. apply HQ. split; try done.
    + eapply restored_trans; [done|]. apply restored_put_header.
    + eexists _, pu. cbn. rewrite lookup_insert_eq, Hurls, lookup_insert_ne, Hpu by done.
      split_and!; [done|done| | |unfold director_url; by rewrite Hf, Hpp].
      * eapply header_edit_sub; [|eapply header_edit_trans; [exact Hed|]; eapply header_edit_trans;
          [eapply header_edit_trans|]; apply header_edit_Set]. vm_compute. reflexivity.
      * unfold service_header_rule. rewrite Hf. split_and!; [|rewrite header_Get_Set_ne by (vm_compute; discriminate)|];
          rewrite ?header_Get_Set; try done. rewrite !header_Get_Set_ne by (vm_compute; discriminate). apply header_Get_Set.
  - wp_step. eapply wp_update_header; [done|]. wp_step. apply HQ. split; try done.
    + eapply restored_trans; [done|]. apply restored_put_header.
    + eexists _, u1. cbn. rewrite lookup_insert_eq, Hurls, lookup_insert_eq.
      split_and!; [done|done| | |unfold director_url; by rewrite Hf].
      * eapply header_edit_sub; [|eapply header_edit_trans; [exact Hed|]; eapply header_edit_trans;
          apply header_edit_Del]. vm_compute. reflexivity.
      * unfold service_header_rule. rewrite Hf, Hb. unfold header_Del.
        rewrite lookup_delete_ne by (vm_compute; discriminate). by rewrite !lookup_delete_eq.
  - wp_step. apply HQ. split; try done. exists h3, u1. rewrite Hl, Hurls, lookup_insert_eq.
    split_and!; [done|done| |unfold service_header_rule; by rewrite Hf, Hb|unfold director_url; by rewrite Hf].
    eapply header_edit_sub; [|exact Hed]. vm_compute. reflexivity.
Qed.
(** ** Hop-by-hop headers *)

Definition hop_keys : list string := map CanonicalHeaderKey hopHeaders.

Lemma del_edit (c : string → bool) ks : ∀ h,
  header_edit (map CanonicalHeaderKey ks) h (foldl (λ h k, if c k then h else header_Del k h) h ks).
Proof.
  induction ks as [|k ks IH]; intros h; [apply header_edit_refl|]. cbn [foldl map].
  apply (header_edit_trans [CanonicalHeaderKey k] (map CanonicalHeaderKey ks) _ (if c k then h else header_Del k h)); [|apply IH].
  destruct (c k); [apply header_edit_refl|apply header_edit_Del].
Qed.

Lemma copyHeader_empty h : copyHeader ∅ h = h.
Proof. unfold copyHeader. by rewrite (left_id_L ∅ (union_with _)). Qed.

Lemma wp_remove_hop_headers req t h Q s :
  r_Header t = r_Header req → headers (ps_store s) !! r_Header req = Some h →
  (∀ p s' h', restored s s' → urls (ps_store s') = urls (ps_store s) → headers (ps_store s') !! p = Some h' →
     header_edit hop_keys h h' → Q (set_HeaderMap p t) s') →
  wp (remove_hop_headers req t) Q s.
Proof.
  intros Ht Hh HQ. unfold remove_hop_headers. wp_steps. rewrite Ht. eapply wp_lift; [unfold get_header; by rewrite Hh|].
  destruct (has_hop_header h); wp_steps.
  - eapply wp_lift; [unfold get_header; by rewrite Hh|]. cbv beta zeta. wp_steps.
    eapply HQ; [apply restored_put_header|done|cbn; by rewrite lookup_insert_eq|].
    rewrite copyHeader_empty. apply (del_edit (λ k, String.eqb (header_Get k h) "")).
  - replace t with (set_HeaderMap (r_Header req) t) at 1 by (destruct t; cbn in *; by subst).
    apply (HQ _ _ h); [apply restored_refl|done|done|apply header_edit_refl].
Qed.

(** ** The outgoing request *)

Definition outgoing_keys : list string := director_keys ++ hop_keys ++ [CanonicalHeaderKey "X-Forwarded-For"].

(** The request a round tripper is given, in state [s1]. *)
Record outgoing (req : Request) (args : RouteServiceArgs) (h : Header) (u0 : URL) (s : PState)
    (out : Request) (u : URL) (h' : Header) (s1 : PState) : Prop := {
  og_restored : restored s s1;
  og_header : headers (ps_store s1) !! r_Header out = Some h';
  og_url : urls (ps_store s1) !! r_URL out = Some u;
  og_edit : header_edit outgoing_keys h h';
  og_service : service_header_rule args h h';
  og_director : director_url req args h (ps_store s) u0 = Some u;
}.

Lemma service_header_rule_edit args h h1 h2 ks :
  service_header_rule args h h1 → header_edit ks h1 h2 →
  forallb (λ k, negb (bool_decide (CanonicalHeaderKey k ∈ ks))) service_headers = true →
  service_header_rule args h h2.
Proof.
  intros Hr He Hks. assert (∀ k, k ∈ service_headers → h2 !! CanonicalHeaderKey k = h1 !! CanonicalHeaderKey k) as Hs.
  { intros k Hk. apply He. rewrite forallb_forall in Hks. apply list_elem_of_In, Hks in Hk.
    apply negb_true_iff in Hk. by apply keys_not_in. }
  revert Hr. unfold service_header_rule, header_Get. rewrite !Hs by (apply keys_in; vm_compute; reflexivity). done.
Qed.

Lemma wp_outgoing req args h u0 (k : Request → M (go_error + Response)) (k' : go_error + Response → M unit) Q s :
  headers (ps_store s) !! r_Header req = Some h → urls (ps_store s) !! r_URL req = Some u0 →
  args_ok req args (ps_store s) →
  (forwardingToRouteService (UrlString args) (header_Get RouteServiceSignature h) = true → is_Some (ParsedUrl args)) →
  (∀ out u h' s1, outgoing req args h u0 s out u h' s1 → wp (r ← k out; k' r) Q s1) →
  wp (target ← SetupProxyRequest env req req args;
      outreq ← remove_hop_headers req (set_Close false (set_Proto 1 1 target));
      _ ← setRequestXForwardedFor outreq;
      r ← k outreq; k' r) Q s.
Proof.
  intros Hh Hu Hargs Hfwd HQ. wp_step. apply (wp_SetupProxyRequest req args h u0); try done.
  intros t s1 [Hr1 Ht Hra (h1 & u & Hh1 & Hu1 & He1 & Hsr & Hdu)]. wp_step.
  apply (wp_remove_hop_headers req _ h1); [done|done|]. intros p s2 h2 Hr2 Hu2 Hh2 He2. wp_step.
  apply (wp_setRequestXForwardedFor _ h2); [done|]. intros s3 h3 Hed. apply (HQ _ u h3 s3).
  pose proof Hed as (Hr3 & _ & Hu3 & He3). split; try done.
  - eapply restored_trans; [done|]. by eapply restored_trans.
  - by eapply edited_lookup.
  - cbn. by rewrite Hu3, Hu2.
  - eapply header_edit_trans; [done|]. by eapply header_edit_trans.
  - eapply service_header_rule_edit; [|done|vm_compute; reflexivity].
    eapply service_header_rule_edit; [done|done|vm_compute; reflexivity].
Qed.

(** ** Answering the client *)

(** The client's view of a response that was passed on. *)
Record passed_on (rsp : Response) (s s' : PState) : Prop := {
  po_answer : answer s s';
  po_log : ps_log s' = ps_log s;
  po_sent : rw_sent (ps_rw s') = Some (StatusCode rsp, copyHeader (rw_header (ps_rw s)) (del_hop_headers (rsp_Header rsp)));
  po_body : rw_body (ps_rw s') = if bodyAllowedForStatus (StatusCode rsp) then rsp_Body rsp else "";
  po_size : pw_size (ps_pw s') = wrap64 (Z.of_nat (String.length (rw_body (ps_rw s'))));
}.

Lemma wp_pass_on rsp Q s :
  unanswered s → (∀ s', passed_on rsp s s' → Q tt s') →
  wp (_ ← pw_Header (λ h, copyHeader h (del_hop_headers (rsp_Header rsp)));
      _ ← pw_WriteHeader (StatusCode rsp);
      if String.eqb (rsp_Body rsp) "" then mret tt else pw_Write (rsp_Body rsp)) Q s.
Proof.
  intros Hun HQ.
  assert (writes (λ r, r) (_ ← pw_Header (λ h, copyHeader h (del_hop_headers (rsp_Header rsp)));
      _ ← pw_WriteHeader (StatusCode rsp); if String.eqb (rsp_Body rsp) "" then mret tt else pw_Write (rsp_Body rsp))) as Hw.
  { apply (writes_seq (λ r, r) (λ r, r)); [auto with gorouter|].
    apply (writes_seq (λ r, r) (λ r, r)); [auto with gorouter|]. apply writes_if; auto with gorouter. }
  destruct (Hw s) as (s' & Hs & Ha & Hl). eapply wp_eq; [done|]. apply HQ. clear HQ Hw.
  destruct Hun as (Hsent & Hhj & Hbody & Hpw). destruct s as [st req bc rw pw log reg it cap con lg tk].
  destruct rw as [hd sent body fl hjr hij]. cbn in Hsent, Hhj, Hbody, Hpw. subst. revert Hs. unfold_M. cbn -[Z.eqb].
  change (0 =? 0)%Z with true. cbn -[Z.eqb]. destruct (String.eqb_spec (rsp_Body rsp) "") as [E|Hne].
  - intros [= <-]. split; try done. cbn. rewrite E. by destruct (bodyAllowedForStatus _).
  - cbn -[Z.eqb]. unfold rw_Write. destruct (StatusCode rsp =? 0)%Z eqn:E0; cbn -[Z.eqb]; rewrite ?E0; cbn;
      (destruct (bodyAllowedForStatus (StatusCode rsp)) eqn:Hb; cbn; rewrite ?Hb; cbn);
      intros [= <-]; split; try done; cbn; by rewrite ?Hb.
Qed.
End edits.
