(* ===== verification/ProxyUpgrade.v ===== *)
(** * Upgraded connections

    Dialling for TCP and WebSocket upgrades: at most [maxRetries] attempts on
    a connection that has been taken over from the server. *)

From S2P Require Import Prelude GoStrings Uris Pool PoolSpec PoolTheorems Trie TrieSpec Registry RegistrySpec.
From S2P Require Import Http RouteService AccessLog Proxy ProxyServe ProxySpec ProxyForward.

(** The address is that of an endpoint of the list. *)
Definition dials_listed (m : gmap string view) (a : string) : Prop :=
  ∃ e : EndpointRef, routed m e ∧ CanonicalAddr e = a.

(** The address a connection event is about. *)
Definition event_addr (ev : conn_event) : option string :=
  match ev with
  | DialTo a _ | WriteRequest a _ _ | ForwardIO a => Some a
  | _ => None
  end.

Section upgrade.
Context (env : Env) (pool : positive).

(** What dialling leaves behind: the attempts [ds], each with its outcome. *)
Record dialled (ds : list (string * bool)) (s s' : PState) : Prop := {
  dd_live : live pool s';
  dd_same : same_endpoints (ps_registry s) (ps_registry s');
  dd_request : ps_request s' = ps_request s;
  dd_store : store_le (ps_store s) (ps_store s');
  dd_rw : rw_hijacked (ps_rw s') = true ∧ rw_sent (ps_rw s') = rw_sent (ps_rw s) ∧ rw_body (ps_rw s') = rw_body (ps_rw s);
  dd_conns : ps_conns s' = ps_conns s ++ map (λ d, DialTo (fst d) (snd d)) ds;
  dd_routed : ∀ q, pool_ref (ps_registry s) q = Some pool →
    Forall (λ d, dials_listed (routes (ps_registry s) q) (fst d)) ds;
}.

Lemma dialled_nil s : live pool s → rw_hijacked (ps_rw s) = true → dialled [] s s.
Proof. intros Hl Hh. split; try done; [apply store_le_refl|]. by rewrite app_nil_r. Qed.

(** Steps that keep what [dialled] says. *)
Lemma dialled_step ds s s1 s2 :
  dialled ds s s1 → live pool s2 → same_endpoints (ps_registry s1) (ps_registry s2) →
  ps_request s2 = ps_request s1 → store_le (ps_store s1) (ps_store s2) → quiet (ps_rw s1) (ps_rw s2) →
  ps_conns s2 = ps_conns s1 → dialled ds s s2.
Proof.
  intros [Hl Hs Hr Hst (Hh & Hse & Hb) Hc Hro] Hl2 Hs2 Hr2 Hst2 [Hq1 Hq2] Hc2. destruct (Hq2 Hh) as [Hq3 Hq4].
  split; try done; try congruence.
  - by eapply same_endpoints_trans.
  - by eapply store_le_trans.
  - split_and!; congruence.
Qed.

Lemma dialled_answer ds s s1 s2 : dialled ds s s1 → answer s1 s2 → dialled ds s s2.
Proof.
  intros Hd (rw & pw & log & -> & Hq). eapply dialled_step; try done; [eapply live_same; [apply Hd|done|done]|apply store_le_refl].
Qed.

(** How dialling may end: connected by the last attempt, out of attempts, or
    without endpoints. *)
Definition dial_end (fuel : nat) (r : go_error + Endpoint) (ds : list (string * bool)) : Prop :=
  length ds ≤ fuel ∧
  match r with
  | inr e => ∃ ds', ds = ds' ++ [(CanonicalAddr e, true)] ∧ Forall (λ d, snd d = false) ds'
  | inl _ => Forall (λ d, snd d = false) ds
  end.

Lemma dial_loop_spec connected n :
  (∀ (e : EndpointRef) s, valid (ps_request s) (ps_store s) → wp (connected (ep e)) (λ _ s', restored s s') s) →
  ∀ retry ds s s1, retry + n = maxRetries → 0 < n → dialled ds s s1 → valid (ps_request s) (ps_store s) →
  wp (dial_loop env n pool retry connected)
     (λ r s', ∃ ds', dialled (ds ++ ds') s s' ∧ dial_end n r ds'
        ∧ (∀ e, r = inr e → al_StatusCode (ps_log s') = al_StatusCode (ps_log s1))) s1.
Proof.
  intros Hconn. induction n as [|n IH]; intros retry ds s s1 Hn Hpos Hd Hval; [lia|]. cbn [dial_loop]. wp_step.
  apply wp_iter_Next; [apply Hd|]. intros e s2 Hl2 Hs2 Hst2 Hrq2 Hrw2 Hpw2 Hcn2 Hlog2 _ _ Hin.
  assert (al_StatusCode (ps_log s2) = al_StatusCode (ps_log s1)) as Hcode2 by (rewrite Hlog2; by destruct e).
  assert (dialled ds s s2) as Hd2.
  { eapply dialled_step; try done; [rewrite Hst2; apply store_le_refl|by rewrite Hrw2]. }
  destruct e as [e|].
  2: { wp_step. wp_step. wp_step. eapply writes_wp; [apply writes_HandleBadGateway|]. intros s3 Ha _. wp_step.
       exists []. rewrite app_nil_r. split; [|split; [split; [simpl; lia|constructor]|done]]. eapply dialled_answer; [|done].
       eapply dialled_step; try done; [by eapply live_same|apply store_le_refl]. }
  wp_step. wp_step. rename a into err. wp_step. wp_step. set (d := (CanonicalAddr e, bool_decide (err = None))).
  set (s3 := with_conns _ _).
  assert (dialled (ds ++ [d]) s s3) as Hd3.
  { destruct Hd2 as [Hl Hs Hr Hst Hrw Hc Hro]. split; try done; [by eapply live_same| |].
    - cbn. rewrite map_app, Hc, <- app_assoc. done.
    - intros q Hq. apply Forall_app. split; [by apply Hro|]. constructor; [|done]. exists e. split; [|done].
      eapply routed_same; [apply Hd|]. apply Hin; [|done]. destruct (dd_same _ _ _ Hd q) as [-> _]. done. }
  destruct err as [err|].
  - wp_step. apply wp_iter_EndpointFailed; [apply Hd3|]. intros s4 Hl4 Hs4 Hst4 Hrq4 Hrw4 Hpw4 Hcn4 Hlog4 _.
    assert (dialled (ds ++ [d]) s s4) as Hd4.
    { eapply dialled_step; try done; [rewrite Hst4; apply store_le_refl|by rewrite Hrw4]. }
    case_bool_decide as Hlast.
    + wp_step. exists [d]. split; [done|]. split; [|done]. split; [simpl; lia|]. by repeat constructor.
    + eapply wp_mono; [apply (IH (S retry) (ds ++ [d]) s); [lia| |done|done]|].
      { unfold maxRetries in *. lia. }
      intros r s' (ds' & Hd' & [Hlen Hend] & Hcode). rewrite <- app_assoc in Hd'. exists (d :: ds'). split; [done|].
      split; [|intros e' He'; rewrite (Hcode e' He'), Hlog4; done]. split; [simpl; lia|]. destruct r as [?|e'].
      * by constructor.
      * destruct Hend as (ds0 & -> & Hall). exists (d :: ds0). split; [done|]. by constructor.
  - wp_step. eapply wp_mono; [apply (Hconn e s3)|].
    { unfold s3. cbn. rewrite (dd_request _ _ _ Hd2). by apply (dd_store _ _ _ Hd2). }
    intros [] s4 (st & tk & -> & Hle). wp_step. exists [d]. split.
    + eapply dialled_step; try done; eapply live_same; [apply Hd3|done|done].
    + split; [|done]. split; [simpl; lia|]. by exists [].
Qed.

(** The headers of a WebSocket request. *)
Lemma wp_handler_setupRequest (e : Endpoint) s :
  valid (ps_request s) (ps_store s) → wp (handler_setupRequest env e) (λ _ s', restored s s') s.
Proof.
  intros [[h Hh] [u Hu]]. unfold handler_setupRequest, setRequestURL. wp_steps. eapply wp_update_url; [done|]. wp_steps.
  set (s1 := with_store _ s). assert (restored s s1) as Hr by apply restored_put_url.
  apply (wp_setRequestXForwardedFor _ h); [done|]. intros s2 h2 He2. wp_step.
  apply (wp_setRequestXRequestStart env _ h2); [by eapply edited_lookup|]. intros s3 h3 He3 _.
  apply (wp_setRequestXVcapRequestId env _ h3); [by eapply edited_lookup|]. intros s4 h4 He4.
  eapply restored_trans; [done|]. eapply restored_trans; [apply He2|]. eapply restored_trans; [apply He3|]. apply He4.
Qed.

(** What an upgraded request comes to. *)
Record upgraded (s : PState) (err : option go_error) (s' : PState) : Prop := {
  ug_live : live pool s';
  ug_status : err = None → al_StatusCode (ps_log s') = al_StatusCode (ps_log s);
  ug_same : same_endpoints (ps_registry s) (ps_registry s');
  ug_rw : rw_sent (ps_rw s') = rw_sent (ps_rw s) ∧ rw_body (ps_rw s') = rw_body (ps_rw s) ∧ rw_hijacked (ps_rw s') = true;
  ug_conns : ∃ r ds tail, ps_conns s' = ps_conns s ++ map (λ d, DialTo (fst d) (snd d)) ds ++ tail
    ∧ dial_end maxRetries r ds ∧ (∀ a ok, DialTo a ok ∉ tail) ∧ (∀ u a h, RoundTripTo u a h ∉ tail) ∧ CloseClient ∈ tail
    ∧ (err = None → ∃ e, r = inr e ∧ ForwardIO (CanonicalAddr e) ∈ tail)
    ∧ (err ≠ None → ∀ a, ForwardIO a ∉ tail)
    ∧ (∀ q, pool_ref (ps_registry s) q = Some pool →
         Forall (λ d, dials_listed (routes (ps_registry s) q) (fst d)) ds)
    ∧ (∀ ev a, ev ∈ tail → event_addr ev = Some a → ∃ ok, (a, ok) ∈ ds);
}.

(** What may follow the dials that ended with [r]. *)
Record tail_ok (r : go_error + Endpoint) (err : option go_error) (tail : list conn_event) : Prop := {
  to_dials : ∀ a ok, DialTo a ok ∉ tail;
  to_trips : ∀ u a h, RoundTripTo u a h ∉ tail;
  to_close : CloseClient ∈ tail;
  to_ok : err = None → ∃ e, r = inr e ∧ ForwardIO (CanonicalAddr e) ∈ tail;
  to_err : err ≠ None → ∀ a, ForwardIO a ∉ tail;
  to_addr : ∀ ev a, ev ∈ tail → event_addr ev = Some a → ∃ e, r = inr e ∧ a = CanonicalAddr e;
}.

Definition closing (tl : list conn_event) : Prop := tl = [CloseClient] ∨ tl = [CloseClient; CloseBackend].

Lemma tail_closed err tl : closing tl → tail_ok (inl err) (Some err) tl.
Proof. intros [-> | ->]; split; set_solver. Qed.

Lemma tail_written e err host h tl : closing tl → tail_ok (inr e) (Some err) ([WriteRequest (CanonicalAddr e) host h] ++ tl).
Proof. intros [-> | ->]; split; set_solver. Qed.

Lemma tail_forwarded e pre tl :
  pre = [] ∨ (∃ host h, pre = [WriteRequest (CanonicalAddr e) host h]) → closing tl →
  tail_ok (inr e) None (pre ++ [ForwardIO (CanonicalAddr e)] ++ tl).
Proof. intros [->|(host & h & ->)] [-> | ->]; split; try set_solver; intros _; exists e; set_solver. Qed.

Lemma upgraded_end s w ds r err tail s1 s' :
  rw_sent w = rw_sent (ps_rw s) → rw_body w = rw_body (ps_rw s) →
  dialled ds (with_rw w s) s1 → dial_end maxRetries r ds →
  (∀ e, r = inr e → al_StatusCode (ps_log s1) = al_StatusCode (ps_log s)) → tail_ok r err tail →
  ps_registry s' = ps_registry s1 → ps_iter s' = ps_iter s1 → ps_rw s' = ps_rw s1 → ps_log s' = ps_log s1 →
  ps_conns s' = ps_conns s1 ++ tail → upgraded s err s'.
Proof.
  intros Hse Hb [Hl Hs _ _ Hrw Hc Hro] Hend Hcode [Hd Htr Hcl Hok Herr Had] Hreg Hit Hrw' Hlog Hcn. split.
  - by eapply live_same.
  - intros He. destruct (Hok He) as (e & Hr & _). rewrite Hlog. by eapply Hcode.
  - by rewrite Hreg.
  - rewrite Hrw', <- Hse, <- Hb. cbn in Hrw. tauto.
  - exists r, ds, tail. rewrite Hcn, Hc, <- app_assoc. split_and!; try done.
    intros ev a Hev Ha. destruct (Had ev a Hev Ha) as (e & -> & ->). destruct Hend as [_ (ds' & -> & _)].
    exists true. set_solver.
Qed.

Lemma wp_close_conns r Q s :
  (∀ tl, closing tl → Q tt (with_conns (ps_conns s ++ tl) s)) →
  wp (close_conns r) Q s.
Proof.
  intros HQ. unfold close_conns. wp_steps. destruct r; wp_steps.
  - apply HQ. by left.
  - cbn. rewrite <- app_assoc. apply (HQ [CloseClient; CloseBackend]). by right.
Qed.

Lemma hijack_ok s : unanswered s → rw_hijacker (ps_rw s) = true →
  ∃ w, rw_Hijack (ps_rw s) = Some w ∧ rw_hijacked w = true ∧ rw_sent w = rw_sent (ps_rw s) ∧ rw_body w = rw_body (ps_rw s).
Proof. intros (_ & Hh & _) Hj. unfold rw_Hijack. rewrite Hj, Hh. by eexists. Qed.

Lemma serveTcp_spec s :
  live pool s → unanswered s → valid (ps_request s) (ps_store s) → rw_hijacker (ps_rw s) = true →
  wp (serveTcp env pool) (upgraded s) s.
Proof.
  intros Hl Hun Hval Hj. destruct (hijack_ok s Hun Hj) as (w & Hw & Hhj & Hse & Hb).
  unfold serveTcp, pw_Hijack. wp_steps. rewrite Hw. wp_steps. cbn [negb].
  wp_step. eapply wp_mono; [apply (dial_loop_spec (λ _, mret tt) maxRetries) with (s := with_rw w s) (ds := [])|].
  { intros e s0 _. apply wp_ret, restored_refl. }
  { done. } { unfold maxRetries. lia. } { apply dialled_nil; [by eapply live_same|done]. } { done. }
  intros r s1 (ds & Hd & Hend & Hcode). wp_step.
  destruct r as [err|e]; wp_steps; apply wp_close_conns; intros tl Htl; wp_step.
  - eapply upgraded_end with (tail := tl) (r := inl err); try done. by apply tail_closed.
  - eapply upgraded_end with (tail := [ForwardIO (CanonicalAddr e)] ++ tl) (r := inr e); try done.
    + apply (tail_forwarded e []); [by left|done].
    + cbn. by rewrite <- app_assoc.
Qed.

Lemma serveWebSocket_spec s :
  live pool s → unanswered s → valid (ps_request s) (ps_store s) → rw_hijacker (ps_rw s) = true →
  wp (serveWebSocket env pool) (upgraded s) s.
Proof.
  intros Hl Hun Hval Hj. destruct (hijack_ok s Hun Hj) as (w & Hw & Hhj & Hse & Hb).
  unfold serveWebSocket, pw_Hijack. wp_steps. rewrite Hw. wp_steps. cbn [negb].
  wp_step. eapply wp_mono; [apply (dial_loop_spec (handler_setupRequest env) maxRetries) with (s := with_rw w s) (ds := [])|].
  { intros e s0 Hv. by apply wp_handler_setupRequest. }
  { done. } { unfold maxRetries. lia. } { apply dialled_nil; [by eapply live_same|done]. } { done. }
  intros r s1 (ds & Hd & Hend & Hcode). wp_step. destruct r as [err|e]; wp_steps.
  { apply wp_close_conns; intros tl Htl; wp_step.
    eapply upgraded_end with (tail := tl) (r := inl err); try done. by apply tail_closed. }
  destruct (dd_store _ _ _ Hd (ps_request s)) as [[h Hh] _]; [done|].
  eapply wp_lift; [unfold get_header; rewrite (dd_request _ _ _ Hd); cbn; by rewrite Hh|].
  set (wr := WriteRequest (CanonicalAddr e) (Host (ps_request s1)) h).
  wp_steps. destruct a as [werr|]; wp_steps; apply wp_close_conns; intros tl Htl; wp_step.
  - eapply upgraded_end with (tail := [wr] ++ tl) (r := inr e); try done.
    + by apply tail_written.
    + cbn. by rewrite <- app_assoc.
  - eapply upgraded_end with (tail := [wr] ++ [ForwardIO (CanonicalAddr e)] ++ tl) (r := inr e); try done.
    + apply (tail_forwarded e [wr]); [right; by eexists _, _|done].
    + cbn. by rewrite <- !app_assoc.
Qed.
End upgrade.
