(* ===== verification/ProxyServeSpec.v ===== *)
(** * What serving a request comes to

    The pieces put together: forwarding to a back end, forwarding to a route
    service, and [serve] on every branch. *)

From S2P Require Import Prelude GoStrings Uris Pool PoolSpec PoolTheorems Trie TrieSpec Registry RegistrySpec.
From S2P Require Import RegistryTheorems Http RouteService AccessLog Proxy ProxyServe ProxySpec ProxyForward.
From S2P Require Import ProxyUpgrade.

(** The client's view after forwarding. *)
Definition client_view (r : go_error + Response) (s' : PState) : Prop :=
  match r with
  | inr rsp =>
      ∃ h, rw_sent (ps_rw s') = Some (StatusCode rsp, copyHeader h (del_hop_headers (rsp_Header rsp)))
        ∧ rw_body (ps_rw s') = (if bodyAllowedForStatus (StatusCode rsp) then rsp_Body rsp else "")
        ∧ BodyBytesSent (ps_log s') = wrap64 (Z.of_nat (String.length (rw_body (ps_rw s'))))
  | inl _ => ∃ h, sent_error 502 (router_error "endpoint_failure" h) gateway_message s'
  end.

Section serving.
Context (env : Env) (p : proxy).

(** Writing the answer and finishing the log record. *)
Lemma wp_finish_answer pool s r s1 Q :
  tripped pool s r s1 →
  (∀ s', live pool s' → same_endpoints (ps_registry s) (ps_registry s') → answered s' → rw_hijacked (ps_rw s') = false →
     client_view r s' → ps_conns s' = ps_conns s1 → ps_captures s' = ps_captures s1 →
     al_RouteEndpoint (ps_log s') = al_RouteEndpoint (ps_log s1) → ps_request s' = ps_request s → Q tt s') →
  wp (match r with
      | inl _ => pw_WriteHeader 500
      | inr rsp =>
          _ ← pw_Header (λ h, copyHeader h (del_hop_headers (rsp_Header rsp)));
          _ ← pw_WriteHeader (StatusCode rsp);
          if String.eqb (rsp_Body rsp) "" then mret tt else pw_Write (rsp_Body rsp)
      end)
     (λ _, wp (_ ← finish env; pw ← get ps_pw; set_log (set_BodyBytesSent (pw_size pw))) Q) s1.
Proof.
  intros [Hl Hs Hrq Hout] HQ. destruct r as [err|rsp].
  - destruct Hout as (h & Hsent & Hd & Hcode). eapply wp_eq; [unfold pw_WriteHeader, modify; rewrite Hd; done|].
    unfold finish. wp_steps. apply HQ; try done.
    + by eapply live_same.
    + right. cbn. rewrite Hcode. destruct Hsent as (-> & _). by eexists.
    + apply Hsent.
    + exists h. apply Hsent.
  - destruct Hout as (Hun & Hcode). apply wp_pass_on; [done|]. intros s2 [Ha Hlog Hsent Hbody Hsize].
    destruct Ha as (rw & pw & log & -> & Hq). cbn in Hlog, Hsent, Hbody, Hsize. subst log.
    unfold finish. wp_steps. apply HQ; try done.
    + by eapply live_same.
    + right. cbn. rewrite Hcode, Hsent. by eexists.
    + cbn. destruct Hq as [-> _]. apply Hun.
    + exists (rw_header (ps_rw s1)). cbn. by rewrite Hsent, Hbody, Hsize, Hbody.
Qed.

(** A request that went to a back end: the attempts [es] at the pool's
    endpoints, each with the rewritten request, and the outcome [r]. *)
Record to_backend (pool : positive) (t0 : Z) (req : Request) (args : RouteServiceArgs) (h : Header) (u0 : URL) (s : PState)
    (es : list EndpointRef) (r : go_error + Response) (s' : PState) : Prop := {
  tb_live : live pool s';
  tb_same : same_endpoints (ps_registry s) (ps_registry s');
  tb_answered : answered s' ∧ rw_hijacked (ps_rw s') = false;
  tb_client : client_view r s';
  tb_trips : ∃ out trips h', ps_conns s' = ps_conns s ++ trips ∧ length es ≤ maxRetries
    ∧ Forall2 (backend_trip out (mkURL "http" (RequestURI req) (Host req) (Path u0) "") h') es trips
    ∧ header_edit outgoing_keys h h' ∧ service_header_rule args h h';
  tb_captures : ∃ cs, ps_captures s' = ps_captures s ++ cs ∧ trip_captures t0 es r cs;
  tb_dials : ∀ err, r = inl (NetError err) → retryableError err = true → length es = maxRetries;
  tb_routed : ∀ q, pool_ref (ps_registry s) q = Some pool →
    Forall (λ e : EndpointRef, routed (routes (ps_registry s) q) e) es ∧ (es = [] → routes (ps_registry s) q = ∅);
}.

Lemma forward_backend pool t0 sticky args h u0 s :
  live pool s → unanswered s →
  headers (ps_store s) !! r_Header (ps_request s) = Some h → urls (ps_store s) !! r_URL (ps_request s) = Some u0 →
  ParsedUrl args = None → forwardingToRouteService (UrlString args) (header_Get RouteServiceSignature h) = false →
  wp (forward env p t0 pool sticky true args)
     (λ _ s', ∃ es r, to_backend pool t0 (ps_request s) args h u0 s es r s') s.
Proof.
  intros Hl Hun Hh Hu Hargs Hf. unfold forward, ReverseProxy_ServeHTTP. wp_step. wp_step. do 3 wp_step.
  apply (wp_outgoing env _ _ h u0); try done; [intros pp Hpp; congruence|congruence|].
  intros out u h' s1 [Hr1 Hho Huo Hed Hsr Hdir]. unfold director_url in Hdir. rewrite Hf in Hdir. injection Hdir as <-.
  assert (valid (ps_request s) (ps_store s)) as Hv by (split; by eexists).
  pose proof (restored_valid (ps_request s) _ _ Hr1 Hv) as Hv1. pose proof (restored_live pool _ _ Hr1 Hl) as Hl1.
  destruct Hr1 as (st & tk & -> & _). set (s1 := with_tick _ _) in *. wp_step.
  eapply wp_mono; [apply (BackendRoundTrip_spec env p t0 sticky pool out (mkURL "http" (RequestURI (ps_request s))
    (Host (ps_request s)) (Path u0) "") h' s1 Hl1 Hun Hv1)|].
  { exists (Host (ps_request s)), h'. split_and!; [done|done|]. by intros k _. }
  intros r s2 (es & [Ht Hb (trips & Hc & Htr) Hcap _ Hdial Hin _]). apply (wp_finish_answer pool s1 r s2); [done|].
  intros s3 Hl3 Hs3 Ha3 Hj3 Hcl3 Hcn3 Hcp3 _ _. exists es, r. split; try done.
  - exists out, trips, h'. by rewrite Hcn3.
  - by rewrite Hcp3.
Qed.

(** A request that went to the route service first. *)
Record to_service (pool : positive) (t0 : Z) (req : Request) (args : RouteServiceArgs) (h : Header) (s : PState)
    (r : go_error + Response) (s' : PState) : Prop := {
  ts_live : live pool s';
  ts_same : same_endpoints (ps_registry s) (ps_registry s');
  ts_answered : answered s' ∧ rw_hijacked (ps_rw s') = false;
  ts_client : client_view r s';
  ts_trips : ∃ out trips u h' pp, 0 < length trips ≤ maxRetries ∧ ps_conns s' = ps_conns s ++ trips
    ∧ Forall (service_trip out u h') trips ∧ ParsedUrl args = Some pp ∧ urls (ps_store s) !! pp = Some u
    ∧ header_edit outgoing_keys h h'
    ∧ header_Get RouteServiceSignature h' = args_Signature args ∧ header_Get RouteServiceMetadata h' = args_Metadata args
    ∧ header_Get RouteServiceForwardedUrl h' = ForwardedUrlRaw args;
  ts_captures : ∃ lat, ps_captures s' = ps_captures s ++
    match r with
    | inr rsp => [CaptureRoutingResponse newRouteServiceEndpoint (Some rsp) t0 lat]
    | inl _ => [CaptureRoutingResponse newRouteServiceEndpoint None t0 lat; CaptureBadGateway]
    end;
}.

Lemma forward_service pool t0 sticky args h u0 pp s :
  live pool s → unanswered s →
  headers (ps_store s) !! r_Header (ps_request s) = Some h → urls (ps_store s) !! r_URL (ps_request s) = Some u0 →
  ParsedUrl args = Some pp → is_Some (urls (ps_store s) !! pp) → pp ≠ r_URL (ps_request s) →
  forwardingToRouteService (UrlString args) (header_Get RouteServiceSignature h) = true →
  wp (forward env p t0 pool sticky false args) (λ _ s', ∃ r, to_service pool t0 (ps_request s) args h s r s') s.
Proof.
  intros Hl Hun Hh Hu Hargs Hpp Hne Hf. unfold forward, ReverseProxy_ServeHTTP. wp_step. wp_step. do 3 wp_step.
  apply (wp_outgoing env _ _ h u0); try done; [intros pp' Hpp'; rewrite Hargs in Hpp'; by injection Hpp' as <-|].
  intros out u h' s1 [Hr1 Hho Huo Hed Hsr Hdir]. unfold director_url in Hdir. rewrite Hf, Hargs in Hdir. cbn in Hdir.
  assert (valid (ps_request s) (ps_store s)) as Hv by (split; by eexists).
  pose proof (restored_valid (ps_request s) _ _ Hr1 Hv) as Hv1. pose proof (restored_live pool _ _ Hr1 Hl) as Hl1.
  destruct Hr1 as (st & tk & -> & _). set (s1 := with_tick _ _) in *. wp_step.
  eapply wp_mono; [by apply (RouteServiceRoundTrip_spec env p t0 sticky pool out u h' s1)|].
  intros r s2 [Ht (trips & Hn & Hc & Htr) Hcap _]. apply (wp_finish_answer pool s1 r s2); [done|].
  intros s3 Hl3 Hs3 Ha3 Hj3 Hcl3 Hcn3 Hcp3 _ _. exists r. split; try done.
  - unfold service_header_rule in Hsr. rewrite Hf in Hsr. exists out, trips, u, h', pp. by rewrite Hcn3.
  - by rewrite Hcp3.
Qed.

(** ** Every branch of [serve] *)

(** A request as it arrives. *)
Record arriving (s : PState) (h : Header) (u0 : URL) : Prop := {
  ar_registry : registry_wf (ps_registry s);
  ar_header : headers (ps_store s) !! r_Header (ps_request s) = Some h;
  ar_url : urls (ps_store s) !! r_URL (ps_request s) = Some u0;
  ar_unanswered : unanswered s;
}.

Definition request_uri (r : Request) : Uri := hostWithoutPort r +:+ RequestURI r.

Lemma Lookup_pool uri r pool : registry_wf r → Lookup uri r = Ok (Some pool) → ∃ q, pool_ref r q = Some pool.
Proof.
  intros Hwf. rewrite Lookup_spec by done. intros H.
  assert (first_match (pool_ref r) (RouteKey uri :: wildcards (RouteKey uri)) = Some pool) as H' by congruence.
  apply first_match_Some in H' as (_ & _ & _ & q & _ & _ & _ & _ & Hq & _).
  eauto.
Qed.

Lemma Lookup_total uri r : registry_wf r → ∃ o, Lookup uri r = Ok o.
Proof. intros Hwf. rewrite Lookup_spec by done. eauto. Qed.

Lemma RouteServiceUrl_total pl : pool_wf pl → ∃ url, Pool_RouteServiceUrl pl = Ok url.
Proof. intros Hwf. destruct (RouteServiceUrl_routed pl Hwf) as (url & ? & _). eauto. Qed.

(** The request headers say which branch is taken. *)
Definition plain (h : Header) (r : Request) : Prop :=
  isProtocolSupported r = true ∧ isLoadBalancerHeartbeat h = false.

Lemma wp_serve_routed t0 s h u0 pool Q :
  arriving s h u0 → plain h (ps_request s) → Lookup (request_uri (ps_request s)) (ps_registry s) = Ok (Some pool) →
  wp (serve_pool env p t0 (ps_request s) h pool) Q s → wp (serve env p t0) Q s.
Proof.
  intros [Hreg Hh Hu Hun] [Hp Hb] Hlook HQ. unfold serve. wp_steps. eapply wp_lift; [unfold get_header; by rewrite Hh|].
  rewrite Hp, Hb. cbn [negb]. unfold lookup. wp_steps. by eapply wp_lift.
Qed.

Lemma arriving_live s h u0 pool sticky :
  arriving s h u0 → Lookup (request_uri (ps_request s)) (ps_registry s) = Ok (Some pool) →
  live pool (with_iter (Endpoints sticky) s).
Proof. intros [Hreg _ _ _] Hl. split; [done|by eapply Lookup_pool|done]. Qed.

(** Requests that are not upgrades continue with the route service. *)
Lemma wp_serve_pool t0 s h u0 pool pl url Q :
  arriving s h u0 → Lookup (request_uri (ps_request s)) (ps_registry s) = Ok (Some pool) →
  isTcpUpgrade h = false → isWebSocketUpgrade h = false →
  pools (ps_registry s) !! pool = Some pl → Pool_RouteServiceUrl pl = Ok url →
  wp (go ← route_service_step env p url (ps_request s) h;
      match go with
      | None => mret tt
      | Some (backend, args) => forward env p t0 pool (getStickySession h) backend args
      end) Q (with_iter (Endpoints (getStickySession h)) s) →
  wp (serve_pool env p t0 (ps_request s) h pool) Q s.
Proof.
  intros Har Hl Ht Hw Hpl Hurl HQ. unfold serve_pool. wp_steps. rewrite Ht, Hw. wp_steps.
  eapply wp_lift; [unfold pool_of; cbn; by rewrite Hpl|]. wp_steps. eapply wp_lift; [done|]. exact HQ.
Qed.

Lemma no_service_forwarding sig : forwardingToRouteService "" sig = false.
Proof. unfold forwardingToRouteService. cbn. apply andb_false_r. Qed.

(** A route without a service goes straight to a back end. *)
Lemma serve_backend t0 s h u0 pool pl :
  arriving s h u0 → plain h (ps_request s) → Lookup (request_uri (ps_request s)) (ps_registry s) = Ok (Some pool) →
  isTcpUpgrade h = false → isWebSocketUpgrade h = false →
  pools (ps_registry s) !! pool = Some pl → Pool_RouteServiceUrl pl = Ok "" →
  wp (serve env p t0) (λ _ s', ∃ es r, to_backend pool t0 (ps_request s) zero_args h u0 s es r s') s.
Proof.
  intros Har Hpl Hl Ht Hw Hpool Hurl. eapply wp_serve_routed; try done. eapply wp_serve_pool; try done.
  pose proof Har as [Hreg Hh Hu Hun]. unfold route_service_step. cbn. wp_steps.
  eapply wp_mono; [apply (forward_backend pool t0 _ zero_args h u0); try done; [by eapply arriving_live|apply no_service_forwarding]|].
  intros [] s' (es & r & [Hlv Hsm Han Hcl Htr Hcp Hd Hin]). exists es, r. by split.
Qed.
(** ** Routes with a service *)

(** The router refused the request itself: nothing was contacted. *)
Record refused (pool : positive) (code : Z) (s s' : PState) : Prop := {
  rf_live : live pool s';
  rf_registry : ps_registry s' = ps_registry s;
  rf_answered : answered s' ∧ rw_hijacked (ps_rw s') = false;
  rf_sent : ∃ h, rw_sent (ps_rw s') = Some (code, h);
  rf_conns : ps_conns s' = ps_conns s;
  rf_captures : ps_captures s' = ps_captures s;
}.

Lemma refused_answer pool code hd msg s s1 s' :
  live pool s1 → ps_registry s1 = ps_registry s → ps_conns s1 = ps_conns s → ps_captures s1 = ps_captures s →
  answer s1 s' → ps_log s' = set_al_StatusCode code (ps_log s1) → sent_error code hd msg s' → refused pool code s s'.
Proof.
  intros Hl Hr Hc Hcp (rw & pw & log & -> & Hq) Hlog (Hsent & _ & Hh). split; try done.
  - by eapply live_same.
  - split; [|done]. right. rewrite Hsent, Hlog. by eexists.
  - by eexists.
Qed.

Lemma wp_refuse pool code msg Q s :
  live pool s → unanswered s → (299 < code)%Z → code ≠ 304%Z → (∀ s', refused pool code s s' → Q tt s') →
  wp (_ ← writeStatus code msg; pw_Done) Q s.
Proof.
  intros Hl Hun Hc Hc' HQ. apply wp_error; [done..|]. intros s' Ha Hlog Hs _. apply HQ. by eapply (refused_answer pool code _ _ s s).
Qed.

Definition forwarded_url (r : Request) : string := "http" +:+ "://" +:+ Host r +:+ RequestURI r.

(** The cryptography a request to a route with a service needs, with the
    readings of clock and random source it gets: signing, or validating the
    signature the request carries.  It may panic. *)
Definition crypto_step (h : Header) (s : PState) : res unit :=
  let now := env_now env (ps_tick s) in
  let rand := env_rand env (S (ps_tick s)) in
  if String.eqb (header_Get RouteServiceSignature h) ""
  then _ ← GenerateSignatureAndMetadata (env_json env) rand now (px_routeServiceConfig p) (forwarded_url (ps_request s)); Ok tt
  else _ ← ValidateSignature (env_json env) now (px_routeServiceConfig p) h (forwarded_url (ps_request s)); Ok tt.

(** What can become of a request to a route with service [url]. *)
Inductive service_outcome (pool : positive) (t0 : Z) (url : string) (h : Header) (u0 : URL) (s s' : PState) : Prop :=
| so_disabled : RouteServiceEnabled (px_routeServiceConfig p) = false → refused pool 502 s s' →
    service_outcome pool t0 url h u0 s s'
| so_rejected now err : header_Get RouteServiceSignature h ≠ "" →
    ValidateSignature (env_json env) now (px_routeServiceConfig p) h (forwarded_url (ps_request s)) = Ok (Some err) →
    refused pool 400 s s' → service_outcome pool t0 url h u0 s s'
| so_validated now es r : header_Get RouteServiceSignature h ≠ "" →
    RouteServiceEnabled (px_routeServiceConfig p) = true →
    ValidateSignature (env_json env) now (px_routeServiceConfig p) h (forwarded_url (ps_request s)) = Ok None →
    to_backend pool t0 (ps_request s) (mkArgs url None "" "" "") h u0 s es r s' → service_outcome pool t0 url h u0 s s'
| so_unsigned : header_Get RouteServiceSignature h = "" → refused pool 500 s s' → service_outcome pool t0 url h u0 s s'
| so_to_service rand now sig metadata pp u s1 r : header_Get RouteServiceSignature h = "" →
    RouteServiceEnabled (px_routeServiceConfig p) = true →
    GenerateSignatureAndMetadata (env_json env) rand now (px_routeServiceConfig p) (forwarded_url (ps_request s))
      = Ok (inr (sig, metadata)) →
    env_url_Parse env url = Some u → urls (ps_store s1) !! pp = Some u → ps_conns s1 = ps_conns s →
    same_endpoints (ps_registry s) (ps_registry s1) → ps_captures s1 = ps_captures s →
    to_service pool t0 (ps_request s) (mkArgs url (Some pp) sig metadata (forwarded_url (ps_request s))) h s1 r s' →
    service_outcome pool t0 url h u0 s s'.

Lemma serve_service t0 s h u0 pool pl url :
  arriving s h u0 → plain h (ps_request s) → Lookup (request_uri (ps_request s)) (ps_registry s) = Ok (Some pool) →
  isTcpUpgrade h = false → isWebSocketUpgrade h = false →
  pools (ps_registry s) !! pool = Some pl → Pool_RouteServiceUrl pl = Ok url → url ≠ "" →
  (RouteServiceEnabled (px_routeServiceConfig p) = true → is_Ok (crypto_step h s)) →
  wp (serve env p t0) (λ _ s', service_outcome pool t0 url h u0 s s') s.
Proof.
  intros Har Hpl Hl Ht Hw Hpool Hurl Hne Hok. eapply wp_serve_routed; try done. eapply wp_serve_pool; try done.
  pose proof (arriving_live s h u0 pool (getStickySession h) Har Hl) as Hlive. pose proof Har as [Hreg Hh Hu Hun].
  unfold route_service_step. destruct (String.eqb_spec url "") as [|_]; [done|]. cbn [negb andb].
  destruct (RouteServiceEnabled (px_routeServiceConfig p)) eqn:Hen; cbn [negb]; wp_step.
  2: { unfold HandleUnsupportedRouteService. do 3 wp_step. apply (wp_refuse pool); [by eapply live_same|done..|].
       intros s' Hr. do 2 wp_step. apply so_disabled; [done|]. destruct Hr. by split. }
  change ("http" +:+ "://" +:+ Host (ps_request s) +:+ RequestURI (ps_request s)) with (forwarded_url (ps_request s)).
  destruct (Hok eq_refl) as [[] Hstep]. unfold crypto_step in Hstep.
  unfold hasBeenToRouteService. destruct (String.eqb_spec url "") as [|_]; [done|].
  destruct (String.eqb_spec (header_Get RouteServiceSignature h) "") as [Hs|Hs]; cbn [negb andb].
  - apply bind_Ok in Hstep as (g & Hg & _). wp_step. unfold buildRouteServiceArgs. wp_step. apply wp_ask_at. wp_step. apply wp_ask_at.
    set (now := env_now env _) in *. set (rand := env_rand env _) in *. wp_step. eapply wp_lift; [done|].
    destruct g as [err|[sig metadata]]; [|destruct (env_url_Parse env url) as [u|] eqn:Hparse].
    1, 3: wp_steps; unfold HandleRouteServiceFailure; apply (wp_refuse pool); [by eapply live_same|done..|];
      intros s' Hr; wp_steps; apply so_unsigned; [done|]; destruct Hr; by split.
    wp_steps. set (pp := fresh_ptr _). set (s1 := with_store _ _).
    assert (urls (ps_store s) !! pp = None) as Hfresh by apply fresh_ptr_None.
    assert (pp ≠ r_URL (ps_request s)) as Hpp by (intros Heq; rewrite Heq in Hfresh; congruence).
    eapply wp_mono; [apply (forward_service pool t0 (getStickySession h) _ h u0 pp s1)|]; try done.
    + by eapply live_same.
    + cbn. by rewrite lookup_insert_ne.
    + cbn. by rewrite lookup_insert_eq.
    + unfold forwardingToRouteService. cbn. rewrite Hs. by destruct (String.eqb_spec url "").
    + intros [] s' (r & Hr). eapply (so_to_service _ _ _ _ _ _ _ rand now sig metadata pp u s1 r); try done.
      cbn. by rewrite lookup_insert_eq.
  - apply bind_Ok in Hstep as (v & Hv & _). wp_step. apply wp_ask_at. set (now := env_now env _) in *. wp_step.
    eapply wp_lift; [done|]. destruct v as [err|].
    + unfold HandleBadSignature. wp_step. apply (wp_refuse pool); [by eapply live_same|done..|].
      intros s' Hr. wp_steps. eapply so_rejected; [done|done|]. destruct Hr. by split.
    + wp_step. eapply wp_mono; [apply (forward_backend pool t0 (getStickySession h) _ h u0)|]; try done.
      * by eapply live_same.
      * unfold forwardingToRouteService. by destruct (String.eqb_spec (header_Get RouteServiceSignature h) "").
      * intros [] s' (es & r & Hr). eapply so_validated; try done. destruct Hr. by split.
Qed.

(** A request that panics in the cryptography has done nothing else. *)
Definition untouched (s s' : PState) : Prop :=
  ps_registry s' = ps_registry s ∧ ps_conns s' = ps_conns s ∧ ps_captures s' = ps_captures s ∧ ps_rw s' = ps_rw s.

Lemma serve_crypto_fails t0 s h u0 pool pl url :
  arriving s h u0 → plain h (ps_request s) → Lookup (request_uri (ps_request s)) (ps_registry s) = Ok (Some pool) →
  isTcpUpgrade h = false → isWebSocketUpgrade h = false →
  pools (ps_registry s) !! pool = Some pl → Pool_RouteServiceUrl pl = Ok url → url ≠ "" →
  RouteServiceEnabled (px_routeServiceConfig p) = true → ¬ is_Ok (crypto_step h s) →
  ∃ s', serve env p t0 s = (s', crypto_step h s) ∧ untouched s s'.
Proof.
  intros [Hreg Hh Hu Hun] [Hp Hb] Hl Ht Hw Hpool Hurl Hne Hen Hfail.
  set (s1 := with_iter (Endpoints (getStickySession h)) s).
  assert (serve env p t0 s = (go ← route_service_step env p url (ps_request s) h;
    match go with
    | None => mret tt
    | Some (backend, args) => forward env p t0 pool (getStickySession h) backend args
    end) s1) as ->.
  { unfold serve. do 2 rewrite (run_bind _ _ _ _ _ eq_refl).
    rewrite (run_bind _ _ s s h) by (unfold lift, get_header; by rewrite Hh). rewrite Hp, Hb. cbn [negb].
    rewrite (run_bind _ _ s s (Some pool)) by (unfold lookup; rewrite (run_bind _ _ _ _ _ eq_refl); unfold lift; by rewrite <- Hl).
    unfold serve_pool. rewrite (run_bind (modify (with_iter (Endpoints (getStickySession h)))) _ s s1 tt eq_refl), Ht, Hw. rewrite (run_bind _ _ _ _ _ eq_refl).
    rewrite (run_bind _ _ s1 s1 pl) by (unfold lift, pool_of; cbn; by rewrite Hpool).
    by rewrite (run_bind _ _ s1 s1 url) by (unfold lift; by rewrite Hurl). }
  unfold route_service_step. rewrite Hen. unfold hasBeenToRouteService. destruct (String.eqb_spec url "") as [|_]; [done|].
  cbn [negb andb]. unfold crypto_step in *. change (ps_tick s) with (ps_tick s1) in *.
  change ("http" +:+ "://" +:+ Host (ps_request s) +:+ RequestURI (ps_request s)) with (forwarded_url (ps_request s)).
  destruct (String.eqb (header_Get RouteServiceSignature h) ""); cbn [negb andb].
  - unfold buildRouteServiceArgs. unfold mbind, M_bind, ask, lift in *. cbn [ps_tick with_tick] in *.
    destruct (GenerateSignatureAndMetadata _ _ _ _ _); [by destruct Hfail; eexists|by eexists..].
  - unfold mbind, M_bind, ask, lift in *.
    destruct (ValidateSignature _ _ _ _ _); [by destruct Hfail; eexists|by eexists..].
Qed.
End serving.
