(* ===== verification/ProxyTheorems.v ===== *)
(** * What the proxy guarantees

    Every request is answered once, and the log says with which status; back
    ends are tried a bounded number of times, with a request rewritten in a
    known way; what the gate of a route service lets through; what upgrades, sticky
    sessions and the router's own answers come to. *)

From S2P Require Import Prelude GoStrings Uris Pool PoolSpec PoolTheorems Trie TrieSpec Registry RegistrySpec.
From S2P Require Import RegistryTheorems Http Base64 RouteService RouteServiceTheorems AccessLog Proxy ProxyServe.
From S2P Require Import ProxySpec ProxyForward ProxyUpgrade ProxyServeSpec.

Definition is_attempt (ev : conn_event) : bool :=
  match ev with
  | RoundTripTo _ _ _ | DialTo _ _ => true
  | _ => false
  end.

(** Connections to back ends and route services that were tried. *)
Definition attempts (l : list conn_event) : nat := length (filter (λ ev, is_attempt ev = true) l).

Lemma attempts_app l1 l2 : attempts (l1 ++ l2) = attempts l1 + attempts l2.
Proof. unfold attempts. by rewrite filter_app, length_app. Qed.

Lemma attempts_all l : Forall (λ ev, is_attempt ev = true) l → attempts l = length l.
Proof.
  unfold attempts. induction 1 as [|ev l H Hl IH]; [done|]. rewrite filter_cons, decide_True by done. simpl. by rewrite IH.
Qed.

Lemma attempts_none l : Forall (λ ev, is_attempt ev = false) l → attempts l = 0.
Proof.
  unfold attempts. induction 1 as [|ev l H Hl IH]; [done|]. rewrite filter_cons, decide_False by congruence. done.
Qed.

Lemma attempts_trips request u h es trips :
  Forall2 (backend_trip request u h) es trips → attempts trips = length es.
Proof.
  intros H. rewrite attempts_all; [by rewrite (Forall2_length _ _ _ H)|].
  induction H as [|e ev es trips (h' & -> & _) H IH]; by constructor.
Qed.

(** ** What no handler changes

    Whatever a handler does, and also if it panics, the records handed to the
    access log stay as they are, and so does the registry's threshold: only
    the deferred call logs. *)

Definition fixed (s : PState) : list AccessLogRecord * Z := (ps_logged s, dropletStaleThreshold (ps_registry s)).
Definition keeps_fixed {A} (m : M A) : Prop := ∀ s, fixed (fst (m s)) = fixed s.

Lemma kl_ret {A} (a : A) : keeps_fixed (mret a).
Proof. done. Qed.

Lemma kl_bind {A B} (m : M A) (k : A → M B) : keeps_fixed m → (∀ a, keeps_fixed (k a)) → keeps_fixed (m ≫= k).
Proof.
  intros Hm Hk s. unfold mbind, M_bind. specialize (Hm s). destruct (m s) as [s1 [a| |]]; cbn in *; [|done..].
  by rewrite Hk.
Qed.

Lemma kl_get {A} (f : PState → A) : keeps_fixed (get f).
Proof. done. Qed.

Lemma kl_ask {A} (f : nat → A) : keeps_fixed (ask f).
Proof. done. Qed.

Lemma kl_lift {A} (m : res A) : keeps_fixed (lift m).
Proof. done. Qed.

Lemma kl_modify f : (∀ s, fixed (f s) = fixed s) → keeps_fixed (modify f).
Proof. intros H s. apply H. Qed.

Create HintDb logged.
#[export] Hint Resolve kl_ret kl_get kl_ask kl_lift : logged.

(** Follows the structure of a handler. *)
Ltac keeps :=
  repeat first
    [ solve [auto with logged]
    | apply kl_bind; [|intros ?]
    | apply kl_modify; intros ?; reflexivity
    | match goal with
      | |- keeps_fixed (match ?x with _ => _ end) => destruct x
      | |- keeps_fixed (let '(_, _) := ?x in _) => destruct x
      end ].

Lemma kl_on_store f : keeps_fixed (on_store f).
Proof. unfold on_store. keeps. Qed.

Lemma kl_report c : keeps_fixed (report c).
Proof. unfold report. keeps. Qed.

Lemma kl_conn c : keeps_fixed (conn c).
Proof. unfold conn. keeps. Qed.

Lemma kl_set_log f : keeps_fixed (set_log f).
Proof. unfold set_log. keeps. Qed.

Lemma kl_Header f : keeps_fixed (pw_Header f).
Proof. unfold pw_Header. keeps. Qed.

Lemma kl_WriteHeader c : keeps_fixed (pw_WriteHeader c).
Proof. intros s. unfold pw_WriteHeader, modify. cbn. destruct (pw_done _); [done|]. by destruct (_ =? 0)%Z. Qed.

#[export] Hint Resolve kl_on_store kl_report kl_conn kl_set_log kl_Header kl_WriteHeader : logged.

Lemma kl_Write b : keeps_fixed (pw_Write b).
Proof. unfold pw_Write. keeps. apply kl_modify. intros s. by destruct (rw_Write b (ps_rw s)). Qed.

Lemma kl_Done : keeps_fixed pw_Done.
Proof. unfold pw_Done. keeps. Qed.

Lemma kl_Hijack : keeps_fixed pw_Hijack.
Proof. unfold pw_Hijack. keeps. Qed.

#[export] Hint Resolve kl_Write kl_Done kl_Hijack : logged.

Lemma kl_writeStatus c m : keeps_fixed (writeStatus c m).
Proof. unfold writeStatus, http_Error. keeps. Qed.

#[export] Hint Resolve kl_writeStatus : logged.

Lemma kl_HandleBadGateway : keeps_fixed HandleBadGateway.
Proof. unfold HandleBadGateway. keeps. Qed.

#[export] Hint Resolve kl_HandleBadGateway : logged.

Section kept.
Context (env : Env) (p : proxy).

Lemma kl_iter_Next pool : keeps_fixed (iter_Next env pool).
Proof.
  intros s. unfold iter_Next, mbind, M_bind, get, lift, ask. cbn. destruct (pool_of (ps_registry s) pool) as [q| |]; [|done..].
  cbn. destruct (Next _ _ _ q) as [[[e it] q']| |]; [|done..]. unfold modify. cbn. by destruct e.
Qed.

Lemma kl_iter_EndpointFailed pool : keeps_fixed (iter_EndpointFailed env pool).
Proof.
  intros s. unfold iter_EndpointFailed, mbind, M_bind, get, lift, ask. cbn.
  destruct (pool_of (ps_registry s) pool) as [q| |]; [|done..]. cbn. by destruct (EndpointFailed _ _ q).
Qed.

Lemma kl_XForwardedFor r : keeps_fixed (setRequestXForwardedFor r).
Proof. unfold setRequestXForwardedFor. keeps. Qed.

Lemma kl_XRequestStart r : keeps_fixed (setRequestXRequestStart env r).
Proof. unfold setRequestXRequestStart. keeps. Qed.

Lemma kl_XVcapRequestId r : keeps_fixed (setRequestXVcapRequestId env r).
Proof. unfold setRequestXVcapRequestId. keeps. Qed.

Lemma kl_transport r : keeps_fixed (transport_RoundTrip env r).
Proof. unfold transport_RoundTrip. keeps. Qed.

Lemma kl_instrumented r : keeps_fixed (instrumented_RoundTrip env r).
Proof. unfold instrumented_RoundTrip. pose proof kl_transport. keeps; eauto. Qed.

Hint Resolve kl_iter_Next kl_iter_EndpointFailed kl_XForwardedFor kl_XRequestStart kl_XVcapRequestId kl_instrumented : logged.

Lemma kl_backend_loop pool request n : ∀ lst, keeps_fixed (backend_loop env n pool request lst).
Proof.
  induction n as [|n IH]; intros lst; cbn [backend_loop]; unfold selectEndpoint, setupRequest, setRequestXCfInstanceId; keeps; eauto.
Qed.

Lemma kl_service_loop request n : ∀ lst, keeps_fixed (route_service_loop env n request lst).
Proof. induction n as [|n IH]; intros lst; cbn [route_service_loop]; keeps; eauto. Qed.

Lemma kl_upgrades pool : keeps_fixed (HandleTcpRequest env pool) ∧ keeps_fixed (HandleWebSocketRequest env pool).
Proof.
  split.
  - unfold HandleTcpRequest, serveTcp, close_conns. keeps.
  - unfold HandleWebSocketRequest, serveWebSocket, close_conns, handler_setupRequest, setRequestURL. keeps.
Qed.

Lemma kl_forward t0 pool sticky backend args : keeps_fixed (forward env p t0 pool sticky backend args).
Proof.
  unfold forward, ReverseProxy_ServeHTTP, SetupProxyRequest, remove_hop_headers, ProxyRoundTrip, BackendRoundTrip,
    RouteServiceRoundTrip, finish, trip_result, after.
  pose proof kl_backend_loop. pose proof kl_service_loop. keeps; eauto.
Qed.

Lemma kl_serve t0 : keeps_fixed (serve env p t0).
Proof.
  unfold serve, serve_pool, lookup, finish, HandleUnsupportedProtocol, HandleHeartbeat, HandleMissingRoute,
    route_service_step, buildRouteServiceArgs, HandleUnsupportedRouteService, HandleBadSignature, HandleRouteServiceFailure.
  pose proof kl_forward. keeps; first [apply kl_upgrades|eauto].
Qed.
End kept.

Section theorems.
Context (env : Env) (p : proxy).

(** The event is no contact, or contacts an endpoint of the list [m] or the
    route service of one. *)
Definition goes_to (m : gmap string view) (ev : conn_event) : Prop :=
  match ev with
  | RoundTripTo u _ h =>
      (∃ e : EndpointRef, routed m e ∧ u_Host u = addr e ∧ header_Get "X-CF-ApplicationID" h = ApplicationId e)
      ∨ (∃ e : EndpointRef, routed m e ∧ RouteServiceUrl e ≠ "" ∧ env_url_Parse env (RouteServiceUrl e) = Some u)
  | DialTo a _ | WriteRequest a _ _ | ForwardIO a => dials_listed m a
  | RawResponse _ | CloseClient | CloseBackend => True
  end.

(** A contact is with the pool [Lookup] finds for the request. *)
Definition destined (s : PState) (ev : conn_event) : Prop :=
  (∀ m, goes_to m ev) ∨
  ∃ pool q, Lookup (request_uri (ps_request s)) (ps_registry s) = Ok (Some pool)
    ∧ pool_ref (ps_registry s) q = Some pool ∧ goes_to (routes (ps_registry s) q) ev.

(** The outcome all requests share. *)
Record served (s s' : PState) : Prop := {
  sv_registry : registry_wf (ps_registry s');
  sv_same : same_endpoints (ps_registry s) (ps_registry s');
  sv_answered : answered s';
  sv_attempts : ∃ evs, ps_conns s' = ps_conns s ++ evs ∧ attempts evs ≤ maxRetries ∧ Forall (destined s) evs;
}.

Definition found (s : PState) (pool : positive) : Prop :=
  registry_wf (ps_registry s) ∧ Lookup (request_uri (ps_request s)) (ps_registry s) = Ok (Some pool).

(** Contacts with the pool that was found, whatever path it is at. *)
Lemma destined_found s pool evs :
  found s pool →
  (∀ q, pool_ref (ps_registry s) q = Some pool → Forall (goes_to (routes (ps_registry s) q)) evs) → Forall (destined s) evs.
Proof.
  intros [Hreg Hl] H. destruct (Lookup_pool _ _ _ Hreg Hl) as [q Hq]. specialize (H q Hq).
  eapply Forall_impl; [done|]. intros ev Hev. right. eauto.
Qed.

Lemma trips_go_to out u h m es trips :
  Forall (routed m) es → Forall2 (backend_trip out u h) es trips → Forall (goes_to m) trips.
Proof.
  intros Hes H. induction H as [|e ev es trips (h' & -> & _ & Hid & _) H IH]; [done|]. inversion Hes; subst.
  constructor; [|by apply IH]. left. by exists e.
Qed.

(** The service of a pool is that of one of its endpoints. *)
Lemma pool_service_listed r q pool pl url :
  registry_wf r → pool_ref r q = Some pool → pools r !! pool = Some pl → Pool_RouteServiceUrl pl = Ok url → url ≠ "" →
  ∃ e : EndpointRef, routed (routes r q) e ∧ RouteServiceUrl e = url.
Proof.
  intros Hreg Hq Hpl Hurl Hne. destruct (reg_pools _ Hreg _ _ Hq) as (pl' & Hpl' & Hwf). assert (pl' = pl) as -> by congruence.
  destruct (RouteServiceUrl_routed pl Hwf) as (url' & Hurl' & He). assert (url' = url) as -> by congruence.
  rewrite (routes_Some _ _ _ _ Hq Hpl). by apply He.
Qed.

Lemma served_backend pool t0 req args h u0 s es r s' :
  found s pool → to_backend pool t0 req args h u0 s es r s' → served s s'.
Proof.
  intros Hfd [Hl Hs [Ha _] _ (out & trips & h' & Hc & Hlen & Htr & _) _ _ Hin]. split; [apply Hl|done|done|].
  exists trips. rewrite (attempts_trips _ _ _ _ _ Htr). split_and!; [done..|]. apply (destined_found s pool); [done|].
  intros q Hq. eapply trips_go_to; [|done]. by apply Hin.
Qed.

Lemma served_refused pool code s s' : refused pool code s s' → served s s'.
Proof.
  intros [Hl Hr [Ha _] _ Hc _]. split; [apply Hl|by rewrite Hr|done|]. exists []. rewrite app_nil_r. split_and!; [done| |done].
  unfold attempts. simpl. lia.
Qed.

Lemma served_service pool pl t0 url h u0 s s' :
  found s pool → pools (ps_registry s) !! pool = Some pl → Pool_RouteServiceUrl pl = Ok url → url ≠ "" →
  service_outcome env p pool t0 url h u0 s s' → served s s'.
Proof.
  intros Hfd Hpl Hurl Hne [? Hr|? ? ? ? Hr|? ? ? ? ? ? Hb|? Hr|? ? ? ? ? u1 s1 ? ? ? ? Hparse Hpp Hc Hs _ Ht].
  1, 2, 4: by eapply served_refused.
  - by eapply served_backend.
  - destruct Ht as [Hl Hs' [Ha _] _ (out & trips & u' & h' & pp' & Hn & Hcn & Htr & Hpp' & Hu' & _) _]. split; [apply Hl| |done|].
    + by eapply same_endpoints_trans.
    + eexists. rewrite Hcn, Hc. split_and!; [done| |].
      * rewrite attempts_all; [lia|]. eapply Forall_impl; [done|]. by intros ev (h2 & -> & _).
      * apply (destined_found s pool); [done|]. intros q Hq. eapply Forall_impl; [done|]. intros ev (h2 & -> & _). right.
        destruct (pool_service_listed _ q pool pl url (proj1 Hfd) Hq Hpl Hurl Hne) as (e & He & Heu). exists e.
        injection Hpp' as ->. assert (u' = u1) as -> by congruence. by rewrite Heu.
Qed.

Lemma served_upgraded pool err s s1 s' :
  found s pool → upgraded pool s err s1 → ps_registry s' = ps_registry s1 → ps_conns s' = ps_conns s1 →
  rw_hijacked (ps_rw s') = true → served s s'.
Proof.
  intros Hfd [Hl _ Hs _ (r & ds & tail & Hc & [Hlen _] & Hd & Hr & _ & _ & _ & Hro & Had)] Hreg Hcn Hh.
  split; [rewrite Hreg; apply Hl|by rewrite Hreg|by left|].
  eexists. rewrite Hcn, Hc. split_and!; [done| |].
  - rewrite attempts_app, attempts_all, length_map.
    + rewrite attempts_none; [lia|]. apply Forall_forall. intros ev Hev. destruct ev; try done; exfalso; naive_solver.
    + apply Forall_forall. intros ev (d & -> & _)%list_elem_of_fmap. done.
  - apply (destined_found s pool); [done|]. intros q Hq. specialize (Hro q Hq). rewrite Forall_forall in Hro.
    apply Forall_app; split; apply Forall_forall; intros ev Hev.
    + apply list_elem_of_fmap in Hev as (d & -> & Hin). by apply Hro.
    + destruct ev as [u a h|a ok|a host h|a| | |]; try done; [by destruct (Hr u a h)|by destruct (Hd a ok)|..].
      all: destruct (Had _ a Hev eq_refl) as [ok Hok]; apply (Hro (a, ok) Hok).
Qed.

(** An upgrade on a connection that could be taken over: nothing was sent to
    the client by the server, and the log has 101 or 400. *)
Definition upgrade_end (pool : positive) (s s' : PState) : Prop :=
  ∃ err, upgraded pool (with_log (set_al_StatusCode 101 (ps_log s)) s) err s'
    ∧ al_StatusCode (ps_log s') = match err with Some _ => 400%Z | None => 101%Z end.

Lemma upgraded_same pool err s s1 s2 :
  upgraded pool s err s1 → ps_registry s2 = ps_registry s1 → ps_iter s2 = ps_iter s1 → ps_conns s2 = ps_conns s1 →
  quiet (ps_rw s1) (ps_rw s2) → (err = None → al_StatusCode (ps_log s2) = al_StatusCode (ps_log s1)) → upgraded pool s err s2.
Proof.
  intros [Hl Hst Hs (H1 & H2 & H3) Hc] Hr Hi Hcn [Hq1 Hq2] Hcode. destruct (Hq2 H3) as [Hq3 Hq4].
  split; [by eapply live_same|intros He; by rewrite Hcode, Hst|by rewrite Hr|split_and!; congruence|by rewrite Hcn].
Qed.

(** An upgrade, whatever becomes of it. *)
Lemma wp_upgrade pool serve_conn msg s :
  found s pool → live pool s → unanswered s →
  (rw_hijacker (ps_rw s) = true → ∀ s1, s1 = with_log (set_al_StatusCode 101 (ps_log s)) s → wp serve_conn (upgraded pool s1) s1) →
  (rw_hijacker (ps_rw s) = false → ∀ s1, ps_rw s1 = ps_rw s → serve_conn s1 = (s1, Ok (Some NoHijack))) →
  wp (_ ← (_ ← set_log (set_al_StatusCode 101);
           err ← serve_conn;
           match err with Some _ => writeStatus 400 msg | None => mret tt end);
      finish env) (λ _ s', served s s' ∧ (rw_hijacker (ps_rw s) = true → upgrade_end pool s s')) s.
Proof.
  intros Hfd Hl Hun Hyes Hno. wp_step. wp_step. wp_step. wp_step. set (s1 := with_log _ s).
  destruct (rw_hijacker (ps_rw s)) eqn:Hj.
  - eapply wp_mono; [by apply (Hyes eq_refl s1)|]. intros err s2 Hup. unfold finish. pose proof Hup as [_ Hst _ (_ & _ & Hhj) _].
    assert (∀ s3, upgraded pool s1 err s3 → al_StatusCode (ps_log s3) = match err with Some _ => 400%Z | None => 101%Z end →
      served s s3 ∧ (true = true → upgrade_end pool s s3)) as Hfin.
    { intros s3 Hup3 Hcode. split; [|by exists err].
      assert (served s1 s3) as []; [|by split]. eapply served_upgraded; [done..|]. by destruct Hup3 as [_ _ _ (_ & _ & ?) _]. }
    destruct err as [e|].
    + eapply writes_wp; [apply writes_writeStatus|]. intros s3 (rw & pw & log & -> & Hq) Hlog. wp_steps. apply Hfin.
      * by eapply upgraded_same.
      * cbn in Hlog. cbn. by rewrite Hlog.
    + wp_steps. apply Hfin; [by eapply upgraded_same|]. cbn. by rewrite Hst.
  - eapply wp_eq; [by apply Hno|]. apply wp_writeStatus; [done|done|done|].
    intros s2 (rw & pw & log & -> & [Hq _]) Hlog (Hsent & _ & Hh). unfold finish. wp_steps. cbn in Hlog. subst log.
    split; [|done].
    split; [apply Hl|done| |exists []; cbn; rewrite app_nil_r; split_and!; [done|unfold attempts; simpl; lia|done]].
    right. cbn in *. rewrite Hsent. by eexists.
Qed.

(** ** Requests the router answers itself *)

(** Nothing but the response writer, the log record and the request's [Close]
    flag changes, apart from the given captures and connection events. *)
Definition own_answer (cs : list capture) (evs : list conn_event) (s s' : PState) : Prop :=
  ps_registry s' = ps_registry s ∧ ps_captures s' = ps_captures s ++ cs ∧ ps_conns s' = ps_conns s ++ evs.

Lemma serve_unsupported t0 s h u0 :
  arriving s h u0 → isProtocolSupported (ps_request s) = false →
  wp (serve env p t0) (λ _ s', al_StatusCode (ps_log s') = 400%Z ∧
    if rw_hijacker (ps_rw s)
    then rw_hijacked (ps_rw s') = true
      ∧ own_answer [] [RawResponse ("HTTP/1.0 400 Bad Request" +:+ crlf +:+ crlf); CloseClient] s s'
    else sent_error 400 (rw_header (ps_rw s)) "Unsupported protocol" s' ∧ own_answer [] [] s s') s.
Proof.
  intros [Hreg Hh Hu Hun] Hp. unfold serve. wp_steps. eapply wp_lift; [unfold get_header; by rewrite Hh|]. rewrite Hp. cbn [negb].
  unfold HandleUnsupportedProtocol, pw_Hijack. wp_steps. unfold rw_Hijack. pose proof Hun as (_ & Hhj & _). rewrite Hhj.
  destruct (rw_hijacker (ps_rw s)); cbn [negb andb]; wp_steps.
  - split_and!; [done|done|]. split_and!; [done|cbn; by rewrite app_nil_r|cbn; by rewrite <- app_assoc].
  - apply wp_writeStatus; [done..|]. intros s' (rw & pw & log & -> & _) Hl Hs. rewrite Hl. split_and!; [done|done|].
    by split_and!; rewrite ?app_nil_r.
Qed.

Lemma serve_heartbeat t0 s h u0 :
  arriving s h u0 → isProtocolSupported (ps_request s) = true → isLoadBalancerHeartbeat h = true →
  wp (serve env p t0) (λ _ s', al_StatusCode (ps_log s') = 200%Z ∧ own_answer [] [] s s' ∧ rw_hijacked (ps_rw s') = false
    ∧ rw_sent (ps_rw s') = Some (200%Z, header_Set "Expires" "0" (header_Set "Cache-Control" "private, max-age=0" (rw_header (ps_rw s))))
    ∧ rw_body (ps_rw s') = "ok" +:+ String "010" EmptyString) s.
Proof.
  intros [Hreg Hh Hu Hun] Hp Hb. unfold serve. wp_steps. eapply wp_lift; [unfold get_header; by rewrite Hh|]. rewrite Hp, Hb. cbn [negb].
  destruct Hun as (Hsent & Hhj & Hbody & Hpw). destruct s as [st req bc rw pw log reg it cap con lg tk].
  destruct rw as [hd sent body fl hjr hij]. cbn in *. subst. eapply wp_eq; [reflexivity|]. unfold own_answer. cbn.
  by rewrite !app_nil_r.
Qed.

Lemma serve_missing t0 s h u0 :
  arriving s h u0 → plain h (ps_request s) → Lookup (request_uri (ps_request s)) (ps_registry s) = Ok None →
  wp (serve env p t0) (λ _ s', al_StatusCode (ps_log s') = 404%Z ∧ own_answer [CaptureBadRequest] [] s s'
    ∧ sent_error 404 (router_error "unknown_route" (rw_header (ps_rw s)))
        ("Requested route ('" +:+ Host (ps_request s) +:+ "') does not exist.") s'
    ∧ BodyBytesSent (ps_log s') = BodyBytesSent (ps_log s)) s.
Proof.
  intros [Hreg Hh Hu Hun] [Hp Hb] Hlook. unfold serve. wp_steps. eapply wp_lift; [unfold get_header; by rewrite Hh|].
  rewrite Hp, Hb. cbn [negb]. unfold lookup. wp_steps. eapply wp_lift; [exact Hlook|]. unfold HandleMissingRoute. wp_steps.
  apply wp_writeStatus; [by apply unanswered_header|done|done|].
  intros s' (rw & pw & log & -> & _) Hl Hs. rewrite Hl. split_and!; [done| |done|done]. split_and!; [done|done|by rewrite app_nil_r].
Qed.

Lemma served_own cs evs s s' :
  registry_wf (ps_registry s) → own_answer cs evs s s' → attempts evs = 0 → Forall (λ ev, ∀ m, goes_to m ev) evs →
  answered s' → served s s'.
Proof.
  intros Hr (H1 & H2 & H3) Ha Hg Hans. split; [by rewrite H1|by rewrite H1|done|]. exists evs. rewrite Ha. unfold maxRetries.
  split_and!; [done|lia|]. eapply Forall_impl; [done|]. intros ev Hev. by left.
Qed.

(** ** Every request *)

Lemma no_hijack_tcp pool s : rw_hijacker (ps_rw s) = false → serveTcp env pool s = (s, Ok (Some NoHijack)).
Proof. intros Hj. unfold serveTcp, pw_Hijack, mbind, M_bind, get, rw_Hijack. by rewrite Hj. Qed.

Lemma no_hijack_websocket pool s : rw_hijacker (ps_rw s) = false → serveWebSocket env pool s = (s, Ok (Some NoHijack)).
Proof. intros Hj. unfold serveWebSocket, pw_Hijack, mbind, M_bind, get, rw_Hijack. by rewrite Hj. Qed.

Lemma serve_upgrade t0 s h u0 pool :
  arriving s h u0 → plain h (ps_request s) → Lookup (request_uri (ps_request s)) (ps_registry s) = Ok (Some pool) →
  isTcpUpgrade h || isWebSocketUpgrade h = true →
  wp (serve env p t0) (λ _ s', served s s' ∧
    (rw_hijacker (ps_rw s) = true → upgrade_end pool (with_iter (Endpoints (getStickySession h)) s) s')) s.
Proof.
  intros Har Hpl Hl Hup. eapply wp_serve_routed; try done. pose proof (arriving_live s h u0 pool (getStickySession h) Har Hl) as Hlive.
  pose proof Har as [Hreg Hh Hu Hun]. unfold serve_pool. wp_step. wp_step. set (s1 := with_iter _ s) in *.
  assert (∀ s', served s1 s' → served s s') as Hback by (intros s' []; by split).
  assert (valid (ps_request s1) (ps_store s1)) as Hv by (split; by eexists).
  destruct (isTcpUpgrade h); [|cbn [orb] in Hup; rewrite Hup].
  - eapply wp_mono; [apply (wp_upgrade pool (serveTcp env pool) "TCP forwarding to endpoint failed." s1 (conj Hreg Hl) Hlive Hun)|intros [] s' [? ?]; auto].
    + intros Hj s2 ->. apply serveTcp_spec; [by eapply live_same|done|done|done].
    + intros Hj s2 Hrw. apply no_hijack_tcp. by rewrite Hrw.
  - eapply wp_mono; [apply (wp_upgrade pool (serveWebSocket env pool) "WebSocket request to endpoint failed." s1 (conj Hreg Hl) Hlive Hun)|intros [] s' [? ?]; auto].
    + intros Hj s2 ->. apply serveWebSocket_spec; [by eapply live_same|done|done|done].
    + intros Hj s2 Hrw. apply no_hijack_websocket. by rewrite Hrw.
Qed.

(** A request to a route with a service: an outcome, or a panic. *)
Lemma service_ends t0 s h u0 pool pl url :
  arriving s h u0 → plain h (ps_request s) → Lookup (request_uri (ps_request s)) (ps_registry s) = Ok (Some pool) →
  isTcpUpgrade h = false → isWebSocketUpgrade h = false →
  pools (ps_registry s) !! pool = Some pl → Pool_RouteServiceUrl pl = Ok url → url ≠ "" →
  wp (serve env p t0) (λ _ s', service_outcome env p pool t0 url h u0 s s') s ∨
  RouteServiceEnabled (px_routeServiceConfig p) = true ∧ ¬ is_Ok (crypto_step env p h s) ∧
    ∃ s', serve env p t0 s = (s', crypto_step env p h s) ∧ untouched s s'.
Proof.
  intros Har Hp Hl Ht Hw Hpl Hurl Hne. destruct (RouteServiceEnabled (px_routeServiceConfig p)) eqn:Hen.
  - destruct (crypto_step env p h s) as [[]| |] eqn:Hc.
    1: left; eapply serve_service; try done; intros _; by exists tt.
    all: right; assert (¬ is_Ok (crypto_step env p h s)) as Hf by (rewrite Hc; by intros []);
      destruct (serve_crypto_fails env p t0 s h u0 pool pl url) as (s' & Hs & ?); try done;
      rewrite Hc in Hs, Hf; eauto 10.
  - left. eapply serve_service; try done. congruence.
Qed.

(** The request is for a route with a service, and route services are enabled. *)
Definition for_service (request : Request) (reg : RouteRegistry) : Prop :=
  RouteServiceEnabled (px_routeServiceConfig p) = true
  ∧ ∃ pool pl url, Lookup (request_uri request) reg = Ok (Some pool) ∧ pools reg !! pool = Some pl
      ∧ Pool_RouteServiceUrl pl = Ok url ∧ url ≠ "".

(** How a request ends: served, or with the panic of its cryptography. *)
Definition ended (h : Header) (s : PState) (r : res unit) (s' : PState) : Prop :=
  (r = Ok tt ∧ served s s') ∨
  (r = crypto_step env p h s ∧ ¬ is_Ok r ∧ for_service (ps_request s) (ps_registry s) ∧ untouched s s').

Lemma wp_ended h s m : wp m (λ _ s', served s s') s → ∃ r s', m s = (s', r) ∧ ended h s r s'.
Proof. intros ([] & s' & Hm & Hsv). exists (Ok tt), s'. split; [done|by left]. Qed.

Lemma serve_total t0 s h u0 : arriving s h u0 → ∃ r s', serve env p t0 s = (s', r) ∧ ended h s r s'.
Proof.
  intros Har. pose proof Har as [Hreg Hh Hu Hun]. pose proof Hun as (_ & Hhj & _).
  destruct (isProtocolSupported (ps_request s)) eqn:Hp.
  2: { apply wp_ended. eapply wp_mono; [by eapply serve_unsupported|]. intros [] s' [Hc H]. destruct (rw_hijacker (ps_rw s)).
       - destruct H as [Hj Ho]. eapply served_own; [done|done|done|by repeat constructor|by left].
       - destruct H as [(Hs & _) Ho]. eapply served_own; [done|done|done|done|]. right. rewrite Hs, Hc. eauto. }
  destruct (isLoadBalancerHeartbeat h) eqn:Hb.
  { apply wp_ended. eapply wp_mono; [by eapply serve_heartbeat|]. intros [] s' (Hc & Ho & _ & Hs & _).
    eapply served_own; [done|done|done|done|]. right. rewrite Hs, Hc. eauto. }
  destruct (Lookup_total (request_uri (ps_request s)) _ Hreg) as [[pool|] Hl].
  2: { apply wp_ended. eapply wp_mono; [by eapply serve_missing|]. intros [] s' (Hc & Ho & (Hs & _) & _).
       eapply served_own; [done|done|done|done|]. right. rewrite Hs, Hc. eauto. }
  destruct (isTcpUpgrade h || isWebSocketUpgrade h) eqn:Hup.
  { apply wp_ended. eapply wp_mono; [by eapply serve_upgrade|]. by intros [] s' [? _]. }
  apply orb_false_iff in Hup as [Ht Hw]. destruct (Lookup_pool _ _ _ Hreg Hl) as [q Hq].
  destruct (reg_pools _ Hreg _ _ Hq) as (pl & Hpl & Hwf). destruct (RouteServiceUrl_total pl Hwf) as [url Hurl].
  destruct (decide (url = "")) as [->|Hne].
  { apply wp_ended. eapply wp_mono; [by eapply serve_backend|]. intros [] s' (es & r & H). by eapply served_backend; [split|]. }
  destruct (service_ends t0 s h u0 pool pl url) as [Hwp|(Hen & Hfail & s' & Hs & Hut)]; [done..| |].
  - apply wp_ended. eapply wp_mono; [exact Hwp|]. intros [] s' H. by eapply served_service; [split|..].
  - eexists _, s'. split; [done|]. right. split_and!; [done|done| |done]. split; [done|]. by exists pool, pl, url.
Qed.

(** A writer as the server hands it over. *)
Definition new_writer (w : ResponseWriter) : Prop :=
  rw_sent w = None ∧ rw_hijacked w = false ∧ rw_body w = "" ∧ rw_flusher w = true.

(** The state in which [serve] starts. *)
Definition start_state (w : ResponseWriter) (request : Request) (st : store) (reg : RouteRegistry) : PState :=
  mkPS st request 0 w (mkPRW 0 0 false)
    (mkALR request 0 None (env_now env 0) zero_time zero_time 0 0 (px_ExtraHeadersToLog p) "")
    reg (newEndpointIterator "") [] [] [] 1.

Lemma ServeHTTP_eq w request st reg s1 r :
  new_writer w → serve env p (env_now env 0) (start_state w request st reg) = (s1, r) →
  ServeHTTP env p w request st reg = Ok (log_request s1, r).
Proof.
  intros (Hs & Hh & Hb & Hf) Hserve. unfold ServeHTTP, NewProxyResponseWriter. rewrite Hf. cbn [mbind res_mbind].
  unfold start_state in Hserve. by rewrite Hserve.
Qed.

Lemma start_arriving w request st reg h u0 :
  new_writer w → registry_wf reg → headers st !! r_Header request = Some h → urls st !! r_URL request = Some u0 →
  arriving (start_state w request st reg) h u0.
Proof. intros (Hs & Hh & Hb & Hf) Hreg Hhd Hu. by split. Qed.

Lemma ServeHTTP_run w request st reg h u0 Q :
  new_writer w → registry_wf reg → headers st !! r_Header request = Some h → urls st !! r_URL request = Some u0 →
  (arriving (start_state w request st reg) h u0 →
     wp (serve env p (env_now env 0)) (λ _ s', Q s') (start_state w request st reg)) →
  ∃ s1, ServeHTTP env p w request st reg = Ok (log_request s1, Ok tt) ∧ Q s1.
Proof.
  intros Hw Hreg Hhd Hu Hrun. destruct Hrun as ([] & s1 & Hserve & HQ); [by apply start_arriving|]. exists s1.
  split; [by apply ServeHTTP_eq|done].
Qed.

Lemma ServeHTTP_ended w request st reg h u0 :
  new_writer w → registry_wf reg → headers st !! r_Header request = Some h → urls st !! r_URL request = Some u0 →
  ∃ s1 r, ServeHTTP env p w request st reg = Ok (log_request s1, r)
    ∧ ended h (start_state w request st reg) r s1 ∧ fixed s1 = ([], dropletStaleThreshold reg).
Proof.
  intros Hw Hreg Hh Hu.
  destruct (serve_total (env_now env 0) _ _ _ (start_arriving w request st reg h u0 Hw Hreg Hh Hu)) as (r & s1 & Hrun & Hend).
  exists s1, r. split_and!; [by apply ServeHTTP_eq|done|].
  pose proof (kl_serve env p (env_now env 0) (start_state w request st reg)) as Hk. rewrite Hrun in Hk. exact Hk.
Qed.

(** What holds however the request ends. *)
Lemma ended_safe h s r s' :
  registry_wf (ps_registry s) → ended h s r s' →
  registry_wf (ps_registry s') ∧ same_endpoints (ps_registry s) (ps_registry s')
  ∧ ∃ evs, ps_conns s' = ps_conns s ++ evs ∧ attempts evs ≤ maxRetries ∧ Forall (destined s) evs.
Proof.
  intros Hreg [[_ [H1 H2 _ H4]]|(_ & _ & _ & Hr & Hc & _)]; [done|]. rewrite Hr. split_and!; [done|done|].
  exists []. rewrite app_nil_r. split_and!; [done| |done]. unfold attempts, maxRetries. cbn. lia.
Qed.

(** C5: Every request is answered.  On a registry in good order [ServeHTTP]
    makes at most three attempts to connect, leaves the registry in order and
    with the same endpoints, and hands exactly one record to the access log,
    for every behaviour of clock, network and back ends, as long as the writer
    of the server is one that flushes.  It returns, and then,
    unless the connection was taken over, the client got exactly the status in
    that record; or it panics.  It panics only on a request to a route with a
    service, while route services are enabled, with the panic of signing the
    request or of validating its signature (a client can cause it with a nonce
    of the wrong length); nothing has been contacted and nothing sent then. *)
Theorem every_request_answered w request st reg h u0 :
  new_writer w → registry_wf reg → headers st !! r_Header request = Some h → urls st !! r_URL request = Some u0 →
  ∃ s' r rec, ServeHTTP env p w request st reg = Ok (s', r)
    ∧ registry_wf (ps_registry s') ∧ same_endpoints reg (ps_registry s')
    ∧ attempts (ps_conns s') ≤ maxRetries
    ∧ ps_logged s' = [rec]
    ∧ ((r = Ok tt ∧ (rw_hijacked (ps_rw s') = true ∨ ∃ h', rw_sent (ps_rw s') = Some (al_StatusCode rec, h')))
       ∨ (r = crypto_step env p h (start_state w request st reg) ∧ ¬ is_Ok r
          ∧ for_service request reg ∧ ps_conns s' = [] ∧ rw_sent (ps_rw s') = None)).
Proof.
  intros Hw Hreg Hh Hu. destruct (ServeHTTP_ended w request st reg h u0 Hw Hreg Hh Hu) as (s1 & r & Hs & Hend & [= Hlg _]).
  destruct (ended_safe h (start_state w request st reg) r s1 Hreg Hend) as (H1 & H2 & evs & Hc & Ha & _).
  exists (log_request s1), r, (set_RequestBytesReceived (ps_body_count s1) (ps_log s1)). split_and!; try done.
  - cbn. by rewrite Hc.
  - cbn. by rewrite Hlg.
  - destruct Hend as [[-> [_ _ H3 _]]|(-> & Hno & Hen & _ & Hcn & _ & Hrw)]; [by left|right].
    split_and!; [done|done|done|done|]. cbn. rewrite Hrw. apply Hw.
Qed.

(** C25: The router's own answers.  An unsupported protocol is answered on the
    raw connection with 400; the load balancer's heartbeat with 200 and [ok];
    a request for an unknown route with 404, an error header and one rejected
    request reported.  None of them contacts a back end.  The record of a 404
    says that no bytes of body were sent, although some were. *)
Theorem router_answers_itself w request st reg h u0 :
  new_writer w → registry_wf reg → headers st !! r_Header request = Some h → urls st !! r_URL request = Some u0 →
  (isProtocolSupported request = false → rw_hijacker w = true →
     ∃ s', ServeHTTP env p w request st reg = Ok (s', Ok tt) ∧ al_StatusCode (ps_log s') = 400%Z
       ∧ ps_conns s' = [RawResponse ("HTTP/1.0 400 Bad Request" +:+ crlf +:+ crlf); CloseClient] ∧ ps_captures s' = [])
  ∧ (isProtocolSupported request = true → isLoadBalancerHeartbeat h = true →
     ∃ s' hs, ServeHTTP env p w request st reg = Ok (s', Ok tt) ∧ al_StatusCode (ps_log s') = 200%Z
       ∧ rw_sent (ps_rw s') = Some (200%Z, hs) ∧ header_Get "Cache-Control" hs = "private, max-age=0" ∧ header_Get "Expires" hs = "0"
       ∧ rw_body (ps_rw s') = "ok" +:+ String "010" EmptyString ∧ ps_conns s' = [] ∧ ps_captures s' = [])
  ∧ (plain h request → Lookup (request_uri request) reg = Ok None →
     ∃ s' hs, ServeHTTP env p w request st reg = Ok (s', Ok tt) ∧ al_StatusCode (ps_log s') = 404%Z
       ∧ rw_sent (ps_rw s') = Some (404%Z, hs) ∧ header_Get "X-Cf-RouterError" hs = "unknown_route"
       ∧ rw_body (ps_rw s') = error_body 404 ("Requested route ('" +:+ Host request +:+ "') does not exist.")
       ∧ BodyBytesSent (ps_log s') = 0%Z ∧ ps_conns s' = [] ∧ ps_captures s' = [CaptureBadRequest]).
Proof.
  intros Hw Hreg Hh Hu. split_and!.
  - intros Hp Hj. destruct (ServeHTTP_run w request st reg h u0 _ Hw Hreg Hh Hu
      (λ Har, serve_unsupported (env_now env 0) _ h u0 Har Hp)) as (s1 & Hrun & Hc & H).
    change (rw_hijacker (ps_rw (start_state w request st reg))) with (rw_hijacker w) in H. rewrite Hj in H.
    destruct H as (_ & _ & Hcap & Hcn). by exists (log_request s1).
  - intros Hp Hb. destruct (ServeHTTP_run w request st reg h u0 _ Hw Hreg Hh Hu
      (λ Har, serve_heartbeat (env_now env 0) _ h u0 Har Hp Hb)) as (s1 & Hrun & Hc & (_ & Hcap & Hcn) & _ & Hs & Hbody).
    eexists (log_request s1), _. split_and!; [done|done|done| |apply header_Get_Set|done|done|done].
    rewrite header_Get_Set_ne by (vm_compute; discriminate). apply header_Get_Set.
  - intros Hp Hl. destruct (ServeHTTP_run w request st reg h u0 _ Hw Hreg Hh Hu
      (λ Har, serve_missing (env_now env 0) _ h u0 Har Hp Hl)) as (s1 & Hrun & Hc & (_ & Hcap & Hcn) & (Hs & Hbody & _) & Hbytes).
    eexists (log_request s1), _. split_and!; [done|done|done| |done|done|done|done].
    unfold error_header, router_error. rewrite header_Get_Set_ne by (vm_compute; discriminate). apply header_Get_Set.
Qed.

(** C7: A request to a back end.  The request is for a route without a service,
    and no upgrade, no heartbeat and of a supported protocol; the registry is
    in good order.  Then at most three endpoints of the route's pool are tried,
    each with the request's path and host unchanged, the id headers of that
    very endpoint and an [X-CF-RequestID] of the attempt, and no other header
    changed but those the router owns.  Every attempt is reported as a request
    and the request as one response, except that with an empty pool there is
    only a bad gateway; the client gets the back end's status, headers and
    body, or a 502. *)
Theorem backend_request w request st reg h u0 pool pl q :
  new_writer w → registry_wf reg → headers st !! r_Header request = Some h → urls st !! r_URL request = Some u0 →
  plain h request → Lookup (request_uri request) reg = Ok (Some pool) → isTcpUpgrade h = false → isWebSocketUpgrade h = false →
  pool_ref reg q = Some pool → pools reg !! pool = Some pl → Pool_RouteServiceUrl pl = Ok "" →
  ∃ s' (es : list EndpointRef) r out h', ServeHTTP env p w request st reg = Ok (s', Ok tt)
    ∧ length es ≤ maxRetries ∧ Forall (λ e : EndpointRef, routed (routes reg q) e) es ∧ (es = [] → routes reg q = ∅)
    ∧ Forall2 (backend_trip out (mkURL "http" (RequestURI request) (Host request) (Path u0) "") h') es (ps_conns s')
    ∧ header_edit outgoing_keys h h'
    ∧ trip_captures (env_now env 0) es r (ps_captures s')
    ∧ (∀ err, r = inl (NetError err) → retryableError err = true → length es = maxRetries)
    ∧ client_view r s'.
Proof.
  intros Hw Hreg Hh Hu Hp Hl Ht Hws Hq Hpl Hurl. destruct (ServeHTTP_run w request st reg h u0 _ Hw Hreg Hh Hu
    (λ Har, serve_backend env p (env_now env 0) _ h u0 pool pl Har Hp Hl Ht Hws Hpl Hurl)) as (s1 & Hrun & es & r & H).
  destruct H as [_ _ _ Hcl (out & trips & h' & Hcn & Hlen & Htr & Hed & _) (cs & Hcap & Hcs) Hd Hin].
  destruct (Hin q Hq) as [Hall Hemp]. exists (log_request s1), es, r, out, h'. cbn in Hcn, Hcap.
  rewrite <- Hcn in Htr. rewrite <- Hcap in Hcs. by split_and!.
Qed.

Lemma backend_trip_header out u h es trips ev :
  Forall2 (backend_trip out u h) es trips → ev ∈ trips → ∃ u' host h', ev = RoundTripTo u' host h' ∧ backend_headers h h'.
Proof.
  intros H Hin. apply list_elem_of_lookup in Hin as (i & Hi). destruct (Forall2_lookup_r _ _ _ _ _ H Hi) as (e & _ & h2 & -> & Hb & _).
  by eexists _, _, h2.
Qed.

(** How a request got past the gate of route service [url]: it was validated
    and goes to a back end without the signature, or it was signed and goes to
    the service. *)
Definition gate_passed (url : string) (request : Request) (h : Header) (u : URL) (h' : Header) : Prop :=
  (∃ now, header_Get RouteServiceSignature h ≠ "" ∧ h' !! CanonicalHeaderKey RouteServiceSignature = None
     ∧ h' !! CanonicalHeaderKey RouteServiceMetadata = None
     ∧ ValidateSignature (env_json env) now (px_routeServiceConfig p) h (forwarded_url request) = Ok None)
  ∨ (∃ rand now sig metadata, header_Get RouteServiceSignature h = "" ∧ env_url_Parse env url = Some u
     ∧ GenerateSignatureAndMetadata (env_json env) rand now (px_routeServiceConfig p) (forwarded_url request) = Ok (inr (sig, metadata))
     ∧ header_Get RouteServiceSignature h' = sig ∧ header_Get RouteServiceMetadata h' = metadata
     ∧ header_Get RouteServiceForwardedUrl h' = forwarded_url request).

Lemma service_outcome_gate pool t0 url h u0 s s' ev :
  url ≠ "" → ps_conns s = [] → service_outcome env p pool t0 url h u0 s s' → ev ∈ ps_conns s' →
  RouteServiceEnabled (px_routeServiceConfig p) = true
  ∧ ∃ u host h', ev = RoundTripTo u host h' ∧ gate_passed url (ps_request s) h u h'.
Proof.
  intros Hne Hnil H Hin.
  destruct H as [_ Hr|? ? _ _ Hr|now es r Hsig Hen Hv Hb|_ Hr|rand now sig metadata pp u1 s2 r Hsig Hen Hg Hparse Hpp Hc _ _ Hs].
  1, 2, 4: destruct Hr as [_ _ _ _ Hc _]; rewrite Hc, Hnil in Hin; by apply not_elem_of_nil in Hin.
  - split; [done|]. destruct Hb as [_ _ _ _ (out & trips & h2 & Hcn & _ & Htr & _ & Hrule) _ _ _].
    unfold service_header_rule, forwardingToRouteService, hasBeenToRouteService in Hrule. cbn [UrlString] in Hrule.
    destruct (String.eqb_spec (header_Get RouteServiceSignature h) "") as [|_]; [done|].
    destruct (String.eqb_spec url "") as [|_]; [done|]. cbn [negb andb] in Hrule. destruct Hrule as [H1 H2].
    rewrite Hcn, Hnil in Hin. destruct (backend_trip_header _ _ _ _ _ _ Htr Hin) as (u & host & h' & -> & Hbh).
    exists u, host, h'. split; [done|]. left. exists now.
    split_and!; [done| | |done]; rewrite Hbh by (vm_compute; set_solver); done.
  - split; [done|]. destruct Hs as [_ _ _ _ (out & trips & u' & h2 & pp' & _ & Hcn & Htr & Hpp' & Hu' & _ & H1 & H2 & H3) _].
    rewrite Hcn, Hc, Hnil in Hin. rewrite Forall_forall in Htr. destruct (Htr ev Hin) as (h' & -> & Hk).
    eexists _, _, h'. split; [done|]. right. exists rand, now, sig, metadata.
    injection Hpp' as ->. assert (u' = u1) as -> by congruence.
    unfold header_Get in *. rewrite !Hk by (vm_compute; discriminate). done.
Qed.

(** C6: The gate of a route service.  For a route with a service, a request
    that is not a TCP or WebSocket upgrade (nor a heartbeat or of an
    unsupported protocol, which the router answers itself) leaves the router
    only if route services are enabled, and then either to the service, with a
    fresh signature of the request's URL, or, when it carries a signature that
    [ValidateSignature] accepts for that URL, to a back end, which does not see
    the signature.  Upgrades are handled before the gate and by-pass it
    ([upgrade_bypasses_service]). *)
Theorem route_service_gate w request st reg h u0 pool pl url :
  new_writer w → registry_wf reg → headers st !! r_Header request = Some h → urls st !! r_URL request = Some u0 →
  plain h request → Lookup (request_uri request) reg = Ok (Some pool) → isTcpUpgrade h = false → isWebSocketUpgrade h = false →
  pools reg !! pool = Some pl → Pool_RouteServiceUrl pl = Ok url → url ≠ "" →
  ∃ s' r, ServeHTTP env p w request st reg = Ok (s', r) ∧
    ∀ ev, ev ∈ ps_conns s' →
      RouteServiceEnabled (px_routeServiceConfig p) = true
      ∧ ∃ u host h', ev = RoundTripTo u host h' ∧ gate_passed url request h u h'.
Proof.
  intros Hw Hreg Hh Hu Hp Hl Ht Hws Hpl Hurl Hne.
  destruct (service_ends (env_now env 0) _ h u0 pool pl url (start_arriving w request st reg h u0 Hw Hreg Hh Hu) Hp Hl Ht Hws Hpl Hurl Hne)
    as [([] & s1 & Hrun & H)|(_ & _ & s1 & Hrun & _ & Hc & _)].
  - exists (log_request s1), (Ok tt). split; [by apply ServeHTTP_eq|]. intros ev Hin. by eapply service_outcome_gate in H.
  - eexists (log_request s1), _. split; [by apply ServeHTTP_eq|]. intros ev Hin. change (ev ∈ ps_conns s1) in Hin.
    rewrite Hc in Hin. by apply not_elem_of_nil in Hin.
Qed.

(** C24: Upgrades.  A TCP or WebSocket upgrade dials at most three endpoints and
    then either forwards to one it reached, with 101 in the log, or logs 400;
    the text of that 400 is never sent: the connection, taken over before the
    first dial, is closed without a response. *)
Theorem upgrade_outcome w request st reg h u0 pool :
  new_writer w → rw_hijacker w = true → registry_wf reg → headers st !! r_Header request = Some h → urls st !! r_URL request = Some u0 →
  plain h request → Lookup (request_uri request) reg = Ok (Some pool) → isTcpUpgrade h || isWebSocketUpgrade h = true →
  ∃ s', ServeHTTP env p w request st reg = Ok (s', Ok tt)
    ∧ attempts (ps_conns s') ≤ maxRetries ∧ CloseClient ∈ ps_conns s'
    ∧ rw_sent (ps_rw s') = None ∧ rw_body (ps_rw s') = "" 
    ∧ ((al_StatusCode (ps_log s') = 101%Z ∧ ∃ a, ForwardIO a ∈ ps_conns s' ∧ DialTo a true ∈ ps_conns s')
       ∨ (al_StatusCode (ps_log s') = 400%Z ∧ ∀ a, ForwardIO a ∉ ps_conns s')).
Proof.
  intros Hw Hj Hreg Hh Hu Hp Hl Hup. destruct (ServeHTTP_run w request st reg h u0 _ Hw Hreg Hh Hu
    (λ Har, serve_upgrade (env_now env 0) _ h u0 pool Har Hp Hl Hup)) as (s1 & Hrun & Hsv & Hend).
  destruct (Hend Hj) as (err & [_ _ _ (Hs & Hb & _) (r & ds & tail & Hc & [Hlen Hr] & Hd & _ & Hcl & Hok & Hno & _)] & Hcode).
  destruct Hsv as [_ _ _ (evs & Hev & Hatt & _)]. pose proof Hw as (Hw1 & _ & Hw3 & _).
  exists (log_request s1). change (ps_conns (log_request s1)) with (ps_conns s1). cbn in Hev, Hc. rewrite <- Hev in Hatt.
  split_and!; [done|done|rewrite Hc; set_solver|cbn in Hs; by rewrite Hw1 in Hs|cbn in Hb; by rewrite Hw3 in Hb|].
  destruct err as [e|]; [right|left]; (split; [done|]).
  - intros a Ha. rewrite Hc in Ha. apply elem_of_app in Ha as [(d & Hd' & _)%list_elem_of_fmap|Ha]; [done|].
    by apply (Hno ltac:(done) a).
  - destruct (Hok eq_refl) as (e & -> & Hf). destruct Hr as (ds' & -> & _). exists (CanonicalAddr e). rewrite Hc, map_app.
    split; set_solver.
Qed.
End theorems.
