(* ===== verification/Cookies.v ===== *)
(** * Cookies survive the trip to the browser and back

    What [http.SetCookie] writes is read back by [Response.Cookies], and what
    a client sends is read by [Request.Cookie], for names and values made of
    token characters. *)

From S2P Require Import Prelude GoStrings Http.

Lemma token_char c :
  is_token c = true → validCookieValueByte c = true ∧ is_space c = false ∧ space_or_comma c = false
    ∧ Ascii.eqb c ";" = false ∧ Ascii.eqb c "=" = false ∧ Ascii.eqb c dquote = false.
Proof. destruct c as [[] [] [] [] [] [] [] []]; vm_compute; intros H; (discriminate H || done). Qed.

Lemma str_forall_impl (f g : ascii → bool) s : (∀ c, f c = true → g c = true) → str_forall f s = true → str_forall g s = true.
Proof. intros H. induction s as [|c s IH]; simpl; [done|]. intros [Hc Hs]%andb_true_iff. by rewrite H, IH. Qed.

Lemma str_forall_in f c s : str_forall f s = true → f c = false → str_in c s = false.
Proof.
  intros H Hc. induction s as [|a s IH]; simpl in *; [done|]. apply andb_true_iff in H as [Ha Hs].
  rewrite IH by done. destruct (Ascii.eqb_spec a c); [congruence|done].
Qed.

Lemma str_forall_app f s t : str_forall f (s +:+ t) = str_forall f s && str_forall f t.
Proof. induction s as [|c s IH]; simpl; [done|]. by rewrite IH, andb_assoc. Qed.

Lemma token_no_byte c s : str_forall is_token s = true → is_token c = false → str_in c s = false.
Proof. apply str_forall_in. Qed.

Lemma token_value s : str_forall is_token s = true → str_forall validCookieValueByte s = true.
Proof. apply str_forall_impl. intros c Hc. by apply token_char. Qed.

Lemma str_last_forall f s c : str_forall f s = true → str_last s = Some c → f c = true.
Proof.
  unfold str_last. induction s as [|a s IH]; simpl; [done|]. intros [Ha Hs]%andb_true_iff.
  rewrite Nat.sub_0_r in *. destruct s as [|b s]; simpl in *; [by intros [= <-]|].
  intros H. apply IH; [done|]. by rewrite Nat.sub_0_r.
Qed.

Lemma sanitize_token s : str_forall is_token s = true → sanitizeCookieValue s = s.
Proof.
  intros H. unfold sanitizeCookieValue. rewrite str_filter_id by (by apply token_value).
  destruct s as [|c s']; [done|]. assert (is_token c = true) as Hc by (simpl in H; by apply andb_true_iff in H as [? _]).
  destruct (token_char c Hc) as (_ & _ & -> & _). destruct (str_last (String c s')) as [l|] eqn:Hl; [|done]. simpl.
  by destruct (token_char l (str_last_forall _ _ _ H Hl)) as (_ & _ & -> & _).
Qed.

Lemma parse_token s : str_forall is_token s = true → parseCookieValue s = Some s.
Proof.
  intros H. unfold parseCookieValue. destruct s as [|a [|b s]]; [done|..].
  - by rewrite token_value.
  - assert (is_token a = true) as Ha by (simpl in H; by apply andb_true_iff in H as [? _]).
    destruct (token_char a Ha) as (_ & _ & _ & _ & _ & ->). cbn [andb]. by rewrite token_value.
Qed.

(** ** White space *)

Lemma trim_left_id c s : is_space c = false → trim_left (String c s) = String c s.
Proof. simpl. by intros ->. Qed.

Lemma trim_right_last s c : is_space c = false → trim_right (s +:+ String c "") = s +:+ String c "".
Proof.
  intros Hc. induction s as [|a s IH]; simpl; [by rewrite Hc|]. rewrite IH.
  destruct (s +:+ String c "") eqn:E; [|done]. by destruct s.
Qed.

Lemma trim_right_token s t : str_forall (λ c, negb (is_space c)) t = true → t ≠ "" → trim_right (s +:+ t) = s +:+ t.
Proof.
  intros Ht Hne. assert (∃ t' c, t = t' +:+ String c "" ∧ is_space c = false) as (t' & c & -> & Hc).
  { clear s. induction t as [|a t IH]; [done|]. simpl in Ht. apply andb_true_iff in Ht as [Ha Ht].
    destruct t as [|b t]; [exists "", a; by apply negb_true_iff in Ha|].
    destruct IH as (t' & c & E & Hc); [done|done|]. exists (String a t'), c. simpl. by rewrite E. }
  rewrite <- str_app_assoc. by apply trim_right_last.
Qed.

Lemma token_no_space s : str_forall is_token s = true → str_forall (λ c, negb (is_space c)) s = true.
Proof. apply str_forall_impl. intros c Hc. apply negb_true_iff. by apply token_char. Qed.

(** A pair [name=value] as a part of a line. *)
Definition pair_text (name value : string) : string := name +:+ String "=" value.

Lemma IndexByte_pair name value :
  str_forall is_token name = true → strings_IndexByte (pair_text name value) "=" = Some (String.length name).
Proof.
  unfold pair_text. induction name as [|c name IH]; simpl; [done|]. intros [Hc Hn]%andb_true_iff.
  destruct (token_char c Hc) as (_ & _ & _ & _ & -> & _). by rewrite IH.
Qed.

Lemma drop_pair name value : str_drop (S (String.length name)) (pair_text name value) = value.
Proof. unfold pair_text. induction name as [|c name IH]; [done|exact IH]. Qed.

Lemma cut_pair_text name value : str_forall is_token name = true → cut_pair (pair_text name value) = (name, value).
Proof.
  intros Hn. unfold cut_pair. rewrite IndexByte_pair, drop_pair by done. unfold pair_text. by rewrite str_take_app.
Qed.

Lemma trim_text c s t :
  is_space c = false → str_forall (λ c, negb (is_space c)) t = true → t ≠ "" →
  strings_TrimSpace (String c s +:+ t) = String c s +:+ t.
Proof.
  intros Hc Ht Hne. unfold strings_TrimSpace.
  change (String c s +:+ t) with (String c (s +:+ t)). rewrite trim_left_id by done.
  change (String c (s +:+ t)) with (String c s +:+ t). by apply trim_right_token.
Qed.

Lemma token_head c s : str_forall is_token (String c s) = true → is_space c = false.
Proof. simpl. intros [Hc _]%andb_true_iff. by apply token_char. Qed.

Lemma trim_pair name value :
  str_forall is_token name = true → name ≠ "" → str_forall is_token value = true →
  strings_TrimSpace (pair_text name value) = pair_text name value.
Proof.
  intros Hn Hne Hv. unfold pair_text. destruct name as [|c name]; [done|].
  apply trim_text; [by eapply token_head| |done]. simpl. by apply token_no_space.
Qed.

Lemma trim_space_pair name value :
  str_forall is_token name = true → name ≠ "" → str_forall is_token value = true →
  strings_TrimSpace (String " " (pair_text name value)) = pair_text name value.
Proof. intros. by apply trim_pair. Qed.

Lemma cookie_pair_text name value :
  str_forall is_token name = true → name ≠ "" → str_forall is_token value = true →
  cookie_pair (pair_text name value) = Some (name, value)
  ∧ cookie_pair (String " " (pair_text name value)) = Some (name, value).
Proof.
  intros Hn Hne Hv. unfold cookie_pair. rewrite trim_pair, trim_space_pair by done.
  assert (String.eqb (pair_text name value) "" = false) as -> by (destruct name; done).
  rewrite cut_pair_text by done. unfold isCookieNameValid. rewrite Hn, parse_token by done. done.
Qed.

(** ** A [Cookie] line with two cookies *)

Lemma pair_no_semicolon name value :
  str_forall is_token name = true → str_forall is_token value = true → str_in ";" (pair_text name value) = false.
Proof.
  intros Hn Hv. unfold pair_text. rewrite str_in_app. simpl.
  by rewrite !(token_no_byte ";") by done.
Qed.

Lemma bind_single {A B} (f : A → list B) x : [x] ≫= f = f x.
Proof. apply app_nil_r. Qed.

Definition cookie_line2 (n1 v1 n2 v2 : string) : string := pair_text n1 v1 +:+ "; " +:+ pair_text n2 v2.

Lemma readCookies_line2 h n1 v1 n2 v2 :
  str_forall is_token n1 = true → n1 ≠ "" → str_forall is_token v1 = true →
  str_forall is_token n2 = true → n2 ≠ "" → str_forall is_token v2 = true →
  h !! "Cookie" = Some [cookie_line2 n1 v1 n2 v2] → readCookies h = [(n1, v1); (n2, v2)].
Proof.
  intros H1 E1 K1 H2 E2 K2 Hh. unfold readCookies. rewrite Hh. cbn [default from_option id]. rewrite bind_single.
  assert (strings_TrimSpace (cookie_line2 n1 v1 n2 v2) = cookie_line2 n1 v1 n2 v2) as ->.
  { unfold cookie_line2, pair_text at 2 4. destruct n1 as [|c n1]; [done|].
    rewrite <- !(str_app_assoc _ n2). rewrite <- !(str_app_assoc _ _ (String "=" v2)).
    apply trim_text; [by eapply token_head| |done]. simpl. by apply token_no_space. }
  change (cookie_line2 n1 v1 n2 v2) with (pair_text n1 v1 +:+ String ";" (String " " (pair_text n2 v2))).
  rewrite strings_Split_app by (by apply pair_no_semicolon).
  rewrite strings_Split_single; [|simpl; by apply pair_no_semicolon]. simpl.
  rewrite (proj1 (cookie_pair_text n1 v1 H1 E1 K1)), (proj2 (cookie_pair_text n2 v2 H2 E2 K2)). done.
Qed.

(** ** A [Set-Cookie] line *)

(** The attributes of a cookie for the server's use only, that is not given a
    positive age. *)
Definition cookie_attrs (c : Cookie) : list string :=
  (if String.eqb (ck_Path c) "" then [] else [" Path=" +:+ sanitizeCookiePath (ck_Path c)])
  ++ (if (ck_MaxAge c <? 0)%Z then [" Max-Age=0"] else []) ++ [" HttpOnly"] ++ (if ck_Secure c then [" Secure"] else []).

Lemma Join_cons x y l sep : strings_Join (x :: y :: l) sep = x +:+ sep +:+ strings_Join (y :: l) sep.
Proof. done. Qed.

Lemma cookie_String_parts c :
  ck_HttpOnly c = true → (ck_MaxAge c ≤ 0)%Z → str_forall is_token (ck_Value c) = true →
  cookie_String c = strings_Join (pair_text (ck_Name c) (ck_Value c) :: cookie_attrs c) ";".
Proof.
  intros Hh Ha Hv. unfold cookie_String, cookie_attrs, pair_text. rewrite sanitize_token, Hh by done.
  destruct (Z.ltb_spec 0 (ck_MaxAge c)); [lia|].
  destruct (String.eqb (ck_Path c) ""), (ck_MaxAge c <? 0)%Z, (ck_Secure c); cbn [app]; rewrite ?Join_cons; cbn [strings_Join];
    rewrite !str_app_assoc; simpl; rewrite ?str_app_assoc; reflexivity.
Qed.

Lemma path_no_semicolon s : str_in ";" (sanitizeCookiePath s) = false.
Proof.
  apply (str_forall_in validCookiePathByte); [|done]. unfold sanitizeCookiePath.
  induction s as [|c s IH]; simpl; [done|]. destruct (validCookiePathByte c) eqn:E; simpl; [|done]. by rewrite E.
Qed.

Lemma attrs_no_semicolon c : Forall (λ x, str_in ";" x = false) (cookie_attrs c).
Proof.
  unfold cookie_attrs. repeat apply Forall_app_2.
  - destruct (String.eqb _ _); repeat constructor. simpl. apply path_no_semicolon.
  - destruct (_ <? 0)%Z; by repeat constructor.
  - by repeat constructor.
  - destruct (ck_Secure c); by repeat constructor.
Qed.

(** The line ends in a letter. *)
Lemma cookie_String_ends c :
  ck_HttpOnly c = true → ∃ s t, cookie_String c = ck_Name c +:+ s +:+ t ∧ str_forall (λ c, negb (is_space c)) t = true ∧ t ≠ "".
Proof.
  intros Hh. unfold cookie_String. rewrite Hh. generalize (sanitizeCookieValue (ck_Value c)). intros v.
  generalize (if String.eqb (ck_Path c) "" then "" else "; Path=" +:+ sanitizeCookiePath (ck_Path c)). intros q.
  match goal with |- context [?a +:+ "; HttpOnly" +:+ _] => generalize a end. intros a. destruct (ck_Secure c).
  - exists ("=" +:+ v +:+ q +:+ a +:+ "; HttpOnly; "), "Secure". split; [|done]. by rewrite !str_app_assoc.
  - exists ("=" +:+ v +:+ q +:+ a +:+ "; "), "HttpOnly". split; [|done]. by rewrite !str_app_assoc.
Qed.

Lemma trim_right_after s x : trim_right (s +:+ String "=" x) = s +:+ String "=" (trim_right x).
Proof.
  induction s as [|c s IH]; simpl; [by destruct (trim_right x)|]. rewrite IH. by destruct s.
Qed.

Lemma max_age_attrs c : (ck_MaxAge c ≤ 0)%Z →
  foldl max_age_attr 0%Z (cookie_attrs c) = if (ck_MaxAge c <? 0)%Z then (-1)%Z else 0%Z.
Proof.
  intros Ha. unfold cookie_attrs. rewrite !foldl_app.
  assert (foldl max_age_attr 0%Z (if String.eqb (ck_Path c) "" then [] else [" Path=" +:+ sanitizeCookiePath (ck_Path c)]) = 0%Z) as ->.
  { destruct (String.eqb _ _); [done|]. simpl. unfold max_age_attr, strings_TrimSpace.
    change (trim_left (String " " (String "P" _))) with ("Path" +:+ String "=" (sanitizeCookiePath (ck_Path c))).
    rewrite trim_right_after. change ("Path" +:+ String "=" (trim_right (sanitizeCookiePath (ck_Path c))))
      with (pair_text "Path" (trim_right (sanitizeCookiePath (ck_Path c)))). by rewrite cut_pair_text. }
  destruct (ck_MaxAge c <? 0)%Z; simpl; by destruct (ck_Secure c).
Qed.

Lemma set_cookie_line_String c :
  ck_HttpOnly c = true → (ck_MaxAge c ≤ 0)%Z → str_forall is_token (ck_Name c) = true → ck_Name c ≠ "" →
  str_forall is_token (ck_Value c) = true →
  set_cookie_line (cookie_String c) = Some (ck_Name c, ck_Value c, if (ck_MaxAge c <? 0)%Z then (-1)%Z else 0%Z).
Proof.
  intros Hh Ha Hn Hne Hv. unfold set_cookie_line.
  assert (strings_TrimSpace (cookie_String c) = cookie_String c) as ->.
  { destruct (cookie_String_ends c Hh) as (s & t & -> & Ht & Hte). rewrite <- str_app_assoc.
    destruct (ck_Name c) as [|a n] eqn:En; [done|]. change (String a n +:+ s) with (String a (n +:+ s)).
    apply trim_text; [by eapply token_head|done|done]. }
  rewrite cookie_String_parts by done. rewrite strings_Split_of_Join.
  2: done.
  2: { constructor; [by apply pair_no_semicolon|apply attrs_no_semicolon]. }
  rewrite trim_pair, IndexByte_pair, max_age_attrs, drop_pair, parse_token by done.
  unfold pair_text, isCookieNameValid. by rewrite str_take_app, Hn by done.
Qed.
