(* ===== verification/ProxySessions.v ===== *)
(** * Sticky sessions and the response writer *)

From S2P Require Import Prelude GoStrings Pool Http RouteService AccessLog Proxy ProxyServe ProxySpec Cookies.

(** ** Sticky sessions *)

Lemma session_cookie_age cookies age : session_cookie cookies = Some age → (age ≤ 0)%Z.
Proof.
  induction cookies as [|[[n v] a] l IH]; simpl; [done|]. destruct (String.eqb n StickyCookieKey); [|done].
  intros [= <-]. destruct (Z.ltb_spec a 0); lia.
Qed.

(** The cookie is not the one of a session. *)
Definition other_cookie (c : string * string * Z) : Prop := c.1.1 ≠ StickyCookieKey.

Lemma session_cookie_None cookies : Forall other_cookie cookies → session_cookie cookies = None.
Proof. induction 1 as [|[[n v] a] l Hn Hl IH]; simpl; [done|]. by destruct (String.eqb_spec n StickyCookieKey). Qed.

Lemma session_cookie_first pre v age post :
  Forall other_cookie pre →
  session_cookie (pre ++ (StickyCookieKey, v, age) :: post) = Some (if (age <? 0)%Z then age else 0%Z).
Proof.
  induction 1 as [|[[n v'] a] l Hn Hl IH]; simpl; [done|]. by destruct (String.eqb_spec n StickyCookieKey).
Qed.

Lemma response_Cookies_Set c h :
  ck_HttpOnly c = true → (ck_MaxAge c ≤ 0)%Z → str_forall is_token (ck_Name c) = true → ck_Name c ≠ "" →
  str_forall is_token (ck_Value c) = true →
  response_Cookies (SetCookie c h)
  = response_Cookies h ++ [(ck_Name c, ck_Value c, if (ck_MaxAge c <? 0)%Z then (-1)%Z else 0%Z)].
Proof.
  intros. unfold response_Cookies, SetCookie, header_Add.
  change "Set-Cookie" with (CanonicalHeaderKey "Set-Cookie") at 1. rewrite lookup_insert_eq. cbn [default from_option id].
  rewrite omap_app. cbn [omap list_omap]. by rewrite set_cookie_line_String.
Qed.

(** C35: Sticky sessions.  When some cookie of the response is the one that
    starts a session (the first such cookie counts, wherever it is in the
    list), or a request that had a session was answered by another instance,
    the client gets a cookie with the id of the instance that answered, which
    expires with a session that is being ended; otherwise nothing is added.
    What the client sends back with its session names that instance.  The id,
    and the session's value where it is sent back, must consist of characters a
    cookie can hold (token characters). *)
Theorem sticky_session rsp (e : Endpoint) orig secure path h :
  str_forall is_token (PrivateInstanceId e) = true →
  let id := PrivateInstanceId e in
  let h' := setupStickySession rsp e orig secure path h in
  (∀ pre v age post, response_Cookies rsp = pre ++ (StickyCookieKey, v, age) :: post → Forall other_cookie pre →
     response_Cookies h' = response_Cookies h ++ [(VcapCookieId, id, if (age <? 0)%Z then (-1)%Z else 0%Z)])
  ∧ (Forall other_cookie (response_Cookies rsp) →
     if bool_decide (orig ≠ "" ∧ orig ≠ id) then response_Cookies h' = response_Cookies h ++ [(VcapCookieId, id, 0%Z)]
     else h' = h)
  ∧ ∀ session hreq, str_forall is_token session = true →
      hreq !! "Cookie" = Some [cookie_line2 StickyCookieKey session VcapCookieId id] → getStickySession hreq = id.
Proof.
  intros Hid id h'. split_and!.
  - intros pre v age post Hrsp Hpre. unfold h', setupStickySession. rewrite Hrsp, session_cookie_first by done.
    rewrite (response_Cookies_Set (mkCookie VcapCookieId id path _ true secure)); try done.
    + cbn [ck_MaxAge ck_Name ck_Value]. by destruct (age <? 0)%Z eqn:Ha; rewrite ?Ha.
    + cbn [ck_MaxAge]. destruct (Z.ltb_spec age 0); lia.
  - intros Hno. unfold h', setupStickySession. rewrite session_cookie_None by done.
    fold id. destruct (String.eqb_spec orig ""), (String.eqb_spec orig id); cbn [negb andb].
    1-3: rewrite bool_decide_eq_false_2 by tauto; done.
    rewrite bool_decide_eq_true_2 by done.
    by apply (response_Cookies_Set (mkCookie VcapCookieId id path 0 true secure)).
  - intros session hreq Hse Hc. unfold getStickySession, request_Cookie.
    rewrite (readCookies_line2 hreq StickyCookieKey session VcapCookieId id) by done.
    rewrite !filter_cons. cbn [fst]. rewrite decide_True by done. cbn [head fmap option_fmap option_map snd].
    rewrite decide_False by done. rewrite decide_True by done. done.
Qed.

(** ** The response writer *)

Inductive writer_op :=
| OpHeader (f : Header → Header)
| OpWriteHeader (code : Z)
| OpWrite (b : string)
| OpHijack
| OpDone.

Definition writer_step (op : writer_op) : M unit :=
  match op with
  | OpHeader f => pw_Header f
  | OpWriteHeader code => pw_WriteHeader code
  | OpWrite b => pw_Write b
  | OpHijack => _ ← pw_Hijack; mret tt
  | OpDone => pw_Done
  end.

Fixpoint writer_run (ops : list writer_op) : M unit :=
  match ops with
  | [] => mret tt
  | op :: ops' => _ ← writer_step op; writer_run ops'
  end.

Definition op_ok (op : writer_op) : Prop :=
  match op with
  | OpWriteHeader code => code ≠ 0%Z
  | _ => True
  end.

(** What the writer counts agrees with what was sent; of a connection taken
    over before anything was sent the status says nothing. *)
Definition accounts (s : PState) : Prop :=
  (pw_status (ps_pw s) = from_option fst 0%Z (rw_sent (ps_rw s))
     ∨ rw_hijacked (ps_rw s) = true ∧ rw_sent (ps_rw s) = None)
  ∧ (∀ c h, rw_sent (ps_rw s) = Some (c, h) → c ≠ 0%Z)
  ∧ pw_size (ps_pw s) = wrap64 (Z.of_nat (String.length (rw_body (ps_rw s)))).

Lemma wrap64_add a b : wrap64 (wrap64 a + b) = wrap64 (a + b).
Proof.
  unfold wrap64. f_equal.
  replace ((a + 2 ^ 63) `mod` 2 ^ 64 - 2 ^ 63 + b + 2 ^ 63)%Z with ((a + 2 ^ 63) `mod` 2 ^ 64 + b)%Z by lia.
  rewrite Zplus_mod_idemp_l. f_equal. lia.
Qed.

Lemma WriteHeader_accounts code s : code ≠ 0%Z → accounts s → wp (pw_WriteHeader code) (λ _ s', accounts s'
    ∧ (pw_done (ps_pw s) = false → is_Some (rw_sent (ps_rw s')) ∨ rw_hijacked (ps_rw s') = true)) s.
Proof.
  intros Hcode (Hst & Hc & Hsz). unfold pw_WriteHeader. wp_step. destruct (pw_done (ps_pw s)) eqn:Hd; [done|].
  unfold rw_WriteHeader. destruct (rw_hijacked (ps_rw s)) eqn:Hh.
  - destruct (Z.eqb_spec (pw_status (ps_pw s)) 0) as [E|E]; (split; [|intros _; by right]); [|unfold accounts; cbn; by rewrite Hh].
    split_and!; [|done|done]. right. cbn. split; [done|]. destruct Hst as [Hst|[_ ?]]; [|done]. rewrite Hst in E.
    destruct (rw_sent (ps_rw s)) as [[c h]|]; [|done]. by destruct (Hc c h).
  - destruct Hst as [Hst|[? _]]; [|done]. rewrite Hst. destruct (rw_sent (ps_rw s)) as [[c h]|] eqn:Hs; cbn.
    + destruct (Z.eqb_spec c 0); [by destruct (Hc c h)|]. split; [|intros _; left; cbn; by rewrite Hs].
      split_and!; [left; cbn; by rewrite Hst, Hs|cbn; by rewrite Hs|done].
    + split; [|intros _; by left]. split_and!; [by left| |done]. cbn. intros c h [= <- _]. done.
Qed.

Lemma Write_accounts b s : accounts s → wp (pw_Write b) (λ _ s', accounts s') s.
Proof.
  intros Ha. unfold pw_Write. wp_steps. destruct (pw_done (ps_pw s)) eqn:Hd; wp_step; [done|].
  eapply (wp_mono _ (λ _ s1, accounts s1 ∧ (is_Some (rw_sent (ps_rw s1)) ∨ rw_hijacked (ps_rw s1) = true))).
  - pose proof Ha as (Hst & Hc & _). destruct (Z.eqb_spec (pw_status (ps_pw s)) 0) as [E|E].
    + eapply wp_mono; [by apply WriteHeader_accounts|]. intros [] s1 (? & Hs). auto.
    + wp_step. split; [done|]. destruct Hst as [Hst|[? _]]; [left|by right]. destruct (rw_sent (ps_rw s)); [done|]. by destruct E.
  - intros [] s1 ((Hst & Hc & Hsz) & Hs). wp_step. unfold rw_Write. destruct (rw_hijacked (ps_rw s1)) eqn:Hh.
    { split_and!; cbn; rewrite ?Hh; [done|done|]. rewrite Hsz, wrap64_add. f_equal. lia. }
    destruct Hs as [[[c h] Hs]|?]; [|done]. unfold rw_WriteHeader. rewrite Hh, Hs, Hs. cbn.
    rewrite Hs in Hst, Hc. destruct Hst as [Hst|[? _]]; [|done]. destruct (bodyAllowedForStatus c); split_and!; cbn; rewrite ?Hs; try done; try by left.
    + rewrite Hsz, wrap64_add, str_length_app. f_equal. lia.
    + rewrite Hsz, wrap64_add. f_equal. lia.
Qed.

Lemma Hijack_same s :
  ∃ rw, (_ ← pw_Hijack; mret tt) s = (with_rw rw s, Ok tt) ∧ rw_sent rw = rw_sent (ps_rw s) ∧ rw_body rw = rw_body (ps_rw s)
    ∧ (rw_hijacked (ps_rw s) = true → rw_hijacked rw = true).
Proof.
  unfold pw_Hijack, mbind, M_bind, get, rw_Hijack. destruct (rw_hijacker (ps_rw s) && negb (rw_hijacked (ps_rw s))).
  - by eexists.
  - exists (ps_rw s). by destruct s.
Qed.

Lemma writer_step_accounts op s : op_ok op → accounts s → wp (writer_step op) (λ _ s', accounts s') s.
Proof.
  intros Hop Ha. destruct op as [f|code|b| |]; cbn [writer_step].
  - wp_step. destruct Ha as (?&?&?). by split_and!.
  - eapply wp_mono; [by apply WriteHeader_accounts|]. by intros [] s' (? & _).
  - by apply Write_accounts.
  - destruct (Hijack_same s) as (rw & Hrun & Hs & Hb & Hh). eapply wp_eq; [done|]. destruct Ha as (Hst & Hc & Hsz).
    split_and!; cbn; rewrite ?Hs, ?Hb; [naive_solver|done|done].
  - unfold pw_Done. wp_step. destruct Ha as (?&?&?). by split_and!.
Qed.

Lemma writer_run_accounts ops : ∀ s, Forall op_ok ops → accounts s → wp (writer_run ops) (λ _ s', accounts s') s.
Proof.
  induction ops as [|op ops IH]; intros s Hops Ha; cbn [writer_run]; [by wp_step|].
  apply Forall_cons in Hops as [Hop Hops]. wp_step. eapply wp_mono; [by apply writer_step_accounts|].
  intros [] s' Ha'. by apply IH.
Qed.

(** What the client has seen, and what the writer says about it. *)
Definition seen (s : PState) : option (Z * Header) * string * Z * Z :=
  (rw_sent (ps_rw s), rw_body (ps_rw s), pw_status (ps_pw s), pw_size (ps_pw s)).

(** A step of a writer that keeps [I] and, from there, what [f] gives. *)
Lemma writer_run_keeps {A} (I : PState → Prop) (f : PState → A) :
  (∀ op s, I s → wp (writer_step op) (λ _ s1, f s1 = f s ∧ I s1) s) →
  ∀ ops s, I s → wp (writer_run ops) (λ _ s', f s' = f s) s.
Proof.
  intros Hstep ops. induction ops as [|op ops IH]; intros s Hs; cbn [writer_run]; [by wp_step|]. wp_step.
  eapply wp_mono; [by apply Hstep|]. intros [] s1 [Hf Hs1]. eapply wp_mono; [by apply IH|]. intros [] s2 ->. done.
Qed.

Lemma writer_step_done op s :
  pw_done (ps_pw s) = true → wp (writer_step op) (λ _ s1, seen s1 = seen s ∧ pw_done (ps_pw s1) = true) s.
Proof.
  intros Hd. destruct op as [f|code|b| |]; cbn [writer_step].
  - by wp_step.
  - unfold pw_WriteHeader. wp_step. by rewrite Hd.
  - unfold pw_Write. wp_steps. rewrite Hd. by wp_step.
  - destruct (Hijack_same s) as (rw & Hrun & Hs & Hb & _). eapply wp_eq; [done|]. unfold seen. cbn. by rewrite Hs, Hb.
  - unfold pw_Done. by wp_step.
Qed.

Lemma writer_run_total ops : ∀ s, wp (writer_run ops) (λ _ _, True) s.
Proof.
  induction ops as [|op ops IH]; intros s; cbn [writer_run]; [by wp_step|]. wp_step.
  eapply (wp_mono _ (λ _ _, True)); [|intros [] s1 _; apply IH]. destruct op as [f|code|b| |]; cbn [writer_step].
  1, 2, 3, 5: eapply writes_wp; [auto with gorouter|done].
  destruct (Hijack_same s) as (rw & Hrun & _). by eapply wp_eq.
Qed.

(** What the client has got. *)
Definition got (s : PState) : option (Z * Header) * string := (rw_sent (ps_rw s), rw_body (ps_rw s)).

Lemma writer_step_hijacked op s :
  rw_hijacked (ps_rw s) = true → wp (writer_step op) (λ _ s1, got s1 = got s ∧ rw_hijacked (ps_rw s1) = true) s.
Proof.
  intros Hh. assert (∀ m, writes (λ r, r) m → wp m (λ _ s1, got s1 = got s ∧ rw_hijacked (ps_rw s1) = true) s) as Hw.
  { intros m Hm. eapply writes_wp; [done|]. intros s' (rw & pw & log & -> & Hq & Hsent) _. unfold got. cbn.
    destruct (Hsent Hh) as [-> ->]. by rewrite Hq. }
  destruct op as [f|code|b| |]; cbn [writer_step]; try solve [apply Hw; auto with gorouter].
  destruct (Hijack_same s) as (rw & Hrun & Hs & Hb & Hhj). eapply wp_eq; [done|]. unfold got. cbn. rewrite Hs, Hb. auto.
Qed.

Lemma writer_run_app ops1 ops2 Q s :
  wp (writer_run ops1) (λ _, wp (writer_run ops2) Q) s → wp (writer_run (ops1 ++ ops2)) Q s.
Proof.
  revert s. induction ops1 as [|op ops IH]; intros s; cbn [writer_run app].
  - intros (a & s' & [= <- <-] & H). done.
  - intros (a & s' & H & HQ). wp_step. unfold mbind, M_bind in H. destruct (writer_step op s) as [s1 [[]| |]] eqn:E; [|done..].
    exists tt, s1. split; [done|]. apply IH. by exists a, s'.
Qed.

