(* ===== verification/ProxyExamples.v ===== *)
(** * The proxy at work

    A small router with concrete surroundings: one of two back ends refuses
    connections, one route has a service.  The theorems about the proxy are
    applied to requests to it, and some runs are evaluated. *)

From S2P Require Import Prelude GoStrings Uris Pool PoolSpec PoolTheorems Trie TrieSpec Registry RegistrySpec.
From S2P Require Import RegistryTheorems Http Base64 RouteService RouteServiceTheorems AccessLog Proxy ProxyServe.
From S2P Require Import ProxySpec ProxyForward ProxyUpgrade ProxyServeSpec ProxyTheorems Cookies ProxySessions.

(** ** When the cryptography panics *)

(** With the router's own encryption the panic of a request is always the same,
    and needs a request that carries a signature and metadata. *)
Lemma SignatureFromHeaders_panics json sig metadata g :
  ¬ is_Ok (SignatureFromHeaders json sig metadata (AesGCM g)) →
  SignatureFromHeaders json sig metadata (AesGCM g) = Panic bad_nonce ∧ metadata ≠ "".
Proof.
  unfold SignatureFromHeaders. destruct (String.eqb_spec metadata "") as [|Hm]; [by intros []; eexists|]. intros H. split; [|done].
  revert H. destruct (DecodeString URLEncoding metadata); [|by intros []; eexists]. destruct (UnmarshalMetadata _ _) as [m ok].
  destruct (DecodeString URLEncoding sig); [|by intros []; eexists]. cbn. unfold gcm_Decrypt, Open.
  case_bool_decide; cbn; [|done]. destruct (aead_Open _ _ _); cbn; [|by intros []; eexists].
  destruct (UnmarshalSignature _ _). by intros []; eexists.
Qed.

Lemma AesGCM_panics env p g h s :
  crypto (px_routeServiceConfig p) = AesGCM g →
  (∀ prev, cryptoPrev (px_routeServiceConfig p) = Some prev → ∃ g', prev = AesGCM g') →
  ¬ is_Ok (crypto_step env p h s) →
  crypto_step env p h s = Panic bad_nonce ∧ header_Get RouteServiceSignature h ≠ "" ∧ header_Get RouteServiceMetadata h ≠ "".
Proof.
  intros Hc Hp. unfold crypto_step. destruct (String.eqb_spec (header_Get RouteServiceSignature h) "") as [|Hs].
  - intros []. unfold GenerateSignatureAndMetadata, BuildSignatureAndMetadata. rewrite Hc.
    destruct (MarshalSignature _ _) as [j|]; [|by eexists]. cbn. unfold gcm_Encrypt, generateNonce, randomBytes, Seal.
    destruct (env_rand _ _ (NonceSize g)) as [b|]; cbn; [|by eexists]. case_bool_decide; cbn; [|by eexists].
    rewrite bool_decide_eq_true_2 by done. cbn. destruct (MarshalMetadata _ _); by eexists.
  - unfold ValidateSignature. rewrite Hc. intros H. destruct (SignatureFromHeaders _ _ _ (AesGCM g)) as [r|m|] eqn:E.
    2, 3: destruct (SignatureFromHeaders_panics (env_json env) (header_Get RouteServiceSignature h)
      (header_Get RouteServiceMetadata h) g) as [Hpn ?]; [rewrite E; by intros []|]; rewrite E in Hpn; first [discriminate|by injection Hpn as ->].
    revert H. cbn. destruct r as [err|sg]; cbn.
    + destruct (cryptoPrev _) as [prev|] eqn:Epr; cbn; [|by intros []; eexists]. destruct (Hp prev eq_refl) as [g' ->]. intros H.
      destruct (SignatureFromHeaders _ _ _ (AesGCM g')) as [r|m|] eqn:E'; [by destruct H; eexists|..].
      all: destruct (SignatureFromHeaders_panics (env_json env) (header_Get RouteServiceSignature h)
        (header_Get RouteServiceMetadata h) g') as [Hpn ?]; [rewrite E'; by intros []|]; rewrite E' in Hpn; first [discriminate|by injection Hpn as ->].
    + destruct (validateSignatureTimeout _ _ _); by intros []; eexists.
Qed.

(** ** The router *)

Definition rs_back : EndpointRef := NewEndpoint 4 "app4" "10.0.0.4" 80 "id4" ∅ 0 "https://rs.example.com/".
Definition back5 : EndpointRef := NewEndpoint 5 "app1" "10.0.0.5" 80 "id5" ∅ 0 "".

Definition shop_ops : list reg_op :=
  [OpRegister 0 0 "shop.example.com" back1; OpRegister 0 0 "shop.example.com" back5; OpRegister 0 0 "rs.example.org" rs_back].

Definition shop : RouteRegistry :=
  match foldM (reg_step map_to_list) (NewRouteRegistry 0 (120 * Second)) shop_ops with
  | Ok r => r
  | _ => NewRouteRegistry 0 0
  end.

Lemma shop_wf : registry_wf shop.
Proof.
  destruct (reg_run_sim map_to_list map_to_list_range shop_ops (NewRouteRegistry 0 (120 * Second)))
    as (r & Hr & Hwf & _); [apply NewRouteRegistry_wf|repeat (constructor; [vm_compute; auto|]); constructor|].
  unfold shop. by rewrite Hr.
Qed.

Definition dial_refused : net_error := mkNetError (Some "dial") "connection refused".
Definition shop_page : Response :=
  mkResponse 200 (header_Add "Set-Cookie" "JSESSIONID=abc; Max-Age=0" ∅) "hello".

(** [10.0.0.1] refuses connections. *)
Definition shop_env : Env := {|
  env_now k := (1000 * Second + Z.of_nat k)%Z;
  env_clock k _ := (1000 * Second + Z.of_nat k)%Z;
  env_draw _ := 0;
  env_uuid _ := Some "uuid";
  env_rand _ := sample_rand;
  env_transport _ _ u _ := if String.eqb (u_Host u) "10.0.0.1:80" then inl dial_refused else inr shop_page;
  env_read _ := 0%Z;
  env_dial _ a := if String.eqb a "10.0.0.1:80" then Some dial_refused else None;
  env_write _ := None;
  env_url_Parse _ := Some (mkURL "https" "" "rs.example.com" "/" "");
  env_json := sample_json
|}.

Definition shop_proxy : proxy :=
  mkProxy "10.0.0.9" "" false (mkRSC true (60 * Second) (AesGCM (sample_aead "key")) None) [].

Definition shop_writer : ResponseWriter := mkRW ∅ None "" true true false.
Definition shop_request (host path : string) : Request :=
  mkRequest "GET" 1 1 1 1 false host "192.0.2.1:5555" path.
Definition shop_store (h : Header) : store :=
  mkStore {[1%positive := h]} {[1%positive := mkURL "" "" "" "/" ""]}.

Definition get_page (host path : string) (h : Header) : res (PState * res unit) :=
  ServeHTTP shop_env shop_proxy shop_writer (shop_request host path) (shop_store h) shop.

Lemma shop_writer_new : new_writer shop_writer.
Proof. done. Qed.

(** The first back end refuses, the second answers; the client gets the page
    and a cookie for the instance. *)
Example shop_retry :
  match get_page "shop.example.com:80" "/cart?x=1" ∅ with
  | Ok (s, Ok _) =>
      (fst <$> rw_sent (ps_rw s), rw_body (ps_rw s), attempts (ps_conns s), al_StatusCode (ps_log s),
       response_Cookies (rw_header (ps_rw s)))
      = (Some 200%Z, "hello", 2, 200%Z, [(VcapCookieId, "id5", (-1)%Z); ("JSESSIONID", "abc", (-1)%Z)])
  | _ => False
  end.
Proof. vm_compute. reflexivity. Qed.

(** A request to the route with the service whose metadata holds no nonce: the
    handler panics, its record has no status and the client gets nothing. *)
Example bad_nonce_request :
  match get_page "rs.example.org" "/" bogus_headers with
  | Ok (s, r) => (r, rw_sent (ps_rw s), ps_conns s, al_StatusCode <$> ps_logged s) = (Panic bad_nonce, None, [], [0%Z])
  | _ => False
  end.
Proof. vm_compute. reflexivity. Qed.

Lemma every_request_answered_witness :
  ∃ s' r rec, get_page "shop.example.com" "/" ∅ = Ok (s', r)
    ∧ registry_wf (ps_registry s') ∧ same_endpoints shop (ps_registry s')
    ∧ attempts (ps_conns s') ≤ maxRetries
    ∧ ps_logged s' = [rec]
    ∧ ((r = Ok tt ∧ (rw_hijacked (ps_rw s') = true ∨ ∃ h', rw_sent (ps_rw s') = Some (al_StatusCode rec, h')))
       ∨ (r = crypto_step shop_env shop_proxy ∅ (start_state shop_env shop_proxy shop_writer
                (shop_request "shop.example.com" "/") (shop_store ∅) shop) ∧ ¬ is_Ok r
          ∧ for_service shop_proxy (shop_request "shop.example.com" "/") shop ∧ ps_conns s' = [] ∧ rw_sent (ps_rw s') = None)).
Proof.
  apply (every_request_answered shop_env shop_proxy shop_writer (shop_request "shop.example.com" "/") (shop_store ∅) shop ∅
    (mkURL "" "" "" "/" "")); [apply shop_writer_new|apply shop_wf|reflexivity|reflexivity].
Defined.

Lemma router_answers_itself_witness :
  ∃ s' hs, get_page "nowhere.example.com" "/" ∅ = Ok (s', Ok tt) ∧ al_StatusCode (ps_log s') = 404%Z
    ∧ rw_sent (ps_rw s') = Some (404%Z, hs) ∧ header_Get "X-Cf-RouterError" hs = "unknown_route"
    ∧ rw_body (ps_rw s') = error_body 404 "Requested route ('nowhere.example.com') does not exist."
    ∧ BodyBytesSent (ps_log s') = 0%Z ∧ ps_conns s' = [] ∧ ps_captures s' = [CaptureBadRequest].
Proof.
  apply (router_answers_itself shop_env shop_proxy shop_writer (shop_request "nowhere.example.com" "/") (shop_store ∅) shop ∅
    (mkURL "" "" "" "/" "")); [apply shop_writer_new|apply shop_wf|reflexivity|reflexivity|split; reflexivity|].
  vm_compute. reflexivity.
Defined.

Definition shop_pool : positive := match Lookup "shop.example.com/" shop with Ok (Some v) => v | _ => 1%positive end.
Definition rs_pool : positive := match Lookup "rs.example.org/" shop with Ok (Some v) => v | _ => 1%positive end.

Lemma backend_request_witness :
  ∃ pl s' (es : list EndpointRef) r out h', pools shop !! shop_pool = Some pl
    ∧ get_page "shop.example.com" "/" ∅ = Ok (s', Ok tt)
    ∧ length es ≤ maxRetries
    ∧ Forall2 (backend_trip out (mkURL "http" "/" "shop.example.com" "/" "") h') es (ps_conns s')
    ∧ trip_captures (1000 * Second) es r (ps_captures s') ∧ client_view r s'.
Proof.
  destruct (pools shop !! shop_pool) as [pl|] eqn:Hpl; [|vm_compute in Hpl; discriminate].
  destruct (backend_request shop_env shop_proxy shop_writer (shop_request "shop.example.com" "/") (shop_store ∅) shop ∅
    (mkURL "" "" "" "/" "") shop_pool pl ["shop.example.com"]) as (s' & es & r & out & h' & H1 & H2 & _ & _ & H3 & _ & H4 & _ & H5).
  - apply shop_writer_new.
  - apply shop_wf.
  - reflexivity.
  - reflexivity.
  - split; reflexivity.
  - vm_compute. reflexivity.
  - reflexivity.
  - reflexivity.
  - vm_compute. reflexivity.
  - exact Hpl.
  - vm_compute in Hpl. injection Hpl as <-. vm_compute. reflexivity.
  - exists pl, s', es, r, out, h'. split_and!; [reflexivity|exact H1|exact H2|exact H3|exact H4|exact H5].
Defined.

(** A request that has not been to the service goes there, signed. *)
Lemma route_service_gate_witness :
  ∃ s' r, get_page "rs.example.org" "/" ∅ = Ok (s', r) ∧
    ∀ ev, ev ∈ ps_conns s' → ∃ u host h', ev = RoundTripTo u host h'
      ∧ header_Get RouteServiceForwardedUrl h' = "http://rs.example.org/".
Proof.
  destruct (pools shop !! rs_pool) as [pl|] eqn:Hpl; [|vm_compute in Hpl; discriminate].
  destruct (route_service_gate shop_env shop_proxy shop_writer (shop_request "rs.example.org" "/") (shop_store ∅) shop ∅
    (mkURL "" "" "" "/" "") rs_pool pl "https://rs.example.com/") as (s' & r & Hrun & H).
  - apply shop_writer_new.
  - apply shop_wf.
  - reflexivity.
  - reflexivity.
  - split; reflexivity.
  - vm_compute. reflexivity.
  - reflexivity.
  - reflexivity.
  - exact Hpl.
  - vm_compute in Hpl. injection Hpl as <-. vm_compute. reflexivity.
  - discriminate.
  - exists s', r. split; [exact Hrun|]. intros ev Hin.
    destruct (H ev Hin) as [_ (u & host & h' & Hev & [(now & Hsig & _)|(rand & now & sig & md & _ & _ & _ & _ & _ & Hf)])].
    + by destruct Hsig.
    + exists u, host, h'. split; [exact Hev|exact Hf].
Defined.

Definition upgrade_headers : Header := header_Set "Upgrade" "WebSocket" (header_Set "Connection" "Upgrade" ∅).

(** Upgrades are handled before the route service is looked at: an unsigned
    upgrade of the route with a service reaches the back end itself, with
    [upgrade] a WebSocket or a TCP connection. *)
Example upgrade_bypasses_service upgrade :
  upgrade ∈ ["websocket"; "tcp"] →
  match get_page "rs.example.org" "/" (header_Set "Upgrade" upgrade (header_Set "Connection" "Upgrade" ∅)) with
  | Ok (s, Ok _) =>
      (omap (λ ev, match ev with DialTo a true | ForwardIO a => Some a | _ => None end) (ps_conns s), al_StatusCode (ps_log s))
      = (["10.0.0.4:80"; "10.0.0.4:80"], 101%Z)
  | _ => False
  end.
Proof. rewrite !elem_of_cons, elem_of_nil. intros [->|[->|[]]]; vm_compute; reflexivity. Qed.

Lemma upgrade_outcome_witness :
  ∃ s', get_page "shop.example.com" "/" upgrade_headers = Ok (s', Ok tt)
    ∧ attempts (ps_conns s') ≤ maxRetries ∧ CloseClient ∈ ps_conns s'
    ∧ rw_sent (ps_rw s') = None ∧ rw_body (ps_rw s') = ""
    ∧ ((al_StatusCode (ps_log s') = 101%Z ∧ ∃ a, ForwardIO a ∈ ps_conns s' ∧ DialTo a true ∈ ps_conns s')
       ∨ (al_StatusCode (ps_log s') = 400%Z ∧ ∀ a, ForwardIO a ∉ ps_conns s')).
Proof.
  apply (upgrade_outcome shop_env shop_proxy shop_writer (shop_request "shop.example.com" "/") (shop_store upgrade_headers) shop
    upgrade_headers (mkURL "" "" "" "/" "") shop_pool);
    [apply shop_writer_new|reflexivity|apply shop_wf|reflexivity|reflexivity|split; reflexivity|vm_compute; reflexivity|vm_compute; reflexivity].
Defined.

Lemma sticky_session_witness :
  response_Cookies (setupStickySession (rsp_Header shop_page) back5 "" false "/" ∅) = [(VcapCookieId, "id5", (-1)%Z)]
  ∧ getStickySession {["Cookie" := [cookie_line2 StickyCookieKey "abc" VcapCookieId "id5"]]} = "id5".
Proof.
  destruct (sticky_session (rsp_Header shop_page) back5 "" false "/" ∅ ltac:(reflexivity)) as (H1 & _ & H2).
  split; [apply (H1 [] "abc" (-1)%Z []); [reflexivity|constructor]|]. apply (H2 "abc"); reflexivity.
Defined.

(** The session cookie need not be the first. *)
Example second_cookie :
  response_Cookies (setupStickySession (header_Add "Set-Cookie" "JSESSIONID=abc" (header_Add "Set-Cookie" "lang=en" ∅))
    back5 "" false "/" ∅) = [(VcapCookieId, "id5", 0%Z)].
Proof. vm_compute. reflexivity. Qed.

Definition shop_start : PState := start_state shop_env shop_proxy shop_writer (shop_request "h" "/") (shop_store ∅) shop.

Abbreviation shop_writes := [OpWrite "ab"; OpWriteHeader 404; OpWrite "c"; OpHijack; OpWrite "d"].

