(* ===== verification/RegistryInterface.v ===== *)
(** * The registry as its clients see it (src/registry/registry.go, [RegistryInterface])

    The NATS subscriptions of the router and the route fetcher write to the
    registry through the interface [RegistryInterface].  The two methods they
    use are the operations of the class [RegistryOps]; the class
    [RegistryInterface] adds what the clients may rely on: an invariant, the
    routing table and what the operations do to it.  [RouteRegistry] is an
    instance; the clients are verified against the class. *)

From S2P Require Import Prelude GoStrings Uris Pool PoolSpec Trie TrieSpec Registry RegistrySpec.

Class RegistryOps (R : Type) := {
  reg_Register : Z → Z → Uri → EndpointRef → R → res R;
  reg_Unregister : Uri → EndpointRef → R → res R;
}.

Class RegistryInterface (R : Type) {reg_methods : RegistryOps R} := {
  reg_ok : R → Prop;
  reg_table : R → list string → gmap string view;
  reg_Register_law : ∀ t now uri (e : EndpointRef) r, reg_ok r → wf_endpoint e →
    ∃ r', reg_Register t now uri e r = Ok r' ∧ reg_ok r'
      ∧ ∀ q, reg_table r' q = if bool_decide (q = segments (RouteKey uri)) then put_view now e (reg_table r q)
                              else reg_table r q;
  reg_Unregister_law : ∀ uri (e : EndpointRef) r, reg_ok r → wf_endpoint e →
    ∃ r', reg_Unregister uri e r = Ok r' ∧ reg_ok r'
      ∧ ∀ q, reg_table r' q = if bool_decide (q = segments (RouteKey uri)) then delete (addr e) (reg_table r q)
                              else reg_table r q;
}.

#[export] Instance RouteRegistry_ops : RegistryOps RouteRegistry := {|
  reg_Register := Register;
  reg_Unregister := Unregister
|}.

#[export, refine] Instance RouteRegistry_interface : RegistryInterface RouteRegistry := {|
  reg_ok := registry_wf;
  reg_table := routes
|}.
Proof.
  - intros t now uri e r Hr He. destruct (Register_spec t now uri e r Hr He) as (r' & ? & ? & ? & _). eauto.
  - intros uri e r Hr He. destruct (Unregister_spec uri e r Hr He) as (r' & ? & ? & ? & _). eauto.
Defined.

(** ** Clients that allocate their endpoints

    Each call gets an endpoint of its own from [route.NewEndpoint].  A client's
    state is the registry with the next address the allocator returns; no
    endpoint of the registry has an address from there on. *)

Record client (R : Type) := mkClient { cl_registry : R; cl_next : positive }.
Arguments mkClient {R} _ _.
Arguments cl_registry {R} _.
Arguments cl_next {R} _.

Section clients.
Context {R : Type} `{RegistryInterface R}.

Definition register (t now : Z) (uri : Uri) (mk : positive → EndpointRef) (c : client R) : res (client R) :=
  r ← reg_Register t now uri (mk (cl_next c)) (cl_registry c);
  Ok (mkClient r (Pos.succ (cl_next c))).

Definition unregister (uri : Uri) (mk : positive → EndpointRef) (c : client R) : res (client R) :=
  r ← reg_Unregister uri (mk (cl_next c)) (cl_registry c);
  Ok (mkClient r (Pos.succ (cl_next c))).

Definition client_ok (c : client R) : Prop :=
  reg_ok (cl_registry c)
  ∧ ∀ q a e u f, reg_table (cl_registry c) q !! a = Some (e, u, f) → (ep_ptr e < cl_next c)%positive.

(** The table without the addresses of the endpoints and their failures: the
    endpoints and when they were last registered. *)
Definition listing (m : gmap string view) : gmap string (Endpoint * Z) := (λ v, (ep (fst (fst v)), snd (fst v))) <$> m.
Definition cl_table (c : client R) (q : list string) : gmap string (Endpoint * Z) :=
  listing (reg_table (cl_registry c) q).

(** A client builds an endpoint with a new address around the same contents. *)
Definition allocates (mk : positive → EndpointRef) (e : Endpoint) : Prop :=
  ∀ p, mk p = mkRef p e.

Lemma listing_put now (e : EndpointRef) (m : gmap string view) :
  (∀ a r u f, m !! a = Some (r, u, f) → ep_ptr r ≠ ep_ptr e) →
  listing (put_view now e m) = <[addr e := (ep e, now)]> (listing m).
Proof.
  intros Hfresh. unfold put_view, listing. destruct (m !! addr e) as [[[r u] f]|] eqn:Hm.
  - rewrite bool_decide_false by (by eapply Hfresh). by rewrite fmap_insert.
  - by rewrite fmap_insert.
Qed.

Lemma listing_delete a (m : gmap string view) : listing (delete a m) = delete a (listing m).
Proof. apply fmap_delete. Qed.

Lemma register_spec t now uri mk e c :
  client_ok c → allocates mk e → wf_endpoint e →
  ∃ c', register t now uri mk c = Ok c' ∧ client_ok c'
    ∧ ∀ q, cl_table c' q = if bool_decide (q = segments (RouteKey uri)) then <[addr e := (e, now)]> (cl_table c q)
                           else cl_table c q.
Proof.
  intros [Hok Hnext] Hmk He. unfold register. rewrite Hmk.
  destruct (reg_Register_law t now uri (mkRef (cl_next c) e) (cl_registry c) Hok He) as (r' & -> & Hok' & Ht).
  eexists. split_and!; [reflexivity|split; [done|]|]; cbn [cl_registry cl_next].
  - intros q a e' u f Hq. rewrite Ht in Hq. case_bool_decide.
    + unfold put_view in Hq. destruct (_ !! addr (mkRef _ e)) as [[[r0 u0] f0]|] eqn:Hr0.
      1: case_bool_decide; [apply Hnext in Hq; lia|].
      all: apply lookup_insert_Some in Hq as [[_ [= <- <- <-]]|[_ Hq]]; [simpl; lia|apply Hnext in Hq; lia].
    + apply Hnext in Hq. lia.
  - intros q. unfold cl_table. cbn [cl_registry]. rewrite Ht. case_bool_decide; [|done].
    apply listing_put. intros a r u f Hr. apply Hnext in Hr. simpl. lia.
Qed.

Lemma unregister_spec uri mk e c :
  client_ok c → allocates mk e → wf_endpoint e →
  ∃ c', unregister uri mk c = Ok c' ∧ client_ok c'
    ∧ ∀ q, cl_table c' q = if bool_decide (q = segments (RouteKey uri)) then delete (addr e) (cl_table c q)
                           else cl_table c q.
Proof.
  intros [Hok Hnext] Hmk He. unfold unregister. rewrite Hmk.
  destruct (reg_Unregister_law uri (mkRef (cl_next c) e) (cl_registry c) Hok He) as (r' & -> & Hok' & Ht).
  eexists. split_and!; [reflexivity|split; [done|]|]; cbn [cl_registry cl_next].
  - intros q a e' u f Hq. rewrite Ht in Hq. case_bool_decide; [apply lookup_delete_Some in Hq as [_ Hq]|];
      apply Hnext in Hq; lia.
  - intros q. unfold cl_table. cbn [cl_registry]. rewrite Ht. case_bool_decide; [apply listing_delete|done].
Qed.
End clients.

(** A registry no client has written to. *)
Lemma client_ok_new interval thr : client_ok (mkClient (NewRouteRegistry interval thr) 1%positive).
Proof.
  destruct (NewRouteRegistry_wf interval thr) as [Hwf Hempty]. split; [done|]. cbn [cl_registry].
  intros q a e u f. cbn [reg_table RouteRegistry_interface]. by rewrite Hempty, lookup_empty.
Qed.
