(* ===== verification/RouterMessages.v ===== *)
(** * Messages on the bus (src/router/registry_message.go, src/router/router.go)

    The router subscribes to [router.register], [router.unregister] and
    [router.greet].  A delivery of a message runs the subscription's callback
    to its end; the registry is any implementation of its interface.
    [localip.LocalIP] is a parameter. *)

From S2P Require Import Prelude GoStrings Utf8 Http Json MessageJson Uris Pool PoolSpec Trie TrieSpec Registry RegistrySpec RegistryInterface.

Definition makeEndpoint (rm : RegistryMessage) (ptr : positive) : EndpointRef :=
  NewEndpoint ptr (rm_App rm) (rm_Host rm) (rm_Port rm) (rm_PrivateInstanceId rm) (rm_Tags rm)
    (rm_StaleThresholdInSeconds rm) (rm_RouteServiceUrl rm).

Definition ValidateMessage (rm : RegistryMessage) : bool :=
  String.eqb (rm_RouteServiceUrl rm) "" || strings_HasPrefix (rm_RouteServiceUrl rm) "https".

(** A [*nats.Msg]. *)
Record nats_Msg := mkMsg { msg_Subject : string; msg_Reply : string; msg_Data : string }.

(** What the callbacks read of the router and its surroundings. *)
Record RouterEnv := mkRouterEnv {
  LocalIP : option string;
  component_UUID : string;
  cfg_StartResponseDelayIntervalInSeconds : Z;
  cfg_DropletStaleThresholdInSeconds : Z;
}.

(** The two clock readings of the [i]-th registration of a message. *)
Abbreviation clock := (nat → Z * Z)%type.

Definition router_register : string := "router.register".
Definition router_unregister : string := "router.unregister".
Definition router_greet : string := "router.greet".
Definition router_start : string := "router.start".

(** The registry and what has been published. *)
Record bus (R : Type) := mkBus { bus_client : client R; bus_published : list (string * string) }.
Arguments mkBus {R} _ _.
Arguments bus_client {R} _.
Arguments bus_published {R} _.

Section router.
Context {R : Type} `{RegistryInterface R} (env : RouterEnv).

Definition SubscribeRegister_success (clk : clock) (registryMessage : RegistryMessage) (c : client R)
    : res (client R) :=
  foldM (λ c '(i, uri), register (fst (clk i)) (snd (clk i)) uri (makeEndpoint registryMessage) c) c
    (imap pair (rm_Uris registryMessage)).

Definition SubscribeUnregister_success (registryMessage : RegistryMessage) (c : client R) : res (client R) :=
  foldM (λ c uri, unregister uri (makeEndpoint registryMessage) c) c (rm_Uris registryMessage).

(** The callback [subscribeRegistry] installs. *)
Definition subscribeRegistry_callback (successCallback : RegistryMessage → client R → res (client R))
    (message : nats_Msg) (c : client R) : res (client R) :=
  let payload := msg_Data message in
  match UnmarshalMessage payload with
  | None => Ok c
  | Some msg => if negb (ValidateMessage msg) then Ok c else successCallback msg c
  end.

Definition greetMessage : option string :=
  match LocalIP env with
  | None => None
  | Some host =>
      Some (MarshalStart (mkStart (component_UUID env) [host] (cfg_StartResponseDelayIntervalInSeconds env)
        (cfg_DropletStaleThresholdInSeconds env)))
  end.

Definition Publish (subject payload : string) (b : bus R) : bus R :=
  mkBus (bus_client b) (bus_published b ++ [(subject, payload)]).

(** An error of [greetMessage] is dropped: the reply is then empty. *)
Definition HandleGreetings_callback (msg : nats_Msg) (b : bus R) : bus R :=
  if String.eqb (msg_Reply msg) "" then b
  else Publish (msg_Reply msg) (default "" greetMessage) b.

Definition SendStartMessage (b : bus R) : res (bus R) :=
  match greetMessage with
  | None => Panic "greetMessage"
  | Some m => Ok (Publish router_start m b)
  end.

(** Delivery of a message to the subscription of its subject. *)
Definition deliver (clk : clock) (b : bus R) (msg : nats_Msg) : res (bus R) :=
  if String.eqb (msg_Subject msg) router_register then
    c ← subscribeRegistry_callback (SubscribeRegister_success clk) msg (bus_client b);
    Ok (mkBus c (bus_published b))
  else if String.eqb (msg_Subject msg) router_unregister then
    c ← subscribeRegistry_callback SubscribeUnregister_success msg (bus_client b);
    Ok (mkBus c (bus_published b))
  else if String.eqb (msg_Subject msg) router_greet then Ok (HandleGreetings_callback msg b)
  else Ok b.

(** ** The contract *)

Abbreviation listings := (list string → gmap string (Endpoint * Z)).

(** The message takes part: it can be read, and a route service is HTTPS. *)
Definition accepted (msg : nats_Msg) : option RegistryMessage :=
  match UnmarshalMessage (msg_Data msg) with
  | Some rm => if ValidateMessage rm then Some rm else None
  | None => None
  end.

Definition keys_of (rm : RegistryMessage) : list (list string) := map (λ u, segments (RouteKey u)) (rm_Uris rm).
Definition endpoint_of (rm : RegistryMessage) : Endpoint := ep (makeEndpoint rm 1).

(** Every path the message names holds its endpoint, as of a time read for a
    URI of that path; the other paths are as they were. *)
Definition registers (clk : clock) (rm : RegistryMessage) (T T' : listings) : Prop :=
  ∀ q, if decide (q ∈ keys_of rm)
       then ∃ i, keys_of rm !! i = Some q
              ∧ T' q = <[addr (endpoint_of rm) := (endpoint_of rm, snd (clk i))]> (T q)
       else T' q = T q.

Definition unregisters (rm : RegistryMessage) (T T' : listings) : Prop :=
  ∀ q, T' q = if decide (q ∈ keys_of rm) then delete (addr (endpoint_of rm)) (T q) else T q.

Definition message_effect (clk : clock) (msg : nats_Msg) (T T' : listings) : Prop :=
  match accepted msg with
  | Some rm =>
      if String.eqb (msg_Subject msg) router_register then registers clk rm T T'
      else if String.eqb (msg_Subject msg) router_unregister then unregisters rm T T'
      else ∀ q, T' q = T q
  | None => ∀ q, T' q = T q
  end.

Inductive effects : list (clock * nats_Msg) → listings → listings → Prop :=
| effects_nil T T' : (∀ q, T' q = T q) → effects [] T T'
| effects_cons clk msg ms T T1 T2 :
    message_effect clk msg T T1 → effects ms T1 T2 → effects ((clk, msg) :: ms) T T2.

(** The replies to greetings. *)
Definition replies (ms : list nats_Msg) : list (string * string) :=
  (λ m, (msg_Reply m, default "" greetMessage)) <$>
    filter (λ m, msg_Subject m = router_greet ∧ msg_Reply m ≠ "") ms.

(** Private instance ids of messages have no colon. *)
Definition plain_ids (msg : nats_Msg) : Prop :=
  ∀ rm, UnmarshalMessage (msg_Data msg) = Some rm → str_in ":" (rm_PrivateInstanceId rm) = false.

Definition plain_idsb (msg : nats_Msg) : bool :=
  match UnmarshalMessage (msg_Data msg) with Some rm => negb (str_in ":" (rm_PrivateInstanceId rm)) | None => true end.

Lemma plain_idsb_spec msg : plain_idsb msg = true → plain_ids msg.
Proof. unfold plain_idsb. intros Hm rm Hrm. rewrite Hrm in Hm. by apply negb_true_iff in Hm. Qed.

Lemma makeEndpoint_allocates rm : allocates (makeEndpoint rm) (endpoint_of rm).
Proof. intros p. reflexivity. Qed.

Lemma endpoint_of_wf rm : str_in ":" (rm_PrivateInstanceId rm) = false → wf_endpoint (endpoint_of rm).
Proof. intros Hid. by apply (NewEndpoint_wf 1). Qed.

(** One registration more: its own path changes, the others keep what the
    registrations so far made of them. *)
Lemma register_loop clk rm uris : ∀ k c,
  client_ok c → wf_endpoint (endpoint_of rm) →
  ∃ c', foldM (λ c '(i, uri), register (fst (clk i)) (snd (clk i)) uri (makeEndpoint rm) c) c
          (imap (λ i u, (k + i, u)) uris) = Ok c' ∧ client_ok c'
    ∧ ∀ q, if decide (q ∈ map (λ u, segments (RouteKey u)) uris)
           then ∃ i, map (λ u, segments (RouteKey u)) uris !! i = Some q
                  ∧ cl_table c' q = <[addr (endpoint_of rm) := (endpoint_of rm, snd (clk (k + i)))]> (cl_table c q)
           else cl_table c' q = cl_table c q.
Proof.
  induction uris as [|uri uris IH]; intros k c Hc He; [by exists c|]. cbn [imap foldM].
  rewrite Nat.add_0_r.
  destruct (register_spec (fst (clk k)) (snd (clk k)) uri (makeEndpoint rm) (endpoint_of rm) c) as (c1 & -> & Hc1 & Ht1);
    [done|apply makeEndpoint_allocates|done|]. cbn [mbind res_mbind].
  destruct (IH (S k) c1 Hc1 He) as (c2 & Hr & Hc2 & Ht2).
  replace (imap ((λ i u, (k + i, u)) ∘ S) uris) with (imap (λ i u, (S k + i, u)) uris)
    by (apply imap_ext; intros; simpl; f_equal; lia).
  exists c2. split_and!; [done..|]. intros q. specialize (Ht1 q). specialize (Ht2 q). cbn [map].
  destruct (decide (q ∈ map _ uris)) as [Hin|Hout].
  - rewrite decide_True by (by right). destruct Ht2 as (i & Hi & ->). exists (S i). split; [done|].
    rewrite Ht1, <- plus_n_Sm. case_bool_decide; [by rewrite insert_insert_eq|done].
  - destruct (decide (q = segments (RouteKey uri))) as [->|Hne].
    + rewrite decide_True by (by left). exists 0. split; [done|]. rewrite Ht2, Ht1, bool_decide_true by done.
      by rewrite Nat.add_0_r.
    + rewrite decide_False by (by rewrite not_elem_of_cons). by rewrite Ht2, Ht1, bool_decide_false.
Qed.

Lemma unregister_loop rm uris : ∀ c,
  client_ok c → wf_endpoint (endpoint_of rm) →
  ∃ c', foldM (λ c uri, unregister uri (makeEndpoint rm) c) c uris = Ok c' ∧ client_ok c'
    ∧ ∀ q, cl_table c' q = if decide (q ∈ map (λ u, segments (RouteKey u)) uris)
                           then delete (addr (endpoint_of rm)) (cl_table c q) else cl_table c q.
Proof.
  induction uris as [|uri uris IH]; intros c Hc He; [by exists c|]. cbn [foldM].
  destruct (unregister_spec uri (makeEndpoint rm) (endpoint_of rm) c) as (c1 & -> & Hc1 & Ht1);
    [done|apply makeEndpoint_allocates|done|]. cbn [mbind res_mbind].
  destruct (IH c1 Hc1 He) as (c2 & Hr & Hc2 & Ht2). exists c2. split_and!; [done..|]. intros q. rewrite Ht2, Ht1. cbn [map].
  destruct (decide (q ∈ map _ uris)), (decide (q = segments (RouteKey uri))) as [->|].
  - rewrite decide_True, bool_decide_true by first [by left|done]. apply delete_delete_eq.
  - rewrite decide_True, bool_decide_false by first [by right|done]. done.
  - rewrite decide_True, bool_decide_true by first [by left|done]. done.
  - rewrite decide_False, bool_decide_false by (rewrite ?not_elem_of_cons; done). done.
Qed.

Lemma deliver_spec clk b msg :
  client_ok (bus_client b) → plain_ids msg →
  ∃ b', deliver clk b msg = Ok b' ∧ client_ok (bus_client b')
    ∧ message_effect clk msg (cl_table (bus_client b)) (cl_table (bus_client b'))
    ∧ bus_published b' = bus_published b ++ replies [msg].
Proof.
  intros Hc Hids. unfold deliver, message_effect, accepted, subscribeRegistry_callback, replies.
  rewrite filter_cons, filter_nil.
  destruct (String.eqb_spec (msg_Subject msg) router_register) as [Hs|Hreg];
    [|destruct (String.eqb_spec (msg_Subject msg) router_unregister) as [Hs|Hun]].
  3: { destruct (String.eqb_spec (msg_Subject msg) router_greet) as [Hs|Hs].
       - exists (HandleGreetings_callback msg b). unfold HandleGreetings_callback.
         destruct (String.eqb_spec (msg_Reply msg) "") as [Hr|Hr].
         + rewrite decide_False by tauto. split_and!; [done..| |by rewrite app_nil_r].
           destruct (UnmarshalMessage (msg_Data msg)) as [rm|]; [destruct (ValidateMessage rm)|]; done.
         + rewrite decide_True by tauto. split_and!; try done.
           destruct (UnmarshalMessage (msg_Data msg)) as [rm|]; [destruct (ValidateMessage rm)|]; done.
       - exists b. rewrite decide_False by tauto. split_and!; [done..| |by rewrite app_nil_r].
         destruct (UnmarshalMessage (msg_Data msg)) as [rm|]; [destruct (ValidateMessage rm)|]; done. }
  all: assert (msg_Subject msg ≠ router_greet) by (rewrite Hs; done).
  all: rewrite decide_False by tauto; cbn [fmap list_fmap]; rewrite app_nil_r.
  all: destruct (UnmarshalMessage (msg_Data msg)) as [rm|] eqn:Hu; [|exists b; by destruct b].
  all: destruct (ValidateMessage rm); cbn [negb]; [|exists b; by destruct b].
  - destruct (register_loop clk rm (rm_Uris rm) 0 (bus_client b)) as (c' & Hr & Hc' & Ht);
      [done|by apply endpoint_of_wf, Hids|].
    unfold SubscribeRegister_success. change (imap pair (rm_Uris rm)) with (imap (λ i u, (0 + i, u)) (rm_Uris rm)).
    rewrite Hr. by eexists.
  - destruct (unregister_loop rm (rm_Uris rm) (bus_client b)) as (c' & Hr & Hc' & Ht);
      [done|by apply endpoint_of_wf, Hids|].
    unfold SubscribeUnregister_success. rewrite Hr. by eexists.
Qed.

(** C9: Messages maintain the routing table. Whatever arrives on the bus, in
    whatever order, as long as the private instance id of a message that can
    be read has no colon ([plain_ids]), no callback panics; a message that
    cannot be read or whose route service is not HTTPS changes nothing; an
    accepted registration puts its endpoint, with the time, under exactly the
    paths of its URIs, an unregistration removes it from exactly those; and
    every greeting with a reply subject is answered, in order. The router does
    not check the ids; [colon_messages_panic] shows messages that violate the
    condition. *)
Theorem messages_maintain_table ms b :
  client_ok (bus_client b) → Forall plain_ids (snd <$> ms) →
  ∃ b', foldM (λ b m, deliver (fst m) b (snd m)) b ms = Ok b' ∧ client_ok (bus_client b')
    ∧ effects ms (cl_table (bus_client b)) (cl_table (bus_client b'))
    ∧ bus_published b' = bus_published b ++ replies (snd <$> ms).
Proof.
  revert b; induction ms as [|[clk msg] ms IH]; intros b Hc Hids.
  { exists b. split_and!; [done..|by constructor|by rewrite app_nil_r]. }
  inversion Hids; subst. destruct (deliver_spec clk b msg Hc) as (b1 & Hd & Hc1 & He & Hp); [done|].
  destruct (IH b1 Hc1) as (b2 & Hr & Hc2 & Hes & Hp2); [done|]. exists b2. cbn [foldM fst snd]. rewrite Hd.
  split_and!; [done|done|by econstructor|]. rewrite Hp2, Hp, <- app_assoc. f_equal. unfold replies.
  by rewrite <- fmap_app, <- filter_app.
Qed.
End router.

(** ** A concrete bus *)

Definition sample_message (uris : list Uri) (service : string) : string :=
  print_json (message_json (mkRM "10.0.0.7" 8080 uris ∅ "app7" 60 service "id7") [("component", "dea-1")]).

Definition sample_router : RouterEnv := {|
  LocalIP := Some "10.0.0.9";
  component_UUID := "0-uuid";
  cfg_StartResponseDelayIntervalInSeconds := 5;
  cfg_DropletStaleThresholdInSeconds := 120;
|}.

Definition sample_clock : clock := λ i, (Z.of_nat i * Second, Z.of_nat i * Second + 1)%Z.
Definition sample_messages : list (clock * nats_Msg) :=
  (sample_clock,.) <$>
    [mkMsg router_register "" (sample_message ["Shop.example.com/"; "shop.example.com/cart"] "");
     mkMsg router_greet "inbox.1" ""; mkMsg router_register "" "not json";
     mkMsg router_register "" (sample_message ["shop.example.com"] "http://rs");
     mkMsg router_unregister "" (sample_message ["shop.example.com/cart"] "https://rs"); mkMsg router_greet "" ""].
Definition sample_greeting : string :=
  json_text ["{"; "id"; ":"; "0-uuid"; ","; "hosts"; ":["; "10.0.0.9"; "],"; "minimumRegisterIntervalInSeconds"; ":5,";
    "pruneThresholdInSeconds"; ":120}"].
Definition sample_bus : bus RouteRegistry := mkBus (mkClient (NewRouteRegistry 0 (120 * Second)) 1) [].

Lemma sample_ids : Forall plain_ids (snd <$> sample_messages).
Proof. repeat (constructor; [apply plain_idsb_spec; vm_compute; reflexivity|]). constructor. Qed.

Lemma messages_maintain_table_witness :
  ∃ b', foldM (λ b m, deliver sample_router (fst m) b (snd m)) sample_bus sample_messages = Ok b'
    ∧ effects sample_messages (cl_table (bus_client sample_bus)) (cl_table (bus_client b'))
    ∧ bus_published b' = [("inbox.1", sample_greeting)]
    ∧ size (cl_table (bus_client b') ["shop.example.com"]) = 1
    ∧ cl_table (bus_client b') ["shop.example.com"; "cart"] = ∅.
Proof.
  destruct (messages_maintain_table sample_router sample_messages sample_bus) as (b' & Hr & _ & He & Hp).
  - apply client_ok_new.
  - apply sample_ids.
  - exists b'. split_and!; [exact Hr|exact He|exact Hp| |].
    all: vm_compute in Hr; injection Hr as <-; vm_compute; reflexivity.
Defined.

(** Five messages of one sender that stop the router: the id of the endpoint
    [h:1] is the address of another one. *)
Definition colon_message (subject : string) (port : Z) (id : string) : clock * nats_Msg :=
  (sample_clock, mkMsg subject "" (print_json (message_json (mkRM "h" port ["shop.example.com"] ∅ "app" 60 "" id) []))).

Example colon_messages_panic :
  foldM (λ b m, deliver sample_router (fst m) b (snd m)) sample_bus
    [colon_message router_register 9 "x"; colon_message router_register 1 "h:2"; colon_message router_register 2 "z";
     colon_message router_unregister 1 "h:2"; colon_message router_unregister 1 "h:2"] = Panic out_of_range.
Proof. vm_compute. reflexivity. Qed.
