(* ===== verification/NatsParser.v ===== *)
(** * The protocol parser of the bus client (package [nats])

    The client reads from its socket into one array, again and again, and parses
    what it got; an operation of the server may be spread over any number of
    reads.  To avoid copies the parser keeps slices of that array, and moves
    what it still needs at the end of a read to an array of its own, the scratch
    space.  Slices are therefore modelled with the array they point to: what a
    slice contains changes when its array is written to. *)

From S2P Require Import Prelude GoStrings Strconv.

(** ** Slices *)

Definition MAX_CONTROL_LINE_SIZE : nat := 1024.

(** A slice of the scratch space, or of an array that [append] allocated and
    nobody writes to any more. *)
Inductive own_slice :=
| InScratch (off len : nat)
| InHeap (s : string).

Inductive slice :=
| InBuf (off len : nat)
| Own (o : own_slice).

Definition substr (off len : nat) (s : string) : string := str_take len (str_drop off s).

Definition own_content (scratch : string) (o : own_slice) : string :=
  match o with
  | InScratch off len => substr off len scratch
  | InHeap s => s
  end.

(** What a slice contains; [arr] is the array of the read buffer. *)
Definition content (arr scratch : string) (sl : slice) : string :=
  match sl with
  | InBuf off len => substr off len arr
  | Own o => own_content scratch o
  end.

Definition own_len (o : own_slice) : nat :=
  match o with
  | InScratch _ len => len
  | InHeap s => String.length s
  end.

Definition slice_len (sl : slice) : nat :=
  match sl with
  | InBuf _ len => len
  | Own o => own_len o
  end.

(** [sl[lo:hi]] *)
Definition own_range (lo hi : nat) (o : own_slice) : own_slice :=
  match o with
  | InScratch off _ => InScratch (off + lo) (hi - lo)
  | InHeap s => InHeap (substr lo (hi - lo) s)
  end.

Definition slice_range (lo hi : nat) (sl : slice) : slice :=
  match sl with
  | InBuf off _ => InBuf (off + lo) (hi - lo)
  | Own o => Own (own_range lo hi o)
  end.

(** Writing [bs] into an array from [off] on. *)
Definition str_write (off : nat) (bs s : string) : string :=
  str_take off s +:+ bs +:+ str_drop (off + String.length bs) s.

(** [append]: in place while the array has room, and into a new array then. *)
Definition append_bytes (bs : string) (o : own_slice) (scratch : string) : own_slice * string :=
  match o with
  | InScratch off len =>
      if off + len + String.length bs <=? MAX_CONTROL_LINE_SIZE
      then (InScratch off (len + String.length bs), str_write (off + len) bs scratch)
      else (InHeap (substr off len scratch +:+ bs), scratch)
  | InHeap s => (InHeap (s +:+ bs), scratch)
  end.

(** ** The state of the parser *)

Inductive op_state :=
| OP_START | OP_PLUS | OP_PLUS_O | OP_PLUS_OK
| OP_MINUS | OP_MINUS_E | OP_MINUS_ER | OP_MINUS_ERR | OP_MINUS_ERR_SPC | MINUS_ERR_ARG
| OP_C | OP_CO | OP_CON | OP_CONN | OP_CONNE | OP_CONNEC | OP_CONNECT | CONNECT_ARG
| OP_M | OP_MS | OP_MSG | OP_MSG_SPC | MSG_ARG | MSG_PAYLOAD | MSG_END
| OP_P | OP_PI | OP_PIN | OP_PING | OP_PO | OP_PON | OP_PONG.

#[export] Instance op_state_eq_dec : EqDecision op_state.
Proof. solve_decision. Defined.

Record msgArg := mkMsgArg {
  ma_subject : slice;
  ma_reply : option slice;
  ma_sid : Z;
  ma_size : Z;
}.

Record parseState := mkPS {
  state : op_state;
  as_ : nat;
  drop : nat;
  ma : msgArg;
  argBuf : option own_slice;
  msgBuf : option own_slice;
  scratch : string;
}.

Fixpoint zeros (n : nat) : string :=
  match n with
  | O => EmptyString
  | S n' => String "000" (zeros n')
  end.

Definition new_parseState : parseState :=
  mkPS OP_START 0 0 (mkMsgArg (Own (InHeap "")) None 0 0) None None (zeros MAX_CONTROL_LINE_SIZE).

Definition set_state (x : op_state) (ps : parseState) : parseState :=
  mkPS x (as_ ps) (drop ps) (ma ps) (argBuf ps) (msgBuf ps) (scratch ps).
Definition set_as (n : nat) (ps : parseState) : parseState :=
  mkPS (state ps) n (drop ps) (ma ps) (argBuf ps) (msgBuf ps) (scratch ps).
Definition set_drop (n : nat) (ps : parseState) : parseState :=
  mkPS (state ps) (as_ ps) n (ma ps) (argBuf ps) (msgBuf ps) (scratch ps).
Definition set_ma (m : msgArg) (ps : parseState) : parseState :=
  mkPS (state ps) (as_ ps) (drop ps) m (argBuf ps) (msgBuf ps) (scratch ps).
Definition set_argBuf (o : option own_slice) (ps : parseState) : parseState :=
  mkPS (state ps) (as_ ps) (drop ps) (ma ps) o (msgBuf ps) (scratch ps).
Definition set_msgBuf (o : option own_slice) (ps : parseState) : parseState :=
  mkPS (state ps) (as_ ps) (drop ps) (ma ps) (argBuf ps) o (scratch ps).
Definition set_scratch (s : string) (ps : parseState) : parseState :=
  mkPS (state ps) (as_ ps) (drop ps) (ma ps) (argBuf ps) (msgBuf ps) s.

(** ** The arguments of a message *)

(** Decimal, unsigned; [-1] is an error.  A number that is too large wraps. *)
Fixpoint parseInt64_loop (n : Z) (d : string) : Z :=
  match d with
  | EmptyString => n
  | String dec d' => if is_digit dec then parseInt64_loop (wrap64 (n * 10 + digit_value dec)) d' else (-1)%Z
  end.

Definition parseInt64 (d : string) : Z := if String.eqb d "" then (-1)%Z else parseInt64_loop 0 d.

Definition cr : ascii := "013".
Definition lf : ascii := "010".
Definition tab : ascii := "009".

Definition is_blank (b : ascii) : bool := Ascii.eqb b " " || Ascii.eqb b tab.
Definition is_space4 (b : ascii) : bool := is_blank b || Ascii.eqb b cr || Ascii.eqb b lf.

(** The words of [arg]; [l] is what is left of it, from position [i] on. *)
Fixpoint split_args (arg : slice) (i : nat) (start : option nat) (l : string) : list slice :=
  match l with
  | EmptyString =>
      match start with
      | Some st => [slice_range st i arg]
      | None => []
      end
  | String b l' =>
      if is_space4 b then
        match start with
        | Some st => slice_range st i arg :: split_args arg (S i) None l'
        | None => split_args arg (S i) None l'
        end
      else split_args arg (S i) (Some (default i start)) l'
  end.

(** The new arguments, and the error. *)
Definition processMsgArgs (arr : string) (arg : slice) (ps : parseState) : option string * parseState :=
  let text := content arr (scratch ps) in
  let m :=
    match split_args arg 0 None (text arg) with
    | [a0; a1; a2] => Some (mkMsgArg a0 None (parseInt64 (text a1)) (parseInt64 (text a2)))
    | [a0; a1; a2; a3] => Some (mkMsgArg a0 (Some a2) (parseInt64 (text a1)) (parseInt64 (text a3)))
    | _ => None
    end in
  match m with
  | None => (Some "nats: processMsgArgs Parse Error", ps)
  | Some m =>
      if (ma_size m <? 0)%Z then (Some "nats: processMsgArgs Bad or Missing Size", set_ma m ps)
      else (None, set_ma m ps)
  end.

(** Subject and reply move to the scratch space. *)
Definition cloneMsgArg (arr : string) (ps : parseState) : parseState :=
  let m := ma ps in
  let '(b1, sc1) := append_bytes (content arr (scratch ps) (ma_subject m)) (InScratch 0 0) (scratch ps) in
  let '(b2, sc2) :=
    match ma_reply m with
    | Some r => append_bytes (content arr sc1 r) b1 sc1
    | None => (b1, sc1)
    end in
  let n := slice_len (ma_subject m) in
  set_ma (mkMsgArg (Own (own_range 0 n b2)) (match ma_reply m with Some _ => Some (Own (own_range n (own_len b2) b2)) | None => None end)
      (ma_sid m) (ma_size m))
    (set_argBuf (Some b2) (set_scratch sc2 ps)).

(** ** The parser

    The methods of the connection that the parser calls. *)

Class ConnOps (C : Type) := {
  processMsg_m : string → string → Z → string → C → C;
  processErr_m : string → C → C;
  processPing_m : C → C;
  processPong_m : C → C;
  processOK_m : C → C;
}.

Section parser.
Context {C : Type} `{ConnOps C}.

Definition parse_result : Type := res (option string * (parseState * C)).

Definition parse_error : string := "nats: Parse Error".

(** The whole of a letter of an operation's name: [next] when it is [b] in
    either case. *)
Definition letter (up : ascii) (next : op_state) (b : ascii) (ps : parseState) (nc : C) : parse_result :=
  if Ascii.eqb (lower_ascii b) (lower_ascii up) then Ok (None, (set_state next ps, nc)) else Ok (Some parse_error, (ps, nc)).

Definition blank (next : op_state) (b : ascii) (ps : parseState) (nc : C) : parse_result :=
  if is_blank b then Ok (None, (set_state next ps, nc)) else Ok (Some parse_error, (ps, nc)).

Definition go_on (ps : parseState) (nc : C) : parse_result := Ok (None, (ps, nc)).

(** [buf[lo:hi]] of the read buffer. *)
Definition buf_range (arr : string) (lo hi : nat) : res slice :=
  if (lo <=? hi) && (hi <=? String.length arr) then Ok (InBuf lo (hi - lo)) else Panic out_of_range.

(** The text of an argument that ends at [i]. *)
Definition end_of_arg (arr : string) (i : nat) (ps : parseState) : res slice :=
  match argBuf ps with
  | Some o => Ok (Own o)
  | None => buf_range arr (as_ ps) (i - drop ps)
  end.

(** A byte of an argument that does not end it. *)
Definition more_of_arg (b : ascii) (ps : parseState) : parseState :=
  match argBuf ps with
  | Some o => let '(o', sc) := append_bytes (String b "") o (scratch ps) in set_argBuf (Some o') (set_scratch sc ps)
  | None => ps
  end.

Definition optional_content (arr scratch : string) (o : option slice) : string :=
  match o with
  | Some sl => content arr scratch sl
  | None => ""
  end.

(** [processMsg] reads subject, reply and subscription from the parser. *)
Definition call_processMsg (arr : string) (msg : string) (ps : parseState) (nc : C) : C :=
  processMsg_m (content arr (scratch ps) (ma_subject (ma ps))) (optional_content arr (scratch ps) (ma_reply (ma ps)))
    (ma_sid (ma ps)) msg nc.

(** The byte [b] at position [i] of the buffer. *)
Definition parse_byte (arr : string) (i : nat) (b : ascii) (ps : parseState) (nc : C) : parse_result :=
  match state ps with
  | OP_START =>
      if Ascii.eqb (lower_ascii b) "m" then go_on (set_state OP_M ps) nc
      else if Ascii.eqb (lower_ascii b) "c" then go_on (set_state OP_C ps) nc
      else if Ascii.eqb (lower_ascii b) "p" then go_on (set_state OP_P ps) nc
      else if Ascii.eqb b "+" then go_on (set_state OP_PLUS ps) nc
      else if Ascii.eqb b "-" then go_on (set_state OP_MINUS ps) nc
      else Ok (Some parse_error, (ps, nc))
  | OP_M => letter "S" OP_MS b ps nc
  | OP_MS => letter "G" OP_MSG b ps nc
  | OP_MSG => blank OP_MSG_SPC b ps nc
  | OP_MSG_SPC => if is_blank b then go_on ps nc else go_on (set_as i (set_state MSG_ARG ps)) nc
  | MSG_ARG =>
      if Ascii.eqb b cr then go_on (set_drop 1 ps) nc
      else if Ascii.eqb b lf then
        arg ← end_of_arg arr i ps;
        match processMsgArgs arr arg ps with
        | (Some err, ps') => Ok (Some err, (ps', nc))
        | (None, ps') => go_on (set_state MSG_PAYLOAD (set_as (i + 1) (set_drop 0 ps'))) nc
        end
      else go_on (more_of_arg b ps) nc
  | MSG_PAYLOAD =>
      match msgBuf ps with
      | Some mb =>
          if (ma_size (ma ps) <=? Z.of_nat (own_len mb))%Z then
            let nc' := call_processMsg arr (own_content (scratch ps) mb) ps nc in
            go_on (set_state MSG_END (set_msgBuf None (set_argBuf None ps))) nc'
          else
            let '(mb', sc) := append_bytes (String b "") mb (scratch ps) in
            go_on (set_msgBuf (Some mb') (set_scratch sc ps)) nc
      | None =>
          if (ma_size (ma ps) <=? Z.of_nat i - Z.of_nat (as_ ps))%Z then
            msg ← buf_range arr (as_ ps) i;
            let nc' := call_processMsg arr (content arr (scratch ps) msg) ps nc in
            go_on (set_state MSG_END (set_msgBuf None (set_argBuf None ps))) nc'
          else go_on ps nc
      end
  | MSG_END =>
      if Ascii.eqb b lf then go_on (set_state OP_START (set_as (i + 1) (set_drop 0 ps))) nc else go_on ps nc
  | OP_PLUS => letter "O" OP_PLUS_O b ps nc
  | OP_PLUS_O => letter "K" OP_PLUS_OK b ps nc
  | OP_PLUS_OK => if Ascii.eqb b lf then go_on (set_state OP_START (set_drop 0 ps)) (processOK_m nc) else go_on ps nc
  | OP_MINUS => letter "E" OP_MINUS_E b ps nc
  | OP_MINUS_E => letter "R" OP_MINUS_ER b ps nc
  | OP_MINUS_ER => letter "R" OP_MINUS_ERR b ps nc
  | OP_MINUS_ERR => blank OP_MINUS_ERR_SPC b ps nc
  | OP_MINUS_ERR_SPC => if is_blank b then go_on ps nc else go_on (set_as i (set_state MINUS_ERR_ARG ps)) nc
  | MINUS_ERR_ARG =>
      if Ascii.eqb b cr then go_on (set_drop 1 ps) nc
      else if Ascii.eqb b lf then
        arg ← end_of_arg arr i ps;
        let nc' := processErr_m (content arr (scratch ps) arg) nc in
        go_on (set_state OP_START (set_as (i + 1) (set_drop 0 (set_argBuf None ps)))) nc'
      else go_on (more_of_arg b ps) nc
  | OP_P =>
      if Ascii.eqb (lower_ascii b) "i" then go_on (set_state OP_PI ps) nc
      else if Ascii.eqb (lower_ascii b) "o" then go_on (set_state OP_PO ps) nc
      else Ok (Some parse_error, (ps, nc))
  | OP_PO => letter "N" OP_PON b ps nc
  | OP_PON => letter "G" OP_PONG b ps nc
  | OP_PONG => if Ascii.eqb b lf then go_on (set_state OP_START (set_drop 0 ps)) (processPong_m nc) else go_on ps nc
  | OP_PI => letter "N" OP_PIN b ps nc
  | OP_PIN => letter "G" OP_PING b ps nc
  | OP_PING => if Ascii.eqb b lf then go_on (set_state OP_START (set_drop 0 ps)) (processPing_m nc) else go_on ps nc
  | _ => Ok (Some parse_error, (ps, nc))
  end.

(** The loop over [buf]; [l] is what is left of it, from position [i] on. *)
Fixpoint parse_loop (arr : string) (i : nat) (l : string) (ps : parseState) (nc : C) : parse_result :=
  match l with
  | EmptyString => go_on ps nc
  | String b l' =>
      r ← parse_byte arr i b ps nc;
      match r with
      | (Some err, s) => Ok (Some err, s)
      | (None, (ps', nc')) => parse_loop arr (S i) l' ps' nc'
      end
  end.

(** An argument that is not complete moves to the scratch space; [last] is the
    last position of the buffer. *)
Definition split_arg (arr : string) (last : nat) (ps : parseState) : res parseState :=
  match state ps, argBuf ps with
  | MSG_ARG, None | MINUS_ERR_ARG, None =>
      part ← buf_range arr (as_ ps) (last + 1 - drop ps);
      let '(o, sc) := append_bytes (content arr (scratch ps) part) (InScratch 0 0) (scratch ps) in
      Ok (set_argBuf (Some o) (set_scratch sc ps))
  | _, _ => Ok ps
  end.

(** So does a payload, behind the arguments; [n] is the length of the buffer. *)
Definition split_msg (arr : string) (n : nat) (ps : parseState) : res parseState :=
  match state ps, msgBuf ps with
  | MSG_PAYLOAD, None =>
      let ps1 := match argBuf ps with None => cloneMsgArg arr ps | Some _ => ps end in
      let len := match argBuf ps1 with Some o => own_len o | None => 0 end in
      if MAX_CONTROL_LINE_SIZE <? len then Panic out_of_range
      else
        part ← buf_range arr (as_ ps1) n;
        let '(mb, sc) := append_bytes (content arr (scratch ps1) part) (InScratch len 0) (scratch ps1) in
        Ok (set_msgBuf (Some mb) (set_scratch sc ps1))
  | _, _ => Ok ps
  end.

(** [parse(arr[:n])] *)
Definition parse (arr : string) (n : nat) (ps : parseState) (nc : C) : parse_result :=
  r ← parse_loop arr 0 (str_take n arr) ps nc;
  match r with
  | (Some err, s) => Ok (Some err, s)
  | (None, (ps1, nc1)) =>
      ps2 ← split_arg arr (n - 1) ps1;
      ps3 ← split_msg arr n ps2;
      go_on ps3 nc1
  end.

(** One [Read] of [chunk] into the array, and parsing it. *)
Definition read_parse (chunk arr : string) (ps : parseState) (nc : C) : res (option string * (string * parseState * C)) :=
  let arr' := chunk +:+ str_drop (String.length chunk) arr in
  r ← parse arr' (String.length chunk) ps nc;
  Ok (fst r, (arr', fst (snd r), snd (snd r))).

(** Reads one after the other, until an error. *)
Fixpoint read_all (chunks : list string) (arr : string) (ps : parseState) (nc : C) : res (option string * (string * parseState * C)) :=
  match chunks with
  | [] => Ok (None, (arr, ps, nc))
  | chunk :: chunks' =>
      r ← read_parse chunk arr ps nc;
      match r with
      | (Some err, s) => Ok (Some err, s)
      | (None, (arr', ps', nc')) => read_all chunks' arr' ps' nc'
      end
  end.
End parser.
