(* ===== verification/NatsParserSpec.v ===== *)
(** * The bus client parses the stream of its server, however it is cut

    A reference machine reads the server's operations byte by byte and keeps
    the texts it has read as values.  The parser, with its slices and buffers,
    simulates it over any sequence of reads; and the reference machine reads
    back what the operations are printed as. *)

From S2P Require Import Prelude GoStrings Strconv NatsParser.

(** ** Positions in strings *)

Lemma substr_length off len s : off + len ≤ String.length s → String.length (substr off len s) = len.
Proof. intros Hle. unfold substr. rewrite str_length_take, str_length_drop. lia. Qed.

Lemma substr_substr off len lo k s : lo + k ≤ len → substr lo k (substr off len s) = substr (off + lo) k s.
Proof. intros Hle. unfold substr. rewrite str_drop_take, str_drop_drop, str_take_take by lia. done. Qed.

Lemma substr_nil off s : substr off 0 s = "".
Proof. unfold substr. by destruct (str_drop off s). Qed.

Lemma substr_0 s : substr 0 (String.length s) s = s.
Proof. unfold substr. cbn. by apply str_take_all. Qed.

Lemma substr_snoc off len s b t : str_drop (off + len) s = String b t → substr off (S len) s = substr off len s +:+ String b "".
Proof. intros Hd. unfold substr. apply (str_take_snoc _ _ b t). by rewrite str_drop_drop. Qed.

(** *** Writing *)

Lemma str_write_length off bs s : off + String.length bs ≤ String.length s → String.length (str_write off bs s) = String.length s.
Proof. intros Hle. unfold str_write. rewrite !str_length_app, str_length_take, str_length_drop. lia. Qed.

Lemma substr_write_below off len p bs s : off + len ≤ p → p ≤ String.length s → substr off len (str_write p bs s) = substr off len s.
Proof.
  intros Hle Hp. unfold substr, str_write.
  rewrite str_drop_app_le by (rewrite str_length_take; lia). rewrite str_take_app_le by (rewrite str_length_drop, str_length_take; lia).
  rewrite str_drop_take, str_take_take by lia. done.
Qed.

Lemma substr_write_at p bs s : p ≤ String.length s → substr p (String.length bs) (str_write p bs s) = bs.
Proof.
  intros Hp. unfold substr, str_write. rewrite str_drop_app by (rewrite str_length_take; lia).
  by apply str_take_app.
Qed.

Lemma substr_app off k1 k2 s : substr off (k1 + k2) s = substr off k1 s +:+ substr (off + k1) k2 s.
Proof.
  unfold substr. rewrite <- str_drop_drop. generalize (str_drop off s) as u. clear s off. induction k1 as [|k1 IH]; intros u; cbn.
  - by destruct u.
  - destruct u; cbn; [by destruct k2|]. f_equal. apply IH.
Qed.

Lemma substr_extend off len bs s :
  off + len + String.length bs ≤ String.length s →
  substr off (len + String.length bs) (str_write (off + len) bs s) = substr off len s +:+ bs.
Proof. intros Hle. rewrite substr_app, substr_write_below, substr_write_at by lia. done. Qed.

(** ** Slices *)

(** The slice lies within its array; [top] bounds it in the scratch space. *)
Definition own_ok (o : own_slice) : Prop :=
  match o with
  | InScratch off len => off + len ≤ MAX_CONTROL_LINE_SIZE
  | InHeap _ => True
  end.

Lemma own_content_length sc o : String.length sc = MAX_CONTROL_LINE_SIZE → own_ok o → String.length (own_content sc o) = own_len o.
Proof. intros Hsc Ho. destruct o; cbn in *; [|done]. by rewrite substr_length by lia. Qed.

(** [append] adds to the contents, and does not touch what is below in the
    scratch space. *)
Lemma append_bytes_spec bs o sc o' sc' :
  String.length sc = MAX_CONTROL_LINE_SIZE → own_ok o →
  append_bytes bs o sc = (o', sc') →
  String.length sc' = MAX_CONTROL_LINE_SIZE ∧ own_ok o'
  ∧ own_content sc' o' = own_content sc o +:+ bs
  ∧ (∀ off len, off + len ≤ match o with InScratch p k => p + k | InHeap _ => MAX_CONTROL_LINE_SIZE end →
       substr off len sc' = substr off len sc)
  ∧ match o with
    | InScratch p k => if k + p + String.length bs <=? MAX_CONTROL_LINE_SIZE then o' = InScratch p (k + String.length bs) else True
    | InHeap _ => True
    end.
Proof.
  intros Hsc Ho. destruct o as [off len|s]; cbn in *.
  - rewrite (Nat.add_comm len off). destruct (Nat.leb_spec (off + len + String.length bs) MAX_CONTROL_LINE_SIZE); intros [= <- <-]; cbn.
    + split_and!; [by rewrite str_write_length by lia|lia|by apply substr_extend; lia| |done].
      intros a b Hab. apply substr_write_below; lia.
    + done.
  - intros [= <- <-]. done.
Qed.

Lemma content_range arr sc sl lo hi :
  lo ≤ hi ≤ slice_len sl → content arr sc (slice_range lo hi sl) = substr lo (hi - lo) (content arr sc sl).
Proof.
  intros Hle. destruct sl as [off len|[off len|s]]; cbn in *; [..|done]; by rewrite substr_substr by lia.
Qed.

(** ** Words *)

(** The words of a text; [cur] is the word that has been begun. *)
Fixpoint fields (cur : string) (l : string) : list string :=
  match l with
  | EmptyString => if String.eqb cur "" then [] else [cur]
  | String b l' =>
      if is_space4 b then if String.eqb cur "" then fields "" l' else cur :: fields "" l'
      else fields (cur +:+ String b "") l'
  end.

Definition sub_slice (arg sl : slice) : Prop := ∃ lo hi, lo ≤ hi ≤ slice_len arg ∧ sl = slice_range lo hi arg.

Lemma snoc_not_empty s b : String.eqb (s +:+ String b "") "" = false.
Proof. by destruct s. Qed.

Lemma split_args_fields arr sc arg l i start cur :
  str_drop i (content arr sc arg) = l → String.length (content arr sc arg) = slice_len arg → i ≤ slice_len arg →
  match start with
  | Some st => st ≤ i ∧ cur = substr st (i - st) (content arr sc arg) ∧ cur ≠ ""
  | None => cur = ""
  end →
  content arr sc <$> split_args arg i start l = fields cur l ∧ Forall (sub_slice arg) (split_args arg i start l).
Proof.
  intros Hl Hlen. revert i start cur Hl. induction l as [|b l IH]; intros i start cur Hl Hi Hst; cbn.
  - destruct start as [st|].
    + destruct Hst as (Hle & Hcur & Hne). destruct (String.eqb_spec cur ""); [done|].
      split; [cbn; by rewrite content_range, Hcur by lia|]. repeat constructor. by exists st, i.
    + by rewrite Hst.
  - pose proof (str_drop_lt _ _ _ _ Hl) as Hlt. rewrite Hlen in Hlt. pose proof (str_drop_S _ _ _ _ Hl) as HS.
    destruct (is_space4 b).
    + destruct start as [st|].
      * destruct Hst as (Hle & Hcur & Hne). destruct (String.eqb_spec cur ""); [done|].
        destruct (IH (S i) None "" HS ltac:(lia) eq_refl) as [IH1 IH2].
        split; [cbn; by rewrite content_range, Hcur, IH1 by lia|]. constructor; [|done]. exists st, i. split; [lia|done].
      * rewrite Hst. apply IH; [done|lia|done].
    + apply IH; [done|lia|]. destruct start as [st|]; cbn [default from_option id].
      * destruct Hst as (Hle & Hcur & Hne). split; [lia|]. rewrite Hcur. split; [|by destruct (substr _ _ _)].
        replace (S i - st) with (S (i - st)) by lia. symmetry. apply (substr_snoc _ _ _ b l). by replace (st + (i - st)) with i by lia.
      * split; [lia|]. rewrite Hst. split; [|done].
        assert (substr i (S i - i) (content arr sc arg) = String b "") as ->; [|done].
        replace (S i - i) with 1 by lia. unfold substr. rewrite Hl. cbn. by destruct l.
Qed.

(** ** The reference machine *)

Inductive server_op :=
| ServerMsg (subject : string) (reply : option string) (sid : Z) (payload : string)
| ServerErr (e : string)
| ServerPing
| ServerPong
| ServerOK.

Definition perform {C} `{ConnOps C} (nc : C) (op : server_op) : C :=
  match op with
  | ServerMsg subject reply sid payload => processMsg_m subject (default "" reply) sid payload nc
  | ServerErr e => processErr_m e nc
  | ServerPing => processPing_m nc
  | ServerPong => processPong_m nc
  | ServerOK => processOK_m nc
  end.

(** Between arguments and payloads the machine is in a state of the parser;
    otherwise it has read part of an argument, or of a payload. *)
Inductive reading :=
| RWord (st : op_state)
| RArg (err : bool) (text : string) (seen_cr : bool)
| RPayload (subject : string) (reply : option string) (sid size : Z) (text : string).

(** [ROpen]: the behaviour is left open. *)
Inductive read_result :=
| RNext (a : reading) (op : option server_op)
| RFail (err : string)
| ROpen.

Definition read_letter (up : ascii) (next : op_state) (b : ascii) : read_result :=
  if Ascii.eqb (lower_ascii b) (lower_ascii up) then RNext (RWord next) None else RFail parse_error.
Definition read_blank (next : op_state) (b : ascii) : read_result :=
  if is_blank b then RNext (RWord next) None else RFail parse_error.
Definition read_end (op : server_op) (st : op_state) (b : ascii) : read_result :=
  if Ascii.eqb b lf then RNext (RWord OP_START) (Some op) else RNext (RWord st) None.
Definition read_arg (err : bool) (st : op_state) (b : ascii) : read_result :=
  if is_blank b then RNext (RWord st) None else RNext (RArg err (String b "") false) None.

Definition read_word (st : op_state) (b : ascii) : read_result :=
  match st with
  | OP_START =>
      if Ascii.eqb (lower_ascii b) "m" then RNext (RWord OP_M) None
      else if Ascii.eqb (lower_ascii b) "c" then RNext (RWord OP_C) None
      else if Ascii.eqb (lower_ascii b) "p" then RNext (RWord OP_P) None
      else if Ascii.eqb b "+" then RNext (RWord OP_PLUS) None
      else if Ascii.eqb b "-" then RNext (RWord OP_MINUS) None
      else RFail parse_error
  | OP_M => read_letter "S" OP_MS b
  | OP_MS => read_letter "G" OP_MSG b
  | OP_MSG => read_blank OP_MSG_SPC b
  | OP_MSG_SPC => read_arg false OP_MSG_SPC b
  | MSG_END => if Ascii.eqb b lf then RNext (RWord OP_START) None else RNext (RWord MSG_END) None
  | OP_PLUS => read_letter "O" OP_PLUS_O b
  | OP_PLUS_O => read_letter "K" OP_PLUS_OK b
  | OP_PLUS_OK => read_end ServerOK OP_PLUS_OK b
  | OP_MINUS => read_letter "E" OP_MINUS_E b
  | OP_MINUS_E => read_letter "R" OP_MINUS_ER b
  | OP_MINUS_ER => read_letter "R" OP_MINUS_ERR b
  | OP_MINUS_ERR => read_blank OP_MINUS_ERR_SPC b
  | OP_MINUS_ERR_SPC => read_arg true OP_MINUS_ERR_SPC b
  | OP_P =>
      if Ascii.eqb (lower_ascii b) "i" then RNext (RWord OP_PI) None
      else if Ascii.eqb (lower_ascii b) "o" then RNext (RWord OP_PO) None
      else RFail parse_error
  | OP_PO => read_letter "N" OP_PON b
  | OP_PON => read_letter "G" OP_PONG b
  | OP_PONG => read_end ServerPong OP_PONG b
  | OP_PI => read_letter "N" OP_PIN b
  | OP_PIN => read_letter "G" OP_PING b
  | OP_PING => read_end ServerPing OP_PING b
  | _ => RFail parse_error
  end.

(** The arguments of a message, read from their line. *)
Definition msg_header (text : string) : option (string * option string * Z * Z) :=
  match fields "" text with
  | [subject; sid; size] => Some (subject, None, parseInt64 sid, parseInt64 size)
  | [subject; sid; reply; size] => Some (subject, Some reply, parseInt64 sid, parseInt64 size)
  | _ => None
  end.

(** Control lines beyond the scratch space are left open, and so are carriage
    returns within one. *)
Definition read_byte (a : reading) (b : ascii) : read_result :=
  match a with
  | RWord st => read_word st b
  | RArg err text seen_cr =>
      if Ascii.eqb b cr then if seen_cr then ROpen else RNext (RArg err text true) None
      else if Ascii.eqb b lf then
        if err then RNext (RWord OP_START) (Some (ServerErr text))
        else if MAX_CONTROL_LINE_SIZE <? String.length text then ROpen
        else
          match msg_header text with
          | None => RFail "nats: processMsgArgs Parse Error"
          | Some (subject, reply, sid, size) =>
              if (size <? 0)%Z then RFail "nats: processMsgArgs Bad or Missing Size"
              else RNext (RPayload subject reply sid size "") None
          end
      else if seen_cr then ROpen
      else RNext (RArg err (text +:+ String b "") false) None
  | RPayload subject reply sid size text =>
      if (size <=? Z.of_nat (String.length text))%Z then RNext (RWord MSG_END) (Some (ServerMsg subject reply sid text))
      else RNext (RPayload subject reply sid size (text +:+ String b "")) None
  end.

(** The operations read, and how the machine ends: with an error, or in a
    state to continue from. *)
Fixpoint read_ops (a : reading) (l : string) : option (list server_op * (string + reading)) :=
  match l with
  | EmptyString => Some ([], inr a)
  | String b l' =>
      match read_byte a b with
      | ROpen => None
      | RFail err => Some ([], inl err)
      | RNext a' op =>
          match read_ops a' l' with
          | Some (ops, e) => Some (option_list op ++ ops, e)
          | None => None
          end
      end
  end.

(** ** What the parser has read

    [held] for a text that the parser has in one of its own slices or in the
    read buffer; [i] is the position it has reached there. *)

Definition in_buf (arr : string) (i : nat) (from : nat) (text : string) (behind : nat) : Prop :=
  from + String.length text + behind = i ∧ substr from (String.length text) arr = text.

Definition word_state (st : op_state) : bool :=
  match st with MSG_ARG | MINUS_ERR_ARG | MSG_PAYLOAD => false | _ => true end.

(** The arguments of the message that is being read: in the scratch space below
    [top], or in the read buffer before [i]. *)
Definition kept (top : option nat) (i : nat) (sl : slice) : Prop :=
  match top, sl with
  | Some n, Own (InScratch off len) => off + len ≤ n
  | None, InBuf off len => off + len ≤ i
  | _, _ => False
  end.

Definition holds_args (arr : string) (top : option nat) (i : nat) (ps : parseState) (subject : string) (reply : option string) : Prop :=
  kept top i (ma_subject (ma ps)) ∧ content arr (scratch ps) (ma_subject (ma ps)) = subject
  ∧ match ma_reply (ma ps), reply with
    | Some sl, Some r => kept top i sl ∧ content arr (scratch ps) sl = r
    | None, None => True
    | _, _ => False
    end
  ∧ String.length subject + String.length (default "" reply) ≤ MAX_CONTROL_LINE_SIZE.

(** The payload: behind the arguments in the scratch space or in an array of
    its own, or in the read buffer. *)
Definition holds_payload (arr : string) (i : nat) (ps : parseState) (text : string) (top : option nat) : Prop :=
  match msgBuf ps with
  | Some mb =>
      own_ok mb ∧ own_content (scratch ps) mb = text
      ∧ match top, mb with Some n, InScratch off _ => off = n | Some _, InHeap _ => True | None, _ => False end
  | None => in_buf arr i (as_ ps) text 0
  end.

Definition args_top (ps : parseState) : option nat := own_len <$> argBuf ps.

Definition parsed (arr : string) (i : nat) (ps : parseState) (a : reading) : Prop :=
  String.length (scratch ps) = MAX_CONTROL_LINE_SIZE
  ∧ match a with
    | RWord st => state ps = st ∧ word_state st = true ∧ argBuf ps = None ∧ msgBuf ps = None ∧ drop ps = 0
    | RArg err text seen_cr =>
        state ps = (if err then MINUS_ERR_ARG else MSG_ARG) ∧ msgBuf ps = None ∧ text ≠ "" ∧ drop ps = (if seen_cr then 1 else 0)
        ∧ match argBuf ps with
          | Some o => own_ok o ∧ own_content (scratch ps) o = text ∧ match o with InScratch off _ => off = 0 | InHeap s => MAX_CONTROL_LINE_SIZE < String.length s end
          | None => in_buf arr i (as_ ps) text (drop ps)
          end
    | RPayload subject reply sid size text =>
        state ps = MSG_PAYLOAD ∧ drop ps = 0 ∧ ma_sid (ma ps) = sid ∧ ma_size (ma ps) = size
        ∧ match argBuf ps with Some o => own_ok o ∧ (∃ n, o = InScratch 0 n) | None => True end
        ∧ holds_args arr (args_top ps) i ps subject reply ∧ holds_payload arr i ps text (args_top ps)
    end.

(** ** The parser simulates the reference machine *)

Section simulation.
Context {C : Type} `{ConnOps C}.

Definition simulates (arr : string) (i : nat) (b : ascii) (ps : parseState) (nc : C) (r : read_result) : Prop :=
  match r with
  | RNext a op => ∃ ps', parse_byte arr i b ps nc = Ok (None, (ps', foldl perform nc (option_list op))) ∧ parsed arr (S i) ps' a
  | RFail err => ∃ ps', parse_byte arr i b ps nc = Ok (Some err, (ps', nc))
  | ROpen => True
  end.

Lemma in_buf_more arr i from text b t :
  in_buf arr i from text 0 → str_drop i arr = String b t → in_buf arr (S i) from (text +:+ String b "") 0.
Proof.
  intros [Hi Htext] Hd. split; [rewrite str_length_app; cbn; lia|]. rewrite str_length_app. cbn. rewrite Nat.add_1_r.
  rewrite (substr_snoc _ _ _ b t) by (by replace (from + String.length text) with i by lia). by rewrite Htext.
Qed.

Lemma buf_range_ok arr lo hi : lo ≤ hi → hi ≤ String.length arr → buf_range arr lo hi = Ok (InBuf lo (hi - lo)).
Proof. intros H1 H2. unfold buf_range. by rewrite (proj2 (Nat.leb_le _ _) H1), (proj2 (Nat.leb_le _ _) H2). Qed.

Lemma word_simulates arr i b t ps nc st :
  parsed arr i ps (RWord st) → str_drop i arr = String b t → simulates arr i b ps nc (read_word st b).
Proof.
  intros (Hsc & Hst & Hw & Harg & Hmsg & Hdrop) Hd. destruct ps as [st' as' dr m ab mb sc]. cbn in *. subst st' ab mb dr.
  unfold simulates, parse_byte, read_word, letter, blank, read_letter, read_blank, read_end, read_arg, go_on. cbn [state].
  destruct st; try discriminate Hw; repeat case_match; simplify_eq; cbn [option_list foldl perform];
    (eexists; first [reflexivity|split; [reflexivity|]]);
    (split; [exact Hsc|]); try done;
    (split_and!; [done..|]; split; [cbn; lia|]; cbn -[substr]; unfold substr; rewrite Hd; cbn; by destruct t).
Qed.

Lemma fields_length cur l : sum_list (String.length <$> fields cur l) ≤ String.length cur + String.length l.
Proof.
  revert cur; induction l as [|b l IH]; intros cur; cbn; [destruct (String.eqb cur ""); cbn; lia|].
  destruct (is_space4 b).
  - specialize (IH ""). cbn in IH. destruct (String.eqb cur ""); cbn; lia.
  - specialize (IH (cur +:+ String b "")). rewrite str_length_app in IH. cbn in IH. lia.
Qed.

Lemma end_of_arg_spec arr i ps err text seen_cr :
  parsed arr i ps (RArg err text seen_cr) → i ≤ String.length arr →
  ∃ sl, end_of_arg arr i ps = Ok sl ∧ content arr (scratch ps) sl = text ∧ slice_len sl = String.length text
    ∧ sl = match argBuf ps with Some o => Own o | None => InBuf (as_ ps) (String.length text) end.
Proof.
  intros (Hsc & _ & _ & _ & _ & Harg) Hi. unfold end_of_arg. destruct (argBuf ps) as [o|].
  - destruct Harg as (Ho & Htext & _). exists (Own o). split_and!; [done|done| |done]. cbn. by rewrite <- Htext, own_content_length.
  - destruct Harg as [Hat Htext]. exists (InBuf (as_ ps) (String.length text)).
    rewrite buf_range_ok by lia. by replace (i - drop ps - as_ ps) with (String.length text) by lia.
Qed.

Lemma processMsgArgs_spec arr sl ps text :
  content arr (scratch ps) sl = text → slice_len sl = String.length text →
  match msg_header text with
  | None => processMsgArgs arr sl ps = (Some "nats: processMsgArgs Parse Error", ps)
  | Some (subject, reply, sid, size) =>
      ∃ m, processMsgArgs arr sl ps = ((if size <? 0 then Some "nats: processMsgArgs Bad or Missing Size" else None)%Z, set_ma m ps)
        ∧ ma_sid m = sid ∧ ma_size m = size ∧ content arr (scratch ps) (ma_subject m) = subject ∧ sub_slice sl (ma_subject m)
        ∧ match ma_reply m, reply with
          | Some s, Some r => sub_slice sl s ∧ content arr (scratch ps) s = r
          | None, None => True
          | _, _ => False
          end
        ∧ String.length subject + String.length (default "" reply) ≤ String.length text
  end.
Proof.
  intros Htext Hlen. unfold processMsgArgs, msg_header. rewrite Htext.
  destruct (split_args_fields arr (scratch ps) sl text 0 None "") as [Hf Hsub]; [by rewrite Htext|by rewrite Htext|lia|done|].
  pose proof (fields_length "" text) as Hsum. rewrite <- Hf in Hsum |- *.
  destruct (split_args sl 0 None text) as [|a0 [|a1 [|a2 [|a3 [|a4 l]]]]]; cbn in Hsum |- *; try done;
    rewrite !Forall_cons in Hsub; destruct_and!;
    (match goal with |- context [mkMsgArg ?a ?r ?s ?z] => exists (mkMsgArg a r s z) end);
    cbn; (split; [by destruct (_ <? 0)%Z|]); split_and!; try done; lia.
Qed.

Lemma kept_own_range n sl i : sub_slice (Own (InScratch 0 n)) sl → kept (Some n) i sl.
Proof. intros (lo & hi & Hle & ->). cbn in *. lia. Qed.

Lemma kept_buf_range from len sl i : sub_slice (InBuf from len) sl → from + len ≤ i → kept None i sl.
Proof. intros (lo & hi & Hle & ->) Hi. cbn in *. lia. Qed.

Lemma more_of_arg_parsed arr i b t ps err text :
  parsed arr i ps (RArg err text false) → str_drop i arr = String b t →
  parsed arr (S i) (more_of_arg b ps) (RArg err (text +:+ String b "") false).
Proof.
  intros (Hsc & Hst & Hmsg & Hne & Hdrop & Harg) Hd. unfold more_of_arg. destruct (argBuf ps) as [o|] eqn:Hab.
  - destruct Harg as (Ho & Htext & Hpos). destruct (append_bytes (String b "") o (scratch ps)) as [o' sc'] eqn:Happ.
    pose proof (append_bytes_spec _ _ _ _ _ Hsc Ho Happ) as (Hsc' & Ho' & Hc & _ & _).
    split; [done|]. cbn. split_and!; [done..|by destruct text|done|done|by rewrite Hc, Htext|].
    destruct o as [off len|s]; cbn in Happ.
    + destruct (_ <=? _) eqn:Hle; injection Happ as <- _; [done|]. apply Nat.leb_gt in Hle. cbn in Hle.
      rewrite str_length_app, substr_length by (cbn in Ho; lia). cbn. lia.
    + injection Happ as <- _. rewrite str_length_app. cbn. lia.
  - split; [done|]. cbn in *. rewrite Hab. split_and!; [done..|by destruct text|done|]. rewrite Hdrop in Harg |- *.
    by apply (in_buf_more _ _ _ _ _ t).
Qed.

Lemma arg_simulates arr i b t ps nc err text seen_cr :
  parsed arr i ps (RArg err text seen_cr) → str_drop i arr = String b t →
  simulates arr i b ps nc (read_byte (RArg err text seen_cr) b).
Proof.
  intros Hp Hd. pose proof (str_drop_lt _ _ _ _ Hd) as Hi.
  destruct (end_of_arg_spec _ _ _ _ _ _ Hp ltac:(lia)) as (sl & Hend & Htext & Hlen & Hsl).
  pose proof Hp as (Hsc & Hst & Hmsg & Hne & Hdrop & Harg). unfold simulates, read_byte, parse_byte. rewrite Hst.
  destruct (Ascii.eqb b cr).
  { destruct seen_cr; [done|]. exists (set_drop 1 ps). split; [by destruct err|]. split; [done|]. cbn.
    split_and!; [done..|]. destruct (argBuf ps); [done|]. rewrite Hdrop in Harg. destruct Harg. split; [lia|done]. }
  destruct (Ascii.eqb b lf).
  { rewrite Hend. cbn [mbind res_mbind]. destruct err.
    - eexists. split; [cbn; by rewrite Htext|]. by split; [|cbn].
    - destruct (Nat.ltb_spec MAX_CONTROL_LINE_SIZE (String.length text)) as [|Hmax]; [done|].
      pose proof (processMsgArgs_spec arr sl ps text Htext Hlen) as Hargs.
      destruct (msg_header text) as [[[[subject reply] sid] size]|]; [|by rewrite Hargs; eexists].
      destruct Hargs as (m & Hargs & Hsid & Hsize & Hsubj & Hsub & Hreply & Hshort). rewrite Hargs.
      destruct (size <? 0)%Z eqn:Hsz; [by eexists|]. eexists. split; [reflexivity|]. split; [done|]. cbn.
      assert (∀ s, sub_slice sl s → kept (own_len <$> argBuf ps) (S i) s) as Hkept.
      { intros s Hs. subst sl. destruct (argBuf ps) as [o|] eqn:Hab; cbn.
        - destruct Harg as (Ho & Hc & Hpos). destruct o as [off len|s0]; [subst off; by apply kept_own_range|].
          cbn in Hc. subst s0. lia.
        - apply (kept_buf_range _ _ _ _ Hs). destruct Harg. lia. }
      unfold args_top, holds_args, holds_payload. cbn. rewrite Hmsg. split_and!; try done.
      + destruct (argBuf ps) as [o|] eqn:Hab; [|done]. destruct Harg as (Ho & Hc & Hpos). split; [done|].
        destruct o as [off len|s0]; [subst off; by eexists|]. cbn in Hc. subst s0. lia.
      + by apply Hkept.
      + destruct (ma_reply m), reply; try done. destruct Hreply. split; [by apply Hkept|done].
      + lia.
      + split; [cbn; lia|]. apply substr_nil. }
  destruct seen_cr; [done|]. exists (more_of_arg b ps). split; [by destruct err|]. by apply (more_of_arg_parsed _ _ _ t).
Qed.

(** What the parser keeps of the arguments stays there while the scratch
    space above them is written to. *)
Lemma holds_args_write arr arr' i i' top sc' ps ps' subject reply :
  holds_args arr top i ps subject reply → ma ps' = ma ps → scratch ps' = sc' → (top = None → arr' = arr ∧ i ≤ i') →
  (∀ off len, off + len ≤ default 0 top → substr off len sc' = substr off len (scratch ps)) →
  holds_args arr' top i' ps' subject reply.
Proof.
  intros (Hk & Hc & Hr & Hshort) Hma Hsc Htop Hsub.
  assert (∀ sl, kept top i sl → kept top i' sl ∧ content arr' sc' sl = content arr (scratch ps) sl) as Hkeep.
  { intros sl Hsl. destruct top as [n|], sl as [off len|[off len|s]]; try done; cbn in *.
    - split; [done|]. by apply Hsub.
    - destruct (Htop eq_refl) as [-> Hle]. split; [lia|done]. }
  unfold holds_args. rewrite Hma, Hsc. destruct (Hkeep _ Hk) as [Hk' Hc']. split_and!; [done|by rewrite Hc'| |done].
  destruct (ma_reply (ma ps)) as [sl|], reply as [r|]; try done. destruct Hr as [Hrk Hrc].
  destruct (Hkeep _ Hrk) as [? Hrc']. split; [done|by rewrite Hrc'].
Qed.

Lemma call_processMsg_args arr top i ps subject reply msg nc :
  holds_args arr top i ps subject reply →
  call_processMsg arr msg ps nc = perform nc (ServerMsg subject reply (ma_sid (ma ps)) msg).
Proof.
  intros (_ & Hc & Hr & _). unfold call_processMsg. rewrite Hc. cbn. f_equal.
  destruct (ma_reply (ma ps)), reply; try done. by destruct Hr.
Qed.

Lemma payload_simulates arr i b t ps nc subject reply sid size text :
  parsed arr i ps (RPayload subject reply sid size text) → str_drop i arr = String b t →
  simulates arr i b ps nc (read_byte (RPayload subject reply sid size text) b).
Proof.
  intros (Hsc & Hst & Hdrop & Hsid & Hsize & Hab & Hargs & Hpay) Hd. pose proof (str_drop_lt _ _ _ _ Hd) as Hi.
  unfold simulates, read_byte, parse_byte. rewrite Hst, Hsize. unfold holds_payload in Hpay. destruct (msgBuf ps) as [mb|] eqn:Hmb.
  - destruct Hpay as (Hok & Htext & Hpos). rewrite <- (own_content_length _ _ Hsc Hok), Htext.
    destruct (size <=? _)%Z.
    + exists (set_state MSG_END (set_msgBuf None (set_argBuf None ps))). split; [|by split; [|cbn]].
      cbn zeta. by rewrite (call_processMsg_args _ _ _ _ _ _ _ _ Hargs), Hsid.
    + destruct (append_bytes (String b "") mb (scratch ps)) as [mb' sc'] eqn:Happ.
      pose proof (append_bytes_spec _ _ _ _ _ Hsc Hok Happ) as (Hsc' & Hok' & Hc & Hbelow & _).
      eexists. split; [reflexivity|]. split; [done|]. unfold args_top in *. cbn. destruct (argBuf ps) as [o|] eqn:Hao; [|done].
      cbn in *. destruct Hab as [Ho [n0 ->]]. cbn in *.
      split_and!; try done; [by exists n0| |by rewrite Hc, Htext|].
      * apply (holds_args_write arr arr i (S i) _ sc' ps _ _ _ Hargs); [done|done|done|]. cbn. intros off len Hle. apply Hbelow.
        destruct mb; [subst; lia|lia].
      * destruct mb as [p k|]; cbn in Happ; [destruct (_ <=? _)|]; by injection Happ as <- _.
  - destruct Hpay as [Hat Htext]. replace (Z.of_nat i - Z.of_nat (as_ ps))%Z with (Z.of_nat (String.length text)) by lia.
    destruct (size <=? _)%Z.
    + rewrite buf_range_ok by lia. replace (i - as_ ps) with (String.length text) by lia.
      exists (set_state MSG_END (set_msgBuf None (set_argBuf None ps))). split; [|by split; [|cbn]].
      cbn [mbind res_mbind content]. cbn zeta. by rewrite (call_processMsg_args _ _ _ _ _ _ _ _ Hargs), Hsid, Htext.
    + exists ps. split; [done|]. split; [done|]. cbn. split_and!; [done..| |].
      * apply (holds_args_write arr arr i (S i) _ (scratch ps) ps _ _ _ Hargs); [done|done| |done]. intros _. split; [done|lia].
      * unfold holds_payload. rewrite Hmb. by apply (in_buf_more _ _ _ _ _ t).
Qed.

Lemma parse_byte_simulates arr i b t ps nc a :
  parsed arr i ps a → str_drop i arr = String b t → simulates arr i b ps nc (read_byte a b).
Proof.
  intros Hp Hd. destruct a; [by apply (word_simulates _ _ _ t)|by apply (arg_simulates _ _ _ t)|by apply (payload_simulates _ _ _ t)].
Qed.

Lemma parse_loop_simulates arr rest l : ∀ i ps nc a ops e,
  parsed arr i ps a → str_drop i arr = l +:+ rest → read_ops a l = Some (ops, e) →
  match e with
  | inr a' => ∃ ps', parse_loop arr i l ps nc = Ok (None, (ps', foldl perform nc ops)) ∧ parsed arr (i + String.length l) ps' a'
  | inl err => ∃ ps', parse_loop arr i l ps nc = Ok (Some err, (ps', foldl perform nc ops))
  end.
Proof.
  induction l as [|b l IH]; intros i ps nc a ops e Hp Hd Hr; cbn in Hr.
  - injection Hr as <- <-. exists ps. cbn. by rewrite Nat.add_0_r.
  - pose proof (parse_byte_simulates arr i b (l +:+ rest) ps nc a Hp Hd) as Hs. destruct (read_byte a b) as [a' op|err|]; [|by injection Hr as <- <-; destruct Hs as [ps' Hs]; exists ps'; cbn; rewrite Hs|done].
    destruct Hs as (ps' & Hs & Hp'). destruct (read_ops a' l) as [[ops' e']|] eqn:Hrl; [|done]. injection Hr as <- <-.
    cbn [parse_loop]. rewrite Hs, foldl_app. cbn [mbind res_mbind String.length].
    specialize (IH (S i) ps' (foldl perform nc (option_list op)) a' ops' e' Hp' (str_drop_S _ _ _ _ Hd) Hrl).
    by rewrite Nat.add_succ_r.
Qed.

Lemma own_ok_empty : own_ok (InScratch 0 0).
Proof. cbn. lia. Qed.

Lemma own_content_empty sc off : own_content sc (InScratch off 0) = "".
Proof. apply substr_nil. Qed.

(** Moving what was read out of the buffer. *)
Lemma split_arg_parsed arr n ps a arr' :
  parsed arr n ps a → n ≤ String.length arr →
  ∃ ps', split_arg arr (n - 1) ps = Ok ps' ∧
    match a with RPayload _ _ _ _ _ => ps' = ps | _ => parsed arr' 0 ps' a end.
Proof.
  intros Hp Hn. unfold split_arg. pose proof Hp as [Hsc Ha]. destruct a as [st|err text seen_cr|].
  - destruct Ha as (Hst & Hw & Harg & Hmsg & Hdrop). exists ps. rewrite Hst. split; [by destruct st|]. by split.
  - destruct Ha as (Hst & Hmsg & Hne & Hdrop & Harg). destruct (argBuf ps) as [o|] eqn:Hab.
    + exists ps. split; [by rewrite Hst; destruct err|]. split; [done|]. rewrite Hab. done.
    + destruct Harg as [Hat Htext]. assert (String.length text ≠ 0) by (by destruct text).
      assert (buf_range arr (as_ ps) (n - 1 + 1 - drop ps) = Ok (InBuf (as_ ps) (String.length text))) as Hbr.
      { rewrite buf_range_ok by lia. do 2 f_equal. lia. }
      destruct (append_bytes text (InScratch 0 0) (scratch ps)) as [o sc'] eqn:Happ.
      pose proof (append_bytes_spec _ _ _ _ _ Hsc own_ok_empty Happ) as (Hsc' & Hok & Hc & _ & _).
      exists (set_argBuf (Some o) (set_scratch sc' ps)). split.
      { rewrite Hst. destruct err; rewrite Hbr; cbn [mbind res_mbind content]; rewrite Htext, Happ; done. }
      split; [done|]. cbn. split_and!; [done..|by rewrite Hc, own_content_empty|].
      cbn in Happ. destruct (_ <=? _) eqn:Hle; injection Happ as <- _; [done|]. apply Nat.leb_gt in Hle.
      cbn in Hle. lia.
  - destruct Ha as (Hst & _). exists ps. by rewrite Hst.
Qed.

Lemma cloneMsgArg_parsed arr n ps subject reply sid size text :
  parsed arr n ps (RPayload subject reply sid size text) → argBuf ps = None → msgBuf ps = None → n ≤ String.length arr →
  msgBuf (cloneMsgArg arr ps) = None
  ∧ parsed arr n (cloneMsgArg arr ps) (RPayload subject reply sid size text)
  ∧ ∃ k, argBuf (cloneMsgArg arr ps) = Some (InScratch 0 k).
Proof.
  intros (Hsc & Hst & Hdrop & Hsid & Hsize & _ & (Hk & Hc & Hr & Hshort) & Hpay) Hab Hmb Hn. unfold cloneMsgArg.
  unfold args_top in Hk, Hr. rewrite Hab in Hk, Hr. cbn in Hk, Hr.
  assert (slice_len (ma_subject (ma ps)) = String.length subject) as ->.
  { destruct (ma_subject (ma ps)) as [off len|]; [|done]. cbn in *. by rewrite <- Hc, substr_length by lia. }
  rewrite Hc. destruct (append_bytes subject (InScratch 0 0) (scratch ps)) as [b1 sc1] eqn:H1.
  pose proof (append_bytes_spec _ _ _ _ _ Hsc own_ok_empty H1) as (Hsc1 & Hok1 & Hc1 & _ & Hb1).
  rewrite (proj2 (Nat.leb_le _ _)) in Hb1 by lia. cbn in Hb1. subst b1. rewrite own_content_empty in Hc1. cbn in Hc1.
  assert (substr 0 (String.length subject) sc1 = subject) as Hc1'.
  { by rewrite Hc1. }
  unfold holds_payload in Hpay. rewrite Hmb in Hpay. destruct (ma_reply (ma ps)) as [sl|], reply as [r|]; try done.
  - destruct Hr as [Hkr Hcr]. assert (content arr sc1 sl = r) as -> by (by destruct sl).
    destruct (append_bytes r (InScratch 0 (String.length subject)) sc1) as [b2 sc2] eqn:H2.
    pose proof (append_bytes_spec _ _ _ _ _ Hsc1 Hok1 H2) as (Hsc2 & Hok2 & Hc2 & Hbelow & Hb2).
    cbn in Hshort. rewrite (proj2 (Nat.leb_le _ _)) in Hb2 by lia. cbn in Hb2. subst b2.
    split; [done|]. split; [|by eexists]. split; [done|]. cbn. split_and!; [done..|by eexists| |].
    + unfold holds_args. cbn in *. split_and!; [lia|by rewrite Nat.sub_0_r, Hbelow by lia|lia| |lia].
      rewrite substr_app in Hc2. rewrite Hbelow in Hc2 by lia. rewrite Hc1' in Hc2.
      rewrite Nat.add_sub_swap, Nat.sub_diag by lia. by apply str_app_inj in Hc2.
    + unfold holds_payload. cbn. by rewrite Hmb.
  - cbn in Hshort. split; [done|]. split; [|by eexists]. split; [done|]. cbn. split_and!; [done..|by eexists| |].
    + unfold holds_args. cbn in *. split_and!; [lia|by rewrite Nat.sub_0_r|done|lia].
    + unfold holds_payload. cbn. by rewrite Hmb.
Qed.

Lemma split_msg_parsed arr n ps subject reply sid size text arr' :
  parsed arr n ps (RPayload subject reply sid size text) → n ≤ String.length arr →
  ∃ ps', split_msg arr n ps = Ok ps' ∧ parsed arr' 0 ps' (RPayload subject reply sid size text).
Proof.
  intros Hp Hn. unfold split_msg. pose proof Hp as (_ & -> & _). destruct (msgBuf ps) as [mb|] eqn:Hmb.
  { exists ps. split; [done|]. destruct Hp as (Hsc & Hst & Hdrop & Hsid & Hsize & Hab & Hargs & Hpay).
    unfold holds_payload in Hpay. rewrite Hmb in Hpay. destruct (argBuf ps) as [o|] eqn:Hao; [|by unfold args_top in Hpay; rewrite Hao in Hpay; destruct Hpay as (_ & _ & ?)].
    destruct Hab as [Ho Hk]. split; [done|]. rewrite Hao. split_and!; try done.
    - apply (holds_args_write arr arr' n 0 _ (scratch ps) ps ps _ _ Hargs); [done|done| |done]. unfold args_top. by rewrite Hao.
    - unfold holds_payload. by rewrite Hmb. }
  set (ps1 := match argBuf ps with Some _ => ps | None => cloneMsgArg arr ps end).
  assert (msgBuf ps1 = None ∧ parsed arr n ps1 (RPayload subject reply sid size text) ∧ ∃ k, argBuf ps1 = Some (InScratch 0 k)) as (Hmb1 & Hp1 & k & Hab1).
  { subst ps1. destruct (argBuf ps) as [o|] eqn:Hao; [|by apply cloneMsgArg_parsed].
    split_and!; [done|done|]. rewrite Hao. destruct Hp as (_ & _ & _ & _ & _ & Hab & _). rewrite Hao in Hab. destruct Hab as (_ & k & ->). by exists k. }
  clearbody ps1. clear ps Hp Hmb. rewrite Hab1. destruct Hp1 as (Hsc & Hst & Hdrop & Hsid & Hsize & Hab & Hargs & Hpay).
  unfold holds_payload in Hpay. rewrite Hmb1 in Hpay. rewrite Hab1 in Hab. destruct Hab as [Hok _]. destruct Hpay as [Hat Htext].
  cbn [own_len own_ok] in *. rewrite (proj2 (Nat.ltb_ge _ _)) by lia. rewrite buf_range_ok by lia. cbn [mbind res_mbind content].
  replace (n - as_ ps1) with (String.length text) by lia. rewrite Htext.
  assert (own_ok (InScratch k 0)) as Hok0 by (cbn; lia).
  destruct (append_bytes text (InScratch k 0) (scratch ps1)) as [mb sc'] eqn:Happ.
  pose proof (append_bytes_spec _ _ _ _ _ Hsc Hok0 Happ) as (Hsc' & Hok' & Hc & Hbelow & _).
  eexists. split; [reflexivity|]. split; [done|]. cbn. rewrite Hab1. unfold args_top in *. cbn. rewrite Hab1 in *. cbn in *.
  split_and!; try done; [by eexists| |by destruct (_ <=? _); injection Happ as <- _].
  apply (holds_args_write arr arr' n 0 _ sc' ps1 _ _ _ Hargs); [done|done|done|]. cbn. intros off len Hle. apply Hbelow. lia.
Qed.

(** A read: the array is overwritten from its start. *)
Lemma parse_simulates chunk rest ps nc a ops e arr' :
  parsed (chunk +:+ rest) 0 ps a → read_ops a chunk = Some (ops, e) →
  match e with
  | inr a' => ∃ ps', parse (chunk +:+ rest) (String.length chunk) ps nc = Ok (None, (ps', foldl perform nc ops)) ∧ parsed arr' 0 ps' a'
  | inl err => ∃ ps', parse (chunk +:+ rest) (String.length chunk) ps nc = Ok (Some err, (ps', foldl perform nc ops))
  end.
Proof.
  intros Hp Hr. pose proof (parse_loop_simulates (chunk +:+ rest) rest chunk 0 ps nc a ops e Hp eq_refl Hr) as Hl.
  unfold parse. rewrite str_take_app by done. destruct e as [err|a'].
  - destruct Hl as (ps' & ->). by exists ps'.
  - destruct Hl as (ps1 & -> & Hp1). cbn [mbind res_mbind]. rewrite Nat.add_0_l in Hp1.
    assert (String.length chunk ≤ String.length (chunk +:+ rest)) as Hle by (rewrite str_length_app; lia).
    destruct (split_arg_parsed _ _ _ _ arr' Hp1 Hle) as (ps2 & Hs & Hp2). rewrite Hs. cbn [mbind res_mbind].
    destruct a' as [st|err text seen_cr|subject reply sid size text].
    + exists ps2. split; [|done]. unfold split_msg. destruct Hp2 as (_ & -> & Hw & _). by destruct st.
    + exists ps2. split; [|done]. unfold split_msg. destruct Hp2 as (_ & -> & _). by destruct err.
    + subst ps2. destruct (split_msg_parsed _ _ _ _ _ _ _ _ arr' Hp1 Hle) as (ps3 & -> & Hp3). by exists ps3.
Qed.
End simulation.
