(* ===== verification/NatsStream.v ===== *)
(** * The stream of the bus server

    The text of the server's operations, that the reference machine reads it
    back, and that the client performs the operations however the text is cut
    into reads. *)

From S2P Require Import Prelude GoStrings Strconv NatsParser NatsParserSpec.

Definition crlf : string := String cr (String lf "").

(** ** What the server sends *)

Definition msg_line (subject : string) (reply : option string) (sid : Z) (n : Z) : string :=
  subject +:+ " " +:+ pretty sid +:+ " " +:+ match reply with Some r => r +:+ " " | None => "" end +:+ pretty n.

Definition op_text (op : server_op) : string :=
  match op with
  | ServerMsg subject reply sid payload =>
      "MSG " +:+ msg_line subject reply sid (Z.of_nat (String.length payload)) +:+ crlf +:+ payload +:+ crlf
  | ServerErr e => "-ERR " +:+ e +:+ crlf
  | ServerPing => "PING" +:+ crlf
  | ServerPong => "PONG" +:+ crlf
  | ServerOK => "+OK" +:+ crlf
  end.

Definition no_space (s : string) : bool := str_forall (λ c, negb (is_space4 c)) s.
Definition one_line (s : string) : bool := str_forall (λ c, negb (Ascii.eqb c cr || Ascii.eqb c lf)) s.
Definition word (s : string) : bool := negb (String.eqb s "") && no_space s.
Definition starts_blank (s : string) : bool := match s with String c _ => is_blank c | EmptyString => true end.

(** Subjects are words, a control line fits into the scratch space, and an
    error is one line that begins with something else than a blank. *)
Definition op_ok (op : server_op) : bool :=
  match op with
  | ServerMsg subject reply sid payload =>
      word subject && match reply with Some r => word r | None => true end && (0 <=? sid)%Z && (sid <? 2 ^ 63)%Z
        && (Z.of_nat (String.length payload) <? 2 ^ 63)%Z
        && (String.length (msg_line subject reply sid (Z.of_nat (String.length payload))) <=? MAX_CONTROL_LINE_SIZE)
  | ServerErr e => one_line e && negb (starts_blank e)
  | _ => true
  end.

Fixpoint stream (ops : list server_op) : string :=
  match ops with
  | [] => ""
  | op :: ops' => op_text op +:+ stream ops'
  end.

(** ** Words *)

Lemma fields_word w l cur : no_space w = true → fields cur (w +:+ l) = fields (cur +:+ w) l.
Proof.
  revert cur; induction w as [|c w IH]; intros cur Hw; cbn in *; [by rewrite str_app_nil_r|].
  apply andb_true_iff in Hw as [Hc Hw]. apply negb_true_iff in Hc. rewrite Hc, IH by done. by rewrite str_app_assoc.
Qed.

Lemma word_spec w : word w = true ↔ w ≠ "" ∧ no_space w = true.
Proof. unfold word. rewrite andb_true_iff, negb_true_iff. by destruct (String.eqb_spec w ""); naive_solver. Qed.

Lemma fields_cons w l : word w = true → fields "" (w +:+ " " +:+ l) = w :: fields "" l.
Proof. intros [Hne Hw]%word_spec. rewrite fields_word by done. cbn. by destruct w. Qed.

Lemma fields_last w : word w = true → fields "" w = [w].
Proof. intros [Hne Hw]%word_spec. rewrite <- (str_app_nil_r w) at 1. rewrite fields_word by done. cbn. by destruct w. Qed.

Lemma no_space_app s t : no_space (s +:+ t) = no_space s && no_space t.
Proof. unfold no_space. induction s as [|c s IH]; cbn; [done|]. by rewrite IH, andb_assoc. Qed.

Lemma one_line_app s t : one_line (s +:+ t) = one_line s && one_line t.
Proof. unfold one_line. induction s as [|c s IH]; cbn; [done|]. by rewrite IH, andb_assoc. Qed.

Lemma word_one_line w : word w = true → one_line w = true.
Proof.
  intros [_ Hw]%word_spec. unfold one_line, no_space in *. induction w as [|c w IH]; cbn in *; [done|]. apply andb_true_iff in Hw as [Hc Hw].
  rewrite IH, andb_true_r by done. unfold is_space4 in Hc. apply negb_true_iff in Hc. apply negb_true_iff.
  apply orb_false_iff in Hc as [Hc ->]. apply orb_false_iff in Hc as [_ ->]. done.
Qed.

Lemma digit_no_space c : is_digit c = true → is_space4 c = false.
Proof. by destruct c as [[] [] [] [] [] [] [] []]. Qed.

Lemma digits_no_space s : all_digits s = true → no_space s = true.
Proof.
  unfold no_space. induction s as [|c s IH]; cbn; [done|]. intros [Hc Hs]%andb_true_iff. by rewrite (digit_no_space _ Hc), IH.
Qed.

Lemma pretty_word z : (0 ≤ z)%Z → word (pretty z) = true.
Proof.
  intros Hz. rewrite pretty_nonneg by done. destruct (pretty_digits (Z.to_N z)) as (Hd & _ & Hne). apply word_spec. split; [done|].
  by apply digits_no_space.
Qed.

Lemma parseInt64_loop_digits s n : (0 ≤ n → all_digits s = true → dec_value n s < 2 ^ 63 → parseInt64_loop n s = dec_value n s)%Z.
Proof.
  revert n; induction s as [|c s IH]; intros n Hn Hs Hmax; [done|]. cbn [parseInt64_loop dec_value all_digits] in *.
  apply andb_true_iff in Hs as [Hc Hs]. rewrite Hc. assert (0 ≤ digit_value c)%Z as Hdv.
  { unfold is_digit in Hc. apply andb_true_iff in Hc as [Hc _]. apply Z.leb_le in Hc. unfold digit_value. lia. }
  pose proof (dec_value_mono (n * 10 + digit_value c) s ltac:(lia) Hs). rewrite wrap64_id by (unfold in_int64; lia). apply IH; [lia|done..].
Qed.

Lemma parseInt64_pretty z : (0 ≤ z < 2 ^ 63)%Z → parseInt64 (pretty z) = z.
Proof.
  intros Hz. rewrite pretty_nonneg by lia. destruct (pretty_digits (Z.to_N z)) as (Hd & Hv & Hne). unfold parseInt64.
  destruct (String.eqb_spec (pretty (Z.to_N z)) ""); [done|]. rewrite parseInt64_loop_digits, Hv; [lia|done..|lia].
Qed.

Lemma msg_header_line subject reply sid n :
  word subject = true → match reply with Some r => word r | None => true end = true → (0 ≤ sid < 2 ^ 63)%Z → (0 ≤ n < 2 ^ 63)%Z →
  msg_header (msg_line subject reply sid n) = Some (subject, reply, sid, n).
Proof.
  intros Hs Hr Hsid Hn. unfold msg_header, msg_line. rewrite fields_cons, fields_cons by (try apply pretty_word; done || lia).
  destruct reply as [r|].
  - rewrite str_app_assoc, fields_cons by done. rewrite fields_last by (apply pretty_word; lia). by rewrite !parseInt64_pretty.
  - change ("" +:+ pretty n) with (pretty n). rewrite fields_last by (apply pretty_word; lia). by rewrite !parseInt64_pretty.
Qed.

(** ** The reference machine reads the text back *)

Lemma read_ops_app s t a : read_ops a (s +:+ t) =
  match read_ops a s with
  | Some (ops, inr a') => match read_ops a' t with Some (ops', e) => Some (ops ++ ops', e) | None => None end
  | r => r
  end.
Proof.
  revert a; induction s as [|b s IH]; intros a; cbn.
  - by destruct (read_ops a t) as [[? ?]|].
  - destruct (read_byte a b) as [a' op| |]; [|done..]. rewrite IH. destruct (read_ops a' s) as [[ops [err|a'']]|]; [done| |done].
    destruct (read_ops a'' t) as [[ops' e]|]; [|done]. by rewrite app_assoc.
Qed.

Lemma read_ops_next a b l a' op ops e :
  read_byte a b = RNext a' op → read_ops a' l = Some (ops, e) → read_ops a (String b l) = Some (option_list op ++ ops, e).
Proof. intros Hb Hl. cbn. by rewrite Hb, Hl. Qed.

Lemma read_arg_text s err text l :
  one_line s = true → read_ops (RArg err text false) (s +:+ l) = read_ops (RArg err (text +:+ s) false) l.
Proof.
  revert text; induction s as [|c s IH]; intros text Hs; cbn [String.append] in *; [by rewrite str_app_nil_r|].
  unfold one_line in Hs. cbn in Hs. apply andb_true_iff in Hs as [Hc Hs]. apply negb_true_iff, orb_false_iff in Hc as [Hcr Hlf].
  cbn [read_ops read_byte]. rewrite Hcr, Hlf, IH by done. rewrite str_app_assoc. cbn [String.append]. by destruct (read_ops _ l) as [[? ?]|].
Qed.

Lemma read_payload s subject reply sid size text :
  (size = Z.of_nat (String.length text + String.length s))%Z →
  read_ops (RPayload subject reply sid size text) s = Some ([], inr (RPayload subject reply sid size (text +:+ s))).
Proof.
  revert text; induction s as [|c s IH]; intros text Hsz; [cbn; by rewrite str_app_nil_r|].
  apply (read_ops_next _ _ _ (RPayload subject reply sid size (text +:+ String c "")) None).
  - cbn. cbn in Hsz. by rewrite (proj2 (Z.leb_gt _ _)) by lia.
  - rewrite IH by (rewrite str_length_app; cbn in *; lia). by rewrite str_app_assoc.
Qed.

(** From the end of a message's control line to the end of its payload. *)
Lemma read_msg_end subject reply sid payload text :
  msg_header text = Some (subject, reply, sid, Z.of_nat (String.length payload)) → String.length text ≤ MAX_CONTROL_LINE_SIZE →
  read_ops (RArg false text false) (crlf +:+ payload +:+ crlf) = Some ([ServerMsg subject reply sid payload], inr (RWord OP_START)).
Proof.
  intros Hh Hlen. apply (read_ops_next _ _ _ (RArg false text true) None); [done|].
  apply (read_ops_next _ _ _ (RPayload subject reply sid (Z.of_nat (String.length payload)) "") None).
  { unfold read_byte. change (Ascii.eqb lf cr) with false. change (Ascii.eqb lf lf) with true. cbv iota.
    rewrite (proj2 (Nat.ltb_ge _ _)), Hh by done. by rewrite (proj2 (Z.ltb_ge _ _)) by lia. }
  change ("" +:+ payload +:+ crlf) with (payload +:+ crlf). rewrite read_ops_app, read_payload by done.
  cbn. by rewrite Z.leb_refl.
Qed.

(** A control line whose first byte is [b]. *)
Lemma read_line err st name b s l :
  read_ops (RWord OP_START) (name +:+ " ") = Some ([], inr (RWord st)) → read_word st b = read_arg err st b → is_blank b = false →
  one_line s = true →
  read_ops (RWord OP_START) (name +:+ " " +:+ String b s +:+ l) = read_ops (RArg err (String b s) false) l.
Proof.
  intros Hname Hst Hb Hs. rewrite <- str_app_assoc, read_ops_app, Hname. cbn [String.append read_ops read_byte]. rewrite Hst.
  unfold read_arg. rewrite Hb, read_arg_text by done. cbn. by destruct (read_ops _ l) as [[? ?]|].
Qed.

Lemma line_head subject reply sid n : word subject = true → ∃ b s, msg_line subject reply sid n = String b s ∧ is_blank b = false.
Proof.
  intros [Hne Hw]%word_spec. destruct subject as [|b s]; [done|]. eexists b, _. split; [reflexivity|].
  cbn in Hw. apply andb_true_iff in Hw as [Hb _]. apply negb_true_iff in Hb. unfold is_space4 in Hb.
  apply orb_false_iff in Hb as [Hb _]. by apply orb_false_iff in Hb as [Hb _].
Qed.

Lemma msg_line_one_line subject reply sid n :
  word subject = true → match reply with Some r => word r | None => true end = true → (0 ≤ sid)%Z → (0 ≤ n)%Z →
  one_line (msg_line subject reply sid n) = true.
Proof.
  intros Hs Hr Hsid Hn. unfold msg_line. rewrite !one_line_app, (word_one_line _ Hs), (word_one_line _ (pretty_word _ Hsid)), (word_one_line _ (pretty_word _ Hn)).
  destruct reply; [|done]. by rewrite one_line_app, (word_one_line _ Hr).
Qed.

Lemma read_op_text op : op_ok op = true → read_ops (RWord OP_START) (op_text op) = Some ([op], inr (RWord OP_START)).
Proof.
  destruct op as [subject reply sid payload|e| | |]; cbn [op_ok op_text]; [| |done..].
  - rewrite !andb_true_iff, !Z.leb_le, !Z.ltb_lt, Nat.leb_le. intros (((((Hs & Hr) & H0) & Hsid) & Hp) & Hlen).
    destruct (line_head subject reply sid (Z.of_nat (String.length payload)) Hs) as (b & s & Heq & Hb).
    pose proof (msg_line_one_line subject reply sid (Z.of_nat (String.length payload)) Hs Hr H0 ltac:(lia)) as Hone.
    pose proof (msg_header_line subject reply sid (Z.of_nat (String.length payload)) Hs Hr ltac:(lia) ltac:(lia)) as Hh.
    rewrite Heq in *. apply andb_true_iff in Hone as [_ Hone]. change "MSG " with ("MSG" +:+ " "). rewrite str_app_assoc.
    rewrite (read_line false OP_MSG_SPC "MSG" b s) by done. by apply read_msg_end.
  - rewrite andb_true_iff. intros [Hone Hb]. destruct e as [|b s]; [done|]. cbn in Hb. apply negb_true_iff in Hb.
    apply andb_true_iff in Hone as [_ Hone]. change "-ERR " with ("-ERR" +:+ " "). rewrite str_app_assoc.
    by rewrite (read_line true OP_MINUS_ERR_SPC "-ERR" b s).
Qed.

Lemma read_stream ops : Forall (λ op, op_ok op = true) ops → read_ops (RWord OP_START) (stream ops) = Some (ops, inr (RWord OP_START)).
Proof.
  induction 1 as [|op ops Hop _ IH]; [done|]. cbn [stream]. by rewrite read_ops_app, read_op_text, IH.
Qed.

(** ** Reads *)

Section reads.
Context {C : Type} `{ConnOps C}.

(** What is still to be kept after a read does not depend on the array. *)
Definition at_rest (ps : parseState) (a : reading) : Prop := ∀ arr, parsed arr 0 ps a.

Lemma parse_rests chunk rest ps (nc : C) a ops a' :
  at_rest ps a → read_ops a chunk = Some (ops, inr a') →
  ∃ ps', parse (chunk +:+ rest) (String.length chunk) ps nc = Ok (None, (ps', foldl perform nc ops)) ∧ at_rest ps' a'.
Proof.
  intros Hp Hr. destruct (parse_simulates chunk rest ps nc a ops (inr a') "" (Hp _) Hr) as (ps' & Heq & _). exists ps'. split; [done|].
  intros arr. destruct (parse_simulates chunk rest ps nc a ops (inr a') arr (Hp _) Hr) as (ps2 & Heq2 & Hp2). congruence.
Qed.

Lemma read_all_rests chunks : ∀ arr ps (nc : C) a ops a',
  at_rest ps a → read_ops a (String.concat "" chunks) = Some (ops, inr a') →
  ∃ arr' ps', read_all chunks arr ps nc = Ok (None, (arr', ps', foldl perform nc ops)) ∧ at_rest ps' a'.
Proof.
  induction chunks as [|chunk chunks IH]; intros arr ps nc a ops a' Hp Hr.
  - injection Hr as <- <-. by exists arr, ps.
  - assert (read_ops a (chunk +:+ String.concat "" chunks) = Some (ops, inr a')) as Hr'.
    { destruct chunks; [|exact Hr]. by rewrite str_app_nil_r. }
    rewrite read_ops_app in Hr'. destruct (read_ops a chunk) as [[ops1 [?|a1]]|] eqn:H1; [done| |done].
    destruct (read_ops a1 _) as [[ops2 e]|] eqn:H2; [|done]. injection Hr' as <- ->.
    cbn [read_all]. unfold read_parse.
    destruct (parse_rests chunk (str_drop (String.length chunk) arr) ps nc a ops1 a1 Hp H1) as (ps1 & -> & Hp1). cbn [mbind res_mbind fst snd].
    rewrite foldl_app. by apply (IH _ _ _ a1).
Qed.

(** A parse error ends the reads; what came before has been performed. *)
Lemma read_all_fails chunks : ∀ arr ps (nc : C) a ops err,
  at_rest ps a → read_ops a (String.concat "" chunks) = Some (ops, inl err) →
  ∃ s, read_all chunks arr ps nc = Ok (Some err, (s, foldl perform nc ops)).
Proof.
  induction chunks as [|chunk chunks IH]; intros arr ps nc a ops err Hp Hr; [done|].
  assert (read_ops a (chunk +:+ String.concat "" chunks) = Some (ops, inl err)) as Hr'.
  { destruct chunks; [|exact Hr]. by rewrite str_app_nil_r. }
  rewrite read_ops_app in Hr'. cbn [read_all]. unfold read_parse.
  destruct (read_ops a chunk) as [[ops1 [err1|a1]]|] eqn:H1; [| |done].
  - injection Hr' as -> ->. set (rest := str_drop (String.length chunk) arr).
    destruct (parse_simulates chunk rest ps nc a ops (inl err) "" (Hp _) H1) as (ps' & ->). by eexists (_, _).
  - destruct (read_ops a1 _) as [[ops2 e]|] eqn:H2; [|done]. injection Hr' as <- ->.
    destruct (parse_rests chunk (str_drop (String.length chunk) arr) ps nc a ops1 a1 Hp H1) as (ps1 & -> & Hp1). cbn [mbind res_mbind fst snd].
    rewrite foldl_app. by apply (IH _ _ _ a1).
Qed.

Lemma new_rests : at_rest new_parseState (RWord OP_START).
Proof. intros arr. by split. Qed.
End reads.

Definition defaultBufSize : nat := Z.to_nat 32768.

Lemma stream_app ops1 ops2 : stream (ops1 ++ ops2) = stream ops1 +:+ stream ops2.
Proof. induction ops1 as [|op ops1 IH]; cbn; [done|]. by rewrite IH, str_app_assoc. Qed.

Lemma prefix_of_app s t u v : s +:+ t = u +:+ v → String.length u ≤ String.length s → ∃ w, s = u +:+ w.
Proof.
  revert s; induction u as [|c u IH]; intros s Heq Hle; [by exists s|]. destruct s as [|d s]; cbn in *; [lia|].
  injection Heq as -> Heq. destruct (IH s Heq ltac:(lia)) as [w ->]. by exists w.
Qed.

(** C10: The bus client performs the server's operations however they arrive.  For
    every stream of operations, with control lines that fit into the scratch
    space, and however the part of it that has arrived is cut into reads: no
    read fails or panics, the client has performed the first operations of the
    stream, in order, each once, with the very subjects, replies and payloads
    the server sent; among them are all that have arrived completely. *)
Theorem bus_stream_performed {C} `{ConnOps C} (ops : list server_op) (chunks : list string) (rest : string) (nc : C) :
  Forall (λ op, op_ok op = true) ops →
  String.concat "" chunks +:+ rest = stream ops →
  ∃ arr ps performed waiting, ops = performed ++ waiting
    ∧ read_all chunks (zeros defaultBufSize) new_parseState nc = Ok (None, (arr, ps, foldl perform nc performed))
    ∧ ∀ k, String.length (stream (take k ops)) ≤ String.length (String.concat "" chunks) → take k ops `prefix_of` performed.
Proof.
  intros Hok Heq. pose proof (read_stream ops Hok) as Hr. rewrite <- Heq, read_ops_app in Hr.
  destruct (read_ops (RWord OP_START) (String.concat "" chunks)) as [[performed [?|a1]]|] eqn:H1; [done| |done].
  destruct (read_ops a1 rest) as [[waiting e]|] eqn:H2; [|done]. injection Hr as <- ->.
  destruct (read_all_rests chunks (zeros defaultBufSize) new_parseState nc _ _ _ new_rests H1) as (arr & ps & Hall & _).
  exists arr, ps, performed, waiting. split_and!; [done|done|]. intros k Hk.
  rewrite <- (take_drop k (performed ++ waiting)), stream_app in Heq. destruct (prefix_of_app _ _ _ _ Heq Hk) as [w Hw].
  rewrite Hw, read_ops_app, read_stream in H1 by (by apply Forall_take).
  destruct (read_ops _ w) as [[ops' e']|]; [|done]. injection H1 as H1 _. by exists ops'.
Qed.

(** ** A stream in pieces *)

(** A connection that records what it is told. *)
Definition recorder : ConnOps (list string) := {|
  processMsg_m := λ subject reply _ msg l, l ++ [subject +:+ "/" +:+ reply +:+ "/" +:+ msg];
  processErr_m := λ e l, l ++ ["error " +:+ e];
  processPing_m := λ l, l ++ ["ping"];
  processPong_m := λ l, l ++ ["pong"];
  processOK_m := λ l, l;
|}.

Definition sample_ops : list server_op :=
  [ServerOK; ServerMsg "router.greet" (Some "_INBOX.7") 3 "hello"; ServerPing; ServerMsg "router.register" None 1 ""; ServerErr "Stale Connection"].

(** Cut within a control line, a payload and an argument. *)
Definition sample_chunks : list string :=
  ["+OK" +:+ crlf +:+ "MSG rout"; "er.greet 3 _INBO"; "X.7 5" +:+ crlf +:+ "he"; "llo"; crlf +:+ "PI"; "NG" +:+ crlf +:+ "MSG router.register 1 0" +:+ crlf;
   crlf +:+ "-ERR Stale Conn"; "ection" +:+ crlf].

Lemma sample_reads :
  match read_all (H := recorder) sample_chunks (zeros defaultBufSize) new_parseState [] with
  | Ok (None, (_, _, l)) => l = ["router.greet/_INBOX.7/hello"; "ping"; "router.register//"; "error Stale Connection"]
  | _ => False
  end.
Proof. vm_compute. reflexivity. Qed.

Lemma bus_stream_performed_witness :
  ∃ arr ps performed waiting, sample_ops = performed ++ waiting
    ∧ read_all (H := recorder) sample_chunks (zeros defaultBufSize) new_parseState [] = Ok (None, (arr, ps, foldl (perform (H := recorder)) [] performed))
    ∧ ∀ k, String.length (stream (take k sample_ops)) ≤ String.length (String.concat "" sample_chunks) → take k sample_ops `prefix_of` performed.
Proof.
  apply (bus_stream_performed (H := recorder) sample_ops sample_chunks ""); [|vm_compute; reflexivity].
  repeat (constructor; [vm_compute; reflexivity|]). constructor.
Defined.

(** Outside of what is covered, the cut matters.  After a carriage return within
    a control line the parser drops the last byte of the line when it has the
    line at once, and the carriage return when it has not: here one byte of
    payload is expected, or ten. *)
Definition stray_line : string := "MSG a" +:+ String cr "" +:+ "b 1 10" +:+ String lf "".

Lemma stray_return_depends_on_reads :
  match read_all (H := recorder) [stray_line; "x" +:+ crlf] (zeros 64) new_parseState [],
        read_all (H := recorder) ["MSG a"; str_drop 5 stray_line; "x" +:+ crlf] (zeros 64) new_parseState [] with
  | Ok (None, (_, _, l)), Ok (None, (_, ps, l')) => l = ["a/1/x"] ∧ l' = [] ∧ ma_size (ma ps) = 10%Z
  | _, _ => False
  end.
Proof. vm_compute. by split_and!. Qed.

(** A control line that is longer than the scratch space, and a payload that
    comes later: a slice is out of bounds. *)
Definition long_line : string := "MSG " +:+ strings_ReplaceByte (zeros 1100) "000" "s" +:+ " 1 4" +:+ crlf.

Lemma long_line_panics :
  read_all (H := recorder) [long_line; "data" +:+ crlf] (zeros 2048) new_parseState [] = Panic out_of_range
  ∧ match read_all (H := recorder) [long_line +:+ "data" +:+ crlf] (zeros 2048) new_parseState [] with
    | Ok (None, (_, _, [_])) => True
    | _ => False
    end.
Proof. split; vm_compute; [reflexivity|exact I]. Qed.
