(* ===== verification/NatsConn.v ===== *)
(** * The connection of the bus client (package [nats])

    Subscriptions, the channels between the goroutine that reads from the socket
    and those that run the callbacks, and publishing.  A method that holds the
    connection's lock is one operation.  The connection is the one [yagnats]
    opens: it reconnects, and has no handler for asynchronous errors.  The
    socket's writer is its sticky error and the bytes given to it. *)

From S2P Require Import Prelude GoStrings Strconv NatsParser RouterMessages.

Definition uint64 (z : Z) : Z := (z `mod` 2 ^ 64)%Z.

Record Subscription := mkSubscription {
  sub_Subject : string;
  sub_Queue : string;
  sub_msgs : Z;
  sub_delivered : Z;
  sub_bytes : Z;
  sub_max : Z;
  sub_mcb : bool;
  sub_mch : option (list nats_Msg);
  sub_sc : bool;
}.

Definition set_stats (msgs bytes : Z) (s : Subscription) : Subscription :=
  mkSubscription (sub_Subject s) (sub_Queue s) msgs (sub_delivered s) bytes (sub_max s) (sub_mcb s) (sub_mch s) (sub_sc s).
Definition set_delivered (n : Z) (s : Subscription) : Subscription :=
  mkSubscription (sub_Subject s) (sub_Queue s) (sub_msgs s) n (sub_bytes s) (sub_max s) (sub_mcb s) (sub_mch s) (sub_sc s).
Definition set_mch (ch : option (list nats_Msg)) (s : Subscription) : Subscription :=
  mkSubscription (sub_Subject s) (sub_Queue s) (sub_msgs s) (sub_delivered s) (sub_bytes s) (sub_max s) (sub_mcb s) ch (sub_sc s).
Definition set_sc (b : bool) (s : Subscription) : Subscription :=
  mkSubscription (sub_Subject s) (sub_Queue s) (sub_msgs s) (sub_delivered s) (sub_bytes s) (sub_max s) (sub_mcb s) (sub_mch s) b.

Inductive Status := DISCONNECTED | CONNECTED | CLOSED | RECONNECTING.

#[export] Instance Status_eq_dec : EqDecision Status.
Proof. solve_decision. Defined.

(** [nc_pongs] are the channels of flushes that wait for a PONG, [nc_released]
    those that have been told; [nc_bw] is what was written to the socket. *)
Record Conn := mkConn {
  InMsgs : Z;
  OutMsgs : Z;
  InBytes : Z;
  OutBytes : Z;
  nc_ssid : Z;
  nc_subs : gmap Z Subscription;
  nc_pongs : list (option positive);
  nc_released : list positive;
  nc_status : Status;
  nc_err : option string;
  nc_pout : Z;
  nc_SubChanLen : Z;
  nc_bw : string;
  nc_bw_err : option string;
  nc_callbacks : list string;
}.

Definition set_in (msgs bytes : Z) (c : Conn) : Conn :=
  mkConn msgs (OutMsgs c) bytes (OutBytes c) (nc_ssid c) (nc_subs c) (nc_pongs c) (nc_released c) (nc_status c) (nc_err c) (nc_pout c)
    (nc_SubChanLen c) (nc_bw c) (nc_bw_err c) (nc_callbacks c).
Definition set_out (msgs bytes : Z) (c : Conn) : Conn :=
  mkConn (InMsgs c) msgs (InBytes c) bytes (nc_ssid c) (nc_subs c) (nc_pongs c) (nc_released c) (nc_status c) (nc_err c) (nc_pout c)
    (nc_SubChanLen c) (nc_bw c) (nc_bw_err c) (nc_callbacks c).
Definition set_subs (ssid : Z) (subs : gmap Z Subscription) (c : Conn) : Conn :=
  mkConn (InMsgs c) (OutMsgs c) (InBytes c) (OutBytes c) ssid subs (nc_pongs c) (nc_released c) (nc_status c) (nc_err c) (nc_pout c)
    (nc_SubChanLen c) (nc_bw c) (nc_bw_err c) (nc_callbacks c).
Definition set_pongs (pongs : list (option positive)) (released : list positive) (pout : Z) (c : Conn) : Conn :=
  mkConn (InMsgs c) (OutMsgs c) (InBytes c) (OutBytes c) (nc_ssid c) (nc_subs c) pongs released (nc_status c) (nc_err c) pout
    (nc_SubChanLen c) (nc_bw c) (nc_bw_err c) (nc_callbacks c).
Definition set_status (st : Status) (c : Conn) : Conn :=
  mkConn (InMsgs c) (OutMsgs c) (InBytes c) (OutBytes c) (nc_ssid c) (nc_subs c) (nc_pongs c) (nc_released c) st (nc_err c) (nc_pout c)
    (nc_SubChanLen c) (nc_bw c) (nc_bw_err c) (nc_callbacks c).
Definition set_err (e : option string) (c : Conn) : Conn :=
  mkConn (InMsgs c) (OutMsgs c) (InBytes c) (OutBytes c) (nc_ssid c) (nc_subs c) (nc_pongs c) (nc_released c) (nc_status c) e (nc_pout c)
    (nc_SubChanLen c) (nc_bw c) (nc_bw_err c) (nc_callbacks c).
Definition set_bw (s : string) (c : Conn) : Conn :=
  mkConn (InMsgs c) (OutMsgs c) (InBytes c) (OutBytes c) (nc_ssid c) (nc_subs c) (nc_pongs c) (nc_released c) (nc_status c) (nc_err c)
    (nc_pout c) (nc_SubChanLen c) s (nc_bw_err c) (nc_callbacks c).
Definition set_bw_err (e : option string) (c : Conn) : Conn :=
  mkConn (InMsgs c) (OutMsgs c) (InBytes c) (OutBytes c) (nc_ssid c) (nc_subs c) (nc_pongs c) (nc_released c) (nc_status c) (nc_err c)
    (nc_pout c) (nc_SubChanLen c) (nc_bw c) e (nc_callbacks c).
Definition set_callbacks (l : list string) (c : Conn) : Conn :=
  mkConn (InMsgs c) (OutMsgs c) (InBytes c) (OutBytes c) (nc_ssid c) (nc_subs c) (nc_pongs c) (nc_released c) (nc_status c) (nc_err c)
    (nc_pout c) (nc_SubChanLen c) (nc_bw c) (nc_bw_err c) l.

Definition isClosed (c : Conn) : bool := bool_decide (nc_status c = CLOSED).
Definition isReconnecting (c : Conn) : bool := bool_decide (nc_status c = RECONNECTING).

(** Nothing is written once the writer has failed. *)
Definition bw_Write (s : string) (c : Conn) : Conn :=
  match nc_bw_err c with
  | Some _ => c
  | None => set_bw (nc_bw c +:+ s) c
  end.

Definition ErrConnectionClosed : string := "nats: Connection Closed".
Definition ErrSlowConsumer : string := "nats: Slow Consumer, messages dropped".
Definition ErrStaleConnection : string := "nats: Stale Connection".
Definition STALE_CONNECTION : string := "Stale Connection".
Definition nats_crlf : string := String cr (String lf "").

(** ** Messages from the server *)

Definition processSlowConsumer (sid : Z) (s : Subscription) (c : Conn) : Conn :=
  set_err (Some ErrSlowConsumer) (set_subs (nc_ssid c) (<[sid := set_sc true s]> (nc_subs c)) c).

Definition processMsg (subject reply : string) (sid : Z) (msg : string) (c : Conn) : Conn :=
  let len := Z.of_nat (String.length msg) in
  let c1 := set_in (uint64 (InMsgs c + 1)) (uint64 (InBytes c + len)) c in
  match nc_subs c1 !! sid with
  | None => c1
  | Some sub =>
      if (0 <? sub_max sub)%Z && (sub_max sub <? sub_msgs sub)%Z then c1
      else
        let sub1 := set_stats (uint64 (sub_msgs sub + 1)) (uint64 (sub_bytes sub + len)) sub in
        let m := mkMsg subject reply msg in
        match sub_mch sub1 with
        | None => set_subs (nc_ssid c1) (<[sid := sub1]> (nc_subs c1)) c1
        | Some ch =>
            if (nc_SubChanLen c1 <=? Z.of_nat (length ch))%Z then processSlowConsumer sid sub1 c1
            else set_subs (nc_ssid c1) (<[sid := set_mch (Some (ch ++ [m])) (set_sc false sub1)]> (nc_subs c1)) c1
        end
  end.

Definition processPing (c : Conn) : Conn := bw_Write ("PONG" +:+ nats_crlf) c.

Definition processPong (c : Conn) : Conn :=
  match nc_pongs c with
  | [] => set_pongs [] (nc_released c) 0 c
  | None :: pongs => set_pongs pongs (nc_released c) 0 c
  | Some ch :: pongs => set_pongs pongs (nc_released c ++ [ch]) 0 c
  end.

Definition processOK (c : Conn) : Conn := c.

(** ** Closing *)

(** [close(CLOSED, true)]: flushes are released, channels closed, handlers
    dropped; then the callbacks for a disconnect, where there was a socket, and
    for a closed connection. *)
Definition Close (c : Conn) : Conn :=
  if isClosed c then c
  else
    let c1 := set_pongs [] (nc_released c ++ omap id (nc_pongs c)) (nc_pout c) (set_status CLOSED c) in
    set_callbacks (nc_callbacks c1 ++ (if isReconnecting c then [] else ["disconnected"]) ++ ["closed"]) (set_subs (nc_ssid c1) ∅ c1).

(** [processOpErr], for a connection that may reconnect. *)
Definition processOpErr (c : Conn) : Conn :=
  if isClosed c || isReconnecting c then c else set_status RECONNECTING c.

Definition processErr (e : string) (c : Conn) : Conn :=
  if String.eqb e STALE_CONNECTION then processOpErr c else Close (set_err (Some ("nats: " +:+ e)) c).

#[export] Instance Conn_ops : ConnOps Conn := {
  processMsg_m := processMsg;
  processErr_m := processErr;
  processPing_m := processPing;
  processPong_m := processPong;
  processOK_m := processOK;
}.

(** One round of the goroutine that flushes: [buffered] tells whether the writer
    holds bytes the socket has not got, [result] is what sending them comes to.
    The connection's error is overwritten, with nothing if that goes well; the
    writer remembers an error of its own. *)
Definition flusher (buffered : bool) (result : option string) (c : Conn) : Conn :=
  if isClosed c || isReconnecting c then c
  else if buffered then
    let err := match nc_bw_err c with Some e => Some e | None => result end in
    set_err err (set_bw_err err c)
  else c.

(** The goroutine that reads: the answers of [conn.Read], an error as [None];
    [true] when it waits for the next one.  When it ends, the state of the
    parser is dropped. *)
Fixpoint readLoop (reads : list (option string)) (arr : string) (ps : parseState) (c : Conn) : res (bool * (string * parseState * Conn)) :=
  if isClosed c || isReconnecting c then Ok (false, (arr, new_parseState, c))
  else
    match reads with
    | [] => Ok (true, (arr, ps, c))
    | None :: _ => Ok (false, (arr, new_parseState, processOpErr c))
    | Some chunk :: reads' =>
        r ← read_parse chunk arr ps c;
        match r with
        | (Some _, (arr', _, c')) => Ok (false, (arr', new_parseState, processOpErr c'))
        | (None, (arr', ps', c')) => readLoop reads' arr' ps' c'
        end
    end.

(** ** Deliveries *)

(** One round of the goroutine of subscription [sid]: the message given to the
    callback, if any.  It waits while its channel is empty. *)
Definition deliverMsgs (sid : Z) (c : Conn) : option nats_Msg * Conn :=
  if isClosed c then (None, c)
  else
    match nc_subs c !! sid with
    | Some s =>
        match sub_mch s with
        | Some (m :: ch) =>
            let s1 := set_mch (Some ch) s in
            if sub_mcb s1 then
              let s2 := set_delivered (uint64 (sub_delivered s1 + 1)) s1 in
              let c1 := set_subs (nc_ssid c) (<[sid := s2]> (nc_subs c)) c in
              if (sub_max s2 <=? 0)%Z || (sub_delivered s2 <=? sub_max s2)%Z then (Some m, c1) else (None, c1)
            else (None, set_subs (nc_ssid c) (<[sid := s1]> (nc_subs c)) c)
        | _ => (None, c)
        end
    | None => (None, c)
    end.

(** ** Subscribing and publishing *)

Definition subscribe (subj queue : string) (cb : bool) (c : Conn) : (string + Z) * Conn :=
  if isClosed c then (inl ErrConnectionClosed, c)
  else
    let sub := mkSubscription subj queue 0 0 0 0 cb (Some []) false in
    let sid := wrap64 (nc_ssid c + 1) in
    let c1 := set_subs sid (<[sid := sub]> (nc_subs c)) c in
    (inr sid, if isReconnecting c1 then c1
              else bw_Write ("SUB " +:+ subj +:+ " " +:+ queue +:+ " " +:+ pretty sid +:+ nats_crlf) c1).

Definition Subscribe (subj : string) (c : Conn) : (string + Z) * Conn := subscribe subj "" true c.

(** The digits of a length, written from the end of an array with [room] bytes
    left. *)
Fixpoint publish_digits (room : nat) (l : Z) (acc : string) : res string :=
  if (l <=? 0)%Z then Ok acc
  else
    match room with
    | O => Panic out_of_range
    | S room' => publish_digits room' (l `div` 10) (String (pretty_N_char (Z.to_N (l `mod` 10))) acc)
    end.

(** What [publish] returns is its error. *)
Definition publish (subj reply data : string) (c : Conn) : res (option string * Conn) :=
  if isClosed c then Ok (Some ErrConnectionClosed, c)
  else
    match nc_err c with
    | Some err => Ok (Some err, c)
    | None =>
        let len := Z.of_nat (String.length data) in
        b ← (if (0 <? len)%Z then publish_digits 12 len "" else Ok "0");
        let msgh := "PUB " +:+ subj +:+ " " +:+ (if String.eqb reply "" then "" else reply +:+ " ") +:+ b +:+ nats_crlf in
        match nc_bw_err c with
        | Some e => Ok (Some e, set_err (Some e) c)
        | None =>
            let c1 := bw_Write nats_crlf (bw_Write data (bw_Write msgh c)) in
            Ok (None, set_out (uint64 (OutMsgs c1 + 1)) (uint64 (OutBytes c1 + len)) c1)
        end
    end.
