(* ===== verification/NatsBus.v ===== *)
(** * From the bytes of the bus to the routing table

    The goroutine that reads from the bus, the one that flushes and those of the
    subscriptions take turns; every subscription has a channel and a goroutine of its own, so that
    the order of messages is kept within a subject, and not between them. *)

From S2P Require Import Prelude GoStrings Strconv RegistryInterface RouterMessages NatsParser NatsParserSpec NatsStream NatsConn.

(** ** Publishing *)

Lemma publish_digits_spec room l acc :
  (0 ≤ l < 10 ^ Z.of_nat room)%Z → publish_digits room l acc = Ok (pretty_N_go (Z.to_N l) acc).
Proof.
  revert l acc; induction room as [|room IH]; intros l acc Hl; cbn [publish_digits].
  - assert (l = 0%Z) as -> by (cbn in Hl; lia). done.
  - destruct (Z.leb_spec l 0); [by assert (l = 0%Z) as -> by lia|].
    rewrite IH by (rewrite Nat2Z.inj_succ, Z.pow_succ_r in Hl by lia; split; [apply Z.div_pos; lia|apply Z.div_lt_upper_bound; lia]).
    rewrite (pretty_N_go_step (Z.to_N l)) by lia. by rewrite Z2N.inj_div, Z2N.inj_mod by lia.
Qed.

Lemma bw_Write_ok s c : nc_bw_err c = None → bw_Write s c = set_bw (nc_bw c +:+ s) c.
Proof. unfold bw_Write. by intros ->. Qed.

Lemma bw_Write_err s c : nc_bw_err (bw_Write s c) = nc_bw_err c.
Proof. unfold bw_Write. by destruct (nc_bw_err c) eqn:?. Qed.

(** The length is written as [%d] writes it, and the text is one operation of
    the protocol. *)
Lemma publish_spec subj reply data c :
  isClosed c = false → nc_err c = None → nc_bw_err c = None → (Z.of_nat (String.length data) < 10 ^ 12)%Z →
  ∃ c', publish subj reply data c = Ok (None, c') ∧ nc_subs c' = nc_subs c ∧ nc_err c' = None
    ∧ nc_status c' = nc_status c ∧ nc_pongs c' = nc_pongs c ∧ nc_released c' = nc_released c ∧ nc_bw_err c' = None
    ∧ nc_bw c' = nc_bw c +:+ "PUB " +:+ subj +:+ " " +:+ (if String.eqb reply "" then "" else reply +:+ " ")
                 +:+ pretty (Z.of_nat (String.length data)) +:+ nats_crlf +:+ data +:+ nats_crlf.
Proof.
  intros Hcl Herr Hbw Hlen. unfold publish. rewrite Hcl, Herr, Hbw.
  assert ((if (0 <? Z.of_nat (String.length data))%Z then publish_digits 12 (Z.of_nat (String.length data)) "" else Ok "0")
    = Ok (pretty (Z.of_nat (String.length data)))) as ->.
  { rewrite pretty_nonneg by lia. unfold pretty, pretty_N. destruct (Z.ltb_spec 0 (Z.of_nat (String.length data))) as [Hpos|Hz].
    - rewrite publish_digits_spec by lia. by rewrite decide_False by lia.
    - by rewrite decide_True by lia. }
  cbn [mbind res_mbind]. eexists. split; [reflexivity|]. rewrite !bw_Write_ok by (rewrite ?bw_Write_err; done).
  split_and!; [done..|]. cbn [set_out set_bw nc_bw]. by rewrite !str_app_assoc.
Qed.

(** ** The goroutines of the bus *)

(** What the callback of a subscription to [subject] is given. *)
Definition as_call (subject : string) (m : nats_Msg) : nats_Msg := mkMsg subject (msg_Reply m) (msg_Data m).

Definition sub_subject (c : Conn) (sid : Z) : string :=
  match nc_subs c !! sid with Some s => sub_Subject s | None => "" end.

Inductive bus_event :=
| BusRead (chunk : string)
| BusDeliver (clk : clock) (sid : Z)
| BusFlush (buffered : bool) (result : option string).

Section bus.
Context {R : Type} `{RegistryInterface R} (env : RouterEnv).

(** [bs_calls]: the callbacks that have run, with their subscription. *)
Record bus_state := mkBusState {
  bs_arr : string;
  bs_ps : parseState;
  bs_conn : Conn;
  bs_bus : bus R;
  bs_calls : list (Z * (clock * nats_Msg));
}.

Definition bus_step (s : bus_state) (e : bus_event) : res bus_state :=
  match e with
  | BusRead chunk =>
      r ← readLoop [Some chunk] (bs_arr s) (bs_ps s) (bs_conn s);
      Ok (mkBusState (fst (fst (snd r))) (snd (fst (snd r))) (snd (snd r)) (bs_bus s) (bs_calls s))
  | BusDeliver clk sid =>
      match deliverMsgs sid (bs_conn s) with
      | (None, c) => Ok (mkBusState (bs_arr s) (bs_ps s) c (bs_bus s) (bs_calls s))
      | (Some m, c) =>
          let call := as_call (sub_subject c sid) m in
          b ← deliver env clk (bs_bus s) call;
          Ok (mkBusState (bs_arr s) (bs_ps s) c b (bs_calls s ++ [(sid, (clk, call))]))
      end
  | BusFlush buffered result => Ok (mkBusState (bs_arr s) (bs_ps s) (flusher buffered result (bs_conn s)) (bs_bus s) (bs_calls s))
  end.

Definition reads (evs : list bus_event) : list string := omap (λ e, match e with BusRead chunk => Some chunk | _ => None end) evs.

(** ** What was sent to a subscription, and what became of it *)

Definition no_error (op : server_op) : Prop := match op with ServerErr _ => False | _ => True end.

Definition sent (subject : string) (sid : Z) (ops : list server_op) : list nats_Msg :=
  omap (λ op, match op with
              | ServerMsg _ reply sid' payload => if bool_decide (sid' = sid) then Some (mkMsg subject (default "" reply) payload) else None
              | _ => None
              end) ops.

Definition called (sid : Z) (calls : list (Z * (clock * nats_Msg))) : list nats_Msg :=
  omap (λ c, if bool_decide (c.1 = sid) then Some c.2.2 else None) calls.

(** A subscription as [Subscribe] leaves it: a callback, no limit. *)
Definition fresh_sub (s : Subscription) : Prop := sub_mcb s = true ∧ sub_max s = 0%Z ∧ sub_mch s = Some [].

(** Messages sent to [sid] that no callback was given fit into its channel. *)
Definition backlog_fits (cap sid : Z) (ops : list server_op) (calls : list (Z * (clock * nats_Msg))) : Prop :=
  (Z.of_nat (length (sent "" sid ops)) ≤ Z.of_nat (length (called sid calls)) + cap)%Z.

(** Calls and channel together have the messages sent, in order; all of them
    where [K] says that the subscription has kept up. *)
Definition accounts_for (cap : Z) (K : Z → Prop) (subs : gmap Z Subscription) (ops : list server_op)
    (calls : list (Z * (clock * nats_Msg))) (c : Conn) : Prop :=
  nc_status c = CONNECTED ∧ nc_SubChanLen c = cap ∧
  ∀ sid, match subs !! sid with
  | None => nc_subs c !! sid = None
  | Some s0 => ∃ s q, nc_subs c !! sid = Some s ∧ sub_Subject s = sub_Subject s0 ∧ sub_mcb s = true ∧ sub_max s = 0%Z ∧ sub_mch s = Some q
      ∧ (called sid calls ++ (as_call (sub_Subject s0) <$> q)) `sublist_of` sent (sub_Subject s0) sid ops
      ∧ (K sid → called sid calls ++ (as_call (sub_Subject s0) <$> q) = sent (sub_Subject s0) sid ops)
  end.

Lemma accounts_same cap K subs ops ops' calls c c' :
  accounts_for cap K subs ops calls c → nc_status c' = nc_status c → nc_SubChanLen c' = nc_SubChanLen c → nc_subs c' = nc_subs c →
  (∀ subject sid, sent subject sid ops' = sent subject sid ops) → accounts_for cap K subs ops' calls c'.
Proof.
  intros (Hst & Hcap & Hacc) H1 H2 H3 Hsent. split_and!; [congruence..|]. intros sid. specialize (Hacc sid). rewrite H3.
  destruct (subs !! sid) as [s0|]; [|done]. by rewrite Hsent.
Qed.

Lemma accounts_weaken cap (K K' : Z → Prop) subs ops calls c :
  (∀ sid, K' sid → K sid) → accounts_for cap K subs ops calls c → accounts_for cap K' subs ops calls c.
Proof.
  intros HK (Hst & Hcap & Hacc). split_and!; [done..|]. intros sid. specialize (Hacc sid). destruct (subs !! sid) as [s0|]; [|done].
  destruct Hacc as (s & q & ? & ? & ? & ? & ? & ? & ?). exists s, q. split_and!; auto.
Qed.

Lemma sent_snoc subject sid ops op : sent subject sid (ops ++ [op]) = sent subject sid ops ++ sent subject sid [op].
Proof. unfold sent. by rewrite omap_app. Qed.

Lemma length_sent subject sid ops : length (sent subject sid ops) = length (sent "" sid ops).
Proof.
  unfold sent. induction ops as [|op ops IH]; [done|]. cbn [omap list_omap]. destruct op as [? ? sid' ?|?| | |]; try exact IH.
  case_bool_decide; cbn [length]; by rewrite IH.
Qed.

(** The subscription [sid] changes, and the message [m] is taken note of. *)
Lemma accounts_update cap (K K' : Z → Prop) subs ops calls c c' sid reply payload subject0 s' :
  accounts_for cap K subs ops calls c → nc_status c' = nc_status c → nc_SubChanLen c' = nc_SubChanLen c →
  nc_subs c' = <[sid := s']> (nc_subs c) → (∀ sid', K' sid' → K sid') →
  (∀ s q, nc_subs c !! sid = Some s → sub_mch s = Some q →
     sub_Subject s' = sub_Subject s ∧ sub_mcb s' = sub_mcb s ∧ sub_max s' = sub_max s
     ∧ (sub_mch s' = Some (q ++ [mkMsg subject0 (default "" reply) payload]) ∨ sub_mch s' = Some q ∧ ¬ K' sid)) →
  is_Some (nc_subs c !! sid) →
  accounts_for cap K' subs (ops ++ [ServerMsg subject0 reply sid payload]) calls c'.
Proof.
  intros (Hst & Hcap & Hacc) H1 H2 H3 HK Hs' [s Hs]. split_and!; [congruence..|]. intros sid'. specialize (Hacc sid'). rewrite H3.
  destruct (subs !! sid') as [s0|] eqn:Hs0.
  - destruct Hacc as (s1 & q & Hs1 & Hsubj & Hcb & Hmax & Hq & Hsub & Hall). rewrite sent_snoc.
    destruct (decide (sid = sid')) as [->|Hne].
    + destruct (Hs' _ _ Hs1 Hq) as (Hsubj' & Hcb' & Hmax' & Hch). rewrite lookup_insert_eq.
      unfold sent at 2 4. cbn [omap list_omap]. rewrite bool_decide_true by done. destruct Hch as [Hch|[Hch HnK]].
      * exists s', (q ++ [mkMsg subject0 (default "" reply) payload]). rewrite fmap_app, app_assoc. cbn [fmap list_fmap as_call msg_Reply msg_Data].
        split_and!; [done|congruence..|by apply sublist_app|]. intros Hn. by rewrite Hall by auto.
      * exists s', q. split_and!; [done|congruence..| |done]. by apply sublist_inserts_r.
    + rewrite lookup_insert_ne by done. exists s1, q. unfold sent at 2 4. cbn [omap list_omap]. rewrite bool_decide_false by done.
      rewrite app_nil_r. split_and!; try done. intros Hn. auto.
  - destruct (decide (sid = sid')) as [->|Hne]; [congruence|]. by rewrite lookup_insert_ne.
Qed.

(** A message that finds the channel full is more than the channel holds. *)
Lemma full_backlog cap K subs ops calls c sid s0 q subject reply payload :
  accounts_for cap K subs ops calls c → subs !! sid = Some s0 → K sid →
  called sid calls ++ (as_call (sub_Subject s0) <$> q) = sent (sub_Subject s0) sid ops →
  (cap ≤ Z.of_nat (length q))%Z → ¬ backlog_fits cap sid (ops ++ [ServerMsg subject reply sid payload]) calls.
Proof.
  intros Hacc Hs HK Hall Hfull. unfold backlog_fits. rewrite sent_snoc, length_app. unfold sent at 2. cbn [omap list_omap].
  rewrite bool_decide_true by done. cbn [length]. apply (f_equal length) in Hall.
  rewrite length_app, length_fmap, length_sent in Hall. lia.
Qed.

Lemma perform_accounts cap (K K' : Z → Prop) subs ops calls c op :
  no_error op → (∀ sid, K' sid → K sid ∧ backlog_fits cap sid (ops ++ [op]) calls) →
  accounts_for cap K subs ops calls c → accounts_for cap K' subs (ops ++ [op]) calls (perform c op).
Proof.
  intros Hne HK Hacc. assert (∀ sid, K' sid → K sid) as HK1 by (intros sid Hsid; by apply HK).
  destruct op as [subject reply sid payload|e| | |]; cbn [perform Conn_ops processMsg_m processErr_m processPing_m processPong_m processOK_m].
  - unfold processMsg. cbn [set_in nc_subs]. destruct (nc_subs c !! sid) as [s|] eqn:Hs.
    + pose proof Hacc as (_ & Hcap & Hsid). specialize (Hsid sid). destruct (subs !! sid) as [s0|] eqn:Hs0; [|congruence].
      destruct Hsid as (s1 & q & Hs1 & Hsubj & Hcb & Hmax & Hq & _ & Hall). assert (s1 = s) as -> by congruence. rewrite Hmax. cbn [Z.ltb Z.compare andb].
      cbn [set_stats sub_mch]. rewrite Hq. cbn [set_in nc_SubChanLen]. destruct (Z.leb_spec (nc_SubChanLen c) (Z.of_nat (length q))).
      * apply (accounts_update cap K K' subs ops calls c _ sid reply payload subject (set_sc true (set_stats (uint64 (sub_msgs s + 1)) (uint64 (sub_bytes s + Z.of_nat (String.length payload))) s))); try done.
        intros s2 q2 Hs2 Hq2. assert (s2 = s) as -> by congruence. cbn. split_and!; [done..|]. right. split; [congruence|].
        intros [HKs Hfit]%HK. revert Hfit. eapply full_backlog; [done|done|done|by apply Hall|by rewrite <- Hcap].
      * eapply (accounts_update cap K K' subs ops calls c _ sid reply payload subject); [done|done|done|reflexivity|done| |done].
        intros s2 q2 Hs2 Hq2. assert (s2 = s) as -> by congruence. cbn. split_and!; [done..|]. left. congruence.
    + apply (accounts_weaken cap K K'); [done|]. pose proof Hacc as (Hst & Hcap & Hsid). split_and!; [done..|]. intros sid'. specialize (Hsid sid'). cbn [set_in nc_subs].
      destruct (subs !! sid') as [s0|] eqn:Hs0; [|done]. rewrite sent_snoc. destruct Hsid as (s1 & q & Hs1 & Hrest).
      assert (sid ≠ sid') by congruence. exists s1, q. unfold sent at 2 4. cbn [omap list_omap]. rewrite bool_decide_false by done.
      by rewrite app_nil_r.
  - done.
  - apply (accounts_weaken cap K K'); [done|]. unfold processPing, bw_Write. apply (accounts_same cap K subs ops _ calls c); try (by destruct (nc_bw_err c)).
    intros. rewrite sent_snoc. apply app_nil_r.
  - apply (accounts_weaken cap K K'); [done|]. unfold processPong. apply (accounts_same cap K subs ops _ calls c); try (by destruct (nc_pongs c) as [|[]]).
    intros. rewrite sent_snoc. apply app_nil_r.
  - apply (accounts_weaken cap K K'); [done|]. apply (accounts_same cap K subs ops _ calls c); try done. intros. rewrite sent_snoc. apply app_nil_r.
Qed.

Lemma backlog_prefix cap sid ops l calls : backlog_fits cap sid (ops ++ l) calls → backlog_fits cap sid ops calls.
Proof. unfold backlog_fits, sent. rewrite omap_app, length_app. lia. Qed.

Lemma performs_account cap subs calls l : ∀ (K : Z → Prop) ops c,
  Forall no_error l → accounts_for cap K subs ops calls c →
  accounts_for cap (λ sid, K sid ∧ backlog_fits cap sid (ops ++ l) calls) subs (ops ++ l) calls (foldl perform c l).
Proof.
  induction l as [|op l IH]; intros K ops c Hl Hacc.
  { rewrite app_nil_r. eapply accounts_weaken; [|done]. by intros sid [? _]. }
  apply Forall_cons in Hl as [Hop Hl]. cbn [foldl]. rewrite cons_middle, app_assoc.
  eapply accounts_weaken; [|apply (IH (λ sid, K sid ∧ backlog_fits cap sid (ops ++ [op]) calls)); [done|]].
  - cbn beta. intros sid [? Hfit]. split_and!; [done|by eapply backlog_prefix|done].
  - eapply perform_accounts; [done| |done]. done.
Qed.

Lemma concat_cons s l : String.concat "" (s :: l) = s +:+ String.concat "" l.
Proof. destruct l; [by rewrite str_app_nil_r|done]. Qed.

Lemma concat_app l1 l2 : String.concat "" (l1 ++ l2) = String.concat "" l1 +:+ String.concat "" l2.
Proof. induction l1 as [|s l IH]; [done|]. cbn [app]. by rewrite !concat_cons, IH, str_app_assoc. Qed.

Lemma connected_open c : nc_status c = CONNECTED → isClosed c = false ∧ isReconnecting c = false.
Proof. unfold isClosed, isReconnecting. by intros ->. Qed.

Lemma deliver_accounts cap K subs ops calls c clk sid om c' :
  accounts_for cap K subs ops calls c → deliverMsgs sid c = (om, c') →
  match om with
  | None => accounts_for cap K subs ops calls c'
  | Some m => accounts_for cap K subs ops (calls ++ [(sid, (clk, as_call (sub_subject c' sid) m))]) c'
      ∧ ∃ subject, as_call (sub_subject c' sid) m ∈ sent subject sid ops
  end.
Proof.
  intros Hacc Hd. pose proof Hacc as (Hst & Hcap & Hsid). unfold deliverMsgs in Hd. rewrite (proj1 (connected_open _ Hst)) in Hd.
  destruct (nc_subs c !! sid) as [s|] eqn:Hs; [|by injection Hd as <- <-].
  specialize (Hsid sid). destruct (subs !! sid) as [s0|] eqn:Hs0; [|congruence].
  destruct Hsid as (s1 & q & Hs1 & Hsubj & Hcb & Hmax & Hq & Hsub & Hall). assert (s1 = s) as -> by congruence. rewrite Hq in Hd.
  destruct q as [|m q]; [by injection Hd as <- <-|]. cbn [set_mch sub_mcb] in Hd. rewrite Hcb in Hd.
  cbn [set_delivered set_mch sub_max] in Hd. rewrite Hmax in Hd. cbn [Z.leb Z.compare orb] in Hd. injection Hd as <- <-.
  unfold sub_subject. cbn [set_subs nc_subs]. rewrite lookup_insert_eq. cbn [set_delivered set_mch sub_Subject]. rewrite Hsubj.
  split.
  - split_and!; [done..|]. intros sid'. cbn [set_subs nc_subs]. destruct (decide (sid = sid')) as [<-|Hne].
    + rewrite Hs0, lookup_insert_eq. eexists _, q. split; [reflexivity|]. cbn [set_delivered set_mch sub_Subject sub_mcb sub_max sub_mch].
      unfold called in *. rewrite omap_app. cbn [omap list_omap fst snd]. rewrite bool_decide_true by done. cbn [fmap list_fmap] in Hsub, Hall.
      rewrite <- app_assoc. split_and!; done.
    + rewrite lookup_insert_ne by done. destruct Hacc as (_ & _ & Hacc). specialize (Hacc sid'). destruct (subs !! sid'); [|done].
      unfold called in *. rewrite omap_app. cbn [omap list_omap fst snd]. by rewrite bool_decide_false, app_nil_r by done.
  - exists (sub_Subject s0). eapply elem_of_submseteq; [|by apply sublist_submseteq, Hsub]. apply elem_of_app. right. by left.
Qed.

(** The ids in registrations have no colon. *)
Definition plain_op (op : server_op) : Prop :=
  match op with ServerMsg _ _ _ payload => plain_ids (mkMsg "" "" payload) | _ => True end.

Lemma sent_plain subject sid ops m : Forall plain_op ops → m ∈ sent subject sid ops → plain_ids m.
Proof.
  intros Hops Hm. unfold sent in Hm. apply list_elem_of_omap in Hm as (op & Hop & Hm). destruct op; try done.
  case_bool_decide; [|done]. injection Hm as <-. exact (proj1 (Forall_forall _ _) Hops _ Hop).
Qed.

(** A read performs what it completes. *)
Lemma read_step s chunk cap K subs ops l a a' :
  at_rest (bs_ps s) a → read_ops a chunk = Some (l, inr a') → Forall no_error l → accounts_for cap K subs ops (bs_calls s) (bs_conn s) →
  ∃ s', bus_step s (BusRead chunk) = Ok s' ∧ at_rest (bs_ps s') a'
    ∧ accounts_for cap (λ sid, K sid ∧ backlog_fits cap sid (ops ++ l) (bs_calls s')) subs (ops ++ l) (bs_calls s') (bs_conn s')
    ∧ bs_bus s' = bs_bus s ∧ bs_calls s' = bs_calls s.
Proof.
  intros Hrest Hr Hl Hacc. cbn [bus_step readLoop]. destruct (connected_open _ (proj1 Hacc)) as [-> ->]. cbn [orb].
  unfold read_parse. destruct (parse_rests chunk (str_drop (String.length chunk) (bs_arr s)) (bs_ps s) (bs_conn s) a l a' Hrest Hr) as (ps' & -> & Hp').
  cbn [mbind res_mbind fst snd]. pose proof (performs_account cap subs (bs_calls s) l K ops (bs_conn s) Hl Hacc) as Hacc'.
  destruct (connected_open _ (proj1 Hacc')) as [-> ->]. cbn [orb mbind res_mbind fst snd].
  eexists. by split.
Qed.

Lemma flush_step s buffered result cap K subs ops :
  accounts_for cap K subs ops (bs_calls s) (bs_conn s) →
  accounts_for cap K subs ops (bs_calls s) (flusher buffered result (bs_conn s)).
Proof.
  intros Hacc. unfold flusher. destruct (_ || _); [done|]. destruct buffered; [|done]. by eapply accounts_same.
Qed.

Lemma deliver_step s clk sid cap K subs ops :
  accounts_for cap K subs ops (bs_calls s) (bs_conn s) → client_ok (bus_client (bs_bus s)) → Forall plain_op ops →
  ∃ s' new, bus_step s (BusDeliver clk sid) = Ok s' ∧ bs_ps s' = bs_ps s ∧ bs_calls s' = bs_calls s ++ new
    ∧ accounts_for cap K subs ops (bs_calls s') (bs_conn s') ∧ client_ok (bus_client (bs_bus s'))
    ∧ (∀ ms T', effects ms (cl_table (bus_client (bs_bus s'))) T' → effects ((snd <$> new) ++ ms) (cl_table (bus_client (bs_bus s))) T')
    ∧ bus_published (bs_bus s') = bus_published (bs_bus s) ++ replies env (snd <$> (snd <$> new)).
Proof.
  intros Hacc Hc Hplain. cbn [bus_step]. destruct (deliverMsgs sid (bs_conn s)) as [[m|] c'] eqn:Hd;
    pose proof (deliver_accounts _ _ _ _ _ _ clk _ _ _ Hacc Hd) as Hacc'; cbn [fst snd] in Hacc'.
  - destruct Hacc' as [Hacc' [subject Hin]]. pose proof (sent_plain _ _ _ _ Hplain Hin) as Hids.
    destruct (deliver_spec env clk (bs_bus s) _ Hc Hids) as (b' & -> & Hc' & He & Hp). cbn [mbind res_mbind].
    eexists _, _. split; [reflexivity|]. split_and!; [done|reflexivity|done|done| |done]. intros ms T' Hms. by econstructor.
  - eexists _, []. split; [reflexivity|]. rewrite app_nil_r. split_and!; [done|done|done|done|done|]. by rewrite app_nil_r.
Qed.

(** Subscription [sid] keeps up: whenever an event has happened, what was sent to
    it and not yet given to its callback fits into its channel. *)
Definition keeps_up (cap : Z) (s : bus_state) (a : reading) (ops : list server_op) (evs : list bus_event) (sid : Z) : Prop :=
  ∀ evs1 evs2 s1 l x, evs = evs1 ++ evs2 → foldM bus_step s evs1 = Ok s1 →
    read_ops a (String.concat "" (reads evs1)) = Some (l, x) → backlog_fits cap sid (ops ++ l) (bs_calls s1).

Lemma keeps_up_read cap s a ops chunk evs sid s1 l1 a1 :
  keeps_up cap s a ops (BusRead chunk :: evs) sid → bus_step s (BusRead chunk) = Ok s1 → read_ops a chunk = Some (l1, inr a1) →
  backlog_fits cap sid (ops ++ l1) (bs_calls s1) ∧ keeps_up cap s1 a1 (ops ++ l1) evs sid.
Proof.
  intros Hk Hs Hr. assert (∀ evs1 evs2 s2 l x, evs = evs1 ++ evs2 → foldM bus_step s1 evs1 = Ok s2 →
    read_ops a1 (String.concat "" (reads evs1)) = Some (l, x) → backlog_fits cap sid (ops ++ l1 ++ l) (bs_calls s2)) as H'.
  { intros evs1 evs2 s2 l x -> Hf Hl. apply (Hk (BusRead chunk :: evs1) evs2 s2 (l1 ++ l) x); [done| |].
    - cbn [foldM]. by rewrite Hs.
    - change (reads (BusRead chunk :: evs1)) with (chunk :: reads evs1). rewrite concat_cons, read_ops_app, Hr, Hl. done. }
  split.
  - specialize (H' [] evs s1 [] (inr a1)). rewrite app_nil_r in H'. by apply H'.
  - intros evs1 evs2 s2 l x Heq Hf Hl. rewrite <- app_assoc. by eapply H'.
Qed.

Lemma keeps_up_other cap s a ops e evs sid s1 :
  (∀ chunk, e ≠ BusRead chunk) → keeps_up cap s a ops (e :: evs) sid → bus_step s e = Ok s1 → keeps_up cap s1 a ops evs sid.
Proof.
  intros He Hk Hs evs1 evs2 s2 l x -> Hf Hl. apply (Hk (e :: evs1) evs2 s2 l x); [done| |].
  - cbn [foldM]. by rewrite Hs.
  - destruct e; [by destruct (He chunk)|done..].
Qed.

(** A subscription that is sent no more messages than its channel holds keeps up. *)
Lemma keeps_up_few cap s a evs sid l x :
  read_ops a (String.concat "" (reads evs)) = Some (l, x) → (Z.of_nat (length (sent "" sid l)) ≤ cap)%Z → keeps_up cap s a [] evs sid.
Proof.
  intros Hl Hcap evs1 evs2 s1 l1 x1 -> _ H1. cbn [app]. unfold backlog_fits.
  assert (reads (evs1 ++ evs2) = reads evs1 ++ reads evs2) as Hre by (unfold reads; by rewrite omap_app).
  rewrite Hre, concat_app, read_ops_app, H1 in Hl. destruct x1 as [e|a1]; [injection Hl as -> _; lia|].
  destruct (read_ops a1 _) as [[l2 x2]|]; [|done]. injection Hl as <- _.
  pose proof (backlog_prefix cap sid l1 l2 []) as Hp. unfold backlog_fits in Hp. cbn [called omap list_omap length] in Hp. lia.
Qed.

Lemma bus_run cap subs evs : ∀ K s ops l a a',
  at_rest (bs_ps s) a → accounts_for cap K subs ops (bs_calls s) (bs_conn s) → client_ok (bus_client (bs_bus s)) →
  read_ops a (String.concat "" (reads evs)) = Some (l, inr a') → Forall no_error l → Forall plain_op (ops ++ l) →
  ∃ s' new, foldM bus_step s evs = Ok s' ∧ bs_calls s' = bs_calls s ++ new
    ∧ accounts_for cap (λ sid, K sid ∧ keeps_up cap s a ops evs sid) subs (ops ++ l) (bs_calls s') (bs_conn s')
    ∧ client_ok (bus_client (bs_bus s'))
    ∧ effects (snd <$> new) (cl_table (bus_client (bs_bus s))) (cl_table (bus_client (bs_bus s')))
    ∧ bus_published (bs_bus s') = bus_published (bs_bus s) ++ replies env (snd <$> (snd <$> new)).
Proof.
  induction evs as [|e evs IH]; intros K s ops l a a' Hrest Hacc Hc Hr Hl Hplain.
  { injection Hr as <- <-. exists s, []. rewrite !app_nil_r. split_and!; try done; [|by apply effects_nil].
    eapply accounts_weaken; [|done]. by intros sid [? _]. }
  destruct e as [chunk|clk sid|buffered result].
  - change (reads (BusRead chunk :: evs)) with (chunk :: reads evs) in Hr. rewrite concat_cons, read_ops_app in Hr.
    destruct (read_ops a chunk) as [[l1 [?|a1]]|] eqn:H1; [done| |done]. destruct (read_ops a1 _) as [[l2 e]|] eqn:H2; [|done].
    injection Hr as <- ->. apply Forall_app in Hl as [Hl1 Hl2].
    destruct (read_step s chunk cap K subs ops l1 a a1 Hrest H1 Hl1 Hacc) as (s1 & Hs1 & Hrest1 & Hacc1 & Hb1 & Hcalls1).
    rewrite app_assoc in Hplain |- *. rewrite <- Hb1 in Hc |- *. rewrite <- Hcalls1.
    destruct (IH _ s1 _ _ a1 a' Hrest1 Hacc1 Hc H2 Hl2 Hplain) as (s2 & new & Hs2 & Hcalls & Hacc2 & Hrest2).
    exists s2, new. cbn [foldM]. rewrite Hs1. cbn [mbind res_mbind]. split_and!; [done|done| |apply Hrest2..].
    eapply accounts_weaken; [|done]. cbn beta. intros sid [HK Hk]. destruct (keeps_up_read _ _ _ _ _ _ _ _ _ _ Hk Hs1 H1). done.
  - change (reads (BusDeliver clk sid :: evs)) with (reads evs) in Hr.
    destruct (deliver_step s clk sid cap K subs ops Hacc Hc) as (s1 & new1 & Hs1 & Hps & Hcalls & Hacc1 & Hc1 & Heff & Hpub); [by apply Forall_app in Hplain as [? _]|].
    destruct (IH K s1 ops l a a') as (s2 & new2 & Hs2 & Hcalls2 & Hacc2 & Hc2 & Heff2 & Hpub2); [by rewrite Hps|done..|].
    exists s2, (new1 ++ new2). cbn [foldM]. rewrite Hs1. cbn [mbind res_mbind].
    split_and!; [done|by rewrite Hcalls2, Hcalls, app_assoc| |done|rewrite fmap_app; by apply Heff|].
    + eapply accounts_weaken; [|done]. cbn beta. intros sid' [HK Hk]. split; [done|]. eapply (keeps_up_other cap s a ops _ evs sid' s1); [|done|done]. done.
    + rewrite Hpub2, Hpub, <- app_assoc, !fmap_app. unfold replies. by rewrite filter_app, fmap_app.
  - change (reads (BusFlush buffered result :: evs)) with (reads evs) in Hr.
    pose proof (flush_step s buffered result cap K subs ops Hacc) as Hacc1.
    destruct (IH K (mkBusState (bs_arr s) (bs_ps s) (flusher buffered result (bs_conn s)) (bs_bus s) (bs_calls s)) ops l a a')
      as (s2 & new & Hs2 & Hcalls & Hacc2 & Hrest2); [done..|].
    exists s2, new. cbn [foldM bus_step mbind res_mbind]. split_and!; [done|done| |apply Hrest2..].
    eapply accounts_weaken; [|done]. cbn beta. intros sid' [HK Hk]. split; [done|]. eapply (keeps_up_other cap s a ops (BusFlush buffered result) evs sid'); [|done|done]. done.
Qed.

End bus.

(** ** A router on the bus *)

Definition fresh_conn : Conn := mkConn 0 0 0 0 0 ∅ [] [] CONNECTED None 0 65536 "" None [].

(** The subscriptions of [Router.Run]. *)
Definition sample_conn : Conn :=
  snd (Subscribe router_unregister (snd (Subscribe router_register (snd (Subscribe router_greet fresh_conn))))).

Lemma sample_subscriptions :
  nc_bw sample_conn = strings_Join ["SUB router.greet  1"; "SUB router.register  2"; "SUB router.unregister  3"; ""] nats_crlf
  ∧ (sub_Subject <$> nc_subs sample_conn) = {[1%Z := router_greet; 2%Z := router_register; 3%Z := router_unregister]}.
Proof. split; vm_compute; reflexivity. Qed.

Definition wire_ops : list server_op :=
  [ServerMsg router_register None 2 (sample_message ["shop.example.com"; "shop.example.com/cart"] "");
   ServerMsg router_greet (Some "inbox.1") 1 ""; ServerPing;
   ServerMsg router_unregister None 3 (sample_message ["shop.example.com/cart"] "")].

(** The unregistration is delivered before the greeting that was sent earlier. *)
Definition wire_events : list bus_event :=
  let text := stream wire_ops in
  [BusRead (str_take 40 text); BusDeliver sample_clock 2; BusRead (substr 40 130 text); BusDeliver sample_clock 2;
   BusFlush true (Some "broken pipe"); BusRead (str_drop 170 text); BusDeliver sample_clock 2; BusDeliver sample_clock 3; BusDeliver sample_clock 1].

Definition wire_run : res bus_state :=
  foldM (bus_step sample_router) (mkBusState (zeros defaultBufSize) new_parseState sample_conn sample_bus []) wire_events.

Lemma wire_result :
  match wire_run with
  | Ok s => Some (size (cl_table (bus_client (bs_bus s)) ["shop.example.com"]), cl_table (bus_client (bs_bus s)) ["shop.example.com"; "cart"],
      fst <$> bs_calls s, bus_published (bs_bus s))
  | _ => None
  end = Some (1, ∅, [2; 3; 1]%Z, [("inbox.1", sample_greeting)]).
Proof. vm_compute. reflexivity. Qed.

Lemma wire_keeps_up b : keeps_up sample_router (nc_SubChanLen sample_conn)
  (mkBusState (zeros defaultBufSize) new_parseState sample_conn b []) (RWord OP_START) [] wire_events 2.
Proof.
  destruct (read_ops (RWord OP_START) (String.concat "" (reads wire_events))) as [[l x]|] eqn:Hl.
  - apply (keeps_up_few _ _ _ _ _ _ l x Hl). replace l with (default l (fst <$> Some (l, x))) by done. rewrite <- Hl.
    vm_compute. discriminate.
  - vm_compute in Hl. discriminate.
Qed.

