(* ===== verification/NatsReconnect.v ===== *)
(** * Losing and finding the bus again (packages [nats] and [yagnats])

    When a read from the bus fails, a goroutine of the client looks for a server
    that accepts it, tells that server the subscriptions again and hands over
    what was published in the meantime; then the router announces itself.  What
    the network does in an attempt, and what other goroutines call while the
    goroutine sleeps without the lock, are arguments.  Parsing of the servers'
    URLs is left out: a server has its host and its user. *)

From S2P Require Import Prelude GoStrings Utf8 Http Json JsonDecode MessageJson RegistryInterface RouterMessages NatsParser NatsConn NatsBus.

(** ** Servers and options *)

(** [srv_url] is the address of the parsed URL, by which servers are compared. *)
Record srv := mkSrv {
  srv_url : positive;
  srv_Host : string;
  srv_User : option (string * string);
  didConnect : bool;
  reconnects : Z;
  lastAttempt : Z;
}.

Definition set_lastAttempt (t : Z) (s : srv) : srv :=
  mkSrv (srv_url s) (srv_Host s) (srv_User s) (didConnect s) (reconnects s) t.
Definition set_reconnects (did : bool) (n : Z) (s : srv) : srv :=
  mkSrv (srv_url s) (srv_Host s) (srv_User s) did n (lastAttempt s).

Record Options := mkOptions {
  o_Name : string;
  o_Verbose : bool;
  o_Pedantic : bool;
  o_Secure : bool;
  o_MaxReconnect : Z;
  o_ReconnectWait : Z;
  o_Timeout : Z;
}.

(** Those of [yagnats.Connect]: half a second, and no limit. *)
Definition yagnats_options : Options :=
  mkOptions "" false false false (-1) (500 * 10 ^ 6) (2 * 10 ^ 9).

Record serverInfo := mkInfo {
  si_Id : string;
  si_Host : string;
  si_Port : Z;
  si_Version : string;
  si_AuthRequired : bool;
  si_SslRequired : bool;
  si_MaxPayload : Z;
}.

Definition decode_bool : decoder bool := λ v old,
  match v with
  | JBool b => (b, NoError)
  | JNull => (old, NoError)
  | _ => (old, TypeError)
  end.

Definition info_fields : list (string * decoder serverInfo) :=
  [("server_id", field si_Id (λ x '(mkInfo i h p v a s m), mkInfo x h p v a s m) decode_string);
   ("host", field si_Host (λ x '(mkInfo i h p v a s m), mkInfo i x p v a s m) decode_string);
   ("port", field si_Port (λ x '(mkInfo i h p v a s m), mkInfo i h x v a s m) (decode_uint 64));
   ("version", field si_Version (λ x '(mkInfo i h p v a s m), mkInfo i h p x a s m) decode_string);
   ("auth_required", field si_AuthRequired (λ x '(mkInfo i h p v a s m), mkInfo i h p v x s m) decode_bool);
   ("ssl_required", field si_SslRequired (λ x '(mkInfo i h p v a s m), mkInfo i h p v a x m) decode_bool);
   ("max_payload", field si_MaxPayload (λ x '(mkInfo i h p v a s m), mkInfo i h p v a s x) decode_int)].

(** ** The state *)

Inductive call :=
| CallPublish (subj reply data : string)
| CallSubscribe (subj : string)
| CallClose.

(** The connection, with what reconnecting adds: the pool, the current server,
    the buffer that takes writes while there is no socket, whether the writer is
    over that buffer, and the calls made by others while this goroutine slept. *)
Record client_conn := mkClientConn {
  cc_Conn : Conn;
  cc_srvPool : list srv;
  cc_url : option positive;
  cc_pending : option string;
  cc_over_pending : bool;
  cc_info : serverInfo;
  cc_Reconnects : Z;
  cc_calls : list call;
}.

Definition on_conn (f : Conn → Conn) (c : client_conn) : client_conn :=
  mkClientConn (f (cc_Conn c)) (cc_srvPool c) (cc_url c) (cc_pending c) (cc_over_pending c) (cc_info c) (cc_Reconnects c) (cc_calls c).
Definition set_servers (pool : list srv) (url : option positive) (c : client_conn) : client_conn :=
  mkClientConn (cc_Conn c) pool url (cc_pending c) (cc_over_pending c) (cc_info c) (cc_Reconnects c) (cc_calls c).
Definition set_pending (p : option string) (over : bool) (c : client_conn) : client_conn :=
  mkClientConn (cc_Conn c) (cc_srvPool c) (cc_url c) p over (cc_info c) (cc_Reconnects c) (cc_calls c).
Definition set_info (i : serverInfo) (c : client_conn) : client_conn :=
  mkClientConn (cc_Conn c) (cc_srvPool c) (cc_url c) (cc_pending c) (cc_over_pending c) i (cc_Reconnects c) (cc_calls c).
Definition set_Reconnects (n : Z) (c : client_conn) : client_conn :=
  mkClientConn (cc_Conn c) (cc_srvPool c) (cc_url c) (cc_pending c) (cc_over_pending c) (cc_info c) n (cc_calls c).

(** A new writer has no error and no bytes. *)
Definition new_writer (c : Conn) : Conn :=
  mkConn (InMsgs c) (OutMsgs c) (InBytes c) (OutBytes c) (nc_ssid c) (nc_subs c) (nc_pongs c) (nc_released c) (nc_status c) (nc_err c)
    (nc_pout c) (nc_SubChanLen c) "" None (nc_callbacks c).

Definition ErrNoServers : string := "nats: No servers available for connection".
Definition ErrBadTimeout : string := "nats: Timeout Invalid".
Definition ErrSecureConnRequired : string := "nats: Secure connection required".
Definition ErrSecureConnWanted : string := "nats: Secure connection not available".

(** ** Choosing a server *)

Definition currentServer (c : client_conn) : option (nat * srv) :=
  list_find (λ s, Some (srv_url s) = cc_url c) (cc_srvPool c).

(** The current server goes to the end of the pool, unless it has been tried
    too often. *)
Definition selectNextServer (o : Options) (c : client_conn) : (string + srv) * client_conn :=
  match currentServer c with
  | None => (inl ErrNoServers, c)
  | Some (i, s) =>
      let others := delete i (cc_srvPool c) in
      let pool := if (o_MaxReconnect o <? 0)%Z || (reconnects s <? o_MaxReconnect o)%Z then others ++ [s] else others in
      match pool with
      | [] => (inl ErrNoServers, set_servers [] None c)
      | next :: _ => (inr next, set_servers pool (Some (srv_url next)) c)
      end
  end.

(** The servers of the pool are pointers. *)
Definition update_srv (url : positive) (f : srv → srv) (c : client_conn) : client_conn :=
  set_servers ((λ s, if bool_decide (srv_url s = url) then f s else s) <$> cc_srvPool c) (cc_url c) c.

(** ** Connecting *)

(** [dial]: the error of the dialer, if any.  Writes made while reconnecting
    move to the pending buffer, if that is what the writer is over. *)
Definition createConn (o : Options) (now : Z) (dial : option string) (c : client_conn) : option string * client_conn :=
  if (o_Timeout o <? 0)%Z then (Some ErrBadTimeout, c)
  else
    match currentServer c with
    | None => (Some ErrNoServers, c)
    | Some (_, cur) =>
        let c1 := on_conn (set_err dial) (update_srv (srv_url cur) (set_lastAttempt now) c) in
        match dial with
        | Some e => (Some e, c1)
        | None =>
            let pending :=
              match cc_pending c1 with
              | Some p => Some (if cc_over_pending c1 then p +:+ nc_bw (cc_Conn c1) else p)
              | None => None
              end in
            (None, on_conn new_writer (set_pending pending false c1))
        end
    end.

(** The first line from the server: an error, or the line and whether it is
    too long for the buffer. *)
Definition first_line : Type := string + string * bool.

Definition parseControl (line : string) : string * string :=
  match strings_SplitN2 line " " with
  | [op; args] => (strings_TrimSpace op, strings_TrimSpace args)
  | _ => (strings_TrimSpace line, "")
  end.

Definition readOp (line : first_line) (c : Conn) : string + string * string :=
  if isClosed c then inl ErrConnectionClosed
  else
    match line with
    | inl e => inl e
    | inr (l, true) => inl "nats: Line too long"
    | inr (l, false) => inr (parseControl l)
    end.

(** The error of the decoder is overwritten by the caller. *)
Definition processInfo (info : string) (c : client_conn) : client_conn :=
  if String.eqb info "" then c else set_info (fst (Unmarshal (decode_struct info_fields) info (cc_info c))) c.

Definition checkForSecure (o : Options) (c : client_conn) : option string * client_conn :=
  if o_Secure o && negb (si_SslRequired (cc_info c)) then (Some ErrSecureConnWanted, c)
  else if si_SslRequired (cc_info c) && negb (o_Secure o) then (Some ErrSecureConnRequired, c)
  else (None, if o_Secure o then on_conn new_writer c else c).

Definition processExpectedInfo (o : Options) (line : first_line) (c : client_conn) : option string * client_conn :=
  match readOp line (cc_Conn c) with
  | inl e => (Some e, on_conn processOpErr c)
  | inr (op, args) =>
      if String.eqb op "INFO" then checkForSecure o (processInfo args c)
      else (Some "nats: Protocol exception, INFO not received", on_conn processOpErr c)
  end.

Definition nonempty_member (name value : string) : list (string * json) :=
  if String.eqb value "" then [] else [(name, json_string value)].

Definition connectProto (o : Options) (s : srv) : string :=
  let '(user, pass) := default ("", "") (srv_User s) in
  "CONNECT " +:+ print_json (JObj (
    [("verbose", JBool (o_Verbose o)); ("pedantic", JBool (o_Pedantic o))]
    ++ nonempty_member "user" user ++ nonempty_member "pass" pass
    ++ [("ssl_required", JBool (o_Secure o)); ("name", json_string (o_Name o)); ("lang", json_string "go");
        ("version", json_string "1.0.9")])) +:+ nats_crlf.

(** ** Reconnecting *)

Definition sub_line (sid : Z) (s : Subscription) : string :=
  "SUB " +:+ sub_Subject s +:+ " " +:+ sub_Queue s +:+ " " +:+ pretty sid +:+ nats_crlf
  +:+ (if (0 <? sub_max s)%Z then "UNSUB " +:+ pretty sid +:+ " " +:+ pretty (wrap64 (sub_max s)) +:+ nats_crlf else "").

(** [order] is the order in which the map is ranged over. *)
Definition resendSubscriptions (order : list Z) (c : Conn) : Conn :=
  foldl (λ c sid, match nc_subs c !! sid with Some s => bw_Write (sub_line sid s) c | None => c end) c order.

Definition flushReconnectPendingItems (c : client_conn) : client_conn :=
  match cc_pending c with
  | None => c
  | Some p => set_pending None (cc_over_pending c) (if String.eqb p "" then c else on_conn (bw_Write p) c)
  end.

Definition sendPing (ch : option positive) (c : Conn) : Conn :=
  bw_Write ("PING" +:+ nats_crlf) (set_pongs (nc_pongs c ++ [ch]) (nc_released c) (nc_pout c) c).

(** A call of another goroutine; what it returns is dropped. *)
Definition do_call (c : Conn) (k : call) : res Conn :=
  match k with
  | CallPublish subj reply data => r ← publish subj reply data c; Ok (snd r)
  | CallSubscribe subj => Ok (snd (Subscribe subj c))
  | CallClose => Ok (Close c)
  end.

Definition do_calls (calls : list call) (c : client_conn) : res client_conn :=
  nc ← foldM do_call (cc_Conn c) calls;
  Ok (mkClientConn nc (cc_srvPool c) (cc_url c) (cc_pending c) (cc_over_pending c) (cc_info c) (cc_Reconnects c) (cc_calls c ++ calls)).

(** An attempt: the clock before it, the calls made if it has to wait, the
    time of dialing, the outcome of dialing, the server's first line and the
    order in which the subscriptions are ranged over. *)
Record attempt := mkAttempt {
  at_clock : Z;
  at_calls : list call;
  at_now : Z;
  at_dial : option string;
  at_line : first_line;
  at_order : gmap Z Subscription → list Z;
}.

Inductive reconnect_end := Reconnected | GaveUp | Trying.

(** What follows the loop when no connection was made. *)
Definition abandon (c : client_conn) : client_conn :=
  on_conn Close (match nc_err (cc_Conn c) with None => on_conn (set_err (Some ErrNoServers)) c | Some _ => c end).

(** The connection is told what the server has to know again, and its
    goroutines start with no ping outstanding. *)
Definition resume (o : Options) (cur : srv) (order : list Z) (c : client_conn) : client_conn :=
  let c1 := on_conn (λ nc, bw_Write (connectProto o cur) (set_status CONNECTED nc)) c in
  let c2 := flushReconnectPendingItems (on_conn (resendSubscriptions order) c1) in
  on_conn (λ nc, set_pongs (nc_pongs nc) (nc_released nc) 0 nc) c2.

Fixpoint reconnect_loop (o : Options) (attempts : list attempt) (c : client_conn) : res (reconnect_end * client_conn) :=
  match cc_srvPool c with
  | [] => Ok (GaveUp, abandon c)
  | _ =>
      match selectNextServer o c with
      | (inl e, c1) => Ok (GaveUp, abandon (on_conn (set_err (Some e)) c1))
      | (inr cur, c1) =>
          match attempts with
          | [] => Ok (Trying, c1)
          | a :: attempts' =>
              c2 ← (if (at_clock a - lastAttempt cur <? o_ReconnectWait o)%Z then do_calls (at_calls a) c1 else Ok c1);
              if isClosed (cc_Conn c2) then Ok (GaveUp, abandon c2)
              else
                match createConn o (at_now a) (at_dial a) (update_srv (srv_url cur) (λ s, set_reconnects (didConnect s) (reconnects s + 1) s) c2) with
                | (Some _, c3) => reconnect_loop o attempts' (on_conn (set_err None) c3)
                | (None, c3) =>
                    let c4 := update_srv (srv_url cur) (set_reconnects true 0) (set_Reconnects (uint64 (cc_Reconnects c3 + 1)) c3) in
                    match processExpectedInfo o (at_line a) c4 with
                    | (None, c5) => Ok (Reconnected, resume o cur (at_order a (nc_subs (cc_Conn c5))) (on_conn (set_err None) c5))
                    | (Some e, c5) => reconnect_loop o attempts' (on_conn (λ nc, set_status RECONNECTING (set_err (Some e) nc)) c5)
                    end
                end
          end
      end
  end.

(** [doReconnect] up to the wait of its flush for the answer to its ping, whose
    channel is [ch]. *)
Definition doReconnect (o : Options) (ch : positive) (attempts : list attempt) (c : client_conn) : res (reconnect_end * client_conn) :=
  let c1 := set_pending (Some "") true (on_conn new_writer c) in
  let c2 := on_conn (λ nc, set_callbacks (nc_callbacks nc ++ ["disconnected"]) (set_err None nc)) c1 in
  r ← reconnect_loop o attempts c2;
  Ok (match r with
      | (Reconnected, c3) => (Reconnected, on_conn (sendPing (Some ch)) c3)
      | r => r
      end).

(** The callback [Router.Run] registers, called when the flush is over. *)
Definition reconnected_callback (env : RouterEnv) (c : Conn) : res Conn :=
  match greetMessage env with
  | None => Panic "greetMessage"
  | Some m => r ← publish router_start "" m c; Ok (set_callbacks (nc_callbacks (snd r) ++ ["reconnected"]) (snd r))
  end.

(** ** Calls made while there is no connection *)

Definition call_ok (k : call) : Prop :=
  match k with
  | CallPublish _ _ data => (Z.of_nat (String.length data) < 10 ^ 12)%Z
  | CallSubscribe _ => True
  | CallClose => False
  end.

Definition call_text (k : call) : string :=
  match k with
  | CallPublish subj reply data =>
      "PUB " +:+ subj +:+ " " +:+ (if String.eqb reply "" then "" else reply +:+ " ")
      +:+ pretty (Z.of_nat (String.length data)) +:+ nats_crlf +:+ data +:+ nats_crlf
  | _ => ""
  end.

(** Nothing is wrong but that there is no connection. *)
Definition offline (c : Conn) : Prop := nc_status c = RECONNECTING ∧ nc_err c = None ∧ nc_bw_err c = None.

(** What calls do to an offline connection [c]. *)
Definition written_offline (text : string) (c c' : Conn) : Prop :=
  offline c' ∧ nc_pongs c' = nc_pongs c ∧ nc_released c' = nc_released c ∧ nc_bw c' = nc_bw c +:+ text.

Lemma do_call_offline k c :
  offline c → call_ok k → ∃ c', do_call c k = Ok c' ∧ written_offline (call_text k) c c'.
Proof.
  intros (Hst & Herr & Hbw) Hk. destruct k as [subj reply data|subj|]; [| |done].
  - destruct (publish_spec subj reply data c) as (c' & Hp & _ & He & Hs & Hpo & Hre & Hb & Ht); [|done..|].
    + unfold isClosed. by rewrite Hst.
    + cbn [do_call]. rewrite Hp. eexists. split; [reflexivity|]. unfold written_offline, offline. cbn [snd]. by rewrite Hs.
  - cbn [do_call]. eexists. split; [reflexivity|]. unfold Subscribe, subscribe, isClosed, isReconnecting. rewrite Hst.
    cbn [bool_decide decide_rel set_subs nc_status]. unfold written_offline, offline. rewrite Hst. cbn.
    by rewrite str_app_nil_r.
Qed.

Lemma do_calls_offline calls : ∀ c,
  offline c → Forall call_ok calls →
  ∃ c', foldM do_call c calls = Ok c' ∧ written_offline (String.concat "" (call_text <$> calls)) c c'.
Proof.
  induction calls as [|k calls IH]; intros c Hoff Hks.
  - exists c. cbn. unfold written_offline. by rewrite str_app_nil_r.
  - apply Forall_cons in Hks as [Hk Hks]. destruct (do_call_offline k c Hoff Hk) as (c1 & Hc1 & Hoff1 & Hp1 & Hr1 & Hb1).
    destruct (IH c1 Hoff1 Hks) as (c2 & Hc2 & Hoff2 & Hp2 & Hr2 & Hb2). exists c2. cbn [foldM]. rewrite Hc1.
    split; [done|]. split_and!; [done|congruence..|]. rewrite Hb2, Hb1. cbn [fmap list_fmap]. rewrite concat_cons.
    by rewrite str_app_assoc.
Qed.

(** ** Going through the pool *)

Definition urls (c : client_conn) : list positive := srv_url <$> cc_srvPool c.

(** The pool after [u] had its turn. *)
Definition turn (u : positive) (l : list positive) : list positive :=
  match list_find (.= u) l with Some (i, _) => delete i l ++ [u] | None => l end.

Lemma currentServer_urls c u i :
  cc_url c = Some u → list_find (.= u) (urls c) = Some (i, u) →
  ∃ s, currentServer c = Some (i, s) ∧ srv_url s = u.
Proof.
  intros Hu Hf. unfold currentServer, urls in *. rewrite Hu. apply list_find_Some in Hf as (Hi & _ & Hmin).
  rewrite list_lookup_fmap in Hi. destruct (cc_srvPool c !! i) as [s|] eqn:Hs; [|done]. injection Hi as Hi.
  exists s. split; [|done]. apply list_find_Some. split_and!; [done|by rewrite Hi|]. intros j y Hj Hlt [= Hy].
  apply (Hmin j u); [|done|done]. rewrite list_lookup_fmap, Hj. cbn. by rewrite Hy.
Qed.

Lemma select_turn o c u :
  (o_MaxReconnect o < 0)%Z → cc_url c = Some u → u ∈ urls c →
  ∃ next c1, selectNextServer o c = (inr next, c1) ∧ urls c1 = turn u (urls c) ∧ head (cc_srvPool c1) = Some next
    ∧ cc_url c1 = Some (srv_url next) ∧ c1 = set_servers (cc_srvPool c1) (cc_url c1) c.
Proof.
  intros Hmax Hu Hin. destruct (list_find_elem_of (.= u) (urls c) u) as [[i x] Hf]; [done|done|].
  assert (x = u) as -> by (by apply list_find_Some in Hf as (_ & ? & _)).
  destruct (currentServer_urls c u i Hu Hf) as (s & Hcur & Hs). unfold selectNextServer. rewrite Hcur.
  rewrite (proj2 (Z.ltb_lt _ _)) by done. cbn [orb].
  destruct (delete i (cc_srvPool c) ++ [s]) as [|next pool] eqn:Hp; [by destruct (delete i (cc_srvPool c))|].
  eexists next, _. split; [reflexivity|]. split_and!; try done. unfold urls, turn, set_servers. cbn [cc_srvPool]. rewrite <- Hp.
  unfold urls in Hf. rewrite Hf, fmap_app, list_fmap_delete. cbn. by rewrite Hs.
Qed.

(** ** Attempts *)

Definition searching (u : positive) (c : client_conn) : Prop :=
  cc_url c = Some u ∧ u ∈ urls c ∧ cc_pending c = Some "" ∧ cc_over_pending c = true ∧ offline (cc_Conn c).

(** The calls [new] were made between [c] and [c']. *)
Definition calls_made (new : list call) (c c' : client_conn) : Prop :=
  cc_calls c' = cc_calls c ++ new ∧ foldM do_call (cc_Conn c) new = Ok (cc_Conn c')
  ∧ written_offline (String.concat "" (call_text <$> new)) (cc_Conn c) (cc_Conn c') ∧ cc_info c' = cc_info c.

Lemma calls_made_nil c : offline (cc_Conn c) → calls_made [] c c.
Proof. intros Hoff. unfold calls_made, written_offline. cbn. by rewrite app_nil_r, str_app_nil_r. Qed.

Lemma texts_app l1 l2 :
  String.concat "" (call_text <$> l1 ++ l2) = String.concat "" (call_text <$> l1) +:+ String.concat "" (call_text <$> l2).
Proof.
  induction l1 as [|k l1 IH]; [done|]. cbn [app fmap list_fmap]. rewrite !concat_cons. setoid_rewrite IH. by rewrite str_app_assoc.
Qed.

Lemma calls_made_app new1 new2 c1 c2 c3 :
  calls_made new1 c1 c2 → calls_made new2 c2 c3 → calls_made (new1 ++ new2) c1 c3.
Proof.
  intros (Ha1 & Hf1 & (_ & Hp1 & Hr1 & Hb1) & Hi1) (Ha2 & Hf2 & (Hoff & Hp2 & Hr2 & Hb2) & Hi2). split_and!; [|..|congruence].
  - by rewrite Ha2, Ha1, app_assoc.
  - by rewrite foldM_app, Hf1.
  - split_and!; [done|congruence..|]. by rewrite Hb2, Hb1, texts_app, str_app_assoc.
Qed.

Lemma urls_update u f c : (∀ s, srv_url (f s) = srv_url s) → urls (update_srv u f c) = urls c.
Proof.
  intros Hf. unfold urls, update_srv. cbn [set_servers cc_srvPool]. rewrite <- list_fmap_compose. apply list_fmap_ext.
  intros _ s _. cbn. by case_bool_decide.
Qed.

(** The next server and the pool after it was chosen. *)
Definition turn_step (p : positive * list positive) : positive * list positive :=
  let l := turn p.1 p.2 in (default p.1 (head l), l).

(** The pause before an attempt. *)
Definition pause (o : Options) (a : attempt) (cur : srv) (c : client_conn) : res client_conn :=
  if (at_clock a - lastAttempt cur <? o_ReconnectWait o)%Z then do_calls (at_calls a) c else Ok c.

Lemma pause_ok o a cur u c :
  searching u c → Forall call_ok (at_calls a) →
  ∃ c' new, pause o a cur c = Ok c' ∧ searching u c' ∧ calls_made new c c' ∧ cc_srvPool c' = cc_srvPool c
    ∧ Forall call_ok new ∧ (new = at_calls a ∨ new = []).
Proof.
  intros Hs Hcalls. pose proof Hs as (Hu & Hin & Hp & Hov & Hoff). unfold pause. destruct (_ <? _)%Z.
  - destruct (do_calls_offline _ _ Hoff Hcalls) as (nc & Hnc & Hw). unfold do_calls. rewrite Hnc. cbn [mbind res_mbind].
    eexists _, (at_calls a). split; [reflexivity|]. split_and!; try done; [|by left].
    split_and!; try done. apply Hw.
  - exists c, []. split_and!; try done; [by apply calls_made_nil|by right].
Qed.

(** [cur] is the server of the attempt, and [c2] the state in which it is dialed. *)
Definition attempting (o : Options) (a : attempt) (u : positive) (c : client_conn) (cur : srv) (c2 : client_conn) (new : list call) : Prop :=
  searching (srv_url cur) c2 ∧ calls_made new c c2 ∧ (srv_url cur, urls c2) = turn_step (u, urls c)
  ∧ cur ∈ cc_srvPool c2 ∧ Forall call_ok new ∧ (new = at_calls a ∨ new = [])
  ∧ ∀ rest, reconnect_loop o (a :: rest) c =
      match createConn o (at_now a) (at_dial a) (update_srv (srv_url cur) (λ s, set_reconnects (didConnect s) (reconnects s + 1) s) c2) with
      | (Some _, c3) => reconnect_loop o rest (on_conn (set_err None) c3)
      | (None, c3) =>
          let c4 := update_srv (srv_url cur) (set_reconnects true 0) (set_Reconnects (uint64 (cc_Reconnects c3 + 1)) c3) in
          match processExpectedInfo o (at_line a) c4 with
          | (None, c5) => Ok (Reconnected, resume o cur (at_order a (nc_subs (cc_Conn c5))) (on_conn (set_err None) c5))
          | (Some e, c5) => reconnect_loop o rest (on_conn (λ nc, set_status RECONNECTING (set_err (Some e) nc)) c5)
          end
      end.

Lemma attempt_begins o a u c :
  (o_MaxReconnect o < 0)%Z → searching u c → Forall call_ok (at_calls a) → ∃ cur c2 new, attempting o a u c cur c2 new.
Proof.
  intros Hmax Hs Hcalls. pose proof Hs as (Hu & Hin & Hp & Hov & Hoff).
  destruct (select_turn o c u Hmax Hu Hin) as (cur & c1 & Hsel & Hurls & Hhead & Hu1 & Hc1).
  assert (cur ∈ cc_srvPool c1) as Hcur. { destruct (cc_srvPool c1); [done|]. injection Hhead as ->. by left. }
  assert (searching (srv_url cur) c1) as Hs1.
  { split_and!; [done|by apply list_elem_of_fmap_2|by rewrite Hc1..]. }
  destruct (pause_ok o a cur _ c1 Hs1 Hcalls) as (c2 & new & Hpause & Hs2 & Hmade & Hpool & Hnew & Hor).
  exists cur, c2, new. split_and!; [done| | |by rewrite Hpool|done|done|].
  - by rewrite Hc1 in Hmade.
  - unfold turn_step, urls. cbn [fst snd]. rewrite Hpool. fold (urls c) (urls c1). rewrite <- Hurls. f_equal.
    unfold urls. destruct (cc_srvPool c1); [done|]. by injection Hhead as ->.
  - intros rest. cbn [reconnect_loop]. rewrite Hsel. destruct (cc_srvPool c) eqn:Hpl; [by unfold urls in Hin; rewrite Hpl in Hin; apply elem_of_nil in Hin|].
    fold (pause o a cur c1). rewrite Hpause. cbn [mbind res_mbind]. destruct Hs2 as (_ & _ & _ & _ & Hst & _). unfold isClosed. by rewrite Hst.
Qed.

Lemma set_err_none c : nc_err c = None → set_err None c = c.
Proof. destruct c; cbn. by intros ->. Qed.

Lemma searching_server u c : searching u c → ∃ i s, currentServer c = Some (i, s) ∧ srv_url s = u.
Proof.
  intros (Hu & Hin & _). destruct (list_find_elem_of (.= u) (urls c) u) as [[i x] Hf]; [done|done|].
  assert (x = u) as -> by (by apply list_find_Some in Hf as (_ & ? & _)). exists i. by apply currentServer_urls.
Qed.

(** [c'] is [c] with other servers of the same URLs. *)
Definition same_but_servers (c c' : client_conn) : Prop := ∃ pool, c' = set_servers pool (cc_url c) c ∧ srv_url <$> pool = urls c.

Lemma same_update u f c c' :
  (∀ s, srv_url (f s) = srv_url s) → same_but_servers c c' → same_but_servers c (update_srv u f c').
Proof.
  intros Hf (pool & -> & Hpool). unfold update_srv. eexists. split; [reflexivity|].
  rewrite <- Hpool. exact (urls_update u f (set_servers pool (cc_url c) c) Hf).
Qed.

Lemma same_refl c : same_but_servers c c.
Proof. exists (cc_srvPool c). split; [by destruct c|done]. Qed.

Lemma same_searching u c c' : same_but_servers c c' → searching u c → searching u c'.
Proof. intros (pool & -> & Hpool) (Hu & Hin & Hrest). split; [done|]. split; [unfold urls; cbn; by rewrite Hpool|done]. Qed.

Lemma same_calls new c1 c c' : same_but_servers c c' → calls_made new c1 c → calls_made new c1 c'.
Proof. by intros (pool & -> & _). Qed.

Lemma createConn_fails o now e u c :
  (0 ≤ o_Timeout o)%Z → searching u c →
  ∃ c', createConn o now (Some e) c = (Some e, c') ∧ same_but_servers c (on_conn (set_err None) c').
Proof.
  intros Ht Hs. destruct (searching_server u c Hs) as (i & s & Hcur & Hsu). unfold createConn.
  rewrite (proj2 (Z.ltb_ge _ _)), Hcur by done. eexists. split; [reflexivity|].
  destruct (same_update (srv_url s) (set_lastAttempt now) c c) as (pool & Heq & Hpool); [done|apply same_refl|].
  rewrite Heq. exists pool. split; [|done]. unfold set_servers, on_conn. cbn. f_equal.
  change (set_err None (set_err (Some e) (cc_Conn c))) with (set_err None (cc_Conn c)). apply set_err_none, Hs.
Qed.

Lemma createConn_connects o now u c :
  (0 ≤ o_Timeout o)%Z → searching u c →
  ∃ c', createConn o now None c = (None, c') ∧ urls c' = urls c ∧ cc_url c' = cc_url c ∧ cc_info c' = cc_info c
    ∧ cc_calls c' = cc_calls c ∧ cc_pending c' = Some (nc_bw (cc_Conn c)) ∧ cc_Conn c' = new_writer (cc_Conn c).
Proof.
  intros Ht Hs. destruct (searching_server u c Hs) as (i & s & Hcur & Hsu). destruct Hs as (_ & _ & Hp & Hov & _ & Herr & _).
  unfold createConn. rewrite (proj2 (Z.ltb_ge _ _)), Hcur by done. eexists. split; [reflexivity|].
  split_and!; [by apply urls_update|done|done|done| |].
  - cbn. by rewrite Hp, Hov.
  - cbn. by rewrite set_err_none.
Qed.

(** The attempts that do not get through leave everything as it is, but for
    the calls of others; the servers take turns. *)
Lemma failing_attempts o failing : ∀ u c rest,
  (o_MaxReconnect o < 0)%Z → (0 ≤ o_Timeout o)%Z → searching u c →
  Forall (λ a, is_Some (at_dial a) ∧ Forall call_ok (at_calls a)) failing →
  ∃ u' c' new, reconnect_loop o (failing ++ rest) c = reconnect_loop o rest c' ∧ searching u' c' ∧ calls_made new c c'
    ∧ Forall call_ok new ∧ new `sublist_of` concat (at_calls <$> failing)
    ∧ (u', urls c') = Nat.iter (length failing) turn_step (u, urls c).
Proof.
  induction failing as [|a failing IH]; intros u c rest Hmax Ht Hs Hf.
  - exists u, c, []. split_and!; try done. apply calls_made_nil, Hs.
  - apply Forall_cons in Hf as [[[e Hdial] Hcalls] Hf].
    destruct (attempt_begins o a u c Hmax Hs Hcalls) as (cur & c2 & new1 & Hs2 & Hmade1 & Hturn & _ & Hok1 & Hor & Hloop).
    assert (same_but_servers c2 (update_srv (srv_url cur) (λ s, set_reconnects (didConnect s) (reconnects s + 1) s) c2)) as Hsame
      by (by apply same_update, same_refl).
    destruct (createConn_fails o (at_now a) e (srv_url cur) _ Ht (same_searching _ _ _ Hsame Hs2)) as (c3 & Hc3 & Hsame3).
    pose proof (same_searching _ _ _ Hsame3 (same_searching _ _ _ Hsame Hs2)) as Hs3.
    destruct (IH (srv_url cur) (on_conn (set_err None) c3) rest Hmax Ht Hs3 Hf) as (u' & c' & new2 & Hl & Hs' & Hmade2 & Hok2 & Hsub & Hiter).
    exists u', c', (new1 ++ new2). split_and!.
    + cbn [app]. by rewrite Hloop, Hdial, Hc3.
    + done.
    + eapply calls_made_app; [|done]. by apply (same_calls _ _ _ _ Hsame3), (same_calls _ _ _ _ Hsame).
    + by apply Forall_app.
    + cbn [fmap list_fmap concat]. apply sublist_app; [|done]. destruct Hor as [->| ->]; [done|apply sublist_nil_l].
    + rewrite Hiter. cbn [length]. rewrite Nat.iter_succ_r, <- Hturn. f_equal. f_equal.
      destruct Hsame3 as (pool3 & -> & Hp3). unfold urls at 1. cbn [set_servers cc_srvPool]. rewrite Hp3.
      destruct Hsame as (pool2 & -> & Hp2). exact Hp2.
Qed.

(** ** The order of the servers *)

Lemma length_turn u l : u ∈ l → length (turn u l) = length l.
Proof.
  intros Hin. unfold turn. destruct (list_find_elem_of (.= u) l u) as [[i x] Hf]; [done|done|]. rewrite Hf.
  apply list_find_Some in Hf as (Hi & _). apply lookup_lt_Some in Hi. rewrite length_app, length_delete by (by apply lookup_lt_is_Some_2). cbn. lia.
Qed.

Lemma turn_head x l : turn x (x :: l) = l ++ [x].
Proof. unfold turn. cbn [list_find]. by rewrite decide_True. Qed.

Lemma turns_rotate u l k :
  u ∈ l → ∃ x m, Nat.iter (S k) turn_step (u, l) = (x, x :: m) ∧ length (x :: m) = length l
    ∧ ∀ i, i < length l → (x :: m) !! i = turn u l !! ((i + k) `mod` length l).
Proof.
  intros Hin. induction k as [|k (x & m & Hit & Hlen & Hm)].
  - pose proof (length_turn u l Hin) as Hl.
    destruct (turn u l) as [|x m] eqn:Ht; [destruct l; [by apply elem_of_nil in Hin|cbn in Hl; lia]|]. exists x, m. split_and!; [|done|].
    { change (turn_step (u, l) = (x, x :: m)). unfold turn_step. cbn [fst snd]. by rewrite Ht. }
    intros i Hi. by rewrite Nat.add_0_r, Nat.mod_small.
  - rewrite Nat.iter_succ, Hit. unfold turn_step. cbn [fst snd]. rewrite turn_head.
    assert (∀ i, i < length l → (m ++ [x]) !! i = turn u l !! ((i + S k) `mod` length l)) as Hrot.
    { intros i Hi. cbn [length] in Hlen. destruct (decide (i < length m)) as [Hlt|Hge].
      - rewrite lookup_app_l by done. rewrite <- Nat.add_succ_comm, <- Hm by lia. done.
      - rewrite lookup_app_r by lia. replace (i - length m) with 0 by lia.
        replace (i + S k) with (k + 1 * length l) by lia. rewrite Nat.Div0.mod_add, <- (Nat.add_0_l k), <- Hm by lia. done. }
    destruct (m ++ [x]) as [|y m'] eqn:Hy; [by destruct m|]. exists y, m'. split_and!; [done| |done].
    rewrite <- Hy, length_app. cbn in Hlen |- *. lia.
Qed.

(** ** The successful attempt *)

Definition welcome (line : first_line) (args : string) : Prop :=
  ∃ l, line = inr (l, false) ∧ parseControl l = ("INFO", args).

(** The server does not ask for a secure connection. *)
Definition plain_server (c : client_conn) (args : string) : Prop := si_SslRequired (cc_info (processInfo args c)) = false.

Lemma processInfo_conn args c : cc_Conn (processInfo args c) = cc_Conn c ∧ urls (processInfo args c) = urls c ∧ cc_url (processInfo args c) = cc_url c
  ∧ cc_pending (processInfo args c) = cc_pending c ∧ cc_calls (processInfo args c) = cc_calls c.
Proof. unfold processInfo. destruct (String.eqb args ""); by split_and!. Qed.

Lemma expected_info o line args c :
  o_Secure o = false → isClosed (cc_Conn c) = false → welcome line args → plain_server c args →
  processExpectedInfo o line c = (None, processInfo args c).
Proof.
  intros Ho Hcl (l & -> & Hl) Hplain. unfold processExpectedInfo, readOp. rewrite Hcl, Hl.
  change (String.eqb "INFO" "INFO") with true. cbn iota. unfold checkForSecure. unfold plain_server in Hplain.
  rewrite Ho, Hplain. reflexivity.
Qed.

Definition sub_lines (order : list Z) (subs : gmap Z Subscription) : string :=
  String.concat "" (omap (λ sid, sub_line sid <$> subs !! sid) order).

Lemma resend_lines order : ∀ c, nc_bw_err c = None → resendSubscriptions order c = set_bw (nc_bw c +:+ sub_lines order (nc_subs c)) c.
Proof.
  induction order as [|sid order IH]; intros c Hbw; unfold resendSubscriptions, sub_lines in *; cbn [foldl omap list_omap].
  - cbn. rewrite str_app_nil_r. by destruct c.
  - destruct (nc_subs c !! sid) as [s|] eqn:Hs; cbn [fmap option_fmap option_map]; [|by apply IH].
    rewrite bw_Write_ok by done. rewrite IH by done. cbn [set_bw nc_bw nc_subs]. rewrite concat_cons. by rewrite str_app_assoc.
Qed.

(** Told in an order of the map, every subscription is told, and once. *)
Lemma sub_lines_all order subs :
  order ≡ₚ (map_to_list subs).*1 →
  ∃ lines, sub_lines order subs = String.concat "" lines ∧ lines ≡ₚ uncurry sub_line <$> map_to_list subs.
Proof.
  intros Ho. eexists. split; [reflexivity|]. rewrite Ho. clear Ho.
  assert (Forall (λ x, subs !! x.1 = Some x.2) (map_to_list subs)) as Hall.
  { apply Forall_forall. by intros [k v] H%elem_of_map_to_list. }
  apply reflexive_eq. induction Hall as [|[k v] l Hx Hl IH]; [done|]. cbn [fmap list_fmap omap list_omap fst snd] in *. rewrite Hx. cbn [fmap option_fmap option_map uncurry]. f_equal. exact IH.
Qed.

(** What the server of the new connection is told. *)
Lemma resume_conn o cur order c text :
  cc_pending c = Some text → nc_bw (cc_Conn c) = "" → nc_bw_err (cc_Conn c) = None →
  cc_Conn (resume o cur order c)
  = set_pongs (nc_pongs (cc_Conn c)) (nc_released (cc_Conn c)) 0
      (set_bw (connectProto o cur +:+ sub_lines order (nc_subs (cc_Conn c)) +:+ text) (set_status CONNECTED (cc_Conn c))).
Proof.
  intros Hp Hbw Herr. unfold resume, flushReconnectPendingItems. cbv zeta. unfold on_conn. cbn [cc_Conn cc_pending]. rewrite Hp.
  rewrite bw_Write_ok by done. cbn [set_status nc_bw]. rewrite Hbw. cbn [String.append].
  rewrite resend_lines by done. cbn [set_bw nc_bw nc_subs set_status].
  destruct (String.eqb_spec text "") as [->|Hne]; cbn [on_conn cc_Conn set_pending].
  - by rewrite str_app_nil_r.
  - rewrite bw_Write_ok by done. cbn [set_bw nc_bw]. by rewrite str_app_assoc.
Qed.

(** ** The flush after a reconnect *)

Lemma pongs_release j : ∀ c,
  nc_pongs (Nat.iter j processPong c) = skipn j (nc_pongs c)
  ∧ nc_released (Nat.iter j processPong c) = nc_released c ++ omap id (take j (nc_pongs c))
  ∧ nc_bw (Nat.iter j processPong c) = nc_bw c ∧ nc_bw_err (Nat.iter j processPong c) = nc_bw_err c
  ∧ nc_status (Nat.iter j processPong c) = nc_status c ∧ nc_err (Nat.iter j processPong c) = nc_err c
  ∧ nc_subs (Nat.iter j processPong c) = nc_subs c.
Proof.
  induction j as [|j IH]; intros c.
  - cbn. by rewrite drop_0, app_nil_r.
  - rewrite Nat.iter_succ_r. destruct (IH (processPong c)) as (-> & -> & -> & -> & -> & -> & ->).
    unfold processPong. destruct (nc_pongs c) as [|[ch|] pongs] eqn:Hp; cbn; [by rewrite drop_nil, take_nil|by rewrite <- app_assoc|done].
Qed.

(** A ping on the channel [ch] behind [old]: released by the answer after
    those to [old], and by none before. *)
Lemma flush_released (ch : positive) old (c : Conn) j :
  nc_pongs c = old ++ [Some ch] → Some ch ∉ old → ch ∉ nc_released c →
  ch ∈ nc_released (Nat.iter j processPong c) ↔ length old < j.
Proof.
  intros Hp Hold Hrel. destruct (pongs_release j c) as (_ & -> & _). rewrite elem_of_app, Hp.
  assert (∀ l : list (option positive), ch ∈ omap id l ↔ Some ch ∈ l) as Hom.
  { intros l. rewrite list_elem_of_omap. split; [intros (x & Hx & Heq); unfold id in Heq; by subst x|by exists (Some ch)]. }
  rewrite Hom, take_app, elem_of_app. destruct (decide (length old < j)) as [Hj|Hj].
  - split; [done|]. intros _. right. right. rewrite take_ge by (cbn; lia). by left.
  - split; [|done]. intros [H|[H|H]]; [done| |].
    + destruct Hold. by apply elem_of_take in H as (i & H & _); apply list_elem_of_lookup_2 in H.
    + replace (j - length old) with 0 in H by lia. by apply elem_of_nil in H.
Qed.

(** ** The bus comes back *)

(** The connection as [doReconnect] finds it, once the old writer is given up. *)
Definition gone_offline (c : Conn) : Conn :=
  set_callbacks (nc_callbacks c ++ ["disconnected"]) (set_err None (new_writer c)).

Lemma resume_rest o cur order c : cc_url (resume o cur order c) = cc_url c ∧ cc_calls (resume o cur order c) = cc_calls c.
Proof.
  unfold resume, flushReconnectPendingItems. cbv zeta. unfold on_conn at 1 3. cbn [cc_url cc_calls].
  unfold on_conn at 1 4. cbn [cc_pending]. destruct (cc_pending _) as [p|]; [|done]. by destruct (String.eqb p "").
Qed.

Lemma set_bw_new_writer t st c : nc_bw_err c = None → set_bw t (set_status st (new_writer c)) = set_bw t (set_status st c).
Proof. destruct c; cbn. by intros ->. Qed.

Lemma plain_same c c' args : cc_info c' = cc_info c → plain_server c args → plain_server c' args.
Proof. unfold plain_server, processInfo. intros Hi. destruct (String.eqb args ""); cbn; by rewrite Hi. Qed.

Lemma welcomed_attempt o a u c args rest :
  (o_MaxReconnect o < 0)%Z → (0 ≤ o_Timeout o)%Z → o_Secure o = false → searching u c →
  at_dial a = None → Forall call_ok (at_calls a) → welcome (at_line a) args → plain_server c args →
  ∃ cur new nc c', reconnect_loop o (a :: rest) c = Ok (Reconnected, c') ∧ cc_url c' = Some (srv_url cur)
    ∧ srv_url cur = (turn_step (u, urls c)).1 ∧ cc_calls c' = cc_calls c ++ new ∧ (new = at_calls a ∨ new = [])
    ∧ foldM do_call (cc_Conn c) new = Ok nc ∧ written_offline (String.concat "" (call_text <$> new)) (cc_Conn c) nc
    ∧ cc_Conn c' = set_pongs (nc_pongs nc) (nc_released nc) 0
        (set_bw (connectProto o cur +:+ sub_lines (at_order a (nc_subs nc)) (nc_subs nc) +:+ nc_bw nc) (set_status CONNECTED nc)).
Proof.
  intros Hmax Ht Hsec Hs Hdial Hok Hwel Hplain.
  destruct (attempt_begins o a u c Hmax Hs Hok) as (cur & c2 & new & Hs2 & (Hall & Hfold & Hw & Hinfo) & Hturn & _ & _ & Hor & ->).
  set (c3 := update_srv (srv_url cur) _ c2). assert (same_but_servers c2 c3) as Hsame by (by apply same_update, same_refl).
  destruct (createConn_connects o (at_now a) (srv_url cur) c3 Ht) as (c4 & Hc4 & _ & Hu4 & Hi4 & Hk4 & Hp4 & Hn4);
    [by apply (same_searching _ c2)|].
  rewrite Hdial, Hc4. cbv zeta. set (c5 := update_srv _ _ (set_Reconnects _ c4)).
  assert (cc_Conn c5 = new_writer (cc_Conn c2)) as Hn5 by exact Hn4. destruct Hs2 as (Hu2 & _ & _ & _ & Hst2 & Herr2 & Hbe2).
  rewrite (expected_info o _ args c5); [|done|unfold isClosed; rewrite Hn5; cbn; by rewrite Hst2|done|].
  2: { apply (plain_same c); [|done]. change (cc_info c5) with (cc_info c4). rewrite Hi4. exact Hinfo. }
  destruct (processInfo_conn args c5) as (Hcn & _ & Hurl & Hpe & Hca).
  set (c6 := on_conn (set_err None) (processInfo args c5)).
  assert (nc_subs (cc_Conn (processInfo args c5)) = nc_subs (cc_Conn c2)) as -> by (by rewrite Hcn, Hn5).
  destruct (resume_rest o cur (at_order a (nc_subs (cc_Conn c2))) c6) as [Hru Hrc].
  assert (cc_Conn c6 = new_writer (cc_Conn c2)) as Hn6.
  { cbn. rewrite Hcn, Hn5. by apply set_err_none. }
  eexists cur, new, (cc_Conn c2), _. split; [reflexivity|]. split_and!; [| |..|done|done|done|].
  - rewrite Hru. cbn. rewrite Hurl. cbn. rewrite Hu4. exact Hu2.
  - by rewrite <- Hturn.
  - rewrite Hrc. cbn. rewrite Hca. cbn. rewrite Hk4. exact Hall.
  - rewrite (resume_conn _ _ _ _ (nc_bw (cc_Conn c2))); [by rewrite Hn6, set_bw_new_writer| |by rewrite Hn6..].
    cbn. rewrite Hpe. exact Hp4.
Qed.

Lemma restored o ch failing a rest c u args :
  (o_MaxReconnect o < 0)%Z → (0 ≤ o_Timeout o)%Z → o_Secure o = false →
  nc_status (cc_Conn c) = RECONNECTING → cc_url c = Some u → u ∈ urls c → cc_calls c = [] →
  Forall (λ a, is_Some (at_dial a) ∧ Forall call_ok (at_calls a)) failing →
  at_dial a = None → Forall call_ok (at_calls a) → welcome (at_line a) args → plain_server c args →
  ∃ c' cur nc,
    doReconnect o ch (failing ++ a :: rest) c = Ok (Reconnected, c')
    ∧ cc_url c' = Some (srv_url cur)
    ∧ turn u (urls c) !! (length failing `mod` length (urls c)) = Some (srv_url cur)
    ∧ cc_calls c' `sublist_of` concat (at_calls <$> failing) ++ at_calls a
    ∧ foldM do_call (gone_offline (cc_Conn c)) (cc_calls c') = Ok nc
    ∧ written_offline (String.concat "" (call_text <$> cc_calls c')) (gone_offline (cc_Conn c)) nc
    ∧ cc_Conn c' = sendPing (Some ch) (set_pongs (nc_pongs nc) (nc_released nc) 0
        (set_bw (connectProto o cur +:+ sub_lines (at_order a (nc_subs nc)) (nc_subs nc) +:+ nc_bw nc) (set_status CONNECTED nc))).
Proof.
  intros Hmax Ht Hsec Hst Hu Hin Hcalls Hf Hdial Hok Hwel Hplain. unfold doReconnect.
  set (c2 := on_conn _ (set_pending _ _ _)). assert (searching u c2) as Hs2 by done.
  destruct (failing_attempts o failing u c2 (a :: rest) Hmax Ht Hs2 Hf) as (u' & c3 & new & -> & Hs3 & Hmade & _ & Hsub & Hiter).
  destruct (welcomed_attempt o a u' c3 args rest Hmax Ht Hsec Hs3 Hdial Hok Hwel) as (cur & new' & nc & c4 & -> & Hu4 & Hcur & Hk4 & Hor & Hfold & Hw & Hn4);
    [by apply (plain_same c); [apply Hmade|]|].
  destruct Hmade as (Hk3 & Hfold3 & Hw3 & _). change (cc_calls c2) with (cc_calls c) in Hk3. rewrite Hcalls in Hk3. cbn [app] in Hk3.
  exists (on_conn (sendPing (Some ch)) c4), cur, nc. split; [reflexivity|]. cbn [on_conn cc_url cc_calls cc_Conn]. rewrite Hk4, Hk3.
  split_and!; [done| | | | |by rewrite Hn4].
  - destruct (turns_rotate u (urls c) (length failing) Hin) as (x & m & Hit & Hlen & Hm). rewrite Nat.iter_succ in Hit.
    change (urls c2) with (urls c) in Hiter. rewrite <- Hiter in Hit. rewrite Hcur, Hit. cbn [fst].
    rewrite <- (Nat.add_0_l (length failing)), <- Hm; [done|]. rewrite <- Hlen. cbn. lia.
  - apply sublist_app; [done|]. destruct Hor as [->| ->]; [done|apply sublist_nil_l].
  - rewrite foldM_app. change (gone_offline (cc_Conn c)) with (cc_Conn c2). by rewrite Hfold3.
  - destruct Hw as (Hoff & Hp & Hr & Hb), Hw3 as (_ & Hp3 & Hr3 & Hb3). split_and!; [done|by rewrite Hp, Hp3|by rewrite Hr, Hr3|].
    rewrite Hb, Hb3, texts_app. by rewrite str_app_assoc.
Qed.

(** Options without a limit on attempts and without TLS, as [yagnats] has them. *)
Definition patient (o : Options) : Prop := (o_MaxReconnect o < 0)%Z ∧ (0 ≤ o_Timeout o)%Z ∧ o_Secure o = false.

(** The connection to the server [u] has been lost. *)
Definition lost (u : positive) (c : client_conn) : Prop :=
  nc_status (cc_Conn c) = RECONNECTING ∧ cc_url c = Some u ∧ u ∈ urls c ∧ cc_calls c = [].

(** An attempt that does not reach a server, and one that is accepted. *)
Definition unreachable (a : attempt) : Prop := is_Some (at_dial a) ∧ Forall call_ok (at_calls a).
Definition accepted_with (args : string) (a : attempt) : Prop := at_dial a = None ∧ Forall call_ok (at_calls a) ∧ welcome (at_line a) args.

(** Go ranges over a map in some order of its keys. *)
Definition ranges (a : attempt) : Prop := ∀ subs, at_order a subs ≡ₚ (map_to_list subs).*1.


(** ** A router that loses its bus *)

(** Two servers; the first was lost with two pings unanswered. *)
Definition lost_router : client_conn :=
  mkClientConn (set_pongs [None; None] [] 3 (set_status RECONNECTING sample_conn))
    [mkSrv 1 "10.0.0.1:4222" (Some ("nats", "secret")) true 0 0; mkSrv 2 "10.0.0.2:4222" (Some ("nats", "secret")) false 0 0]
    (Some 1%positive) None false (mkInfo "" "" 0 "" false false 0) 0 [].

Definition welcome_line : first_line :=
  inr ("INFO " +:+ json_text ["{"; "server_id"; ":"; "n2"; ","; "host"; ":"; "10.0.0.1"; ","; "port"; ":4222}"], false).

Definition key_order (subs : gmap Z Subscription) : list Z := (map_to_list subs).*1.

Definition apps_published : call := CallPublish "router.active_apps" "" "[]".

(** Half a second has not passed since the last attempt, so that others run. *)
Definition refused_attempt : attempt := mkAttempt (Second / 4) [apps_published] (Second / 2) (Some "connection refused") (inl "") (λ _, []).
Definition accepted_attempt : attempt := mkAttempt (2 * Second) [] (2 * Second) None welcome_line key_order.


(** The second server refuses; the first is told everything. *)
Lemma told_server :
  match doReconnect yagnats_options 7 [refused_attempt; accepted_attempt] lost_router with
  | Ok (Reconnected, c) => Some (cc_url c, nc_bw (cc_Conn c))
  | _ => None
  end = Some (Some 1%positive, connectProto yagnats_options (mkSrv 1 "10.0.0.1:4222" (Some ("nats", "secret")) true 0 0)
    +:+ strings_Join ["SUB router.unregister  3"; "SUB router.register  2"; "SUB router.greet  1"; "PUB router.active_apps 2"; "[]"; "PING"; ""] nats_crlf).
Proof. vm_compute. reflexivity. Qed.

(** A publication is lost without an error: after a handshake that fails the
    writer is over the socket of that server, and what is written to it is not
    handed to the next. *)
Lemma publication_lost :
  let broken := mkAttempt Second [] Second None (inl "EOF") (λ _, []) in
  let refused := mkAttempt (Second + Second / 10) [] (Second + Second / 10) (Some "connection refused") (inl "") (λ _, []) in
  let accepted := mkAttempt (Second + Second / 5) [apps_published] (Second + Second / 2) None welcome_line key_order in
  match doReconnect yagnats_options 7 [broken; refused; accepted] lost_router with
  | Ok (Reconnected, c) => Some (cc_calls c, strings_Contains (nc_bw (cc_Conn c)) "PUB", OutMsgs (cc_Conn c))
  | _ => None
  end = Some ([apps_published], false, 1%Z).
Proof. vm_compute. reflexivity. Qed.
