(* ===== verification/RouteFetcher.v ===== *)
(** * Routes from the routing API (src/route_fetcher/route_fetcher.go)

    The fetcher polls the routing API for the list of routes and follows its
    stream of events.  The answers of the client of the API and of the token
    fetcher are arguments; how the client gets the events from the stream is
    the subject of [Sse].  The registry is any implementation of its interface. *)

From S2P Require Import Prelude GoStrings Uris Pool PoolSpec Trie TrieSpec Registry RegistrySpec RegistryInterface.

(** [db.Route] of the routing API. *)
Record Route := mkRoute {
  rt_Route : string;
  rt_Port : Z;
  rt_IP : string;
  rt_TTL : Z;
  rt_LogGuid : string;
  rt_RouteServiceUrl : string;
}.

(** [routing_api.Event]. *)
Record Event := mkEvent { ev_Route : Route; ev_Action : string }.

Record RouteFetcher (R : Type) := mkFetcher {
  RouteRegistry_of : client R;
  FetchRoutesInterval : Z;
  SubscriptionRetryIntervalInSeconds : Z;
  rf_endpoints : list Route;
  rf_ticker : option Ticker;
  rf_token : option string;
}.
Arguments mkFetcher {R} _ _ _ _ _ _.
Arguments RouteRegistry_of {R} _.
Arguments FetchRoutesInterval {R} _.
Arguments SubscriptionRetryIntervalInSeconds {R} _.
Arguments rf_endpoints {R} _.
Arguments rf_ticker {R} _.
Arguments rf_token {R} _.

Definition routeEquals (current desired : Route) : bool :=
  String.eqb (rt_Route current) (rt_Route desired) && String.eqb (rt_IP current) (rt_IP desired)
  && Z.eqb (rt_Port current) (rt_Port desired).

(** The endpoint the fetcher builds for a route, at the address [p]. *)
Definition route_endpoint (r : Route) (p : positive) : EndpointRef :=
  NewEndpoint p (rt_LogGuid r) (rt_IP r) (wrap16u (rt_Port r)) (rt_LogGuid r) ∅ (rt_TTL r) (rt_RouteServiceUrl r).

(** The two clock readings of the [i]-th registration. *)
Abbreviation fetch_clock := (nat → Z * Z)%type.

Section fetcher.
Context {R : Type} `{RegistryInterface R}.

Definition NewRouteFetcher (routeRegistry : client R) (pruneStaleDropletsInterval subscriptionRetryInterval : Z)
    : RouteFetcher R :=
  mkFetcher routeRegistry (Z.quot pruneStaleDropletsInterval 2) subscriptionRetryInterval [] None None.

Definition set_registry (c : client R) (f : RouteFetcher R) : RouteFetcher R :=
  mkFetcher c (FetchRoutesInterval f) (SubscriptionRetryIntervalInSeconds f) (rf_endpoints f) (rf_ticker f) (rf_token f).
Definition set_endpoints (l : list Route) (f : RouteFetcher R) : RouteFetcher R :=
  mkFetcher (RouteRegistry_of f) (FetchRoutesInterval f) (SubscriptionRetryIntervalInSeconds f) l (rf_ticker f) (rf_token f).
Definition set_token (t : string) (f : RouteFetcher R) : RouteFetcher R :=
  mkFetcher (RouteRegistry_of f) (FetchRoutesInterval f) (SubscriptionRetryIntervalInSeconds f) (rf_endpoints f)
    (rf_ticker f) (Some t).

Definition StartFetchCycle (f : RouteFetcher R) : RouteFetcher R :=
  if (0 <? FetchRoutesInterval f)%Z
  then mkFetcher (RouteRegistry_of f) (FetchRoutesInterval f) (SubscriptionRetryIntervalInSeconds f) (rf_endpoints f)
         (Some (mkTicker (FetchRoutesInterval f) true)) (rf_token f)
  else f.

Definition HandleEvent (clk : Z * Z) (f : RouteFetcher R) (e : Event) : res (RouteFetcher R) :=
  let eventRoute := ev_Route e in
  let uri := rt_Route eventRoute in
  if String.eqb (ev_Action e) "Delete" then
    c ← unregister uri (route_endpoint eventRoute) (RouteRegistry_of f); Ok (set_registry c f)
  else if String.eqb (ev_Action e) "Upsert" then
    c ← register (fst clk) (snd clk) uri (route_endpoint eventRoute) (RouteRegistry_of f); Ok (set_registry c f)
  else Ok f.

Definition deleteEndpoints (validRoutes : list Route) (f : RouteFetcher R) : res (RouteFetcher R) :=
  let diff := filter (λ curRoute, existsb (routeEquals curRoute) validRoutes = false) (rf_endpoints f) in
  c ← foldM (λ c aRoute, unregister (rt_Route aRoute) (route_endpoint aRoute) c) (RouteRegistry_of f) diff;
  Ok (set_registry c f).

Definition refreshEndpoints (clk : fetch_clock) (validRoutes : list Route) (f : RouteFetcher R)
    : res (RouteFetcher R) :=
  f1 ← deleteEndpoints validRoutes f;
  let f2 := set_endpoints validRoutes f1 in
  c ← foldM (λ c '(i, aRoute), register (fst (clk i)) (snd (clk i)) (rt_Route aRoute) (route_endpoint aRoute) c)
        (RouteRegistry_of f2) (imap pair (rf_endpoints f2));
  Ok (set_registry c f2).

(** [token] and [routes] are the answers of the two servers, errors on the left. *)
Definition FetchRoutes (clk : fetch_clock) (token : string + string) (routes : string + list Route)
    (f : RouteFetcher R) : res (option string * RouteFetcher R) :=
  match token with
  | inl err => Ok (Some err, f)
  | inr accessToken =>
      let f1 := set_token accessToken f in
      match routes with
      | inl err => Ok (Some err, f1)
      | inr routes => f2 ← refreshEndpoints clk routes f1; Ok (None, f2)
      end
  end.

(** One subscription: [source] is the stream of events up to the error that
    ends it, [None] when the subscription fails. *)
Definition subscribeToEvents (clk : nat → Z * Z) (token : string + string) (source : option (list Event))
    (f : RouteFetcher R) : res (RouteFetcher R) :=
  match token with
  | inl _ => Ok f
  | inr accessToken =>
      let f1 := set_token accessToken f in
      match source with
      | None => Ok f1
      | Some events => foldM (λ f '(i, e), HandleEvent (clk i) f e) f1 (imap pair events)
      end
  end.
End fetcher.
