(* ===== verification/RouteFetcherSpec.v ===== *)
(** * What the route fetcher guarantees

    The effect of a poll and of the event stream on the routing table, and that
    polling alone keeps the table equal to the last answer of the routing API. *)

From S2P Require Import Prelude GoStrings Uris Pool PoolSpec Trie TrieSpec Registry RegistrySpec RegistryInterface.
From S2P Require Import RouteFetcher.

Definition key_of (r : Route) : list string := segments (RouteKey (rt_Route r)).
Definition ep_of (r : Route) : Endpoint := ep (route_endpoint r 1).

(** The route is for path [q] and address [a]. *)
Definition routes_to (q : list string) (a : string) (r : Route) : Prop := key_of r = q ∧ addr (ep_of r) = a.

#[export] Instance routes_to_dec q a r : Decision (routes_to q a r).
Proof. unfold routes_to. apply _. Defined.

(** Routes with the times at which they are registered. *)
Definition timed (clk : fetch_clock) (l : list Route) : list (Z * Route) := imap (λ i r, (snd (clk i), r)) l.

(** What a list of routes says of an address on a path: the last route wins. *)
Definition listed (l : list (Z * Route)) (q : list string) (a : string) : option (Endpoint * Z) :=
  (λ x, (ep_of (snd x), fst x)) <$> last (filter (λ x, routes_to q a (snd x)) l).

Definition put_route (q : list string) (m : gmap string (Endpoint * Z)) (x : Z * Route) : gmap string (Endpoint * Z) :=
  if decide (key_of (snd x) = q) then <[addr (ep_of (snd x)) := (ep_of (snd x), fst x)]> m else m.

Definition drop_route (q : list string) (m : gmap string (Endpoint * Z)) (r : Route) : gmap string (Endpoint * Z) :=
  if decide (key_of r = q) then delete (addr (ep_of r)) m else m.

Lemma put_routes_lookup q a m l :
  foldl (put_route q) m l !! a = match listed l q a with Some v => Some v | None => m !! a end.
Proof.
  induction l as [|[now r] l IH] using rev_ind; [done|]. rewrite foldl_snoc. unfold put_route at 1, listed.
  rewrite filter_app, filter_cons, filter_nil. cbn [fst snd]. unfold routes_to at 2. fold (listed l q a).
  destruct (decide (key_of r = q)) as [Hk|Hk], (decide (key_of r = q ∧ addr (ep_of r) = a)) as [Hd|Hd]; try tauto.
  - destruct Hd as [_ <-]. by rewrite last_snoc, lookup_insert_eq.
  - rewrite app_nil_r, lookup_insert_ne by tauto. apply IH.
  - rewrite app_nil_r. apply IH.
Qed.

Lemma drop_routes_lookup q a m l :
  foldl (drop_route q) m l !! a = if decide (Exists (routes_to q a) l) then None else m !! a.
Proof.
  induction l as [|r l IH] using rev_ind; [done|]. rewrite foldl_snoc. unfold drop_route at 1.
  destruct (decide (Exists (routes_to q a) (l ++ [r]))) as [HE|HE]; rewrite Exists_app, Exists_cons, Exists_nil in HE;
    unfold routes_to at 2 in HE.
  - destruct (decide (key_of r = q)) as [Hk|Hk].
    + destruct (decide (addr (ep_of r) = a)) as [<-|Ha]; [by rewrite lookup_delete_eq|].
      rewrite lookup_delete_ne, IH by done. rewrite decide_True; [done|tauto].
    + rewrite IH, decide_True; [done|tauto].
  - destruct (decide (key_of r = q)) as [Hk|Hk]; [rewrite lookup_delete_ne by tauto|]; rewrite IH, decide_False;
      first [done|tauto].
Qed.

Lemma routeEquals_spec x y :
  routeEquals x y = true ↔ rt_Route x = rt_Route y ∧ rt_IP x = rt_IP y ∧ rt_Port x = rt_Port y.
Proof.
  unfold routeEquals. rewrite !andb_true_iff, !String.eqb_eq, Z.eqb_eq. tauto.
Qed.

Lemma routeEquals_routes_to x y q a : routeEquals x y = true → routes_to q a x → routes_to q a y.
Proof.
  intros (Hr & Hi & Hp)%routeEquals_spec [Hk Ha]. unfold routes_to, key_of, ep_of, route_endpoint, NewEndpoint in *.
  cbn [ep addr] in *. by rewrite <- Hr, <- Hi, <- Hp.
Qed.

(** Guids have no colon, so the endpoints are well formed. *)
Definition plain_guid (r : Route) : Prop := str_in ":" (rt_LogGuid r) = false.

Section fetcher.
Context {R : Type} `{RegistryInterface R}.
Implicit Type f : RouteFetcher R.

Definition rf_ok f : Prop := client_ok (RouteRegistry_of f) ∧ Forall plain_guid (rf_endpoints f).
Definition rf_table f : list string → gmap string (Endpoint * Z) := cl_table (RouteRegistry_of f).

Lemma route_endpoint_allocates r : allocates (route_endpoint r) (ep_of r).
Proof. intros p. reflexivity. Qed.

Lemma ep_of_wf r : plain_guid r → wf_endpoint (ep_of r).
Proof. intros Hg. by apply (NewEndpoint_wf 1). Qed.

Lemma register_routes clk l : ∀ k c,
  client_ok c → Forall plain_guid l →
  ∃ c', foldM (λ c '(i, r), register (fst (clk i)) (snd (clk i)) (rt_Route r) (route_endpoint r) c) c
          (imap (λ i r, (k + i, r)) l) = Ok c' ∧ client_ok c'
    ∧ ∀ q, cl_table c' q = foldl (put_route q) (cl_table c q) (imap (λ i r, (snd (clk (k + i)), r)) l).
Proof.
  induction l as [|r l IH]; intros k c Hc Hl; [by exists c|]. inversion Hl; subst. cbn [imap foldM foldl].
  rewrite Nat.add_0_r.
  destruct (register_spec (fst (clk k)) (snd (clk k)) (rt_Route r) (route_endpoint r) (ep_of r) c)
    as (c1 & -> & Hc1 & Ht1); [done|apply route_endpoint_allocates|by apply ep_of_wf|]. cbn [mbind res_mbind].
  destruct (IH (S k) c1 Hc1) as (c2 & Hr & Hc2 & Ht2); [done|].
  rewrite (imap_ext _ (λ i r, (S k + i, r))) by (intros; simpl; f_equal; lia). exists c2. split_and!; [done..|].
  intros q. rewrite Ht2. f_equal.
  - unfold put_route. cbn [fst snd]. rewrite Ht1. fold (key_of r).
    case_bool_decide; [by rewrite decide_True|by rewrite decide_False].
  - apply imap_ext. intros; simpl. by rewrite <- plus_n_Sm.
Qed.

Lemma unregister_routes l : ∀ c,
  client_ok c → Forall plain_guid l →
  ∃ c', foldM (λ c r, unregister (rt_Route r) (route_endpoint r) c) c l = Ok c' ∧ client_ok c'
    ∧ ∀ q, cl_table c' q = foldl (drop_route q) (cl_table c q) l.
Proof.
  induction l as [|r l IH]; intros c Hc Hl; [by exists c|]. inversion Hl; subst. cbn [foldM foldl].
  destruct (unregister_spec (rt_Route r) (route_endpoint r) (ep_of r) c) as (c1 & -> & Hc1 & Ht1);
    [done|apply route_endpoint_allocates|by apply ep_of_wf|]. cbn [mbind res_mbind].
  destruct (IH c1 Hc1) as (c2 & Hr & Hc2 & Ht2); [done|]. exists c2. split_and!; [done..|].
  intros q. rewrite Ht2. f_equal. unfold drop_route. rewrite Ht1. fold (key_of r).
  case_bool_decide; [by rewrite decide_True|by rewrite decide_False].
Qed.

(** The table after a poll that returned [valid] when [old] was known. *)
Definition refreshed (clk : fetch_clock) (old valid : list Route) (T T' : list string → gmap string (Endpoint * Z)) : Prop :=
  ∀ q a, T' q !! a = match listed (timed clk valid) q a with
                     | Some v => Some v
                     | None => if decide (Exists (routes_to q a) old) then None else T q !! a
                     end.

Lemma listed_timed_None clk l q a : listed (timed clk l) q a = None ↔ ¬ Exists (routes_to q a) l.
Proof.
  unfold listed, timed. rewrite fmap_None, last_None.
  assert (∀ k, filter (λ x, routes_to q a (snd x)) (imap (λ i r, (snd (clk (k + i)), r)) l) = []
    ↔ ¬ Exists (routes_to q a) l) as Hk; [|apply (Hk 0)].
  induction l as [|r l IH]; intros k; [split; [by intros _ ?%Exists_nil|done]|]. cbn [imap].
  rewrite filter_cons, Exists_cons. cbn [snd]. specialize (IH (S k)).
  rewrite (imap_ext _ (λ i r, (snd (clk (S k + i)), r))) by (intros; simpl; by rewrite <- plus_n_Sm).
  destruct (decide (routes_to q a r)); [split; [done|tauto]|]. rewrite IH. tauto.
Qed.

Lemma refreshEndpoints_spec clk valid f :
  rf_ok f → Forall plain_guid valid →
  ∃ f', refreshEndpoints clk valid f = Ok f' ∧ rf_ok f' ∧ rf_endpoints f' = valid
    ∧ refreshed clk (rf_endpoints f) valid (rf_table f) (rf_table f').
Proof.
  intros [Hc Hold] Hvalid. unfold refreshEndpoints, deleteEndpoints.
  destruct (unregister_routes (filter (λ x, existsb (routeEquals x) valid = false) (rf_endpoints f)) (RouteRegistry_of f))
    as (c1 & -> & Hc1 & Ht1); [done|by rewrite Forall_forall in *; intros x [_ Hx]%list_elem_of_filter; auto|]. cbn [mbind res_mbind].
  destruct (register_routes clk valid 0 c1 Hc1 Hvalid) as (c2 & Hr & Hc2 & Ht2).
  cbn [set_endpoints set_registry RouteRegistry_of rf_endpoints].
  change (imap pair valid) with (imap (λ i r, (0 + i, r)) valid). rewrite Hr. cbn [mbind res_mbind].
  eexists. split_and!; [reflexivity|by split|done|]. intros q a. unfold rf_table. cbn [set_registry RouteRegistry_of].
  rewrite Ht2. change (imap (λ i r, (snd (clk (0 + i)), r)) valid) with (timed clk valid).
  rewrite put_routes_lookup, Ht1, drop_routes_lookup.
  destruct (listed (timed clk valid) q a) eqn:Hv; [done|]. apply listed_timed_None in Hv.
  destruct (decide (Exists _ (rf_endpoints f))) as [HE|HE], (decide (Exists _ (filter _ _))) as [HF|HF]; try done.
  - destruct HF. apply Exists_exists in HE as (x & Hx & Hto). apply Exists_exists. exists x. split; [|done].
    apply list_elem_of_filter. split; [|done]. destruct (existsb (routeEquals x) valid) eqn:He; [|done].
    apply existsb_exists in He as (y & Hy & Heq). destruct Hv. apply Exists_exists. exists y.
    split; [by apply list_elem_of_In|]. by eapply routeEquals_routes_to.
  - destruct HE. apply Exists_exists in HF as (x & Hx & Hto). apply list_elem_of_filter in Hx as [_ Hx].
    apply Exists_exists. eauto.
Qed.

(** ** Histories *)

(** A poll, or the events one subscription delivers. *)
Inductive fetch_op :=
| OpFetch (clk : fetch_clock) (token : string + string) (answer : string + list Route)
| OpEvents (clk : fetch_clock) (token : string + string) (source : option (list Event)).

Definition fetch_step f (op : fetch_op) : res (RouteFetcher R) :=
  match op with
  | OpFetch clk token answer => r ← FetchRoutes clk token answer f; Ok (snd r)
  | OpEvents clk token source => subscribeToEvents clk token source f
  end.

Definition op_plain (op : fetch_op) : Prop :=
  match op with
  | OpFetch _ _ (inr l) => Forall plain_guid l
  | OpEvents _ _ (Some es) => Forall (λ e, plain_guid (ev_Route e)) es
  | _ => True
  end.

(** What an event means for the table: a deletion withdraws the address from
    the path, an upsert puts the endpoint there, other actions do nothing. *)
Definition event_effect (clk : fetch_clock) (q : list string) (m : gmap string (Endpoint * Z)) (ie : nat * Event)
    : gmap string (Endpoint * Z) :=
  let '(i, e) := ie in
  if String.eqb (ev_Action e) "Delete" then drop_route q m (ev_Route e)
  else if String.eqb (ev_Action e) "Upsert" then put_route q m (snd (clk i), ev_Route e)
  else m.

(** The list a poll was answered with, if both servers answered. *)
Definition answered (op : fetch_op) : option (fetch_clock * list Route) :=
  match op with
  | OpFetch clk (inr _) (inr l) => Some (clk, l)
  | _ => None
  end.

Definition op_effect (op : fetch_op) (old : list Route) (T T' : list string → gmap string (Endpoint * Z)) : Prop :=
  match op with
  | OpFetch clk (inr _) (inr valid) => refreshed clk old valid T T'
  | OpEvents clk (inr _) (Some es) => ∀ q, T' q = foldl (event_effect clk q) (T q) (imap pair es)
  | _ => T' = T
  end.

Inductive fetch_effects : list fetch_op → list Route → (list string → gmap string (Endpoint * Z)) →
    list Route → (list string → gmap string (Endpoint * Z)) → Prop :=
| fetch_done l T : fetch_effects [] l T l T
| fetch_more op ops l T T1 l2 T2 :
    op_effect op l T T1 → fetch_effects ops (from_option snd l (answered op)) T1 l2 T2 →
    fetch_effects (op :: ops) l T l2 T2.

Lemma HandleEvent_spec clk i e f :
  rf_ok f → plain_guid (ev_Route e) →
  ∃ f', HandleEvent (clk i) f e = Ok f' ∧ rf_ok f' ∧ rf_endpoints f' = rf_endpoints f
    ∧ ∀ q, rf_table f' q = event_effect clk q (rf_table f q) (i, e).
Proof.
  intros [Hc Hold] He. unfold HandleEvent, event_effect.
  destruct (String.eqb (ev_Action e) "Delete"); [|destruct (String.eqb (ev_Action e) "Upsert")].
  - destruct (unregister_routes [ev_Route e] (RouteRegistry_of f)) as (c & Hr & Hc' & Ht); [done|by repeat constructor|].
    cbn [foldM] in Hr. apply bind_Ok in Hr as (c1 & -> & [= ->]). cbn [mbind res_mbind].
    eexists. split_and!; [reflexivity|by split|done|exact Ht].
  - destruct (register_routes clk [ev_Route e] i (RouteRegistry_of f)) as (c & Hr & Hc' & Ht);
      [done|by repeat constructor|].
    cbn [foldM imap] in Hr. rewrite Nat.add_0_r in Hr. apply bind_Ok in Hr as (c1 & -> & [= ->]). cbn [mbind res_mbind].
    eexists. split_and!; [reflexivity|by split|done|]. intros q. unfold rf_table. cbn [set_registry RouteRegistry_of].
    rewrite Ht. cbn [imap foldl]. by rewrite Nat.add_0_r.
  - by exists f.
Qed.

Lemma events_loop clk es : ∀ k f,
  rf_ok f → Forall (λ e, plain_guid (ev_Route e)) es →
  ∃ f', foldM (λ f '(i, e), HandleEvent (clk i) f e) f (imap (λ i e, (k + i, e)) es) = Ok f' ∧ rf_ok f'
    ∧ rf_endpoints f' = rf_endpoints f
    ∧ ∀ q, rf_table f' q = foldl (event_effect clk q) (rf_table f q) (imap (λ i e, (k + i, e)) es).
Proof.
  induction es as [|e es IH]; intros k f Hf Hes; [by exists f|]. inversion Hes; subst. cbn [imap foldM foldl].
  rewrite Nat.add_0_r. destruct (HandleEvent_spec clk k e f) as (f1 & -> & Hf1 & He1 & Ht1); [done..|].
  cbn [mbind res_mbind]. rewrite (imap_ext _ (λ i e, (S k + i, e))) by (intros; simpl; f_equal; lia).
  destruct (IH (S k) f1 Hf1) as (f2 & -> & Hf2 & He2 & Ht2); [done|]. exists f2. split_and!; [done..|congruence|].
  intros q. by rewrite Ht2, Ht1.
Qed.

Lemma fetch_step_spec f op :
  rf_ok f → op_plain op →
  ∃ f', fetch_step f op = Ok f' ∧ rf_ok f' ∧ rf_endpoints f' = from_option snd (rf_endpoints f) (answered op)
    ∧ op_effect op (rf_endpoints f) (rf_table f) (rf_table f').
Proof.
  intros Hf Hop. destruct op as [clk [err|tok] [err2|valid]|clk [err|tok] [es|]]; try (eexists; done).
  - destruct (refreshEndpoints_spec clk valid (set_token tok f)) as (f' & Hr & Hf' & He & Ht); [done..|].
    exists f'. cbn [fetch_step FetchRoutes]. rewrite Hr. done.
  - destruct (events_loop clk es 0 (set_token tok f)) as (f' & Hr & Hf' & He & Ht); [done..|].
    exists f'. cbn [fetch_step subscribeToEvents]. change (imap pair es) with (imap (λ i e, (0 + i, e)) es). by rewrite Hr.
Qed.

(** C17: Any history of polls and event streams, with failures of the token
    server, of the routing API and of the stream anywhere, runs without a
    panic, provided the guids the routing API sends have no colon
    ([op_plain]); a poll that succeeds replaces the routes known from the
    previous one by the answer, leaving other registrations alone; events add
    and remove single endpoints; what fails has no effect on the table. With a
    colon in a guid events can make the router panic ([colon_guid_panics]). *)
Theorem fetcher_maintains_table ops f :
  rf_ok f → Forall op_plain ops →
  ∃ f', foldM fetch_step f ops = Ok f' ∧ rf_ok f'
    ∧ fetch_effects ops (rf_endpoints f) (rf_table f) (rf_endpoints f') (rf_table f').
Proof.
  revert f; induction ops as [|op ops IH]; intros f Hf Hops; [exists f; split_and!; [done..|constructor]|].
  inversion Hops; subst. destruct (fetch_step_spec f op) as (f1 & Hs & Hf1 & He1 & Ht1); [done..|].
  destruct (IH f1 Hf1) as (f2 & Hr & Hf2 & Hes); [done|]. exists f2. cbn [foldM]. rewrite Hs. split_and!; [done..|].
  econstructor; [done|]. by rewrite <- He1.
Qed.

(** The last successful poll of a history. *)
Definition last_answer (ops : list fetch_op) : option (fetch_clock * list Route) := last (omap answered ops).

Definition is_fetch (op : fetch_op) : Prop := match op with OpFetch _ _ _ => True | OpEvents _ _ _ => False end.

(** The table lists what the last poll answered, and nothing before the first. *)
Definition mirrors (ans : option (fetch_clock * list Route)) f : Prop :=
  rf_endpoints f = from_option snd [] ans
  ∧ ∀ q a, rf_table f q !! a = match ans with Some (clk, l) => listed (timed clk l) q a | None => None end.

Lemma fetch_mirrors f op ans :
  rf_ok f → op_plain op → is_fetch op → mirrors ans f →
  ∃ f', fetch_step f op = Ok f' ∧ rf_ok f' ∧ mirrors (match answered op with Some x => Some x | None => ans end) f'.
Proof.
  intros Hf Hop Hfetch [He HT]. destruct (fetch_step_spec f op Hf Hop) as (f' & Hs & Hf' & He' & Ht).
  exists f'. split_and!; [done..|]. destruct op as [clk [err|tok] [err2|valid]|]; [..|done].
  1-3: cbn [op_effect answered from_option] in *; split; [by rewrite He'|]; intros q a; by rewrite Ht.
  split; [done|]. intros q a. cbn [op_effect answered] in *. rewrite Ht.
  destruct (listed (timed clk valid) q a) as [v|]; [done|].
  destruct (decide (Exists _ _)) as [|HE]; [done|]. rewrite HT. destruct ans as [[clk0 l0]|]; [|done].
  apply listed_timed_None. by rewrite He in HE.
Qed.

(** C16: Polling mirrors the routing API.  Starting with nothing registered, after
    any number of polls the table holds exactly the routes of the last poll
    that succeeded, each under its path and address with the time it was
    registered; routes that disappeared from the answers are gone.  The guids the
    API sends are assumed to have no colon ([op_plain]): a guid that is the
    address of another route makes one endpoint replace the other. *)
Theorem polling_mirrors_routes ops f :
  rf_ok f → rf_endpoints f = [] → (∀ q, rf_table f q = ∅) →
  Forall op_plain ops → Forall is_fetch ops →
  ∃ f', foldM fetch_step f ops = Ok f' ∧ mirrors (last_answer ops) f'.
Proof.
  intros Hf He HT. unfold last_answer.
  assert (mirrors None f) as Hm by (split; [done|]; intros q a; by rewrite HT).
  clear He HT. revert f Hf Hm. induction ops as [|op ops IH] using rev_ind; intros f Hf Hm Hops Hfetch; [by exists f|].
  apply Forall_app in Hops as [Hops Hop]. apply Forall_app in Hfetch as [Hfs Hfe].
  inversion_clear Hop. inversion_clear Hfe.
  assert (∃ f1, foldM fetch_step f ops = Ok f1 ∧ rf_ok f1) as (f1 & Hr1 & Hf1).
  { apply (foldM_inv rf_ok); [done|]. intros f0 x Hx Hf0. rewrite Forall_forall in Hops.
    destruct (fetch_step_spec f0 x) as (f2 & ? & ? & _); eauto. }
  destruct (IH f Hf Hm Hops Hfs) as (f1' & Hr1' & Hm1). rewrite Hr1 in Hr1'. injection Hr1' as <-.
  destruct (fetch_mirrors f1 op _ Hf1 ltac:(done) ltac:(done) Hm1) as (f2 & Hs & _ & Hm2).
  exists f2. rewrite foldM_app, Hr1. cbn [mbind res_mbind foldM]. rewrite Hs. split; [done|].
  rewrite omap_app. cbn [omap list_omap]. destruct (answered op) as [x|]; [by rewrite last_snoc|by rewrite app_nil_r].
Qed.
End fetcher.

(** ** A concrete history *)

Definition route_a : Route := mkRoute "a.example.com" 80 "10.0.0.1" 120 "guid-a" "".
Definition route_b : Route := mkRoute "B.example.com/api" 80 "10.0.0.2" 120 "guid-b" "https://rs".
Definition route_b' : Route := mkRoute "b.example.com/api" 80 "10.0.0.2" 60 "guid-b2" "".

Definition sample_fetch_clock : fetch_clock := λ i, (Z.of_nat i, Z.of_nat i + 10)%Z.
Definition sample_polls : list fetch_op :=
  [OpFetch sample_fetch_clock (inr "t") (inr [route_a; route_b]);
   OpFetch sample_fetch_clock (inl "no token") (inr []);
   OpFetch sample_fetch_clock (inr "t") (inr [route_b']);
   OpFetch sample_fetch_clock (inr "t") (inl "timeout")].
Definition sample_events : fetch_op :=
  OpEvents sample_fetch_clock (inr "t")
    (Some [mkEvent route_a "Upsert"; mkEvent route_b "Delete"; mkEvent route_a "Unknown"]).
Definition sample_fetcher : RouteFetcher RouteRegistry :=
  NewRouteFetcher (mkClient (NewRouteRegistry 0 (120 * Second)) 1) (30 * Second) 1.

Lemma fetcher_maintains_table_witness :
  ∃ f', foldM fetch_step sample_fetcher (sample_polls ++ [sample_events]) = Ok f'
    ∧ fetch_effects (sample_polls ++ [sample_events]) [] (rf_table sample_fetcher) [route_b'] (rf_table f')
    ∧ rf_table f' (key_of route_a) !! "10.0.0.1:80" = Some (ep_of route_a, 10%Z)
    ∧ rf_table f' (key_of route_b) !! "10.0.0.2:80" = None.
Proof.
  destruct (fetcher_maintains_table (sample_polls ++ [sample_events]) sample_fetcher) as (f' & Hr & _ & He).
  - split; [apply client_ok_new|constructor].
  - repeat constructor.
  - exists f'. split; [exact Hr|]. vm_compute in Hr. injection Hr as <-. split_and!; [exact He|vm_compute; reflexivity..].
Defined.

Lemma polling_mirrors_routes_witness :
  ∃ f', foldM fetch_step sample_fetcher sample_polls = Ok f'
    ∧ mirrors (Some (sample_fetch_clock, [route_b'])) f'
    ∧ rf_table f' (key_of route_b) !! "10.0.0.2:80" = Some (ep_of route_b', 10%Z)
    ∧ rf_table f' (key_of route_a) !! "10.0.0.1:80" = None.
Proof.
  destruct (polling_mirrors_routes sample_polls sample_fetcher) as (f' & Hr & Hm).
  - split; [apply client_ok_new|constructor].
  - reflexivity.
  - intros q. change (listing (routes (NewRouteRegistry 0 (120 * Second)) q) = ∅).
    rewrite (proj2 (NewRouteRegistry_wf 0 (120 * Second)) q). reflexivity.
  - repeat constructor.
  - repeat constructor.
  - exists f'. split_and!; [exact Hr|exact Hm| |]; rewrite (proj2 Hm); vm_compute; reflexivity.
Defined.

(** ** Guids with a colon *)

Definition colon_route (port : Z) (guid : string) : Route := mkRoute "a.example.com" port "h" 120 guid "".

(** Two routes of one answer: the second replaces the first. *)
Example colon_guid_replaces :
  match foldM fetch_step sample_fetcher
    [OpFetch sample_fetch_clock (inr "t") (inr [colon_route 1 "h:2"; colon_route 2 "z"])] with
  | Ok f' => rf_table f' ["a.example.com"] !! "h:1" = None
  | _ => False
  end.
Proof. vm_compute. reflexivity. Qed.

Example colon_guid_panics :
  foldM fetch_step sample_fetcher [OpEvents sample_fetch_clock (inr "t") (Some
    [mkEvent (colon_route 9 "x") "Upsert"; mkEvent (colon_route 1 "h:2") "Upsert"; mkEvent (colon_route 2 "z") "Upsert";
     mkEvent (colon_route 1 "h:2") "Delete"; mkEvent (colon_route 1 "h:2") "Delete"])] = Panic out_of_range.
Proof. vm_compute. reflexivity. Qed.
