(* ===== verification/Sse.v ===== *)
(** * The event stream of the routing API (packages [sse] and [routing_api])

    Events are sent as text over a response that does not end.  A reader takes
    it apart line by line; an event source keeps a connection to read from and
    opens a new one when reading fails; the client of the routing API decodes
    the data of an event as a route. *)

From S2P Require Import Prelude GoStrings Utf8 Strconv Http Json JsonDecode RouteFetcher.

Definition newline : ascii := "010".
Definition return_ : ascii := "013".

(** ** Events *)

Record sse_Event := mkSseEvent {
  se_ID : string;
  se_Name : string;
  se_Data : string;
  se_Retry : Z;
}.

Definition data_line (line : string) : string :=
  if String.eqb line "" then "data" +:+ String newline "" else "data: " +:+ line +:+ String newline "".

(** [Event.Encode]; [Event.Write] writes the same. *)
Definition Encode (e : sse_Event) : string :=
  let enc := "id: " +:+ se_ID e +:+ String newline "" +:+ "event: " +:+ se_Name e +:+ String newline "" in
  let enc := if (se_Retry e =? 0)%Z then enc
             else enc +:+ "retry: " +:+ pretty (Z.quot (Z.quot (se_Retry e) 1000) 1000) +:+ String newline "" in
  let enc := foldl (λ enc line, enc +:+ data_line line) enc (strings_Split (se_Data e) newline) in
  enc +:+ String newline "".

(** ** Lines *)

(** The size of a [bufio.Reader]'s buffer. *)
Definition bufio_size : nat := 4096.

Definition drop_return (line : string) : string := strings_TrimSuffix line (String return_ "").

(** [ReadLine]: the line, whether it is only the first part of one, and the rest
    of the input; [None] at its end.  A carriage return at the end of a full
    buffer stays in the input. *)
Definition ReadLine (s : string) : option (string * bool * string) :=
  let full :=
    let line := str_take bufio_size s in
    let line := drop_return line in
    (line, true, str_drop (String.length line) s) in
  match strings_IndexByte s newline with
  | Some i => if i <? bufio_size then Some (drop_return (str_take i s), false, str_drop (S i) s) else Some full
  | None => if bufio_size <=? String.length s then Some full
            else if String.eqb s "" then None else Some (s, false, "")
  end.

(** ** The reader *)

Definition trim_space1 (value : string) : string :=
  match value with
  | String c v => if Ascii.eqb c " " then v else value
  | EmptyString => value
  end.

Definition set_ID (x : string) (e : sse_Event) : sse_Event := mkSseEvent x (se_Name e) (se_Data e) (se_Retry e).
Definition set_Name (x : string) (e : sse_Event) : sse_Event := mkSseEvent (se_ID e) x (se_Data e) (se_Retry e).
Definition set_Data (x : string) (e : sse_Event) : sse_Event := mkSseEvent (se_ID e) (se_Name e) x (se_Retry e).
Definition set_Retry (x : Z) (e : sse_Event) : sse_Event := mkSseEvent (se_ID e) (se_Name e) (se_Data e) x.

(** A line with a field; [idPresent] with the event. *)
Definition read_field (field value : string) (event : sse_Event) (idPresent : bool) : sse_Event * bool :=
  if String.eqb field "id" then (set_ID value event, true)
  else if String.eqb field "event" then (set_Name value event, idPresent)
  else if String.eqb field "data" then (set_Data (se_Data event +:+ value +:+ String newline "") event, idPresent)
  else if String.eqb field "retry" then
    match ParseInt value with
    | (retryInMS, None) => (set_Retry (wrap64 (retryInMS * Millisecond)) event, idPresent)
    | _ => (event, idPresent)
    end
  else (event, idPresent).

(** A complete line: either the event is dispatched, or reading goes on. *)
Definition read_line (line : string) (event : sse_Event) (idPresent : bool) : sse_Event + sse_Event * bool :=
  match line with
  | EmptyString =>
      if String.eqb (se_Data event) "" then inr (event, idPresent)
      else inl (set_Data (str_take (String.length (se_Data event) - 1) (se_Data event)) event)
  | String c _ =>
      if Ascii.eqb c ":" then inr (event, idPresent)
      else
        let '(field, value) := match strings_SplitN2 line ":" with
                               | [f; v] => (f, v)
                               | l => (default "" (head l), "")
                               end in
        inr (read_field field (trim_space1 value) event idPresent)
  end.

(** The loop of [ReadCloser.Next] on the rest [s] of the input: [None] at its
    end, otherwise the event, the last id and what is left. *)
Fixpoint Next_loop (fuel : nat) (lastID prefix s : string) (event : sse_Event) (idPresent : bool)
    : res (option (sse_Event * string * string)) :=
  match fuel with
  | O => NoFuel
  | S fuel' =>
      match ReadLine s with
      | None => Ok None
      | Some (line, isPrefix, s') =>
          let line := prefix +:+ line in
          if isPrefix then Next_loop fuel' lastID line s' event idPresent
          else
            match read_line line event idPresent with
            | inl e => Ok (Some (e, if idPresent then se_ID e else lastID, s'))
            | inr (event', idPresent') => Next_loop fuel' lastID "" s' event' idPresent'
            end
      end
  end.

Definition ReadCloser_Next (lastID s : string) : res (option (sse_Event * string * string)) :=
  Next_loop (S (String.length s)) lastID "" s (mkSseEvent lastID "" "" 0) false.

(** ** The event source *)

(** How a body ends: regularly, or with another error of reading. *)
Inductive body_end := EOF | Broken.

(** The answers to the requests of a source, in order. *)
Inductive answer :=
| NoAnswer
| StatusAnswer (code : Z)
| BodyAnswer (body : string) (ending : body_end).

Record ReadCloser := mkReadCloser { rc_lastID : string; rc_text : string; rc_end : body_end }.

(** [es_asked]: the [Last-Event-ID] of the requests made. *)
Record EventSource := mkEventSource {
  currentReadCloser : option ReadCloser;
  lastEventID : string;
  retryInterval : Z;
  es_closed : bool;
  es_answers : list answer;
  es_asked : list string;
}.

Definition NewEventSource (defaultRetryInterval : Z) (answers : list answer) : EventSource :=
  mkEventSource None "" defaultRetryInterval false answers [].

Inductive source_error := ErrEOF | ErrSourceClosed | BadResponse (code : Z) | ErrDecode.

(** A call returns a value or an error, or waits for an answer. *)
Inductive outcome (A : Type) :=
| Returns (a : A)
| Fails (e : source_error)
| Waits.
Arguments Returns {A} _.
Arguments Fails {A} _.
Arguments Waits {A}.

Definition retried (code : Z) : bool := bool_decide (code ∈ [500; 502; 503; 504]%Z).

(** [waitForRetry], of a source that is not closed: the reader is dropped. *)
Definition waitForRetry (src : EventSource) : EventSource :=
  mkEventSource None (lastEventID src) (retryInterval src) (es_closed src) (es_answers src) (es_asked src).

Definition asked (answers : list answer) (src : EventSource) : EventSource :=
  mkEventSource (currentReadCloser src) (lastEventID src) (retryInterval src) (es_closed src) answers (es_asked src ++ [lastEventID src]).

(** [establishConnection]: a request for every answer, until one that is not to
    be tried again. *)
Fixpoint establish_loop (answers : list answer) (src : EventSource) : outcome ReadCloser * EventSource :=
  match answers with
  | [] => (Waits, asked [] src)
  | NoAnswer :: answers' => if es_closed src then (Fails ErrSourceClosed, waitForRetry (asked answers' src))
                            else establish_loop answers' (waitForRetry (asked answers' src))
  | BodyAnswer body ending :: answers' => (Returns (mkReadCloser "" body ending), asked answers' src)
  | StatusAnswer code :: answers' =>
      let src1 := asked answers' src in
      if retried code then
        if es_closed src then (Fails ErrSourceClosed, waitForRetry src1) else establish_loop answers' (waitForRetry src1)
      else (Fails (BadResponse code), src1)
  end.

Definition establishConnection (src : EventSource) : outcome ReadCloser * EventSource := establish_loop (es_answers src) src.

Definition set_reader (rc : option ReadCloser) (src : EventSource) : EventSource :=
  mkEventSource rc (lastEventID src) (retryInterval src) (es_closed src) (es_answers src) (es_asked src).

Definition ensureReadCloser (src : EventSource) : outcome ReadCloser * EventSource :=
  match currentReadCloser src with
  | Some rc => (Returns rc, src)
  | None =>
      match establishConnection src with
      | (Returns rc, src1) => if es_closed src1 then (Fails ErrSourceClosed, src1) else (Returns rc, set_reader (Some rc) src1)
      | (o, src1) => (o, src1)
      end
  end.

Definition Connect (defaultRetryInterval : Z) (answers : list answer) : outcome EventSource :=
  match establishConnection (NewEventSource defaultRetryInterval answers) with
  | (Returns rc, src) => Returns (set_reader (Some rc) src)
  | (Fails e, _) => Fails e
  | (Waits, _) => Waits
  end.

(** The loop of [EventSource.Next]; every round after the first takes an answer. *)
Fixpoint source_loop (fuel : nat) (src : EventSource) : res (outcome sse_Event * EventSource) :=
  match fuel with
  | O => NoFuel
  | S fuel' =>
      match ensureReadCloser src with
      | (Fails e, src1) => Ok (Fails e, src1)
      | (Waits, src1) => Ok (Waits, src1)
      | (Returns rc, src1) =>
          r ← ReadCloser_Next (rc_lastID rc) (rc_text rc);
          match r with
          | Some (event, lastID, s) =>
              let interval := if (se_Retry event =? 0)%Z then retryInterval src1 else se_Retry event in
              Ok (Returns event, mkEventSource (Some (mkReadCloser lastID s (rc_end rc))) (se_ID event) interval (es_closed src1)
                (es_answers src1) (es_asked src1))
          | None =>
              match rc_end rc with
              | EOF => Ok (Fails ErrEOF, set_reader (Some (mkReadCloser (rc_lastID rc) "" EOF)) src1)
              | Broken => if es_closed src1 then Ok (Fails ErrSourceClosed, waitForRetry src1) else source_loop fuel' (waitForRetry src1)
              end
          end
      end
  end.

Definition source_Next (src : EventSource) : res (outcome sse_Event * EventSource) :=
  if es_closed src then Ok (Fails ErrSourceClosed, src) else source_loop (S (S (length (es_answers src)))) src.

(** [Close], once: the reader is closed and dropped. *)
Definition source_Close (src : EventSource) : EventSource :=
  mkEventSource None (lastEventID src) (retryInterval src) true (es_answers src) (es_asked src).

(** ** Routes *)

Definition route_zero : Route := mkRoute "" 0 "" 0 "" "".

Definition route_fields : list (string * decoder Route) :=
  [("route", field rt_Route (λ x '(mkRoute r p i t l s), mkRoute x p i t l s) decode_string);
   ("port", field rt_Port (λ x '(mkRoute r p i t l s), mkRoute r x i t l s) (decode_uint 16));
   ("ip", field rt_IP (λ x '(mkRoute r p i t l s), mkRoute r p x t l s) decode_string);
   ("ttl", field rt_TTL (λ x '(mkRoute r p i t l s), mkRoute r p i x l s) decode_int);
   ("log_guid", field rt_LogGuid (λ x '(mkRoute r p i t l s), mkRoute r p i t x s) decode_string);
   ("route_service_url", field rt_RouteServiceUrl (λ x '(mkRoute r p i t l s), mkRoute r p i t l x) decode_string)].

Definition convertRawEvent (event : sse_Event) : option Event :=
  match Unmarshal (decode_struct route_fields) (se_Data event) route_zero with
  | (route, true) => Some (mkEvent route (se_Name event))
  | (_, false) => None
  end.

(** [Next] of the client's event source. *)
Definition event_Next (src : EventSource) : res (outcome Event * EventSource) :=
  r ← source_Next src;
  Ok (match r with
      | (Returns raw, src1) =>
          match convertRawEvent raw with
          | Some e => (Returns e, src1)
          | None => (Fails ErrDecode, src1)
          end
      | (Fails e, src1) => (Fails e, src1)
      | (Waits, src1) => (Waits, src1)
      end).

(** The events that a loop over [Next] sees before it ends or waits. *)
Fixpoint events_from (fuel : nat) (src : EventSource) : res (list Event * outcome unit * EventSource) :=
  match fuel with
  | O => NoFuel
  | S fuel' =>
      r ← event_Next src;
      match r with
      | (Returns e, src1) => r1 ← events_from fuel' src1; let '(es, o, src2) := r1 in Ok (e :: es, o, src2)
      | (Fails e, src1) => Ok ([], Fails e, src1)
      | (Waits, src1) => Ok ([], Waits, src1)
      end
  end.

(** [db.Route] as JSON; the route service is left out where there is none. *)
Definition route_json (r : Route) : json :=
  JObj ([("route", json_string (rt_Route r)); ("port", json_int (rt_Port r)); ("ip", json_string (rt_IP r));
         ("ttl", json_int (rt_TTL r)); ("log_guid", json_string (rt_LogGuid r))]
        ++ if String.eqb (rt_RouteServiceUrl r) "" then [] else [("route_service_url", json_string (rt_RouteServiceUrl r))]).
