(* ===== verification/SseSpec.v ===== *)
(** * Events survive the stream

    What is encoded is read back, whatever is cut off behind it; the event
    source follows the stream over broken connections; and the fetcher applies
    exactly the events that were sent. *)

From S2P Require Import Prelude GoStrings Utf8 Uris Strconv Http Json JsonSpec JsonDecode JsonDecodeSpec MessageJson.
From S2P Require Import RegistryInterface Registry RouteFetcher RouteFetcherSpec Sse.

(** ** Lines *)

Lemma drop_return_app s t : t ≠ "" → drop_return (s +:+ t) = s +:+ drop_return t.
Proof.
  intros Ht. unfold drop_return, strings_TrimSuffix, strings_HasSuffix. rewrite str_length_app. cbn [String.length].
  assert (1 ≤ String.length t) as Hl by (destruct t; cbn; [done|lia]).
  rewrite (proj2 (Nat.leb_le 1 (String.length s + String.length t))), (proj2 (Nat.leb_le 1 (String.length t))) by lia. cbn [andb].
  replace (String.length s + String.length t - 1) with (String.length s + (String.length t - 1)) by lia.
  rewrite str_drop_app_plus, str_take_app_plus. by destruct (String.eqb _ _).
Qed.

Lemma drop_return_nil : drop_return "" = "".
Proof. done. Qed.

Lemma drop_return_length s : String.length s - 1 ≤ String.length (drop_return s) ≤ String.length s.
Proof.
  unfold drop_return, strings_TrimSuffix. destruct (strings_HasSuffix s _); [|lia]. cbn [String.length]. rewrite str_length_take. lia.
Qed.

Lemma drop_return_prefix s : ∃ t, s = drop_return s +:+ t.
Proof.
  unfold drop_return. destruct (TrimSuffix_spec s (String return_ "")) as [->|H]; [exists ""; by rewrite str_app_nil_r|by eexists].
Qed.

(** What is read of an input that begins with a long line. *)
Lemma drop_return_take_full l x : bufio_size ≤ String.length l →
  ∃ k, drop_return (str_take bufio_size (l +:+ x)) = str_take k l ∧ 0 < k ≤ String.length l ∧ drop_return l = str_take k l +:+ drop_return (str_drop k l).
Proof.
  intros Hl. rewrite str_take_app_le by done. set (u := str_take bufio_size l).
  assert (String.length u = bufio_size) as Hu by (subst u; rewrite str_length_take; lia).
  destruct (TrimSuffix_spec u (String return_ "")) as [Heq|Heq]; fold (drop_return u) in Heq.
  - exists bufio_size. split_and!; [by rewrite Heq|unfold bufio_size; lia|done|]. fold u.
    rewrite <- (str_take_drop bufio_size l) at 1. fold u. destruct (String.eqb_spec (str_drop bufio_size l) "") as [Hd|Hd].
    + rewrite Hd, !str_app_nil_r. by rewrite Heq.
    + by apply drop_return_app.
  - assert (String.length (drop_return u) = bufio_size - 1) as Hlen.
    { apply (f_equal String.length) in Heq. rewrite str_length_app, Hu in Heq. cbn [String.length] in Heq. lia. }
    exists (bufio_size - 1). split_and!; [|unfold bufio_size; lia|unfold bufio_size in *; lia|].
    + assert (drop_return u = str_take (bufio_size - 1) u) as ->.
      { rewrite Heq at 2. symmetry. apply str_take_app. by rewrite Hlen. }
      subst u. rewrite str_take_take by lia. done.
    + rewrite <- (str_take_drop (bufio_size - 1) l) at 1. apply drop_return_app. intros Hd.
      apply (f_equal String.length) in Hd. rewrite str_length_drop in Hd. cbn in Hd. unfold bufio_size in *. lia.
Qed.

Lemma ReadLine_short l rest : str_in newline l = false → String.length l < bufio_size →
  ReadLine (l +:+ String newline rest) = Some (drop_return l, false, rest).
Proof.
  intros Hl Hlen. unfold ReadLine. rewrite IndexByte_app by done. rewrite (proj2 (Nat.ltb_lt _ _)) by done.
  rewrite str_take_app by done. do 2 f_equal. replace (S (String.length l)) with (String.length l + 1) by lia. by rewrite str_drop_app_plus.
Qed.

Lemma ReadLine_long l rest : str_in newline l = false → bufio_size ≤ String.length l →
  ∃ k, ReadLine (l +:+ String newline rest) = Some (str_take k l, true, str_drop k l +:+ String newline rest)
    ∧ 0 < k ≤ String.length l ∧ drop_return l = str_take k l +:+ drop_return (str_drop k l).
Proof.
  intros Hl Hlen. destruct (drop_return_take_full l (String newline rest) Hlen) as (k & Hk & Hle & Hd). exists k. split; [|done].
  unfold ReadLine. rewrite IndexByte_app by done. rewrite (proj2 (Nat.ltb_ge _ _)) by done. rewrite Hk. do 2 f_equal.
  rewrite str_length_take, Nat.min_l by lia. apply str_drop_app_le; lia.
Qed.

Lemma ReadLine_shrinks s l p s' : ReadLine s = Some (l, p, s') → String.length s' < String.length s.
Proof.
  assert (bufio_size ≤ String.length s → String.length (str_drop (String.length (drop_return (str_take bufio_size s))) s) < String.length s) as Hfull.
  { intros Hle. rewrite str_length_drop. pose proof (drop_return_length (str_take bufio_size s)) as Hd. rewrite str_length_take in Hd.
    unfold bufio_size in *. lia. }
  unfold ReadLine. destruct (strings_IndexByte s newline) as [i|] eqn:Hi.
  - apply IndexByte_Some in Hi as (_ & _ & Hlt). destruct (Nat.ltb_spec i bufio_size).
    + intros Heq. assert (s' = str_drop (S i) s) as -> by congruence. rewrite str_length_drop. lia.
    + intros [= <- <- <-]. apply Hfull. lia.
  - destruct (Nat.leb_spec bufio_size (String.length s)); [by intros [= <- <- <-]; apply Hfull|].
    destruct (String.eqb_spec s ""); [done|]. intros [= <- <- <-]. by destruct s; [|cbn; lia].
Qed.

(** ** The loop *)

Lemma Next_loop_fuel f1 : ∀ f2 lastID prefix s ev idp,
  String.length s < f1 → String.length s < f2 → Next_loop f1 lastID prefix s ev idp = Next_loop f2 lastID prefix s ev idp.
Proof.
  induction f1 as [|f1 IH]; intros f2 lastID prefix s ev idp H1 H2; [lia|]. destruct f2 as [|f2]; [lia|]. cbn [Next_loop].
  destruct (ReadLine s) as [[[line p] s']|] eqn:Hr; [|done]. apply ReadLine_shrinks in Hr.
  destruct p; [apply IH; lia|]. destruct (read_line _ _ _) as [e|[ev' idp']]; [done|]. apply IH; lia.
Qed.

(** The loop with as much fuel as it needs. *)
Definition next_from (lastID prefix s : string) (ev : sse_Event) (idp : bool) : res (option (sse_Event * string * string)) :=
  Next_loop (S (String.length s)) lastID prefix s ev idp.

Lemma next_from_unfold lastID prefix s ev idp :
  next_from lastID prefix s ev idp =
  match ReadLine s with
  | None => Ok None
  | Some (line, true, s') => next_from lastID (prefix +:+ line) s' ev idp
  | Some (line, false, s') =>
      match read_line (prefix +:+ line) ev idp with
      | inl e => Ok (Some (e, if idp then se_ID e else lastID, s'))
      | inr (ev', idp') => next_from lastID "" s' ev' idp'
      end
  end.
Proof.
  unfold next_from at 1. cbn [Next_loop]. destruct (ReadLine s) as [[[line p] s']|] eqn:Hr; [|done]. apply ReadLine_shrinks in Hr.
  destruct p; [apply Next_loop_fuel; lia|]. destruct (read_line _ _ _) as [e|[ev' idp']]; [done|]. apply Next_loop_fuel; lia.
Qed.

(** A line is read whole, however long it is. *)
Lemma next_line lastID l : ∀ prefix rest ev idp, str_in newline l = false →
  next_from lastID prefix (l +:+ String newline rest) ev idp =
  match read_line (prefix +:+ drop_return l) ev idp with
  | inl e => Ok (Some (e, if idp then se_ID e else lastID, rest))
  | inr (ev', idp') => next_from lastID "" rest ev' idp'
  end.
Proof.
  remember (String.length l) as n eqn:Hn. revert l Hn. induction (lt_wf n) as [n _ IH]. intros l -> prefix rest ev idp Hl.
  rewrite next_from_unfold. destruct (Nat.lt_ge_cases (String.length l) bufio_size) as [Hlt|Hge].
  - by rewrite ReadLine_short.
  - destruct (ReadLine_long l rest Hl Hge) as (k & -> & Hk & Hd). rewrite Hd, <- str_app_assoc.
    apply (IH (String.length (str_drop k l))); [rewrite str_length_drop; lia|done|].
    rewrite <- (str_take_drop k l), str_in_app in Hl. by apply orb_false_iff in Hl as [_ Hl].
Qed.

(** The last line of the input, without an end, completes nothing. *)
Lemma next_partial lastID s : ∀ prefix ev idp, str_in newline s = false → next_from lastID prefix s ev idp = Ok None.
Proof.
  remember (String.length s) as n eqn:Hn. revert s Hn. induction (lt_wf n) as [n _ IH]. intros s -> prefix ev idp Hs.
  rewrite next_from_unfold. destruct (ReadLine s) as [[[line p] s']|] eqn:Hr; [|done]. pose proof (ReadLine_shrinks _ _ _ _ Hr) as Hlt.
  unfold ReadLine in Hr. rewrite (proj2 (IndexByte_None _ _) Hs) in Hr. destruct (bufio_size <=? String.length s).
  - injection Hr as <- <- <-. eapply IH; [exact Hlt|done|].
    rewrite <- (str_take_drop (String.length (drop_return (str_take bufio_size s))) s), str_in_app in Hs. by apply orb_false_iff in Hs as [_ Hs].
  - destruct (String.eqb_spec s ""); [done|]. injection Hr as <- <- <-. destruct s as [|c s]; [done|].
    assert (∃ d u, prefix +:+ String c s = String d u) as (d & u & ->) by (destruct prefix; by eexists _, _).
    cbn [read_line]. assert (∀ ev idp, next_from lastID "" "" ev idp = Ok None) as Hend by (intros; by rewrite next_from_unfold).
    destruct (Ascii.eqb d ":"); [apply Hend|].
    destruct (match strings_SplitN2 _ _ with [f; v] => (f, v) | l => _ end) as [f v]. destruct (read_field _ _ _ _). apply Hend.
Qed.

(** ** Reading an encoded event *)

Definition line_ok (s : string) : bool := negb (str_in newline s) && negb (strings_HasSuffix s (String return_ "")).

(** Ids, names and lines of data that are lines, and whole milliseconds. *)
Definition sse_ok (e : sse_Event) : Prop :=
  line_ok (se_ID e) = true ∧ line_ok (se_Name e) = true
  ∧ Forall (λ l, strings_HasSuffix l (String return_ "") = false) (strings_Split (se_Data e) newline)
  ∧ in_int64 (se_Retry e) ∧ Z.rem (se_Retry e) Millisecond = 0%Z.

Lemma drop_return_id s : strings_HasSuffix s (String return_ "") = false → drop_return s = s.
Proof. unfold drop_return, strings_TrimSuffix. by intros ->. Qed.

(** A line [name: value]. *)
Lemma next_field lastID name value rest ev idp c name' :
  name = String c name' → Ascii.eqb c ":" = false → str_in ":" name = false → str_in newline name = false →
  str_in newline value = false → strings_HasSuffix value (String return_ "") = false →
  next_from lastID "" (name +:+ ": " +:+ value +:+ String newline rest) ev idp =
  let '(ev', idp') := read_field name value ev idp in next_from lastID "" rest ev' idp'.
Proof.
  intros Hname Hc Hcolon Hn Hv Hret. replace (name +:+ ": " +:+ value +:+ String newline rest) with ((name +:+ ": " +:+ value) +:+ String newline rest) by (by rewrite !str_app_assoc).
  rewrite next_line by (by rewrite !str_in_app, Hn, Hv).
  replace (drop_return (name +:+ ": " +:+ value)) with (name +:+ ": " +:+ value).
  2:{ symmetry. rewrite <- str_app_assoc. destruct (String.eqb_spec value "") as [->|Hne].
      - rewrite str_app_nil_r. rewrite drop_return_app by done. done.
      - rewrite drop_return_app by done. by rewrite drop_return_id. }
  change ("" +:+ ?x) with x. assert (strings_SplitN2 (name +:+ ": " +:+ value) ":" = [name; " " +:+ value]) as Hsplit.
  { unfold strings_SplitN2. change (": " +:+ value) with (String ":" (" " +:+ value)). rewrite IndexByte_app by done.
    rewrite str_take_app by done. do 2 f_equal. replace (S (String.length name)) with (String.length name + 1) by lia. by rewrite str_drop_app_plus. }
  unfold read_line. rewrite Hsplit. rewrite Hname at 1. cbn [String.append]. rewrite Hc. cbn [trim_space1 String.append].
  change (Ascii.eqb " " " ") with true. cbv iota. by destruct (read_field name value ev idp).
Qed.

Lemma next_data lastID line rest ev idp :
  str_in newline line = false → strings_HasSuffix line (String return_ "") = false →
  next_from lastID "" (data_line line +:+ rest) ev idp =
  next_from lastID "" rest (set_Data (se_Data ev +:+ line +:+ String newline "") ev) idp.
Proof.
  intros Hl Hret. unfold data_line. destruct (String.eqb_spec line "") as [->|Hne].
  - rewrite str_app_assoc. change (String newline "" +:+ rest) with (String newline rest). rewrite next_line by done. done.
  - replace (("data: " +:+ line +:+ String newline "") +:+ rest) with ("data" +:+ ": " +:+ line +:+ String newline rest)
      by (cbn [String.append]; by rewrite str_app_assoc).
    by rewrite (next_field lastID "data" line rest ev idp "d" "ata").
Qed.

Lemma foldl_append {A} (f : A → string) l s : foldl (λ s x, s +:+ f x) s l = s +:+ foldr (λ x s, f x +:+ s) "" l.
Proof.
  revert s; induction l as [|x l IH]; intros s; cbn; [by rewrite str_app_nil_r|]. by rewrite IH, str_app_assoc.
Qed.

Lemma next_datas lastID lines : ∀ rest ev idp,
  Forall (λ l, str_in newline l = false) lines → Forall (λ l, strings_HasSuffix l (String return_ "") = false) lines →
  next_from lastID "" (foldr (λ x s, data_line x +:+ s) "" lines +:+ rest) ev idp =
  next_from lastID "" rest (set_Data (se_Data ev +:+ foldr (λ x s, x +:+ String newline "" +:+ s) "" lines) ev) idp.
Proof.
  induction lines as [|l lines IH]; intros rest ev idp H1 H2; cbn [foldr].
  - rewrite str_app_nil_r. by destruct ev.
  - apply Forall_cons in H1 as [Hl1 H1], H2 as [Hl2 H2]. rewrite str_app_assoc, next_data, IH by done. cbn [set_Data se_Data se_ID se_Name se_Retry].
    f_equal. unfold set_Data. cbn. f_equal. by rewrite !str_app_assoc.
Qed.

Lemma Join_lines l : l ≠ [] → foldr (λ x s, x +:+ String newline "" +:+ s) "" l = strings_Join l (String newline "") +:+ String newline "".
Proof.
  induction l as [|x [|y l] IH]; intros Hne; [done|done|].
  cbn [foldr strings_Join] in *. rewrite IH by done. by rewrite !str_app_assoc.
Qed.

(** A blank line ends the event. *)
Lemma next_blank lastID rest ev idp : se_Data ev ≠ "" →
  next_from lastID "" (String newline rest) ev idp =
  Ok (Some (set_Data (str_take (String.length (se_Data ev) - 1) (se_Data ev)) ev, if idp then se_ID ev else lastID, rest)).
Proof.
  intros Hd. rewrite (next_line lastID "" "" rest) by done. cbn [String.append drop_return_nil]. rewrite drop_return_nil. cbn [read_line].
  destruct (String.eqb_spec (se_Data ev) ""); [done|]. done.
Qed.

(** Numbers have no line breaks. *)
Lemma pretty_line (z : Z) : str_in newline (pretty z) = false ∧ strings_HasSuffix (pretty z) (String return_ "") = false.
Proof.
  assert (∀ s, all_digits s = true → s ≠ "" → str_in newline s = false ∧ strings_HasSuffix s (String return_ "") = false) as Hd.
  { intros s Hs Hne. split.
    - induction s as [|c s IH]; [done|]. cbn in Hs |- *. apply andb_true_iff in Hs as [Hc Hs]. rewrite orb_false_iff. split.
      + by destruct c as [[] [] [] [] [] [] [] []].
      + destruct (String.eqb_spec s "") as [->|]; [done|by apply IH].
    - apply not_true_iff_false. intros Hsuf. apply HasSuffix_spec in Hsuf. rewrite Hsuf in Hs. clear - Hs.
      induction (str_take _ s) as [|c u IH]; cbn in Hs; [done|]. apply andb_true_iff in Hs as [_ Hs]. by apply IH. }
  destruct (Z.le_gt_cases 0 z) as [Hz|Hz].
  - rewrite pretty_nonneg by done. destruct (pretty_digits (Z.to_N z)) as (H1 & _ & H3). by apply Hd.
  - destruct z as [| |p]; try lia. change (pretty (Z.neg p)) with ("-" +:+ pretty (N.pos p)).
    destruct (pretty_digits (N.pos p)) as (H1 & _ & H3). destruct (Hd _ H1 H3) as [Hn Hs]. split; [by rewrite str_in_app|].
    apply not_true_iff_false. intros Hsuf. rewrite <- not_true_iff_false in Hs. apply Hs. unfold strings_HasSuffix in *. cbn [String.length] in *.
    rewrite str_length_app in Hsuf. cbn [String.length] in Hsuf. assert (1 ≤ String.length (pretty (N.pos p))) as Hle by (destruct (pretty (N.pos p)); [done|cbn; lia]).
    replace (1 + String.length (pretty (N.pos p)) - 1) with (String.length "-" + (String.length (pretty (N.pos p)) - 1)) in Hsuf by (cbn; lia).
    rewrite str_drop_app_plus in Hsuf. rewrite (proj2 (Nat.leb_le _ _) Hle). by apply andb_true_iff in Hsuf as [_ Hsuf].
Qed.

Lemma read_encoded lastID e rest : sse_ok e → ReadCloser_Next lastID (Encode e +:+ rest) = Ok (Some (e, se_ID e, rest)).
Proof.
  intros (Hid & Hname & Hdata & Hr64 & Hms). unfold line_ok in Hid, Hname. rewrite !andb_true_iff, !negb_true_iff in Hid, Hname.
  destruct Hid as [Hid1 Hid2], Hname as [Hn1 Hn2]. unfold ReadCloser_Next. fold (next_from lastID "" (Encode e +:+ rest) (mkSseEvent lastID "" "" 0) false).
  unfold Encode. rewrite foldl_append.
  set (lines := strings_Split (se_Data e) newline) in *.
  set (retry := if (se_Retry e =? 0)%Z then "" else "retry: " +:+ pretty (Z.quot (Z.quot (se_Retry e) 1000) 1000) +:+ String newline "").
  assert (∀ enc, (if (se_Retry e =? 0)%Z then enc else enc +:+ "retry: " +:+ pretty (Z.quot (Z.quot (se_Retry e) 1000) 1000) +:+ String newline "") = enc +:+ retry) as Henc.
  { intros enc. subst retry. destruct (se_Retry e =? 0)%Z; [by rewrite str_app_nil_r|done]. }
  rewrite Henc, !str_app_assoc. change ("id: " +:+ ?x) with ("id" +:+ ": " +:+ x). change (String newline "" +:+ ?x) with (String newline x).
  rewrite (next_field lastID "id" (se_ID e) _ _ _ "i" "d") by done. cbn [read_field String.eqb Ascii.eqb Bool.eqb set_ID se_Name se_Data se_Retry].
  change ("event: " +:+ ?x) with ("event" +:+ ": " +:+ x). change (String newline "" +:+ retry +:+ ?x) with (String newline (retry +:+ x)).
  rewrite (next_field lastID "event" (se_Name e) _ _ _ "e" "vent") by done. cbn [read_field String.eqb Ascii.eqb Bool.eqb set_Name se_ID se_Data se_Retry].
  assert (∀ x, next_from lastID "" (retry +:+ x) (mkSseEvent (se_ID e) (se_Name e) "" 0) true = next_from lastID "" x (mkSseEvent (se_ID e) (se_Name e) "" (se_Retry e)) true) as Hretry.
  { intros x. subst retry. destruct (Z.eqb_spec (se_Retry e) 0) as [->|Hnz]; [done|].
    rewrite !str_app_assoc. change ("retry: " +:+ ?x) with ("retry" +:+ ": " +:+ x). change (String newline "" +:+ x) with (String newline x).
    set (ms := Z.quot (Z.quot (se_Retry e) 1000) 1000). assert (se_Retry e = (ms * Millisecond)%Z) as Hms'.
    { subst ms. rewrite Z.quot_quot by lia. change (1000 * 1000)%Z with Millisecond. pose proof (Z.quot_rem' (se_Retry e) Millisecond) as Hqr.
      rewrite Hms in Hqr. lia. }
    assert (in_int64 ms) as Hms64 by (unfold in_int64, Millisecond in *; lia).
    destruct (pretty_line ms) as [Hp1 Hp2].
    rewrite (next_field lastID "retry" (pretty ms) _ _ _ "r" "etry") by done. unfold read_field.
    cbn [String.eqb Ascii.eqb Bool.eqb]. rewrite ParseInt_pretty by done. rewrite <- Hms', wrap64_id by done. done. }
  rewrite Hretry, next_datas by (try apply strings_Split_no_sep; done).
  rewrite Join_lines by (subst lines; destruct (strings_Split_cons (se_Data e) newline) as (? & ? & ->); done).
  subst lines. rewrite strings_Split_Join. cbn [set_Data se_Data se_ID se_Name se_Retry String.append].
  rewrite next_blank by (cbn; by destruct (se_Data e)). cbn [se_Data se_ID set_Data se_Name se_Retry]. rewrite str_length_app. cbn [String.length].
  rewrite Nat.add_sub, str_take_app by done. by destruct e.
Qed.

(** ** Events that are cut off *)

Fixpoint text_of (es : list sse_Event) : string :=
  match es with
  | [] => ""
  | e :: es' => Encode e +:+ text_of es'
  end.

Definition with_lines (lines : list string) (last : string) : string := foldr (λ l s, l +:+ String newline s) last lines.

(** Lines that are not blank, and a line without an end. *)
Definition cut_off (t : string) : Prop :=
  ∃ lines last, t = with_lines lines last ∧ Forall (λ l, str_in newline l = false ∧ drop_return l ≠ "") lines ∧ str_in newline last = false.

Lemma next_cut_off lastID t ev idp : cut_off t → next_from lastID "" t ev idp = Ok None.
Proof.
  intros (lines & last & -> & Hlines & Hlast). revert ev idp. induction Hlines as [|l lines [Hl Hb] _ IH]; intros ev idp; cbn [with_lines foldr].
  - by apply next_partial.
  - rewrite next_line by done. change ("" +:+ ?x) with x. destruct (drop_return l) as [|c s]; [done|]. cbn [read_line].
    destruct (Ascii.eqb c ":"); [apply IH|]. destruct (match strings_SplitN2 _ _ with [f; v] => (f, v) | l => _ end) as [f v].
    destruct (read_field _ _ _ _). apply IH.
Qed.

Lemma str_in_prefix c s t u : s = t +:+ u → str_in c s = false → str_in c t = false.
Proof. intros ->. rewrite str_in_app. by intros [? _]%orb_false_iff. Qed.

Lemma app_split s t u v : s +:+ t = u +:+ v → String.length s ≤ String.length u → ∃ w, u = s +:+ w ∧ t = w +:+ v.
Proof.
  revert u; induction s as [|c s IH]; intros u Heq Hle; [by exists u|]. destruct u as [|d u]; cbn in *; [lia|].
  injection Heq as -> Heq. destruct (IH u Heq ltac:(lia)) as (w & -> & ->). by exists w.
Qed.

(** Every proper part of a block of lines is cut off. *)
Lemma prefix_cut_off lines : ∀ t u,
  Forall (λ l, str_in newline l = false ∧ drop_return l ≠ "") lines → with_lines lines (String newline "") = t +:+ u → u ≠ "" → cut_off t.
Proof.
  induction lines as [|l lines IH]; intros t u Hl Heq Hu; cbn [with_lines foldr] in Heq.
  - destruct t as [|c t]; [by exists [], ""|]. cbn in Heq. injection Heq as _ Heq. by destruct t, u.
  - apply Forall_cons in Hl as [Hl0 Hl]. destruct (Nat.le_gt_cases (String.length t) (String.length l)) as [Hle|Hgt].
    + destruct (app_split t u l _ (eq_sym Heq) Hle) as (w & Hw & _). exists [], t. split_and!; [done|constructor|].
      by apply (str_in_prefix _ l t w), Hl0.
    + destruct (app_split l (String newline (with_lines lines (String newline ""))) t u Heq ltac:(lia)) as (w & -> & Hw).
      destruct w as [|c w]; [rewrite str_length_app in Hgt; cbn in Hgt; lia|]. cbn [String.append] in Hw. injection Hw as <- Hw.
      destruct (IH w u Hl Hw Hu) as (lines' & last & -> & Hl' & Hlast). exists (l :: lines'), last. split_and!; [done|by constructor|done].
Qed.

Definition event_lines (e : sse_Event) : list string :=
  ["id: " +:+ se_ID e; "event: " +:+ se_Name e]
  ++ (if (se_Retry e =? 0)%Z then [] else ["retry: " +:+ pretty (Z.quot (Z.quot (se_Retry e) 1000) 1000)])
  ++ ((λ l, if String.eqb l "" then "data" else "data: " +:+ l) <$> strings_Split (se_Data e) newline).

Lemma with_lines_app l1 l2 s : with_lines (l1 ++ l2) s = with_lines l1 (with_lines l2 s).
Proof. unfold with_lines. by rewrite foldr_app. Qed.

Lemma Encode_lines e : Encode e = with_lines (event_lines e) (String newline "").
Proof.
  unfold Encode, event_lines. rewrite foldl_append, !with_lines_app. cbn [with_lines foldr].
  assert (∀ l, foldr (λ x s, data_line x +:+ s) "" l +:+ String newline ""
               = with_lines ((λ l, if String.eqb l "" then "data" else "data: " +:+ l) <$> l) (String newline "")) as Hdata.
  { induction l as [|x l IH]; [done|]. cbn [foldr fmap list_fmap with_lines] in *. rewrite str_app_assoc, IH. unfold data_line, with_lines.
    destruct (String.eqb x ""); by rewrite !str_app_assoc. }
  rewrite <- Hdata. destruct (se_Retry e =? 0)%Z; cbn [with_lines foldr]; rewrite !str_app_assoc; cbn [String.append]; rewrite ?str_app_assoc; done.
Qed.

Lemma prefix_not_blank c d s : drop_return (String c (String d s)) ≠ "".
Proof. intros Heq. pose proof (drop_return_length (String c (String d s))) as Hlen. rewrite Heq in Hlen. cbn in Hlen. lia. Qed.

(** A part of an event gives nothing. *)
Lemma encoded_prefix_cut_off e t u : sse_ok e → Encode e = t +:+ u → u ≠ "" → cut_off t.
Proof.
  intros (Hid & Hname & _) Heq Hu. unfold line_ok in Hid, Hname. apply andb_true_iff in Hid as [Hid _], Hname as [Hname _].
  apply negb_true_iff in Hid, Hname. apply (prefix_cut_off (event_lines e) t u); [|by rewrite <- Encode_lines|done].
  unfold event_lines. repeat apply Forall_app_2.
  - repeat constructor; rewrite ?str_in_app, ?Hid, ?Hname; try done; apply prefix_not_blank.
  - destruct (se_Retry e =? 0)%Z; repeat constructor; [|apply prefix_not_blank].
    rewrite str_in_app. by rewrite (proj1 (pretty_line _)).
  - apply Forall_fmap. eapply Forall_impl; [apply strings_Split_no_sep|]. intros l Hl. cbv beta in *. unfold compose.
    destruct (String.eqb l ""); (split; [|apply prefix_not_blank]); [done|by rewrite str_in_app, Hl].
Qed.

(** * The event source over broken connections *)

(** ** Rounds *)

Lemma establish_shrinks answers : ∀ src rc src',
  establish_loop answers src = (Returns rc, src') → length (es_answers src') < length answers.
Proof.
  induction answers as [|[|code|body ending] answers IH]; intros src rc src'; cbn; [done| | |].
  - destruct (es_closed src); [done|]. intros He%IH. lia.
  - destruct (retried code); [|done]. destruct (es_closed src); [done|]. intros He%IH. lia.
  - intros [= _ <-]. cbn. lia.
Qed.

(** Rounds a source may need: one for its reader, and one for every answer. *)
Definition rounds (src : EventSource) : nat := length (es_answers src) + match currentReadCloser src with Some _ => 2 | None => 1 end.

Lemma ensure_rounds src rc src' :
  ensureReadCloser src = (Returns rc, src') → length (es_answers src') + 1 < rounds src.
Proof.
  unfold ensureReadCloser, rounds. destruct (currentReadCloser src) as [rc0|] eqn:Hrc.
  - intros [= _ <-]. lia.
  - destruct (establishConnection src) as [[rc1| |] src1] eqn:He; [|done..]. unfold establishConnection in He. apply establish_shrinks in He.
    destruct (es_closed src1); [done|]. intros [= _ <-]. cbn. lia.
Qed.

Lemma source_loop_fuel f1 : ∀ f2 src, rounds src ≤ f1 → rounds src ≤ f2 → source_loop f1 src = source_loop f2 src.
Proof.
  assert (∀ src, 0 < rounds src) as Hpos by (intros src; unfold rounds; destruct (currentReadCloser src); lia).
  induction f1 as [|f1 IH]; intros f2 src H1 H2; [specialize (Hpos src); lia|]. destruct f2 as [|f2]; [specialize (Hpos src); lia|].
  cbn [source_loop]. destruct (ensureReadCloser src) as [[rc| |] src1] eqn:He; [|done..]. apply ensure_rounds in He.
  apply bind_ext. intros [[[ev id] s]|]; [done|]. destruct (rc_end rc); [done|]. destruct (es_closed src1); [done|].
  apply IH; unfold rounds; cbn; lia.
Qed.

Lemma source_Next_loop src fuel : es_closed src = false → rounds src ≤ fuel → source_Next src = source_loop fuel src.
Proof.
  intros Hc Hf. unfold source_Next. rewrite Hc. apply source_loop_fuel; [|done]. unfold rounds. destruct (currentReadCloser src); lia.
Qed.

(** A source without a reader opens one first. *)
Lemma source_establish src rc src1 :
  es_closed src = false → currentReadCloser src = None → establishConnection src = (Returns rc, src1) → es_closed src1 = false →
  source_Next src = source_Next (set_reader (Some rc) src1).
Proof.
  intros Hc Hrc He Hc1. pose proof He as Hlen. unfold establishConnection in Hlen. apply establish_shrinks in Hlen.
  rewrite (source_Next_loop src (S (S (length (es_answers src)))) Hc) by (unfold rounds; rewrite Hrc; lia).
  rewrite (source_Next_loop (set_reader (Some rc) src1) (S (S (length (es_answers src)))) Hc1) by (unfold rounds; cbn; lia).
  cbn [source_loop]. unfold ensureReadCloser. rewrite Hrc, He, Hc1. done.
Qed.

(** A reader that has an event. *)
Lemma source_reads src lastID e rest ending :
  es_closed src = false → currentReadCloser src = Some (mkReadCloser lastID (Encode e +:+ rest) ending) → sse_ok e →
  source_Next src = Ok (Returns e, mkEventSource (Some (mkReadCloser (se_ID e) rest ending)) (se_ID e)
    (if (se_Retry e =? 0)%Z then retryInterval src else se_Retry e) false (es_answers src) (es_asked src)).
Proof.
  intros Hc Hrc He. rewrite (source_Next_loop src _ Hc (le_n _)). unfold rounds. rewrite Hrc, Nat.add_comm. cbn [Nat.add source_loop].
  unfold ensureReadCloser. rewrite Hrc. cbn [rc_lastID rc_text rc_end]. rewrite read_encoded by done. cbn [mbind res_mbind]. by rewrite Hc.
Qed.

(** A reader that has none any more. *)
Lemma source_ends src lastID t :
  es_closed src = false → currentReadCloser src = Some (mkReadCloser lastID t EOF) → cut_off t →
  source_Next src = Ok (Fails ErrEOF, set_reader (Some (mkReadCloser lastID "" EOF)) src).
Proof.
  intros Hc Hrc Ht. rewrite (source_Next_loop src _ Hc (le_n _)). unfold rounds. rewrite Hrc, Nat.add_comm. cbn [Nat.add source_loop].
  unfold ensureReadCloser. rewrite Hrc. cbn [rc_lastID rc_text rc_end]. unfold ReadCloser_Next.
  fold (next_from lastID "" t (mkSseEvent lastID "" "" 0) false). by rewrite next_cut_off.
Qed.

Lemma source_breaks src lastID t :
  es_closed src = false → currentReadCloser src = Some (mkReadCloser lastID t Broken) → cut_off t →
  source_Next src = source_Next (waitForRetry src).
Proof.
  intros Hc Hrc Ht. assert (∃ k, rounds src ≤ S k ∧ rounds (waitForRetry src) ≤ k) as (k & H1 & H2).
  { exists (S (length (es_answers src))). unfold rounds. rewrite Hrc. cbn. lia. }
  rewrite (source_Next_loop src (S k) Hc H1), (source_Next_loop (waitForRetry src) k) by done. cbn [source_loop].
  unfold ensureReadCloser. rewrite Hrc. cbn [rc_lastID rc_text rc_end]. unfold ReadCloser_Next.
  fold (next_from lastID "" t (mkSseEvent lastID "" "" 0) false). rewrite next_cut_off by done. cbn [mbind res_mbind]. by rewrite Hc.
Qed.

(** ** What the servers do *)

(** Requests that are refused for now, connections that break within an event,
    and one that ends. *)
Inductive plan :=
| LastSession (es : list sse_Event) (tail : string)
| BrokenSession (es : list sse_Event) (tail : string) (p : plan)
| RefusedThen (code : option Z) (p : plan).

Fixpoint plan_answers (p : plan) : list answer :=
  match p with
  | LastSession es tail => [BodyAnswer (text_of es +:+ tail) EOF]
  | BrokenSession es tail p' => BodyAnswer (text_of es +:+ tail) Broken :: plan_answers p'
  | RefusedThen None p' => NoAnswer :: plan_answers p'
  | RefusedThen (Some code) p' => StatusAnswer code :: plan_answers p'
  end.

Fixpoint plan_events (p : plan) : list sse_Event :=
  match p with
  | LastSession es _ => es
  | BrokenSession es _ p' => es ++ plan_events p'
  | RefusedThen _ p' => plan_events p'
  end.

Fixpoint plan_ok (p : plan) : Prop :=
  match p with
  | LastSession es tail => Forall sse_ok es ∧ cut_off tail
  | BrokenSession es tail p' => Forall sse_ok es ∧ cut_off tail ∧ plan_ok p'
  | RefusedThen code p' => match code with Some c => retried c = true | None => True end ∧ plan_ok p'
  end.

Definition last_id (id : string) (es : list sse_Event) : string := default id (se_ID <$> last es).

(** The [Last-Event-ID] of the requests: that of the event seen last. *)
Fixpoint plan_asked (id : string) (p : plan) : list string :=
  match p with
  | LastSession _ _ => [id]
  | BrokenSession es _ p' => id :: plan_asked (last_id id es) p'
  | RefusedThen _ p' => id :: plan_asked id p'
  end.

Lemma last_id_cons id e es : last_id id (e :: es) = last_id (se_ID e) es.
Proof. unfold last_id. rewrite last_cons. by destruct (last es). Qed.

(** ** Following *)

Lemma events_same fuel src src' : source_Next src = source_Next src' → events_from fuel src = events_from fuel src'.
Proof. intros Heq. destruct fuel; [done|]. cbn [events_from]. unfold event_Next. by rewrite Heq. Qed.

(** The events of one reader, and what is left then. *)
Lemma follow_reader es : ∀ evs fuel src lastID tail ending,
  es_closed src = false → currentReadCloser src = Some (mkReadCloser lastID (text_of es +:+ tail) ending) → Forall sse_ok es →
  Forall2 (λ raw e, convertRawEvent raw = Some e) es evs →
  ∃ src' id', events_from (length es + fuel) src
      = (r ← events_from fuel src'; let '(more, o, src2) := r in Ok (evs ++ more, o, src2))
    ∧ es_closed src' = false ∧ currentReadCloser src' = Some (mkReadCloser id' tail ending)
    ∧ lastEventID src' = last_id (lastEventID src) es ∧ es_answers src' = es_answers src ∧ es_asked src' = es_asked src.
Proof.
  induction es as [|e es IH]; intros evs fuel src lastID tail ending Hc Hrc Hok Hev.
  - inversion Hev; subst. exists src, lastID. split_and!; try done. cbn [length Nat.add].
    destruct (events_from fuel src) as [[[more o] src2]| |]; done.
  - inversion Hev as [|raw ev es' evs' Hconv Hev' Heq1 Heq2]; subst. apply Forall_cons in Hok as [He Hok].
    cbn [text_of] in Hrc. rewrite str_app_assoc in Hrc. pose proof (source_reads src lastID e _ ending Hc Hrc He) as Hnext.
    set (src1 := mkEventSource _ _ _ _ _ _) in Hnext.
    destruct (IH evs' fuel src1 (se_ID e) tail ending eq_refl eq_refl Hok Hev') as (src' & id' & Hrun & Hc' & Hrc' & Hid & Hans & Hask).
    exists src', id'. cbn [length Nat.add events_from]. unfold event_Next. rewrite Hnext. cbn [mbind res_mbind]. rewrite Hconv, Hrun.
    split_and!; try done; [|by rewrite last_id_cons]. destruct (events_from fuel src') as [[[more o] src2]| |]; done.
Qed.

Lemma follow_plan p : ∀ evs fuel src,
  es_closed src = false → currentReadCloser src = None → es_answers src = plan_answers p → plan_ok p →
  Forall2 (λ raw e, convertRawEvent raw = Some e) (plan_events p) evs →
  ∃ src', events_from (length evs + S fuel) src = Ok (evs, Fails ErrEOF, src')
    ∧ es_asked src' = es_asked src ++ plan_asked (lastEventID src) p.
Proof.
  induction p as [es tail|es tail p IH|code p IH]; intros evs fuel src Hc Hrc Hans Hok Hev; cbn [plan_answers plan_events plan_ok plan_asked] in *.
  - destruct Hok as [Hok Ht]. set (src1 := set_reader (Some (mkReadCloser "" (text_of es +:+ tail) EOF)) (asked [] src)).
    rewrite (events_same _ src src1) by (apply source_establish; try done; unfold establishConnection; by rewrite Hans).
    destruct (follow_reader es evs (S fuel) src1 "" tail EOF) as (src' & id' & Hrun & Hc' & Hrc' & _ & _ & Hask); [done..|].
    rewrite <- (Forall2_length _ _ _ Hev), Hrun. cbn [events_from]. unfold event_Next. rewrite (source_ends src' id' tail) by done.
    cbn. rewrite app_nil_r. eexists. split; [reflexivity|]. cbn. by rewrite Hask.
  - destruct Hok as (Hok & Ht & Hp). apply Forall2_app_inv_l in Hev as (evs1 & evs2 & Hev1 & Hev2 & ->).
    set (src1 := set_reader (Some (mkReadCloser "" (text_of es +:+ tail) Broken)) (asked (plan_answers p) src)).
    rewrite (events_same _ src src1) by (apply source_establish; try done; unfold establishConnection; by rewrite Hans).
    destruct (follow_reader es evs1 (length evs2 + S fuel) src1 "" tail Broken) as (src' & id' & Hrun & Hc' & Hrc' & Hid & Hans' & Hask); [done..|].
    rewrite length_app, <- Nat.add_assoc, <- (Forall2_length _ _ _ Hev1), Hrun.
    rewrite (events_same _ src' (waitForRetry src')) by (by apply (source_breaks _ id' tail)).
    destruct (IH evs2 fuel (waitForRetry src')) as (src2 & -> & Hask2); [done|done|by cbn; rewrite Hans'|done..|].
    cbn [mbind res_mbind]. exists src2. split; [done|]. rewrite Hask2. cbn. rewrite Hask, Hid. cbn. by rewrite <- app_assoc.
  - destruct Hok as [Hcode Hp]. set (src1 := waitForRetry (asked (plan_answers p) src)).
    assert (events_from (length evs + S fuel) src = events_from (length evs + S fuel) src1) as ->.
    { apply events_same. unfold source_Next. rewrite Hc. cbn [es_closed src1 waitForRetry asked]. rewrite Hc.
      assert (∀ f, source_loop (S f) src = source_loop (S f) src1) as Hsame.
      { intros f. cbn [source_loop]. unfold ensureReadCloser, establishConnection. rewrite Hrc. cbn [currentReadCloser src1 waitForRetry].
        replace (establish_loop (es_answers src) src) with (establish_loop (es_answers src1) src1); [done|]. rewrite Hans.
        destruct code as [c|]; cbn [establish_loop]; rewrite ?Hcode, Hc; done. }
      rewrite Hsame. apply source_loop_fuel; unfold rounds, src1; cbn; rewrite ?Hans; destruct code; cbn; lia. }
    destruct (IH evs fuel src1) as (src2 & -> & Hask2); [done..|]. exists src2. split; [done|]. rewrite Hask2. cbn. by rewrite <- app_assoc.
Qed.

(** Connecting is the first round of following. *)
Lemma connect_plan p : ∀ src,
  es_closed src = false → currentReadCloser src = None → es_answers src = plan_answers p → plan_ok p →
  ∃ rc src1, establishConnection src = (Returns rc, src1) ∧ es_closed src1 = false.
Proof.
  induction p as [es tail|es tail p IH|code p IH]; intros src Hc Hrc Hans Hok; unfold establishConnection; rewrite Hans; cbn.
  1,2: eexists _, _; split; [reflexivity|done].
  destruct Hok as [Hcode Hp].
  destruct (IH (waitForRetry (asked (plan_answers p) src)) Hc eq_refl eq_refl Hp) as (rc & src1 & He & Hc1). exists rc, src1.
  unfold establishConnection in He. cbn in He. destruct code as [c|]; cbn; rewrite ?Hcode, Hc; done.
Qed.

(** ** Routes in events *)

Definition route_encodable (r : Route) : Prop :=
  valid_utf8 (rt_Route r) = true ∧ valid_utf8 (rt_IP r) = true ∧ valid_utf8 (rt_LogGuid r) = true ∧ valid_utf8 (rt_RouteServiceUrl r) = true
  ∧ (0 ≤ rt_Port r < 65536)%Z ∧ in_int64 (rt_TTL r).

(** The text of an event: the action is its name, the route its data. *)
Definition sent_as (raw : sse_Event) (e : Event) : Prop :=
  se_Name raw = ev_Action e ∧ se_Data raw = print_json (route_json (ev_Route e)) ∧ route_encodable (ev_Route e).

Lemma route_json_ok r : json_ok (route_json r) = true.
Proof.
  unfold route_json. destruct (String.eqb (rt_RouteServiceUrl r) ""); cbn [json_ok forallb app fst snd]; by rewrite !json_ok_string, !json_ok_int.
Qed.

Lemma convert_sent raw e : sent_as raw e → convertRawEvent raw = Some e.
Proof.
  intros (Hname & Hdata & (Hr & Hi & Hl & Hs & Hp & Ht)). unfold convertRawEvent. rewrite Hdata, Unmarshal_print by apply route_json_ok.
  unfold route_json. cbn [decode_struct]. unfold route_zero. destruct e as [[r p i t l s] action].
  cbn [ev_Route ev_Action rt_Route rt_Port rt_IP rt_TTL rt_LogGuid rt_RouteServiceUrl] in *.
  destruct (String.eqb_spec s "") as [->|Hne]; cbn [app].
  all: repeat (erewrite decode_members_step; [|reflexivity|reflexivity|
    apply field_step; cbn [rt_Route rt_Port rt_IP rt_TTL rt_LogGuid rt_RouteServiceUrl];
    first [by apply decode_string_valid|by apply decode_int_int|by apply decode_uint_int]]; cbv beta iota).
  all: cbn [decode_members]; rewrite bool_decide_true by done; by rewrite Hname.
Qed.

(** C13: From the text of the event stream to the routing table.  The routing
    API's event stream may be refused for a while (no answer, or a status 500,
    502, 503 or 504), and its connections may break anywhere within an event.
    The API writes its events as the library does, with routes that JSON can
    carry ([sse_ok], [sent_as]).  A subscription sees exactly the events that
    were sent completely, in order, until the end of the stream (an event that
    was cut off and is not sent again is lost); every request names the last
    event seen; and, if the guids of these events have no colon ([plain_guid]),
    nothing panics and the table changes by exactly these events. *)
Theorem event_stream_to_table {R} `{RegistryInterface R} p evs clk token (f : RouteFetcher R) :
  plan_ok p → Forall2 sent_as (plan_events p) evs → Forall (λ e, plain_guid (ev_Route e)) evs → rf_ok f →
  ∃ src src' f', Connect Second (plan_answers p) = Returns src
    ∧ events_from (S (length evs)) src = Ok (evs, Fails ErrEOF, src')
    ∧ es_asked src' = plan_asked "" p
    ∧ subscribeToEvents clk (inr token) (Some evs) f = Ok f' ∧ rf_ok f'
    ∧ ∀ q, rf_table f' q = foldl (event_effect clk q) (rf_table f q) (imap pair evs).
Proof.
  intros Hp Hev Hplain Hf. set (src0 := NewEventSource Second (plan_answers p)).
  destruct (connect_plan p src0) as (rc & src1 & He & Hc1); [done..|].
  destruct (follow_plan p evs 0 src0) as (src' & Hrun & Hask); [done..|by apply (Forall2_impl _ _ _ _ Hev), convert_sent|].
  destruct (fetch_step_spec f (OpEvents clk (inr token) (Some evs)) Hf Hplain) as (f' & Hs & Hf' & _ & Ht).
  exists (set_reader (Some rc) src1), src', f'. unfold Connect. fold src0. rewrite He.
  rewrite <- (events_same _ src0) by (by apply source_establish). rewrite Nat.add_1_r in Hrun. by split_and!.
Qed.

(** ** A stream over three connections *)

Definition raw_event (id : string) (e : Event) : sse_Event := mkSseEvent id (ev_Action e) (print_json (route_json (ev_Route e))) 0.

Definition stream_events : list Event := [mkEvent route_a "Upsert"; mkEvent route_b "Upsert"; mkEvent route_a "Delete"].

Definition sample_plan : plan :=
  RefusedThen (Some 503%Z) (BrokenSession [raw_event "1" (mkEvent route_a "Upsert")] (str_take 30 (Encode (raw_event "2" (mkEvent route_b "Upsert"))))
    (RefusedThen None (LastSession [raw_event "2" (mkEvent route_b "Upsert"); raw_event "3" (mkEvent route_a "Delete")] ""))).

Lemma sample_sse_ok id e : line_ok id = true → e ∈ stream_events → sse_ok (raw_event id e).
Proof.
  intros Hid He. unfold stream_events in He. rewrite !elem_of_cons in He.
  destruct He as [->|[->|[->|He]]]; [..|by apply elem_of_nil in He].
  all: split_and!; [done|done|vm_compute; repeat constructor|by vm_compute|done].
Qed.

Lemma sample_plan_ok : plan_ok sample_plan.
Proof.
  assert (cut_off "") as Hempty by (by exists [], "").
  cbn [sample_plan plan_ok]. split_and!; [done| | |done| |done].
  - repeat constructor. apply sample_sse_ok; [done|by left].
  - apply (encoded_prefix_cut_off (raw_event "2" (mkEvent route_b "Upsert")) _ (str_drop 30 (Encode (raw_event "2" (mkEvent route_b "Upsert")))));
      [apply sample_sse_ok; [done|right; by left]|by rewrite str_take_drop|vm_compute; discriminate].
  - repeat constructor; apply sample_sse_ok; try done; [right; by left|right; right; by left].
Qed.

Lemma event_stream_to_table_witness :
  ∃ src src' f', Connect Second (plan_answers sample_plan) = Returns src
    ∧ events_from (S (length stream_events)) src = Ok (stream_events, Fails ErrEOF, src')
    ∧ es_asked src' = [""; ""; "1"; "1"]
    ∧ subscribeToEvents sample_fetch_clock (inr "t") (Some stream_events) sample_fetcher = Ok f'
    ∧ rf_table f' (key_of route_a) = ∅ ∧ size (rf_table f' (key_of route_b)) = 1.
Proof.
  destruct (event_stream_to_table sample_plan stream_events sample_fetch_clock "t" sample_fetcher)
    as (src & src' & f' & Hconn & Hrun & Hask & Hsub & _ & _).
  - apply sample_plan_ok.
  - repeat constructor; vm_compute; try reflexivity; try discriminate.
  - repeat constructor.
  - split; [apply client_ok_new|constructor].
  - exists src, src', f'. split_and!; [exact Hconn|exact Hrun|exact Hask|exact Hsub|..].
    all: vm_compute in Hsub; injection Hsub as <-; vm_compute; reflexivity.
Defined.
