(* ===== verification/Connections.v ===== *)
(** * Client connections and draining (src/router/router.go)

    [HandleConnState] is the callback the HTTP server runs at each change of
    state of a connection; it keeps the sets of idle and active connections.
    Draining closes the idle ones and is signalled when no active one is left.
    Everything here runs with [connLock] held, so the operations are atomic.
    A connection and a channel are known by their addresses; closing a channel
    twice is a panic. *)

From stdpp Require Import gmap.
From S2P Require Import Prelude.

(** [http.ConnState]. *)
Inductive ConnState := StateNew | StateActive | StateIdle | StateHijacked | StateClosed.

#[export] Instance ConnState_eq_dec : EqDecision ConnState.
Proof. solve_decision. Defined.

(** The fields of [Router] under [connLock], the channels made by [Drain] with
    whether they are closed, and what was done to the connections: which ones
    the router closed, and their deadlines. *)
Record ConnTable := mkConns {
  closeConnections : bool;
  idleConns : gset positive;
  activeConns : gset positive;
  drainDone : option positive;
  channels : gmap positive bool;
  conns_closed : gset positive;
  deadlines : gmap positive (option Z);
}.

Definition NewConnTable : ConnTable := mkConns false ∅ ∅ None ∅ ∅ ∅.

Definition set_sets (idle active : gset positive) (r : ConnTable) : ConnTable :=
  mkConns (closeConnections r) idle active (drainDone r) (channels r) (conns_closed r) (deadlines r).
Definition set_drainDone (d : option positive) (r : ConnTable) : ConnTable :=
  mkConns (closeConnections r) (idleConns r) (activeConns r) d (channels r) (conns_closed r) (deadlines r).
Definition set_channels (m : gmap positive bool) (r : ConnTable) : ConnTable :=
  mkConns (closeConnections r) (idleConns r) (activeConns r) (drainDone r) m (conns_closed r) (deadlines r).
Definition conn_Close (conn : positive) (r : ConnTable) : ConnTable :=
  mkConns (closeConnections r) (idleConns r) (activeConns r) (drainDone r) (channels r) ({[conn]} ∪ conns_closed r)
    (deadlines r).
Definition conn_SetDeadline (conn : positive) (d : option Z) (r : ConnTable) : ConnTable :=
  mkConns (closeConnections r) (idleConns r) (activeConns r) (drainDone r) (channels r) (conns_closed r)
    (<[conn := d]> (deadlines r)).

Definition close_channel (ch : positive) (r : ConnTable) : res ConnTable :=
  match channels r !! ch with
  | Some false => Ok (set_channels (<[ch := true]> (channels r)) r)
  | Some true => Panic "close of closed channel"
  | None => Panic "close of nil channel"
  end.

(** [now] is the time read when a connection becomes idle; [None] is the zero
    time, which means no deadline. *)
Definition HandleConnState (endpointTimeout now : Z) (conn : positive) (state : ConnState) (r : ConnTable)
    : res ConnTable :=
  let r1 :=
    match state with
    | StateActive =>
        conn_SetDeadline conn None (set_sets (idleConns r ∖ {[conn]}) ({[conn]} ∪ activeConns r) r)
    | StateIdle =>
        let r' := set_sets ({[conn]} ∪ idleConns r) (activeConns r ∖ {[conn]}) r in
        if closeConnections r' then conn_Close conn r'
        else conn_SetDeadline conn (if (0 <? endpointTimeout)%Z then Some (time_Add now endpointTimeout) else None) r'
    | StateHijacked | StateClosed =>
        let idle := idleConns r ∖ {[conn]} in
        if decide (size (idleConns r) = size idle) then set_sets idle (activeConns r ∖ {[conn]}) r
        else set_sets idle (activeConns r) r
    | StateNew => r
    end in
  match drainDone r1 with
  | Some ch =>
      if decide (size (activeConns r1) = 0) then r2 ← close_channel ch r1; Ok (set_drainDone None r2) else Ok r1
  | None => Ok r1
  end.

Definition closeIdleConns (r : ConnTable) : ConnTable :=
  mkConns true (idleConns r) (activeConns r) (drainDone r) (channels r) (idleConns r ∪ conns_closed r) (deadlines r).

(** The part of [Drain] under the lock; returns the channel it waits on. *)
Definition Drain_locked (r : ConnTable) : res (positive * ConnTable) :=
  let drained := fresh_ptr (channels r) in
  let r1 := closeIdleConns (set_channels (<[drained := false]> (channels r)) r) in
  if decide (size (activeConns r1) = 0) then r2 ← close_channel drained r1; Ok (drained, r2)
  else Ok (drained, set_drainDone (Some drained) r1).

(** ** Histories *)

Inductive conn_op :=
| OpState (now : Z) (conn : positive) (state : ConnState)
| OpDrain
| OpCloseIdle.

Section history.
Context (endpointTimeout : Z).

Definition conn_step (r : ConnTable) (op : conn_op) : res ConnTable :=
  match op with
  | OpState now conn state => HandleConnState endpointTimeout now conn state r
  | OpDrain => cr ← Drain_locked r; Ok (snd cr)
  | OpCloseIdle => Ok (closeIdleConns r)
  end.

(** The state each tracked connection last reported. *)
Definition track (m : gmap positive ConnState) (op : conn_op) : gmap positive ConnState :=
  match op with
  | OpState _ conn StateActive => <[conn := StateActive]> m
  | OpState _ conn StateIdle => <[conn := StateIdle]> m
  | OpState _ conn (StateHijacked | StateClosed) => delete conn m
  | _ => m
  end.

Definition last_states (ops : list conn_op) : gmap positive ConnState := foldl track ∅ ops.

Record conns_ok (m : gmap positive ConnState) (r : ConnTable) : Prop := {
  co_idle : ∀ c, c ∈ idleConns r ↔ m !! c = Some StateIdle;
  co_active : ∀ c, c ∈ activeConns r ↔ m !! c = Some StateActive;
  co_closed : closeConnections r = true → idleConns r ⊆ conns_closed r;
  co_drain : ∀ ch, drainDone r = Some ch → channels r !! ch = Some false ∧ activeConns r ≠ ∅;
  co_draining : is_Some (drainDone r) → closeConnections r = true;
}.

Lemma size_difference_same (X : gset positive) c : size X = size (X ∖ {[c]}) ↔ c ∉ X.
Proof.
  split.
  - intros Hs Hc. assert (X ≡ {[c]} ∪ (X ∖ {[c]})) as HX by (intros x; destruct (decide (x = c)); set_solver).
    rewrite HX, size_union, size_singleton in Hs at 1 by set_solver. lia.
  - intros Hc. f_equal. set_solver.
Qed.

Lemma delete_sets r m c : conns_ok m r →
  (if decide (size (idleConns r) = size (idleConns r ∖ {[c]})) then set_sets (idleConns r ∖ {[c]}) (activeConns r ∖ {[c]}) r
   else set_sets (idleConns r ∖ {[c]}) (activeConns r) r) = set_sets (idleConns r ∖ {[c]}) (activeConns r ∖ {[c]}) r.
Proof.
  intros Hok. case_decide as Hs; [done|]. f_equal. rewrite size_difference_same in Hs.
  assert (c ∉ activeConns r); [|set_solver]. rewrite (co_active _ _ Hok). apply dec_stable in Hs.
  rewrite (co_idle _ _ Hok) in Hs. congruence.
Qed.

(** What [HandleConnState] does before it looks at the drain signal. *)
Definition moved (now : Z) (conn : positive) (state : ConnState) (r : ConnTable) : ConnTable :=
  match state with
  | StateActive => conn_SetDeadline conn None (set_sets (idleConns r ∖ {[conn]}) ({[conn]} ∪ activeConns r) r)
  | StateIdle =>
      let r' := set_sets ({[conn]} ∪ idleConns r) (activeConns r ∖ {[conn]}) r in
      if closeConnections r then conn_Close conn r'
      else conn_SetDeadline conn (if (0 <? endpointTimeout)%Z then Some (time_Add now endpointTimeout) else None) r'
  | StateHijacked | StateClosed => set_sets (idleConns r ∖ {[conn]}) (activeConns r ∖ {[conn]}) r
  | StateNew => r
  end.

Definition signalled (r : ConnTable) : res ConnTable :=
  match drainDone r with
  | Some ch => if decide (size (activeConns r) = 0) then r2 ← close_channel ch r; Ok (set_drainDone None r2) else Ok r
  | None => Ok r
  end.

Lemma HandleConnState_moved now conn state r m :
  conns_ok m r → HandleConnState endpointTimeout now conn state r = signalled (moved now conn state r).
Proof.
  intros Hok. unfold HandleConnState. by destruct state; try done; cbn [moved]; rewrite (delete_sets r m conn Hok).
Qed.

Lemma moved_fields now conn state r :
  drainDone (moved now conn state r) = drainDone r ∧ channels (moved now conn state r) = channels r
  ∧ closeConnections (moved now conn state r) = closeConnections r.
Proof. destruct r as [[] ? ? ? ? ? ?], state; done. Qed.

(** Membership after a change at one connection. *)
Ltac by_conn conn Hi Ha :=
  intros c; destruct (decide (c = conn)) as [->|];
  [rewrite ?lookup_insert_eq, ?lookup_delete_eq; split; first [done|set_solver]|
   rewrite ?lookup_insert_ne, ?lookup_delete_ne by done; rewrite <- ?Hi, <- ?Ha; set_solver].

Lemma moved_sets now conn state r m :
  conns_ok m r →
  let m' := track m (OpState now conn state) in
  let r' := moved now conn state r in
  (∀ c, c ∈ idleConns r' ↔ m' !! c = Some StateIdle) ∧ (∀ c, c ∈ activeConns r' ↔ m' !! c = Some StateActive)
  ∧ (closeConnections r = true → idleConns r' ⊆ conns_closed r').
Proof.
  intros Hok m' r'. pose proof (co_idle _ _ Hok) as Hi. pose proof (co_active _ _ Hok) as Ha.
  pose proof (co_closed _ _ Hok) as Hc. destruct state; subst m' r'; cbn [track moved]; [done|..].
  1,3,4: cbn [conn_SetDeadline set_sets idleConns activeConns conns_closed closeConnections]; split_and!;
    [by_conn conn Hi Ha..|intros Ht; specialize (Hc Ht); set_solver].
  destruct (closeConnections r) eqn:Ht; cbn [conn_SetDeadline conn_Close set_sets idleConns activeConns conns_closed];
    (split_and!; [by_conn conn Hi Ha..|]).
  - intros _. specialize (Hc eq_refl). set_solver.
  - done.
Qed.

Lemma no_active_size r : size (activeConns r) = 0 ↔ activeConns r = ∅.
Proof. rewrite size_empty_iff. by rewrite leibniz_equiv_iff. Qed.

(** The signal fires exactly when the last active connection is gone. *)
Lemma signalled_spec r :
  (∀ ch, drainDone r = Some ch → channels r !! ch = Some false) →
  ∃ r', signalled r = Ok r' ∧ idleConns r' = idleConns r ∧ activeConns r' = activeConns r
    ∧ closeConnections r' = closeConnections r ∧ conns_closed r' = conns_closed r
    ∧ (drainDone r', channels r') = match drainDone r with
        | Some ch => if decide (activeConns r = ∅) then (None, <[ch := true]> (channels r)) else (Some ch, channels r)
        | None => (None, channels r)
        end.
Proof.
  intros Hd. unfold signalled. destruct (drainDone r) as [ch|] eqn:Hr; [|exists r; by rewrite Hr].
  destruct (decide (size (activeConns r) = 0)) as [Hs|Hs]; rewrite no_active_size in Hs.
  - unfold close_channel. rewrite (Hd ch) by done. cbn. eexists. split; [done|]. cbn. by rewrite decide_True.
  - exists r. by rewrite decide_False, Hr.
Qed.

Lemma HandleConnState_spec now conn state r m :
  conns_ok m r →
  ∃ r', HandleConnState endpointTimeout now conn state r = Ok r'
    ∧ conns_ok (track m (OpState now conn state)) r' ∧ closeConnections r' = closeConnections r
    ∧ (drainDone r', channels r') = match drainDone r with
        | Some ch => if decide (activeConns r' = ∅) then (None, <[ch := true]> (channels r)) else (Some ch, channels r)
        | None => (None, channels r)
        end.
Proof.
  intros Hok. rewrite (HandleConnState_moved now conn state r m Hok).
  destruct (moved_fields now conn state r) as (Hd & Hch & Hcl).
  destruct (moved_sets now conn state r m Hok) as (Hi & Ha & Hc).
  destruct (signalled_spec (moved now conn state r)) as (r' & -> & Hi' & Ha' & Hcl' & Hcc' & Hs).
  { rewrite Hd, Hch. intros ch Hr. by apply (co_drain _ _ Hok). }
  rewrite Hd, Hch, <- Ha' in Hs. exists r'. split_and!; [done| |congruence|done]. split.
  - intros c. by rewrite Hi'.
  - intros c. by rewrite Ha'.
  - rewrite Hi', Hcc', Hcl', Hcl. done.
  - intros ch Hr. destruct (drainDone r) as [ch0|] eqn:Hd0; [|congruence].
    destruct (decide (activeConns r' = ∅)); [congruence|]. assert (ch0 = ch) as -> by congruence.
    split; [|done]. replace (channels r') with (channels r) by congruence. by apply (co_drain _ _ Hok).
  - intros Hsome. rewrite Hcl', Hcl. apply (co_draining _ _ Hok).
    destruct (drainDone r); [done|]. destruct Hsome. congruence.
Qed.

Lemma closeIdleConns_ok r m : conns_ok m r → conns_ok m (closeIdleConns r).
Proof. intros [Hi Ha Hc Hd Hg]. split; try done. set_solver. Qed.

Lemma Drain_locked_spec r m :
  conns_ok m r →
  ∃ r' ch, Drain_locked r = Ok (ch, r') ∧ conns_ok m r' ∧ closeConnections r' = true ∧ channels r !! ch = None
    ∧ activeConns r' = activeConns r
    ∧ if decide (activeConns r = ∅) then channels r' = <[ch := true]> (channels r) ∧ drainDone r' = drainDone r
      else channels r' = <[ch := false]> (channels r) ∧ drainDone r' = Some ch.
Proof.
  intros Hok. unfold Drain_locked. set (ch := fresh_ptr (channels r)).
  assert (channels r !! ch = None) as Hf by apply fresh_ptr_None.
  assert (∀ b ch', drainDone r = Some ch' → <[ch := b]> (channels r) !! ch' = Some false) as Hd.
  { intros b ch' Hr. apply (co_drain _ _ Hok) in Hr as [Hr _]. rewrite lookup_insert_ne; [done|congruence]. }
  destruct Hok as [Hi Ha Hc Hdr Hg].
  destruct (decide (size _ = 0)) as [Hs|Hs]; rewrite no_active_size in Hs; cbn in Hs.
  - unfold close_channel. cbn. rewrite lookup_insert_eq. cbn. eexists _, ch. split_and!; [done| |done..|].
    + split; cbn; [done|done|set_solver| |done]. rewrite insert_insert_eq. intros ch' Hr. split; [by apply Hd|].
      by apply Hdr in Hr as [_ ?].
    + rewrite decide_True by done. cbn. by rewrite insert_insert_eq.
  - eexists _, ch. split_and!; [done| |done..|by rewrite decide_False].
    split; cbn; [done|done|set_solver| |done]. intros ch' [= <-]. by rewrite lookup_insert_eq.
Qed.

(** From a drain or a stop on, idle connections are closed. *)
Definition closing (op : conn_op) : bool := match op with OpState _ _ _ => false | _ => true end.

Lemma conn_step_ok m r op :
  conns_ok m r →
  ∃ r', conn_step r op = Ok r' ∧ conns_ok (track m op) r' ∧ closeConnections r' = closing op || closeConnections r.
Proof.
  intros Hok. destruct op as [now c st| |]; cbn [conn_step].
  - destruct (HandleConnState_spec now c st r m Hok) as (r' & ? & ? & ? & _). eauto.
  - destruct (Drain_locked_spec r m Hok) as (r' & ch & -> & ? & ? & _). by exists r'.
  - eexists. split; [done|]. split; [by apply closeIdleConns_ok|done].
Qed.

Lemma conn_run_ok ops : ∀ m r,
  conns_ok m r →
  ∃ r', foldM conn_step r ops = Ok r' ∧ conns_ok (foldl track m ops) r'
    ∧ closeConnections r' = existsb closing ops || closeConnections r.
Proof.
  induction ops as [|op ops IH]; intros m r Hok; [by exists r|]. cbn [foldM foldl existsb].
  destruct (conn_step_ok m r op Hok) as (r1 & -> & Hok1 & Hc1). destruct (IH _ _ Hok1) as (r2 & ? & ? & Hc2).
  exists r2. split_and!; [done..|]. rewrite Hc2, Hc1. by destruct (closing op), (existsb closing ops).
Qed.

Lemma NewConnTable_ok : conns_ok ∅ NewConnTable.
Proof. split; try done; intros; set_solver. Qed.

(** C20: The connection table.  After any history of state changes, drains and
    stops, without a panic, the idle and the active sets are exactly the
    connections whose last report was that state, and from the first drain or
    stop on, every connection that is or becomes idle is closed. *)
Theorem connections_tracked ops :
  ∃ r, foldM conn_step NewConnTable ops = Ok r
    ∧ (∀ c, c ∈ idleConns r ↔ last_states ops !! c = Some StateIdle)
    ∧ (∀ c, c ∈ activeConns r ↔ last_states ops !! c = Some StateActive)
    ∧ (OpDrain ∈ ops ∨ OpCloseIdle ∈ ops → idleConns r ⊆ conns_closed r).
Proof.
  destruct (conn_run_ok ops ∅ NewConnTable NewConnTable_ok) as (r & Hr & Hok & Hc). exists r.
  split_and!; [done|apply Hok|apply Hok|]. intros Hin. apply (co_closed _ _ Hok). rewrite Hc.
  apply orb_true_iff. left. apply existsb_exists.
  destruct Hin as [Hin%list_elem_of_In|Hin%list_elem_of_In]; by eexists.
Qed.

(** No connection was active after the history. *)
Definition none_active (ops : list conn_op) : Prop := ∀ c, last_states ops !! c ≠ Some StateActive.

Lemma none_active_empty ops r : conns_ok (last_states ops) r → activeConns r = ∅ ↔ none_active ops.
Proof.
  intros Hok. split.
  - intros He c Hc. apply (co_active _ _ Hok) in Hc. set_solver.
  - intros Hn. apply set_eq. intros c. rewrite (co_active _ _ Hok). split; [by intros ?%Hn|set_solver].
Qed.

(** The channel of a drain after the history [ops2] since then. *)
Definition drain_state (ops1 ops2 : list conn_op) (ch : positive) (r : ConnTable) : Prop :=
  (channels r !! ch = Some true ∧ drainDone r ≠ Some ch ∧ ∃ pre, pre `prefix_of` ops2 ∧ none_active (ops1 ++ pre))
  ∨ (channels r !! ch = Some false ∧ drainDone r = Some ch ∧ ∀ pre, pre `prefix_of` ops2 → ¬ none_active (ops1 ++ pre)).

Lemma drain_state_step ops1 ops2 op ch r :
  op ≠ OpDrain → conns_ok (last_states (ops1 ++ ops2)) r → drain_state ops1 ops2 ch r →
  ∃ r', conn_step r op = Ok r' ∧ conns_ok (last_states (ops1 ++ ops2 ++ [op])) r' ∧ drain_state ops1 (ops2 ++ [op]) ch r'.
Proof.
  intros Hop Hok Hd. destruct (conn_step_ok _ _ op Hok) as (r' & Hs & Hok' & _). exists r'. split; [done|].
  assert (conns_ok (last_states (ops1 ++ ops2 ++ [op])) r') as Hok2.
  { unfold last_states. by rewrite app_assoc, foldl_snoc. }
  split; [done|].
  assert ((drainDone r', channels r') = match drainDone r with
        | Some ch => if decide (activeConns r' = ∅ ∧ closing op = false)
                     then (None, <[ch := true]> (channels r)) else (Some ch, channels r)
        | None => (None, channels r)
        end) as Hsig.
  { destruct op as [now c st| |]; [|done|].
    - destruct (HandleConnState_spec now c st r _ Hok) as (r0 & Hs0 & _ & _ & Hsig). cbn [conn_step] in Hs.
      rewrite Hs in Hs0. injection Hs0 as <-. rewrite Hsig. destruct (drainDone r) as [ch0|]; [|done].
      destruct (decide (activeConns r' = ∅)); [rewrite decide_True|rewrite decide_False]; naive_solver.
    - injection Hs as <-. cbn. destruct (drainDone r) as [ch0|]; [|done]. rewrite decide_False; naive_solver. }
  destruct Hd as [(Hch & Hne & pre & Hpre & Hn)|(Hch & Hd & Hn)].
  - left. assert (channels r' !! ch = Some true ∧ drainDone r' ≠ Some ch) as [? ?].
    { destruct (drainDone r) as [ch0|]; [destruct (decide (_ ∧ _))|]; injection Hsig as -> ->; try done.
      rewrite lookup_insert_ne; [done|congruence]. }
    split_and!; [done..|]. exists pre. split; [by apply prefix_app_r|done].
  - rewrite Hd in Hsig. destruct (decide (_ ∧ _)) as [[He _]|He].
    + left. injection Hsig as -> ->. rewrite lookup_insert_eq. split_and!; [done..|]. exists (ops2 ++ [op]). split; [done|].
      by apply (none_active_empty _ r').
    + right. injection Hsig as -> ->. split_and!; [done..|]. intros pre Hpre Hna.
      apply prefix_of_snoc in Hpre as [Hpre| ->]; [by apply (Hn pre)|].
      apply (none_active_empty _ r' Hok2) in Hna. destruct op as [now c st| |]; [|done|].
      * by destruct He.
      * apply (Hn ops2); [done|]. injection Hs as <-. by apply (none_active_empty _ r Hok).
Qed.

(** C21: The end of draining.  Whatever the connections did before and do after,
    the channel [Drain] waits on is closed as soon as no connection is active,
    at the latest after the change that ends the last active one, and never
    before; it is closed at once when none was active. *)
Theorem drain_signals ops1 ops2 :
  OpDrain ∉ ops2 →
  ∃ r1 ch r2 r3, foldM conn_step NewConnTable ops1 = Ok r1 ∧ Drain_locked r1 = Ok (ch, r2)
    ∧ foldM conn_step r2 ops2 = Ok r3
    ∧ (channels r3 !! ch = Some true ↔ ∃ pre, pre `prefix_of` ops2 ∧ none_active (ops1 ++ pre))
    ∧ is_Some (channels r3 !! ch).
Proof.
  intros Hnd. destruct (conn_run_ok ops1 ∅ NewConnTable NewConnTable_ok) as (r1 & Hr1 & Hok1 & _).
  destruct (Drain_locked_spec r1 _ Hok1) as (r2 & ch & Hd & Hok2 & _ & Hfresh & Ha & Hch).
  exists r1, ch, r2.
  assert (∃ r3, foldM conn_step r2 ops2 = Ok r3 ∧ conns_ok (last_states (ops1 ++ ops2)) r3
    ∧ drain_state ops1 ops2 ch r3) as (r3 & Hr3 & _ & Hds).
  { induction ops2 as [|op ops2 IH] using rev_ind.
    - exists r2. rewrite app_nil_r. split_and!; [done..|]. unfold drain_state. destruct (decide (activeConns r1 = ∅)) as [He|He].
      + left. destruct Hch as [-> ->]. rewrite lookup_insert_eq. split_and!; [done| |].
        * intros (Hc & _)%(co_drain _ _ Hok1). congruence.
        * exists []. rewrite app_nil_r. split; [done|]. by apply (none_active_empty _ r1).
      + right. destruct Hch as [-> ->]. rewrite lookup_insert_eq. split_and!; [done..|]. intros pre ->%prefix_nil_inv.
        rewrite app_nil_r. by rewrite <- (none_active_empty _ r1).
    - rewrite not_elem_of_app, not_elem_of_cons in Hnd. destruct IH as (r3 & Hr3 & Hok3 & Hds); [tauto|].
      destruct (drain_state_step ops1 ops2 op ch r3) as (r4 & Hs & Hok4 & Hds4); [naive_solver|done..|].
      exists r4. rewrite foldM_app, Hr3. cbn [mbind res_mbind foldM]. rewrite Hs. split_and!; [done| |done]. done. }
  exists r3. split_and!; [done..| |]; destruct Hds as [(-> & _ & ?)|(-> & _ & Hn)]; naive_solver.
Qed.
End history.

(** One request is running and one connection is idle when draining starts; the
    request ends, then the server reports both connections closed. *)
Definition sample_before : list conn_op :=
  [OpState 0 1 StateNew; OpState 0 1 StateActive; OpState 0 2 StateActive; OpState 5 2 StateIdle].
Definition sample_after : list conn_op := [OpState 9 2 StateClosed; OpState 9 1 StateIdle; OpState 9 1 StateClosed].

Lemma drain_signals_witness :
  ∃ r1 ch r2 r3, foldM (conn_step 60) NewConnTable sample_before = Ok r1 ∧ Drain_locked r1 = Ok (ch, r2)
    ∧ foldM (conn_step 60) r2 sample_after = Ok r3 ∧ channels r3 !! ch = Some true.
Proof.
  destruct (drain_signals 60 sample_before sample_after) as (r1 & ch & r2 & r3 & H1 & Hd & H2 & Hiff & _).
  - unfold sample_after. rewrite !not_elem_of_cons. split_and!; [done..|apply not_elem_of_nil].
  - exists r1, ch, r2, r3. split_and!; [exact H1|exact Hd|exact H2|]. apply Hiff.
    exists sample_after. split; [done|]. intros c. vm_compute. destruct c as [c|c|]; try discriminate; by destruct c.
Defined.
