(* ===== verification/Shutdown.v ===== *)
(** * Starting, draining and stopping (src/router/router.go, src/common/component.go)

    The router's main goroutine, the goroutines that serve HTTP and HTTPS and the
    one of the status server run concurrently; they meet at [stopLock], at the
    error channel and at the channels that announce the end of a goroutine.
    [step] is one step of one of them, or an event from outside, in any
    interleaving: no result when the step is not enabled or blocks.  Under
    [connLock] the operations of [Connections] are atomic. *)

From S2P Require Import Prelude Connections LogCounter.

Inductive owner := OMain | OHttp | OTls.

#[export] Instance owner_eq_dec : EqDecision owner.
Proof. solve_decision. Defined.

(** The goroutine of [serveHTTP] or [serveHTTPS]: in [Serve]; [Serve] has
    returned; [stopLock] taken; sending the error; about to unlock; about to
    close its channel; ended, with the channel closed. *)
Inductive server := Serving | Returned | Locked | Sending | Unlocking | Closing | Exited.

#[export] Instance server_eq_dec : EqDecision server.
Proof. solve_decision. Defined.

(** The goroutine of [ListenAndServe] of the component. *)
Inductive comp_server := CServing | CReturned | CExited.

(** [stopListening] is called by [Drain] and by [Stop]. *)
Inductive phase := PDrain | PStop.

Inductive main_pc :=
| ListenHttp | ListenTls | SendListenError | RunFailed
| Select
| TakeStopLock (ph : phase) | SetStopping (ph : phase) | CloseListener (ph : phase) | CloseTls (ph : phase)
| WaitTls (ph : phase) | WaitHttp (ph : phase)
| DrainConns | DrainWait (drained : positive)
| StopConns | CompQuit | CompClose | CompWait
| RunReturned.

#[export] Instance phase_eq_dec : EqDecision phase.
Proof. solve_decision. Defined.
#[export] Instance main_pc_eq_dec : EqDecision main_pc.
Proof. solve_decision. Defined.

(** [None] for a server that does not listen; [errChan] and [statusCh] are the
    numbers of buffered values; [drain_result] is what [Drain] returned. *)
Record sys := mkSys {
  cfg_EnableSSL : bool;
  conns : ConnTable;
  stopping : bool;
  stopLock : option owner;
  http : option server;
  listener_closed : bool;
  tls : option server;
  tls_closed : bool;
  errChan : nat;
  comp : option comp_server;
  comp_closed : bool;
  quitCh : bool;
  statusCh : nat;
  main : main_pc;
  drain_result : option bool;
}.

(** [make(chan error, 2)] in [NewRouter], [make(chan error, 1)] in the component. *)
Definition errChan_cap : nat := 2.
Definition statusCh_cap : nat := 1.

Definition set_main (m : main_pc) (s : sys) : sys :=
  mkSys (cfg_EnableSSL s) (conns s) (stopping s) (stopLock s) (http s) (listener_closed s) (tls s) (tls_closed s)
    (errChan s) (comp s) (comp_closed s) (quitCh s) (statusCh s) m (drain_result s).
Definition set_conns (c : ConnTable) (s : sys) : sys :=
  mkSys (cfg_EnableSSL s) c (stopping s) (stopLock s) (http s) (listener_closed s) (tls s) (tls_closed s)
    (errChan s) (comp s) (comp_closed s) (quitCh s) (statusCh s) (main s) (drain_result s).
Definition set_stop (b : bool) (l : option owner) (s : sys) : sys :=
  mkSys (cfg_EnableSSL s) (conns s) b l (http s) (listener_closed s) (tls s) (tls_closed s)
    (errChan s) (comp s) (comp_closed s) (quitCh s) (statusCh s) (main s) (drain_result s).
Definition set_http (v : option server) (c : bool) (s : sys) : sys :=
  mkSys (cfg_EnableSSL s) (conns s) (stopping s) (stopLock s) v c (tls s) (tls_closed s)
    (errChan s) (comp s) (comp_closed s) (quitCh s) (statusCh s) (main s) (drain_result s).
Definition set_tls (v : option server) (c : bool) (s : sys) : sys :=
  mkSys (cfg_EnableSSL s) (conns s) (stopping s) (stopLock s) (http s) (listener_closed s) v c
    (errChan s) (comp s) (comp_closed s) (quitCh s) (statusCh s) (main s) (drain_result s).
Definition set_errChan (n : nat) (s : sys) : sys :=
  mkSys (cfg_EnableSSL s) (conns s) (stopping s) (stopLock s) (http s) (listener_closed s) (tls s) (tls_closed s)
    n (comp s) (comp_closed s) (quitCh s) (statusCh s) (main s) (drain_result s).
Definition set_comp (v : option comp_server) (closed quit : bool) (n : nat) (s : sys) : sys :=
  mkSys (cfg_EnableSSL s) (conns s) (stopping s) (stopLock s) (http s) (listener_closed s) (tls s) (tls_closed s)
    (errChan s) v closed quit n (main s) (drain_result s).
Definition set_drain_result (b : bool) (s : sys) : sys :=
  mkSys (cfg_EnableSSL s) (conns s) (stopping s) (stopLock s) (http s) (listener_closed s) (tls s) (tls_closed s)
    (errChan s) (comp s) (comp_closed s) (quitCh s) (statusCh s) (main s) (Some b).

(** The router before [Run] listens; the status server listens unless
    [net.Listen] failed, which leaves an error in [statusCh]. *)
Definition start (ssl comp_listens : bool) : sys :=
  mkSys ssl NewConnTable false None None false None false 0
    (if comp_listens then Some CServing else None) false false (if comp_listens then 0 else 1) ListenHttp None.

(** A step of a serving goroutine, after [Serve] returned. *)
Definition server_step (o : owner) (put : server → sys → sys) (v : server) (s : sys) : option sys :=
  match v with
  | Serving | Exited => None
  | Returned =>
      match stopLock s with
      | None => Some (put Locked (set_stop (stopping s) (Some o) s))
      | Some _ => None
      end
  | Locked => Some (put (if stopping s then Unlocking else Sending) s)
  | Sending =>
      if decide (errChan s < errChan_cap) then Some (put Unlocking (set_errChan (S (errChan s)) s)) else None
  | Unlocking => Some (put Closing (set_stop (stopping s) None s))
  | Closing => Some (put Exited s)
  end.

Definition put_http (v : server) (s : sys) : sys := set_http (Some v) (listener_closed s) s.
Definition put_tls (v : server) (s : sys) : sys := set_tls (Some v) (tls_closed s) s.

(** [Serve] returns once its listener is closed. *)
Definition http_step (s : sys) : option sys :=
  match http s with
  | Some Serving => if listener_closed s then Some (put_http Returned s) else None
  | Some v => server_step OHttp put_http v s
  | None => None
  end.

Definition tls_step (s : sys) : option sys :=
  match tls s with
  | Some Serving => if tls_closed s then Some (put_tls Returned s) else None
  | Some v => server_step OTls put_tls v s
  | None => None
  end.

(** After [Serve] the status server sends [nil] or its error, by [quitCh]. *)
Definition comp_step (s : sys) : option sys :=
  match comp s with
  | Some CServing => if comp_closed s then Some (set_comp (Some CReturned) true (quitCh s) (statusCh s) s) else None
  | Some CReturned =>
      if decide (statusCh s < statusCh_cap)
      then Some (set_comp (Some CExited) (comp_closed s) (quitCh s) (S (statusCh s)) s) else None
  | _ => None
  end.

(** The main goroutine, function by function.  [Run] listens; should the error of
    a listener be returned, it sends it on and returns it. *)
Definition Run_step (s : sys) : option (res sys) :=
  match main s with
  | ListenTls => if cfg_EnableSSL s then None else Some (Ok (set_main Select s))
  | SendListenError =>
      if decide (errChan s < errChan_cap) then Some (Ok (set_main RunFailed (set_errChan (S (errChan s)) s))) else None
  | _ => None
  end.

(** [OnErrOrSignal] takes an error, which [Serve] never returns as nil. *)
Definition OnErrOrSignal_step (s : sys) : option (res sys) :=
  match main s, errChan s with
  | Select, S n => Some (Ok (set_main (TakeStopLock PDrain) (set_errChan n s)))
  | _, _ => None
  end.

Definition stopListening_step (s : sys) : option (res sys) :=
  match main s with
  | TakeStopLock ph =>
      match stopLock s with
      | None => Some (Ok (set_main (SetStopping ph) (set_stop (stopping s) (Some OMain) s)))
      | Some _ => None
      end
  | SetStopping ph => Some (Ok (set_main (CloseListener ph) (set_stop true None s)))
  | CloseListener ph =>
      match http s with
      | None => Some (Panic nil_deref)
      | Some v =>
          let s1 := set_http (Some v) true s in
          match tls s with
          | Some _ => Some (Ok (set_main (CloseTls ph) s1))
          | None => Some (Ok (set_main (WaitHttp ph) s1))
          end
      end
  | CloseTls ph => Some (Ok (set_main (WaitTls ph) (set_tls (tls s) true s)))
  | WaitTls ph => if decide (tls s = Some Exited) then Some (Ok (set_main (WaitHttp ph) s)) else None
  | WaitHttp ph =>
      if decide (http s = Some Exited)
      then Some (Ok (set_main (match ph with PDrain => DrainConns | PStop => StopConns end) s)) else None
  | _ => None
  end.

(** [Drain] after [stopListening]; [DrainAndStop] goes on to [Stop]. *)
Definition Drain_step (s : sys) : option (res sys) :=
  match main s with
  | DrainConns => Some (cr ← Drain_locked (conns s); Ok (set_main (DrainWait (fst cr)) (set_conns (snd cr) s)))
  | DrainWait drained =>
      if decide (channels (conns s) !! drained = Some true)
      then Some (Ok (set_main (TakeStopLock PStop) (set_drain_result true s))) else None
  | _ => None
  end.

(** [Stop] after [stopListening]. *)
Definition Stop_step (s : sys) : option (res sys) :=
  match main s with
  | StopConns => Some (Ok (set_main CompQuit (set_conns (closeIdleConns (conns s)) s)))
  | _ => None
  end.

(** The component's [Stop]. *)
Definition component_Stop_step (s : sys) : option (res sys) :=
  match main s with
  | CompQuit =>
      if quitCh s then Some (Panic "close of closed channel")
      else
        let s1 := set_comp (comp s) (comp_closed s) true (statusCh s) s in
        match comp s with
        | Some _ => Some (Ok (set_main CompClose s1))
        | None => Some (Ok (set_main RunReturned s1))
        end
  | CompClose => Some (Ok (set_main CompWait (set_comp (comp s) true (quitCh s) (statusCh s) s)))
  | CompWait =>
      match statusCh s with
      | O => None
      | S n => Some (Ok (set_main RunReturned (set_comp (comp s) (comp_closed s) (quitCh s) n s)))
      end
  | _ => None
  end.

Definition main_step (s : sys) : option (res sys) :=
  match main s with
  | ListenHttp | ListenTls | SendListenError | RunFailed | RunReturned => Run_step s
  | Select => OnErrOrSignal_step s
  | TakeStopLock _ | SetStopping _ | CloseListener _ | CloseTls _ | WaitTls _ | WaitHttp _ => stopListening_step s
  | DrainConns | DrainWait _ => Drain_step s
  | StopConns => Stop_step s
  | CompQuit | CompClose | CompWait => component_Stop_step s
  end.

(** Who moves.  [LListen] is the error of [net.Listen] or [tls.Listen], if any,
    [LSignal] a signal ([SIGUSR1] or another), [LTimeout] the drain timer,
    the [LFail...] a server that fails by itself, [LConn] a change of state of a
    connection. *)
Inductive label :=
| LMain | LHttp | LTls | LComp | LTimeout
| LListen (err : option string) | LSignal (usr1 : bool) | LFailHttp | LFailTls | LFailComp
| LConn (now : Z) (conn : positive) (state : ConnState).

(** [serveHTTP] or [serveHTTPS] after its listener failed: [Fatalf] panics; with
    logging switched off the error is returned. *)
Definition listen_failed (level : LogLevel) (msg : string) (s : sys) : res sys :=
  _ ← Fatal level msg;
  Ok (set_main SendListenError s).

(** [level] is the level of the router's logger. *)
Definition step (level : LogLevel) (endpointTimeout : Z) (s : sys) (l : label) : option (res sys) :=
  match l with
  | LMain => main_step s
  | LHttp => Ok <$> http_step s
  | LTls => Ok <$> tls_step s
  | LComp => Ok <$> comp_step s
  | LTimeout =>
      match main s with
      | DrainWait _ => Some (Ok (set_main (TakeStopLock PStop) (set_drain_result false s)))
      | _ => None
      end
  | LListen err =>
      match main s with
      | ListenHttp =>
          Some (match err with
                | None => Ok (set_main ListenTls (set_http (Some Serving) false s))
                | Some e => listen_failed level ("net.Listen: " +:+ e) s
                end)
      | ListenTls =>
          if cfg_EnableSSL s
          then Some (match err with
                     | None => Ok (set_main Select (set_tls (Some Serving) false s))
                     | Some e => listen_failed level ("tls.Listen: " +:+ e) s
                     end)
          else None
      | _ => None
      end
  | LSignal usr1 =>
      match main s with
      | Select => Some (Ok (set_main (TakeStopLock (if usr1 then PDrain else PStop)) s))
      | _ => None
      end
  | LFailHttp => if decide (http s = Some Serving) then Some (Ok (put_http Returned s)) else None
  | LFailTls => if decide (tls s = Some Serving) then Some (Ok (put_tls Returned s)) else None
  | LFailComp =>
      match comp s with
      | Some CServing => Some (Ok (set_comp (Some CReturned) (comp_closed s) (quitCh s) (statusCh s) s))
      | _ => None
      end
  | LConn now conn state =>
      Some (c ← HandleConnState endpointTimeout now conn state (conns s); Ok (set_conns c s))
  end.
