(* ===== verification/ShutdownSpec.v ===== *)
(** * Shutting down always ends

    Invariants of the goroutines of [Shutdown], a measure that every step but
    the traffic on connections decreases, and progress: once asked to stop, the
    main goroutine is never stuck. *)

From S2P Require Import Prelude Connections LogCounter Shutdown.

Definition holds (v : option server) : bool :=
  match v with Some (Locked | Sending | Unlocking) => true | _ => false end.
Definition setting (m : main_pc) : bool := match m with SetStopping _ => true | _ => false end.
Definition owns (o : owner) (s : sys) : bool := bool_decide (stopLock s = Some o).

(** Whether the goroutine may have sent its error. *)
Definition past (v : option server) : nat := match v with Some (Unlocking | Closing | Exited) => 1 | _ => 0 end.

Definition early (m : main_pc) : bool := match m with ListenHttp | SendListenError | RunFailed => true | _ => false end.
Definition before_tls (m : main_pc) : bool := match m with ListenTls => true | _ => early m end.
Definition closed_http (m : main_pc) : bool :=
  match m with CloseTls _ | WaitTls _ | WaitHttp _ => true | _ => false end.
Definition closed_tls (m : main_pc) : bool := match m with WaitTls _ | WaitHttp _ => true | _ => false end.
Definition needs_tls (m : main_pc) : bool := match m with CloseTls _ | WaitTls _ => true | _ => false end.
Definition stopped (m : main_pc) : bool :=
  match m with DrainConns | DrainWait _ | StopConns | CompQuit | CompClose | CompWait | RunReturned => true | _ => false end.
Definition stop_set (m : main_pc) : bool :=
  match m with CloseListener _ | CloseTls _ | WaitTls _ | WaitHttp _ => true | _ => stopped m end.
Definition waits_http (m : main_pc) : bool := match m with WaitHttp _ => true | _ => stopped m end.
Definition needs_comp (m : main_pc) : bool := match m with CompClose | CompWait => true | _ => false end.
Definition quit (m : main_pc) : bool := match m with CompClose | CompWait | RunReturned => true | _ => false end.
Definition closing_conns (m : main_pc) : bool :=
  match m with CompQuit | CompClose | CompWait | RunReturned => true | _ => false end.
Definition ended (v : option server) : bool := match v with None | Some Exited => true | _ => false end.

Record sys_ok (s : sys) : Prop := {
  ok_conns : ∃ m, conns_ok m (conns s);
  ok_lock_http : holds (http s) = owns OHttp s;
  ok_lock_tls : holds (tls s) = owns OTls s;
  ok_lock_main : setting (main s) = owns OMain s;
  ok_errs : errChan s ≤ past (http s) + past (tls s) + (match main s with RunFailed => 1 | _ => 0 end);
  ok_no_tls : before_tls (main s) = true → tls s = None;
  ok_no_http : main s = ListenHttp → http s = None;
  ok_http : early (main s) || bool_decide (http s ≠ None) = true;
  ok_closed : closed_http (main s) = true → listener_closed s = true;
  ok_closed_tls : closed_tls (main s) = true → tls s = None ∨ tls_closed s = true;
  ok_tls : needs_tls (main s) = true → tls s ≠ None;
  ok_stopping : stop_set (main s) = true → stopping s = true;
  ok_ended_tls : waits_http (main s) = true → ended (tls s) = true;
  ok_stopped : stopped (main s) = true → http s = Some Exited;
  ok_quit : quitCh s = quit (main s);
  ok_comp : needs_comp (main s) = true → comp s ≠ None;
  ok_comp_closed : main s = CompWait → comp_closed s = true;
  ok_status : main s = RunReturned ∨ statusCh s = match comp s with None | Some CExited => 1 | _ => 0 end;
  ok_closing : closing_conns (main s) = true → closeConnections (conns s) = true;
}.

(** ** A measure *)

Definition server_rank (v : option server) : nat :=
  match v with
  | Some Serving => 6 | Some Returned => 5 | Some Locked => 4 | Some Sending => 3 | Some Unlocking => 2
  | Some Closing => 1 | Some Exited | None => 0
  end.
Definition comp_rank (v : option comp_server) : nat :=
  match v with Some CServing => 2 | Some CReturned => 1 | _ => 0 end.
Definition phase_rank (ph : phase) : nat := match ph with PDrain => 13 | PStop => 4 end.
Definition main_rank (m : main_pc) : nat :=
  match m with
  | ListenHttp => 40 | ListenTls => 30 | SendListenError => 1 | RunFailed => 0
  | Select => 20
  | TakeStopLock ph => 6 + phase_rank ph | SetStopping ph => 5 + phase_rank ph | CloseListener ph => 4 + phase_rank ph
  | CloseTls ph => 3 + phase_rank ph | WaitTls ph => 2 + phase_rank ph | WaitHttp ph => 1 + phase_rank ph
  | DrainConns => 12 | DrainWait _ => 11
  | StopConns => 4 | CompQuit => 3 | CompClose => 2 | CompWait => 1
  | RunReturned => 0
  end.
Definition measure (s : sys) : nat :=
  main_rank (main s) + server_rank (http s) + server_rank (tls s) + comp_rank (comp s).

Definition is_conn (l : label) : bool := match l with LConn _ _ _ => true | _ => false end.

Lemma start_ok ssl cl : sys_ok (start ssl cl).
Proof. split; destruct cl; cbn; auto; try done; [exists ∅; apply NewConnTable_ok..]. Qed.

(** Opens a state and its invariant. *)
Ltac open_sys s H :=
  destruct H as [Hconns Hlh Hlt Hlm Herrs Hnotls Hnohttp Hhttp Hclosed Hclosedtls Htls Hstopping Hended Hstopped Hquit Hcomp Hcompclosed Hstatus Hclosing];
  destruct s as [ssl cs stp lk ht hc tl tc er cp cc qt st mn dr];
  cbn [cfg_EnableSSL conns stopping stopLock http listener_closed tls tls_closed errChan comp comp_closed quitCh
       statusCh main drain_result owns] in *; unfold owns in *; cbn [stopLock] in *.

Ltac step_cases Hs :=
  repeat match type of Hs with
  | context [match ?x with _ => _ end] => destruct x eqn:?; try discriminate Hs
  end.

(** The invariant after a step, field by field. *)
Ltac keep_sys :=
  split; cbn; first [assumption|reflexivity|lia|intuition congruence|idtac].

(** Whoever holds the lock is its owner. *)
Ltac own H lk := try (symmetry in H; apply bool_decide_eq_true in H; subst lk).

Lemma http_step_ok s s' :
  sys_ok s → http_step s = Some s' → sys_ok s' ∧ measure s' < measure s.
Proof.
  intros Hok Hs. open_sys s Hok. unfold http_step in Hs. cbn [http] in Hs.
  destruct ht as [[]|]; cbn in Hs; try discriminate Hs.
  all: step_cases Hs; injection Hs as <-; cbn in *; own Hlh lk; (split; [keep_sys|unfold measure; cbn; lia]).
Qed.

Lemma tls_step_ok s s' :
  sys_ok s → tls_step s = Some s' → sys_ok s' ∧ measure s' < measure s.
Proof.
  intros Hok Hs. open_sys s Hok. unfold tls_step in Hs. cbn [tls] in Hs.
  destruct tl as [[]|]; cbn in Hs; try discriminate Hs.
  all: step_cases Hs; injection Hs as <-; cbn in *; own Hlt lk; (split; [keep_sys|unfold measure; cbn; lia]).
Qed.

Lemma comp_step_ok s s' :
  sys_ok s → comp_step s = Some s' → sys_ok s' ∧ measure s' < measure s.
Proof.
  intros Hok Hs. open_sys s Hok. unfold comp_step in Hs. cbn [comp] in Hs.
  destruct cp as [[]|]; cbn in Hs; try discriminate Hs.
  all: step_cases Hs; injection Hs as <-; cbn in *; (split; [keep_sys|unfold measure; cbn; lia]).
Qed.

Ltac stepped := eexists; split; [reflexivity|]; split; [keep_sys|unfold measure; cbn; lia].

Lemma main_step_ok s x :
  sys_ok s → main_step s = Some x → ∃ s', x = Ok s' ∧ sys_ok s' ∧ measure s' < measure s.
Proof.
  intros Hok Hs. open_sys s Hok. unfold main_step, Run_step, OnErrOrSignal_step, stopListening_step, Drain_step, Stop_step,
    component_Stop_step in Hs. cbn [main] in Hs.
  destruct mn as [| | | | |ph|ph|ph|ph|ph|ph| |ch| | | | |]; cbn in Hs; try discriminate Hs.
  6: { destruct ht as [v|]; [|discriminate Hhttp]. step_cases Hs; injection Hs as <-; stepped. }
  8: { destruct ph; step_cases Hs; injection Hs as <-; stepped. }
  8: { destruct Hconns as [m Hm]. destruct (Drain_locked_spec cs m Hm) as (r' & ch & Hd & Hr' & _).
       rewrite Hd in Hs. injection Hs as <-. stepped. by exists m. }
  9: { destruct Hconns as [m Hm]. injection Hs as <-. stepped. exists m. by apply closeIdleConns_ok. }
  9: { cbn in Hquit. subst qt. step_cases Hs; injection Hs as <-; stepped. }
  all: step_cases Hs; injection Hs as <-; cbn in *; own Hlm lk; subst; stepped.
Qed.

(** The label of a listener that fails while the logger is not switched off. *)
Definition fatal_listen (level : LogLevel) (l : label) : bool :=
  match l with LListen (Some _) => (1 <=? Priority level)%Z | _ => false end.

(** Events from outside. *)
Lemma event_ok level timeout s l x :
  sys_ok s → step level timeout s l = Some x → fatal_listen level l = false →
  match l with LMain | LHttp | LTls | LComp | LConn _ _ _ => True
  | _ => ∃ s', x = Ok s' ∧ sys_ok s' ∧ measure s' < measure s end.
Proof.
  intros Hok Hs Hfl. open_sys s Hok. destruct l as [| | | | |err|usr1| | | |]; try exact I; cbn in Hs.
  - destruct mn; try discriminate Hs. injection Hs as <-. stepped.
  - assert (∀ e m s, err = Some e → listen_failed level m s = Ok (set_main SendListenError s)) as Hlf.
    { intros e m s ->. unfold listen_failed. cbn in Hfl. by rewrite Fatal_silent by lia. }
    destruct err as [e|]; [rewrite ?(Hlf e) in Hs by done|]; clear Hlf Hfl.
    all: destruct mn; try discriminate Hs; cbn in Hnotls; rewrite (Hnotls eq_refl) in *;
      try rewrite (Hnohttp eq_refl) in *; step_cases Hs; injection Hs as <-;
      cbn in *; stepped.
  - destruct mn; try discriminate Hs. destruct usr1; injection Hs as <-; stepped.
  - step_cases Hs. injection Hs as <-. subst. stepped.
  - step_cases Hs. injection Hs as <-. subst. stepped.
  - step_cases Hs. injection Hs as <-. cbn in *. stepped.
Qed.

Lemma conn_event_ok level timeout s now c state :
  sys_ok s →
  ∃ s', step level timeout s (LConn now c state) = Some (Ok s') ∧ sys_ok s' ∧ measure s' = measure s ∧ main s' = main s.
Proof.
  intros Hok. open_sys s Hok. destruct Hconns as [m Hm]. cbn [step conns].
  destruct (HandleConnState_spec timeout now c state cs m Hm) as (r' & -> & Hr' & Hc & _). cbn [mbind res_mbind].
  eexists. split; [reflexivity|]. split; [|done]. keep_sys. eauto.
Qed.

Lemma step_ok level timeout s l x :
  sys_ok s → step level timeout s l = Some x → fatal_listen level l = false →
  ∃ s', x = Ok s' ∧ sys_ok s' ∧ (if is_conn l then measure s' = measure s else measure s' < measure s).
Proof.
  intros Hok Hs Hfl. pose proof (event_ok level timeout s l x Hok Hs Hfl) as He. destruct l; cbn [is_conn]; try exact He; cbn in Hs.
  - by apply main_step_ok.
  - destruct (http_step s) as [s'|] eqn:Hh; [|done]. injection Hs as <-. eauto using http_step_ok.
  - destruct (tls_step s) as [s'|] eqn:Hh; [|done]. injection Hs as <-. eauto using tls_step_ok.
  - destruct (comp_step s) as [s'|] eqn:Hh; [|done]. injection Hs as <-. eauto using comp_step_ok.
  - destruct (conn_event_ok level timeout s now conn state Hok) as (s' & Hs' & ? & ? & _). cbn in Hs'. rewrite Hs in Hs'.
    injection Hs' as ->. eauto.
Qed.

(** A listener that fails panics, unless logging is switched off. *)
Lemma fatal_listen_panics level timeout s l x :
  step level timeout s l = Some x → fatal_listen level l = true → ∃ m, x = Panic m.
Proof.
  intros Hs Hfl. destruct l as [| | | | |[e|]|usr1| | | |]; try done. cbn in Hfl. cbn [step] in Hs. unfold listen_failed in Hs.
  rewrite !Fatal_panics in Hs by lia. cbn [mbind res_mbind] in Hs.
  destruct (main s); try done; [|destruct (cfg_EnableSSL s); [|done]]; injection Hs as <-; by eexists.
Qed.

(** ** Progress *)

Definition enabled (level : LogLevel) (timeout : Z) (s : sys) (l : label) : Prop := is_Some (step level timeout s l).

(** There is room in the error channel for whoever still sends. *)
Lemma err_room s : sys_ok s → past (http s) = 0 ∨ past (tls s) = 0 → main s ≠ RunFailed → errChan s < errChan_cap.
Proof.
  intros Hok Hp Hm. pose proof (ok_errs s Hok) as He. unfold errChan_cap.
  assert (past (http s) ≤ 1 ∧ past (tls s) ≤ 1) as [? ?] by (destruct (http s) as [[]|], (tls s) as [[]|]; cbn; lia).
  destruct (main s); [..|lia]; first [lia|done].
Qed.

Lemma err_room_failed s : sys_ok s → past (http s) = 0 → main s = RunFailed → errChan s < errChan_cap.
Proof.
  intros Hok Hp Hm. pose proof (ok_errs s Hok) as He. rewrite (ok_no_tls s Hok), Hp, Hm in He by (by rewrite Hm).
  unfold errChan_cap. cbn in He. lia.
Qed.

(** The owner of the lock moves. *)
Lemma lock_progress level timeout s :
  sys_ok s → stopLock s ≠ None → ∃ l, l ∈ [LMain; LHttp; LTls] ∧ enabled level timeout s l.
Proof.
  intros Hok Hl.
  pose proof (err_room s Hok) as Hroom. pose proof (err_room_failed s Hok) as Hroom2.
  open_sys s Hok. destruct lk as [[]|]; [| | |done].
  - exists LMain. split; [set_solver|]. destruct mn; try done. by eexists.
  - exists LHttp. split; [set_solver|]. unfold enabled, step, http_step, server_step. cbn [http errChan stopping] in *.
    destruct ht as [[]|]; try done; try (by eexists); cbn [http errChan stopping].
    rewrite decide_True; [by eexists|]. destruct (decide (mn = RunFailed)) as [->|]; [by apply Hroom2|apply Hroom; auto].
  - exists LTls. split; [set_solver|]. unfold enabled, step, tls_step, server_step. cbn [tls errChan stopping] in *.
    destruct tl as [[]|]; try done; try (by eexists); cbn [tls errChan stopping].
    rewrite decide_True; [by eexists|]. apply Hroom; [by right|]. intros ->. by rewrite Hnotls in Hlt.
Qed.

(** A server whose listener is closed moves, or the owner of the lock does. *)
Lemma http_progress level timeout s :
  sys_ok s → http s ≠ Some Exited → http s ≠ None → listener_closed s = true →
  ∃ l, l ∈ [LMain; LHttp; LTls] ∧ enabled level timeout s l.
Proof.
  intros Hok He Hn Hc. destruct (decide (stopLock s = None)) as [Hl|Hl]; [|by apply lock_progress].
  exists LHttp. split; [set_solver|]. pose proof (ok_lock_http s Hok) as Hh. unfold owns in Hh. rewrite Hl in Hh.
  unfold enabled, step, http_step, server_step. rewrite Hl, Hc. by destruct (http s) as [[]|].
Qed.

Lemma tls_progress level timeout s :
  sys_ok s → tls s ≠ Some Exited → tls s ≠ None → tls_closed s = true →
  ∃ l, l ∈ [LMain; LHttp; LTls] ∧ enabled level timeout s l.
Proof.
  intros Hok He Hn Hc. destruct (decide (stopLock s = None)) as [Hl|Hl]; [|by apply lock_progress].
  exists LTls. split; [set_solver|]. pose proof (ok_lock_tls s Hok) as Hh. unfold owns in Hh. rewrite Hl in Hh.
  unfold enabled, step, tls_step, server_step. rewrite Hl, Hc. by destruct (tls s) as [[]|].
Qed.

(** Where the main goroutine waits for the outside. *)
Definition waits_outside (m : main_pc) : bool :=
  match m with ListenHttp | ListenTls | Select | RunFailed | RunReturned => true | _ => false end.

Definition own_labels : list label := [LMain; LHttp; LTls; LComp; LTimeout].

Lemma progress level timeout s :
  sys_ok s → waits_outside (main s) = false → ∃ l, l ∈ own_labels ∧ enabled level timeout s l.
Proof.
  intros Hok Hw.
  assert ((∃ l, l ∈ [LMain; LHttp; LTls] ∧ enabled level timeout s l) → ∃ l, l ∈ own_labels ∧ enabled level timeout s l) as Hsub
    by (intros (l & ? & ?); exists l; set_solver).
  assert (is_Some (main_step s) → ∃ l, l ∈ own_labels ∧ enabled level timeout s l) as Hmain
    by (intros; exists LMain; split; [set_solver|done]).
  unfold main_step, Run_step, OnErrOrSignal_step, stopListening_step, Drain_step, Stop_step, component_Stop_step in Hmain.
  destruct (main s) as [| | | | |ph|ph|ph|ph|ph|ph| |ch| | | | |] eqn:Hm; try discriminate Hw; try (apply Hmain; by eexists).
  - apply Hmain. rewrite decide_True; [by eexists|]. apply err_room; [done| |by rewrite Hm].
    right. by rewrite (ok_no_tls s Hok) by (by rewrite Hm).
  - destruct (stopLock s) eqn:Hl; [|apply Hmain; by eexists]. apply Hsub, lock_progress; [done|by rewrite Hl].
  - apply Hmain. destruct (http s); [destruct (tls s)|]; by eexists.
  - destruct (decide (tls s = Some Exited)); [apply Hmain; by eexists|]. apply Hsub, tls_progress; [done|done| |].
    + apply (ok_tls s Hok). by rewrite Hm.
    + destruct (ok_closed_tls s Hok) as [Ht|]; [by rewrite Hm|by apply (ok_tls s Hok) in Ht; rewrite ?Hm|done].
  - destruct (decide (http s = Some Exited)); [apply Hmain; by eexists|]. apply Hsub, http_progress; [done|done| |].
    + pose proof (ok_http s Hok) as Hh. rewrite Hm in Hh. by apply bool_decide_eq_true in Hh.
    + apply (ok_closed s Hok). by rewrite Hm.
  - exists LTimeout. split; [set_solver|]. unfold enabled, step. rewrite Hm. by eexists.
  - apply Hmain. destruct (quitCh s), (comp s); by eexists.
  - destruct (statusCh s) eqn:Hst; [|apply Hmain; by eexists]. exists LComp. split; [set_solver|].
    pose proof (ok_status s Hok) as [?|Hs]; [congruence|]. rewrite Hst in Hs. unfold enabled, step, comp_step.
    rewrite (ok_comp_closed s Hok Hm), Hst.
    destruct (comp s) as [[]|]; try discriminate Hs; by eexists.
Qed.

(** ** Runs *)

Inductive run (level : LogLevel) (timeout : Z) : sys → list label → sys → Prop :=
| run_nil s : run level timeout s [] s
| run_cons s l s1 ls s2 : step level timeout s l = Some (Ok s1) → run level timeout s1 ls s2 → run level timeout s (l :: ls) s2.

Lemma run_ok level timeout s ls s' :
  run level timeout s ls s' → sys_ok s →
  sys_ok s' ∧ length (filter (λ l, is_conn l = false) ls) + measure s' ≤ measure s.
Proof.
  induction 1 as [s|s l s1 ls s2 Hs Hrun IH]; intros Hok; [by split|].
  assert (fatal_listen level l = false) as Hfl
    by (destruct (fatal_listen level l) eqn:E; [|done]; by destruct (fatal_listen_panics _ _ _ _ _ Hs E)).
  destruct (step_ok level timeout s l _ Hok Hs Hfl) as (s1' & [= <-] & Hok1 & Hm). destruct (IH Hok1) as [Hok2 Hlen].
  split; [done|]. rewrite filter_cons. destruct (is_conn l); cbn; case_decide; try done; cbn; lia.
Qed.

(** C14: Shutting down ends.  Under every interleaving of the goroutines, of
    connection traffic, signals and failing servers: the one thing that panics is
    a listener that fails while the router starts ([Fatalf] panics unless logging
    is switched off, and then it always does); otherwise nothing panics (no
    channel is closed twice, no nil listener is closed); the run has at most 42
    steps other than traffic; the main goroutine is never stuck but where it
    waits for the outside, so that once a signal or an error arrives it returns;
    and when it returns from a stop, both servers have ended, idle connections
    are closed and new idle ones will be. *)
Theorem shutdown_terminates level timeout ssl comp_listens ls s :
  run level timeout (start ssl comp_listens) ls s →
  (∀ l x, step level timeout s l = Some x → if fatal_listen level l then ∃ m, x = Panic m else ∃ s', x = Ok s')
  ∧ length (filter (λ l, is_conn l = false) ls) ≤ 42
  ∧ (waits_outside (main s) = false → ∃ l, l ∈ own_labels ∧ enabled level timeout s l)
  ∧ (main s = RunReturned → http s = Some Exited ∧ ended (tls s) = true ∧ closeConnections (conns s) = true
       ∧ idleConns (conns s) ⊆ conns_closed (conns s)).
Proof.
  intros Hrun. destruct (run_ok _ _ _ _ _ Hrun (start_ok ssl comp_listens)) as [Hok Hlen]. split_and!.
  - intros l x Hs. destruct (fatal_listen level l) eqn:Hfl; [by eapply fatal_listen_panics|].
    destruct (step_ok level timeout s l x Hok Hs Hfl) as (s' & -> & _). by exists s'.
  - unfold measure in Hlen at 2. destruct comp_listens; cbn in Hlen; lia.
  - by apply progress.
  - intros Hm. destruct (ok_conns s Hok) as [m Hc].
    assert (closeConnections (conns s) = true) by (apply (ok_closing s Hok); by rewrite Hm).
    split_and!; [apply (ok_stopped s Hok)|apply (ok_ended_tls s Hok)|done|by apply (co_closed m)]; by rewrite Hm.
Qed.

(** A drain while one request runs. *)
Definition sample_run : list label :=
  [LListen None; LMain; LConn 0 1 StateActive; LSignal true; LMain; LMain; LMain; LHttp; LHttp; LHttp; LHttp; LHttp;
   LMain; LMain; LConn 7 1 StateIdle; LMain; LMain; LMain; LMain; LMain; LMain; LMain; LMain; LComp; LComp; LMain].

Lemma shutdown_terminates_witness :
  ∃ s, run LOG_INFO 60 (start false true) sample_run s ∧ main s = RunReturned ∧ drain_result s = Some true
    ∧ http s = Some Exited ∧ closeConnections (conns s) = true ∧ idleConns (conns s) ⊆ conns_closed (conns s).
Proof.
  eexists. split; [repeat (eapply run_cons; [vm_compute; reflexivity|]); apply run_nil|].
  match goal with |- ?g => assert (run LOG_INFO 60 (start false true) sample_run
    ltac:(match g with main ?s = _ ∧ _ => exact s end)) as Hrun
    by (repeat (eapply run_cons; [vm_compute; reflexivity|]); apply run_nil) end.
  destruct (shutdown_terminates _ _ _ _ _ _ Hrun) as (_ & _ & _ & Hend).
  destruct (Hend eq_refl) as (H1 & _ & H2 & H3). split_and!; [reflexivity|reflexivity|exact H1|exact H2|exact H3].
Defined.

(** The port is taken: the router panics. *)
Example port_taken :
  step LOG_INFO 60 (start false true) (LListen (Some "address already in use")) = Some (Panic "net.Listen: address already in use").
Proof. reflexivity. Qed.
