(* ===== verification/Reporters.v ===== *)
(** * Statistics of requests (src/varz/varz.go, src/metrics)

    The proxy reports to a [metrics.ProxyReporter]; the router installs a
    [CompositeReporter] over the status page's [RealVarz] and the
    [MetricsReporter] that feeds dropsonde.  Counters are [int64]; a meter and a
    histogram of go-metrics are known by what they were given; a dropsonde sink
    is the counters it was told to increment and the values it was sent. *)

From S2P Require Import Prelude GoStrings Pool Registry Http Proxy ActiveApps TopApps.

(** ** The interface *)

Class ProxyReporter (S : Type) := {
  CaptureBadRequest_m : S → res S;
  CaptureBadGateway_m : S → res S;
  CaptureRoutingRequest_m : Endpoint → S → res S;
  CaptureRoutingResponse_m : Endpoint → option Response → Z → Z → S → res S;
}.

(** What the proxy says, said to a reporter. *)
Definition report_to {S} `{ProxyReporter S} (s : S) (c : capture) : res S :=
  match c with
  | CaptureBadRequest => CaptureBadRequest_m s
  | CaptureBadGateway => CaptureBadGateway_m s
  | CaptureRoutingRequest b => CaptureRoutingRequest_m b s
  | CaptureRoutingResponse b res startedAt latency => CaptureRoutingResponse_m b res startedAt latency s
  end.

(** [CompositeReporter]: the first reporter, then the second. *)
Section composite.
Context {S T : Type} `{ProxyReporter S} `{ProxyReporter T}.

Definition both (f : S → res S) (g : T → res T) (c : S * T) : res (S * T) :=
  s ← f (fst c); t ← g (snd c); Ok (s, t).

Definition CompositeReporter : ProxyReporter (S * T) := {|
  CaptureBadRequest_m := both CaptureBadRequest_m CaptureBadRequest_m;
  CaptureBadGateway_m := both CaptureBadGateway_m CaptureBadGateway_m;
  CaptureRoutingRequest_m b := both (CaptureRoutingRequest_m b) (CaptureRoutingRequest_m b);
  CaptureRoutingResponse_m b res t d := both (CaptureRoutingResponse_m b res t d) (CaptureRoutingResponse_m b res t d)
|}.
End composite.
#[export] Existing Instance CompositeReporter.

(** ** The status page *)

(** [Rate] is the number of marks of the meter, [Latency] the values given to
    the histogram, oldest first. *)
Record HttpMetric := mkHttpMetric {
  Requests : Z;
  Rate : Z;
  Responses2xx : Z;
  Responses3xx : Z;
  Responses4xx : Z;
  Responses5xx : Z;
  ResponsesXxx : Z;
  Latency : list Z;
}.

Definition NewHttpMetric : HttpMetric := mkHttpMetric 0 0 0 0 0 0 0 [].

(** [metrics.Counter.Inc(1)]. *)
Definition Inc (n : Z) : Z := wrap64 (n + 1).

Definition http_CaptureRequest (x : HttpMetric) : HttpMetric :=
  mkHttpMetric (Inc (Requests x)) (Inc (Rate x)) (Responses2xx x) (Responses3xx x) (Responses4xx x) (Responses5xx x)
    (ResponsesXxx x) (Latency x).

(** The hundreds of the status, 0 without a response. *)
Definition status_class (response : option Response) : Z :=
  match response with
  | Some r => Z.quot (StatusCode r) 100
  | None => 0
  end.

Definition http_CaptureResponse (response : option Response) (duration : Z) (x : HttpMetric) : HttpMetric :=
  let statusCode := status_class response in
  let y :=
    match statusCode with
    | 2%Z => mkHttpMetric (Requests x) (Rate x) (Inc (Responses2xx x)) (Responses3xx x) (Responses4xx x) (Responses5xx x)
               (ResponsesXxx x) (Latency x)
    | 3%Z => mkHttpMetric (Requests x) (Rate x) (Responses2xx x) (Inc (Responses3xx x)) (Responses4xx x) (Responses5xx x)
               (ResponsesXxx x) (Latency x)
    | 4%Z => mkHttpMetric (Requests x) (Rate x) (Responses2xx x) (Responses3xx x) (Inc (Responses4xx x)) (Responses5xx x)
               (ResponsesXxx x) (Latency x)
    | 5%Z => mkHttpMetric (Requests x) (Rate x) (Responses2xx x) (Responses3xx x) (Responses4xx x) (Inc (Responses5xx x))
               (ResponsesXxx x) (Latency x)
    | _ => mkHttpMetric (Requests x) (Rate x) (Responses2xx x) (Responses3xx x) (Responses4xx x) (Responses5xx x)
             (Inc (ResponsesXxx x)) (Latency x)
    end in
  mkHttpMetric (Requests y) (Rate y) (Responses2xx y) (Responses3xx y) (Responses4xx y) (Responses5xx y)
    (ResponsesXxx y) (Latency y ++ [duration]).

Abbreviation TaggedHttpMetric := (gmap string HttpMetric).

(** The metric of a tag, allocated at its first use. *)
Definition httpMetric (t : string) (x : TaggedHttpMetric) : HttpMetric := default NewHttpMetric (x !! t).

Definition tagged_CaptureRequest (t : string) (x : TaggedHttpMetric) : TaggedHttpMetric :=
  <[t := http_CaptureRequest (httpMetric t x)]> x.
Definition tagged_CaptureResponse (t : string) (y : option Response) (z : Z) (x : TaggedHttpMetric) : TaggedHttpMetric :=
  <[t := http_CaptureResponse y z (httpMetric t x)]> x.

(** [topAppsEntry] of varz.go. *)
Record topEntry := mkTop { top_ApplicationId : string; RequestsPerSecond : Z; RequestsPerMinute : Z }.

Record RealVarz := mkVarz {
  v_r : RouteRegistry;
  v_activeApps : ActiveApps;
  v_topApps : TopApps;
  All : HttpMetric;
  Component : TaggedHttpMetric;
  Urls : nat;
  Droplets : nat;
  BadRequests : Z;
  BadGateways : Z;
  v_TopApps : list topEntry;
  MillisSinceLastRegistryUpdate : Z;
}.

Definition NewVarz (r : RouteRegistry) : RealVarz :=
  mkVarz r NewActiveApps NewTopApps NewHttpMetric ∅ 0 0 0 0 [] 0.

Definition set_metrics (a : HttpMetric) (c : TaggedHttpMetric) (x : RealVarz) : RealVarz :=
  mkVarz (v_r x) (v_activeApps x) (v_topApps x) a c (Urls x) (Droplets x) (BadRequests x) (BadGateways x) (v_TopApps x)
    (MillisSinceLastRegistryUpdate x).
Definition set_bad (q g : Z) (x : RealVarz) : RealVarz :=
  mkVarz (v_r x) (v_activeApps x) (v_topApps x) (All x) (Component x) (Urls x) (Droplets x) q g (v_TopApps x)
    (MillisSinceLastRegistryUpdate x).
Definition set_apps (a : ActiveApps) (t : TopApps) (x : RealVarz) : RealVarz :=
  mkVarz (v_r x) a t (All x) (Component x) (Urls x) (Droplets x) (BadRequests x) (BadGateways x) (v_TopApps x)
    (MillisSinceLastRegistryUpdate x).

Definition varz_CaptureBadRequest (x : RealVarz) : res RealVarz := Ok (set_bad (wrap64 (BadRequests x + 1)) (BadGateways x) x).
Definition varz_CaptureBadGateway (x : RealVarz) : res RealVarz := Ok (set_bad (BadRequests x) (wrap64 (BadGateways x + 1)) x).

Definition CaptureAppStats (b : Endpoint) (t : Z) (x : RealVarz) : res RealVarz :=
  if String.eqb (Pool.ApplicationId b) "" then Ok x
  else
    a ← ActiveApps.Mark (Pool.ApplicationId b) t (v_activeApps x);
    p ← TopApps.Mark (Pool.ApplicationId b) t (v_topApps x);
    Ok (set_apps a p x).

Definition varz_CaptureRoutingRequest (b : Endpoint) (x : RealVarz) : res RealVarz :=
  let c := match Tags b !! "component" with
           | Some t => tagged_CaptureRequest t (Component x)
           | None => Component x
           end in
  Ok (set_metrics (http_CaptureRequest (All x)) c x).

Definition varz_CaptureRoutingResponse (endpoint : Endpoint) (response : option Response) (startedAt duration : Z)
    (x : RealVarz) : res RealVarz :=
  let c := match Tags endpoint !! "component" with
           | Some tags => tagged_CaptureResponse tags response duration (Component x)
           | None => Component x
           end in
  let x1 := set_metrics (All x) c x in
  x2 ← CaptureAppStats endpoint startedAt x1;
  Ok (set_metrics (http_CaptureResponse response duration (All x2)) (Component x2) x2).

#[export] Instance RealVarz_reporter : ProxyReporter RealVarz := {|
  CaptureBadRequest_m := varz_CaptureBadRequest;
  CaptureBadGateway_m := varz_CaptureBadGateway;
  CaptureRoutingRequest_m := varz_CaptureRoutingRequest;
  CaptureRoutingResponse_m := varz_CaptureRoutingResponse
|}.

(** [time.Minute], and the seconds of [TopAppsEntryLifetime]. *)
Definition updateTop (now : Z) (x : RealVarz) : res RealVarz :=
  let t := time_Add now (- Minute) in
  yt ← TopSince t 10 (v_topApps x);
  let tops := map (λ z, mkTop (te_ApplicationId z) (Z.quot (te_Requests z) (Z.quot TopAppsEntryLifetime Second))
                              (te_Requests z)) (fst yt) in
  Ok (mkVarz (v_r x) (v_activeApps x) (snd yt) (All x) (Component x) (Urls x) (Droplets x) (BadRequests x)
        (BadGateways x) tops (MillisSinceLastRegistryUpdate x)).

(** What [MarshalJSON] brings up to date before it serialises; [now] and [now2]
    are its readings of the clock. *)
Definition varz_refresh (range : gmap string positive → list (string * positive)) (now now2 : Z) (x : RealVarz)
    : res RealVarz :=
  urls ← NumUris range (v_r x);
  droplets ← NumEndpoints range (v_r x);
  let millis := Z.quot (time_Sub now (TimeOfLastUpdate (v_r x))) 1000000 in
  updateTop now2 (mkVarz (v_r x) (v_activeApps x) (v_topApps x) (All x) (Component x) urls droplets (BadRequests x)
    (BadGateways x) (v_TopApps x) millis).

(** ** Dropsonde *)

Record Sink := mkSink { sk_counters : gmap string nat; sk_values : list (string * Z * string) }.

Definition NewSink : Sink := mkSink ∅ [].
Definition counter (k : string) (s : Sink) : nat := default 0 (sk_counters s !! k).

Definition BatchIncrementCounter (k : string) (s : Sink) : Sink :=
  mkSink (<[k := S (counter k s)]> (sk_counters s)) (sk_values s).
Definition SendValue (k : string) (v : Z) (u : string) (s : Sink) : Sink :=
  mkSink (sk_counters s) (sk_values s ++ [(k, v, u)]).

Definition getResponseCounterName (res : option Response) : string :=
  let statusCode := status_class res in
  if (2 <=? statusCode)%Z && (statusCode <=? 5)%Z then "responses." +:+ pretty statusCode +:+ "xx" else "responses.xxx".

(** [ok && len(componentName) > 0]. *)
Definition componentName (b : Endpoint) : option string :=
  match Tags b !! "component" with
  | Some n => if String.eqb n "" then None else Some n
  | None => None
  end.

Definition metrics_CaptureRoutingRequest (b : Endpoint) (s : Sink) : Sink :=
  let s1 := BatchIncrementCounter "total_requests" s in
  match componentName b with
  | Some n =>
      let s2 := BatchIncrementCounter ("requests." +:+ n) s1 in
      if strings_HasPrefix n "dea-" then BatchIncrementCounter "routed_app_requests" s2 else s2
  | None => s1
  end.

Definition metrics_CaptureRoutingResponse (b : Endpoint) (res : option Response) (d : Z) (s : Sink) : Sink :=
  let s1 := BatchIncrementCounter "responses" (BatchIncrementCounter (getResponseCounterName res) s) in
  let latency := Z.quot d Millisecond in
  let s2 := SendValue "latency" latency "ms" s1 in
  match componentName b with
  | Some n => SendValue ("latency." +:+ n) latency "ms" s2
  | None => s2
  end.

Definition MetricsReporter : ProxyReporter Sink := {|
  CaptureBadRequest_m s := Ok (BatchIncrementCounter "rejected_requests" s);
  CaptureBadGateway_m s := Ok (BatchIncrementCounter "bad_gateways" s);
  CaptureRoutingRequest_m b s := Ok (metrics_CaptureRoutingRequest b s);
  CaptureRoutingResponse_m b res _ d s := Ok (metrics_CaptureRoutingResponse b res d s)
|}.
#[export] Existing Instance MetricsReporter.

Definition CaptureRouteStats (totalRoutes : nat) (msSinceLastUpdate : Z) (s : Sink) : Sink :=
  SendValue "ms_since_last_registry_update" msSinceLastUpdate "ms" (SendValue "total_routes" (Z.of_nat totalRoutes) "" s).
