(* ===== verification/ReportersSpec.v ===== *)
(** * What the statistics count

    The status page and the dropsonde counters, given the same reports, hold
    the numbers of reports of each kind, and therefore agree. *)

From S2P Require Import Prelude GoStrings Pool Registry Http Proxy ActiveApps TopApps.
From S2P Require Import DualHeap ActiveAppsSpec TopAppsSpec Reporters.

(** ** Counting reports *)

Definition is_request (c : capture) : Prop := match c with CaptureRoutingRequest _ => True | _ => False end.
Definition is_response (P : Z → Prop) (c : capture) : Prop :=
  match c with CaptureRoutingResponse _ r _ _ => P (status_class r) | _ => False end.
Definition other_class (k : Z) : Prop := ¬ (2 ≤ k ≤ 5)%Z.

#[export] Instance is_request_dec c : Decision (is_request c).
Proof. destruct c; apply _. Defined.
#[export] Instance is_response_dec P `{∀ k, Decision (P k)} c : Decision (is_response P c).
Proof. destruct c; apply _. Defined.
#[export] Instance other_class_dec k : Decision (other_class k).
Proof. unfold other_class. apply _. Defined.

Definition tally (P : capture → Prop) `{∀ c, Decision (P c)} (cs : list capture) : Z := Z.of_nat (length (filter P cs)).

Definition bad_request (c : capture) : Prop := match c with CaptureBadRequest => True | _ => False end.
Definition bad_gateway (c : capture) : Prop := match c with CaptureBadGateway => True | _ => False end.
#[export] Instance bad_request_dec c : Decision (bad_request c).
Proof. destruct c; apply _. Defined.
#[export] Instance bad_gateway_dec c : Decision (bad_gateway c).
Proof. destruct c; apply _. Defined.

Definition latency_of (c : capture) : option Z := match c with CaptureRoutingResponse _ _ _ d => Some d | _ => None end.

(** The component an endpoint says it is. *)
Definition tag_of (c : capture) : option string :=
  match c with
  | CaptureRoutingRequest b | CaptureRoutingResponse b _ _ _ => Tags b !! "component"
  | _ => None
  end.

(** The metric counts these reports. *)
Record counts (cs : list capture) (m : HttpMetric) : Prop := {
  c_requests : Requests m = tally is_request cs;
  c_rate : Rate m = tally is_request cs;
  c_2xx : Responses2xx m = tally (is_response (λ k, k = 2%Z)) cs;
  c_3xx : Responses3xx m = tally (is_response (λ k, k = 3%Z)) cs;
  c_4xx : Responses4xx m = tally (is_response (λ k, k = 4%Z)) cs;
  c_5xx : Responses5xx m = tally (is_response (λ k, k = 5%Z)) cs;
  c_xxx : ResponsesXxx m = tally (is_response other_class) cs;
  c_latency : Latency m = omap latency_of cs;
}.

Lemma tally_snoc P `{∀ c, Decision (P c)} cs c :
  tally P (cs ++ [c]) = if decide (P c) then (tally P cs + 1)%Z else tally P cs.
Proof.
  unfold tally. rewrite filter_app, filter_cons, filter_nil, length_app. case_decide; cbn; lia.
Qed.

Lemma tally_bound P `{∀ c, Decision (P c)} cs : (0 ≤ tally P cs ≤ Z.of_nat (length cs))%Z.
Proof. unfold tally. pose proof (length_filter P cs). lia. Qed.

Lemma Inc_tally P `{∀ c, Decision (P c)} cs :
  (Z.of_nat (length cs) + 1 < 2 ^ 63)%Z → Inc (tally P cs) = (tally P cs + 1)%Z.
Proof. intros Hlen. apply wrap64_id. pose proof (tally_bound P cs). unfold in_int64. lia. Qed.

Lemma counts_nil : counts [] NewHttpMetric.
Proof. by split. Qed.

Lemma counts_request cs m b :
  (Z.of_nat (length cs) + 1 < 2 ^ 63)%Z → counts cs m → counts (cs ++ [CaptureRoutingRequest b]) (http_CaptureRequest m).
Proof.
  intros Hlen [H1 H2 H3 H4 H5 H6 H7 H8]. split; cbn; rewrite ?tally_snoc, ?omap_app; cbn; rewrite ?app_nil_r; try done.
  - by rewrite H1, Inc_tally.
  - by rewrite H2, Inc_tally.
Qed.

Lemma counts_response cs m b r t d :
  (Z.of_nat (length cs) + 1 < 2 ^ 63)%Z → counts cs m →
  counts (cs ++ [CaptureRoutingResponse b r t d]) (http_CaptureResponse r d m).
Proof.
  intros Hlen [H1 H2 H3 H4 H5 H6 H7 H8]. unfold http_CaptureResponse.
  assert (∀ k, status_class r = k → k = 2 ∨ k = 3 ∨ k = 4 ∨ k = 5 ∨ other_class k)%Z as Hk
    by (intros; unfold other_class; lia).
  destruct (Hk _ eq_refl) as [Hc|[Hc|[Hc|[Hc|Hc]]]].
  5: assert (∀ A (a b c d e : A), match status_class r with 2%Z => a | 3%Z => b | 4%Z => c | 5%Z => d | _ => e end = e)
       as Hd by (intros; unfold other_class in Hc; repeat case_match; (lia || done)).
  5: rewrite Hd.
  1-4: rewrite Hc.
  all: split; cbn; rewrite ?tally_snoc, ?omap_app; cbn [is_response is_request]; rewrite ?Hc; cbn; try done.
  all: try (by rewrite H8).
  all: unfold other_class in *; repeat case_decide; try lia; try done.
  all: first [by rewrite H3, Inc_tally|by rewrite H4, Inc_tally|by rewrite H5, Inc_tally|by rewrite H6, Inc_tally
             |by rewrite H7, Inc_tally].
Qed.

Lemma counts_other cs m c :
  ¬ is_request c → ¬ is_response (λ _, True) c → counts cs m → counts (cs ++ [c]) m.
Proof.
  intros Hq Hp [H1 H2 H3 H4 H5 H6 H7 H8]. destruct c; try done; split; rewrite ?tally_snoc, ?omap_app; cbn;
    rewrite ?app_nil_r; done.
Qed.

(** ** The status page *)

(** The reports about a component. *)
Definition about (t : string) (cs : list capture) : list capture := filter (λ c, tag_of c = Some t) cs.

(** Applications are marked at the start of the requests they answered. *)
Definition app_mark (c : capture) : option (string * Z) :=
  match c with
  | CaptureRoutingResponse b _ t _ => if String.eqb (Pool.ApplicationId b) "" then None else Some (Pool.ApplicationId b, t)
  | _ => None
  end.
Definition active_ops (cs : list capture) : list app_op := (λ m, OpMark (fst m) (snd m)) <$> omap app_mark cs.
Definition top_ops (cs : list capture) : list top_op := (λ m, TopMark (fst m) (snd m)) <$> omap app_mark cs.

Record varz_counts (cs : list capture) (v : RealVarz) : Prop := {
  vc_bad_requests : BadRequests v = tally bad_request cs;
  vc_bad_gateways : BadGateways v = tally bad_gateway cs;
  vc_all : counts cs (All v);
  vc_component : ∀ t, match Component v !! t with Some m => counts (about t cs) m | None => about t cs = [] end;
  vc_active : aa_wf (v_activeApps v) ∧ apps (v_activeApps v) = foldl app_effect ∅ (active_ops cs);
  vc_top : ta_wf (v_topApps v) ∧ tops (v_topApps v) = foldl top_effect ∅ (top_ops cs);
}.

Lemma component_counts cs v t : varz_counts cs v → counts (about t cs) (httpMetric t (Component v)).
Proof.
  intros Hv. pose proof (vc_component _ _ Hv t) as Hc. unfold httpMetric.
  destruct (Component v !! t); cbn; [done|]. rewrite Hc. apply counts_nil.
Qed.

Lemma about_snoc t cs c : about t (cs ++ [c]) = if decide (tag_of c = Some t) then about t cs ++ [c] else about t cs.
Proof. unfold about. rewrite filter_app, filter_cons, filter_nil. case_decide; [done|]. by rewrite app_nil_r. Qed.

Lemma about_length t cs : length (about t cs) ≤ length cs.
Proof. apply length_filter. Qed.

(** A report that concerns no component leaves the components alone; one that
    does changes the metric of that component only. *)
Lemma component_other cs v c :
  varz_counts cs v → tag_of c = None →
  ∀ t, match Component v !! t with Some m => counts (about t (cs ++ [c])) m | None => about t (cs ++ [c]) = [] end.
Proof. intros Hv Hc t. rewrite about_snoc, Hc, decide_False by done. apply Hv. Qed.

Lemma component_update cs v c tag f :
  varz_counts cs v → tag_of c = Some tag → (∀ m, counts (about tag cs) m → counts (about tag cs ++ [c]) (f m)) →
  ∀ t, match <[tag := f (httpMetric tag (Component v))]> (Component v) !! t with
       | Some m => counts (about t (cs ++ [c])) m | None => about t (cs ++ [c]) = [] end.
Proof.
  intros Hv Hc Hf t. rewrite about_snoc, Hc. destruct (decide (tag = t)) as [<-|Hne].
  - rewrite lookup_insert_eq, decide_True by done. apply Hf. by apply component_counts.
  - rewrite lookup_insert_ne, decide_False by (congruence || done). apply Hv.
Qed.

Lemma CaptureAppStats_spec b t v :
  aa_wf (v_activeApps v) → ta_wf (v_topApps v) →
  ∃ v', CaptureAppStats b t v = Ok v'
    ∧ (aa_wf (v_activeApps v') ∧ apps (v_activeApps v') =
         foldl app_effect (apps (v_activeApps v)) (active_ops [CaptureRoutingResponse b None t 0]))
    ∧ (ta_wf (v_topApps v') ∧ tops (v_topApps v') =
         foldl top_effect (tops (v_topApps v)) (top_ops [CaptureRoutingResponse b None t 0]))
    ∧ v' = set_apps (v_activeApps v') (v_topApps v') v.
Proof.
  intros Ha Ht. unfold CaptureAppStats, active_ops, top_ops. cbn [omap list_omap app_mark].
  destruct (String.eqb (Pool.ApplicationId b) ""); [exists v; by destruct v|].
  destruct (ActiveAppsSpec.Mark_spec (Pool.ApplicationId b) t (v_activeApps v) Ha) as (a' & -> & Ha' & Hae).
  destruct (top_Mark_spec (Pool.ApplicationId b) t (v_topApps v) Ht) as (t' & -> & Ht' & Hte).
  cbn [mbind res_mbind]. by eexists.
Qed.

Lemma active_ops_snoc cs c : active_ops (cs ++ [c]) = active_ops cs ++ active_ops [c].
Proof. unfold active_ops. by rewrite omap_app, fmap_app. Qed.
Lemma top_ops_snoc cs c : top_ops (cs ++ [c]) = top_ops cs ++ top_ops [c].
Proof. unfold top_ops. by rewrite omap_app, fmap_app. Qed.

Lemma varz_report cs v c :
  (Z.of_nat (length cs) + 1 < 2 ^ 63)%Z → varz_counts cs v →
  ∃ v', report_to v c = Ok v' ∧ varz_counts (cs ++ [c]) v'.
Proof.
  intros Hlen Hv. pose proof Hv as [H1 H2 H3 H4 H5 H6].
  assert (∀ t, (Z.of_nat (length (about t cs)) + 1 < 2 ^ 63)%Z) as Hab by (intros t; pose proof (about_length t cs); lia).
  destruct c as [| |b|b r t d]; cbn [report_to CaptureBadRequest_m CaptureBadGateway_m CaptureRoutingRequest_m
    CaptureRoutingResponse_m RealVarz_reporter].
  - eexists. split; [reflexivity|]. split; cbn; rewrite ?tally_snoc, ?active_ops_snoc, ?top_ops_snoc, ?foldl_app; try done.
    + rewrite H1. cbn. by apply (Inc_tally bad_request).
    + by apply counts_other; [intros []..|].
    + by apply component_other.
  - eexists. split; [reflexivity|]. split; cbn; rewrite ?tally_snoc, ?active_ops_snoc, ?top_ops_snoc, ?foldl_app; try done.
    + rewrite H2. cbn. by apply (Inc_tally bad_gateway).
    + by apply counts_other; [intros []..|].
    + by apply component_other.
  - eexists. split; [reflexivity|]. split; cbn; rewrite ?tally_snoc, ?active_ops_snoc, ?top_ops_snoc, ?foldl_app; try done.
    + by apply counts_request.
    + destruct (Tags b !! "component") as [tag|] eqn:Htag; [|by apply component_other].
      apply (component_update cs v _ tag http_CaptureRequest); [done..|]. intros m. by apply counts_request.
  - unfold varz_CaptureRoutingResponse.
    set (c' := match Tags b !! "component" with Some tags => _ | None => _ end).
    destruct (CaptureAppStats_spec b t (set_metrics (All v) c' v)) as (v' & -> & Ha & Ht & Hv'); [apply H5|apply H6|].
    cbn [mbind res_mbind]. eexists. split; [reflexivity|]. rewrite Hv'.
    split; cbn; rewrite ?tally_snoc, ?active_ops_snoc, ?top_ops_snoc, ?foldl_app; try done.
    + by apply counts_response.
    + subst c'. destruct (Tags b !! "component") as [tag|] eqn:Htag; [|by apply component_other].
      apply (component_update cs v _ tag (http_CaptureResponse r d)); [done..|]. intros m. by apply counts_response.
    + split; [apply Ha|]. rewrite (proj2 Ha). cbn. by rewrite (proj2 H5).
    + split; [apply Ht|]. rewrite (proj2 Ht). cbn. by rewrite (proj2 H6).
Qed.

Lemma varz_reports r cs :
  (Z.of_nat (length cs) < 2 ^ 63)%Z → ∃ v, foldM report_to (NewVarz r) cs = Ok v ∧ varz_counts cs v.
Proof.
  induction cs as [|c cs IH] using rev_ind; intros Hlen.
  - exists (NewVarz r). split; [done|]. split; try done.
    + apply NewActiveApps_wf.
    + apply tab_empty.
  - rewrite length_app in Hlen. cbn in Hlen. destruct IH as (v & Hr & Hv); [lia|].
    destruct (varz_report cs v c) as (v' & Hs & Hv'); [lia|done|]. exists v'. split; [|done].
    rewrite foldM_app, Hr. cbn [mbind res_mbind foldM]. by rewrite Hs.
Qed.

(** ** Dropsonde *)

(** The counters a report increments. *)
Definition increments (c : capture) : list string :=
  match c with
  | CaptureBadRequest => ["rejected_requests"]
  | CaptureBadGateway => ["bad_gateways"]
  | CaptureRoutingRequest b =>
      "total_requests" ::
      match componentName b with
      | Some n => ("requests." +:+ n) :: if strings_HasPrefix n "dea-" then ["routed_app_requests"] else []
      | None => []
      end
  | CaptureRoutingResponse _ r _ _ => [getResponseCounterName r; "responses"]
  end.

Definition times_in (k : string) (l : list string) : nat := length (filter (λ x, x = k) l).

Lemma times_in_app k l1 l2 : times_in k (l1 ++ l2) = times_in k l1 + times_in k l2.
Proof. unfold times_in. by rewrite filter_app, length_app. Qed.

Lemma counter_incr k k' s : counter k (BatchIncrementCounter k' s) = counter k s + times_in k [k'].
Proof.
  unfold counter, BatchIncrementCounter, times_in. cbn [sk_counters]. rewrite filter_cons, filter_nil.
  destruct (decide (k' = k)) as [->|]; [rewrite lookup_insert_eq; cbn; unfold counter; lia|].
  rewrite lookup_insert_ne by done. cbn. lia.
Qed.

Lemma counter_send k k' x u s : counter k (SendValue k' x u s) = counter k s.
Proof. done. Qed.

Lemma sink_report s c : ∃ s', report_to s c = Ok s' ∧ ∀ k, counter k s' = counter k s + times_in k (increments c).
Proof.
  destruct c as [| |b|b r t d]; eexists; (split; [reflexivity|]); intros k; cbn [increments].
  - apply counter_incr.
  - apply counter_incr.
  - unfold metrics_CaptureRoutingRequest. destruct (componentName b) as [n|]; [|apply counter_incr].
    destruct (strings_HasPrefix n "dea-"); rewrite !counter_incr, <- !Nat.add_assoc, <- !times_in_app; done.
  - unfold metrics_CaptureRoutingResponse. destruct (componentName b); rewrite !counter_send, !counter_incr,
      <- !Nat.add_assoc, <- !times_in_app; done.
Qed.

Lemma sink_reports cs s :
  ∃ s', foldM report_to s cs = Ok s' ∧ ∀ k, counter k s' = counter k s + times_in k (cs ≫= increments).
Proof.
  revert s; induction cs as [|c cs IH]; intros s; [exists s; split; [done|]; intros k; cbn; lia|].
  destruct (sink_report s c) as (s1 & Hs & H1). destruct (IH s1) as (s2 & Hr & H2). exists s2. cbn [foldM].
  rewrite Hs. split; [done|]. intros k.
  change ((c :: cs) ≫= increments) with (increments c ++ (cs ≫= increments)). rewrite H2, H1, times_in_app. lia.
Qed.

Lemma composite_reports {S T : Type} `{ProxyReporter S} `{ProxyReporter T} cs (s : S) (t : T) s' t' :
  foldM report_to s cs = Ok s' → foldM report_to t cs = Ok t' → foldM report_to (s, t) cs = Ok (s', t').
Proof.
  revert s t; induction cs as [|c cs IH]; intros s t Hs Ht; [by simplify_eq/=|]. cbn [foldM] in *. res_inv.
  match goal with H1 : report_to s c = Ok ?x, H2 : report_to t c = Ok ?y |- _ =>
    replace (report_to (s, t) c) with (Ok (x, y)); [by apply IH|];
    destruct c; cbn in H1, H2 |- *; unfold both; cbn; rewrite H1; cbn; by rewrite H2 end.
Qed.

(** A counter that one kind of report increments once counts these reports. *)
Lemma counter_tally P `{∀ c, Decision (P c)} k cs :
  (∀ c, times_in k (increments c) = if decide (P c) then 1 else 0) →
  Z.of_nat (times_in k (cs ≫= increments)) = tally P cs.
Proof.
  intros Hk. induction cs as [|c cs IH]; [done|].
  change ((c :: cs) ≫= increments) with (increments c ++ (cs ≫= increments)).
  rewrite times_in_app, Hk. unfold tally in *. rewrite filter_cons. case_decide; cbn [length]; lia.
Qed.

Lemma class_name r :
  getResponseCounterName r =
    match status_class r with
    | 2%Z => "responses.2xx" | 3%Z => "responses.3xx" | 4%Z => "responses.4xx" | 5%Z => "responses.5xx"
    | _ => "responses.xxx"
    end.
Proof.
  unfold getResponseCounterName. generalize (status_class r) as k. intros k.
  destruct (decide (2 ≤ k ≤ 5)%Z) as [Hk|Hk].
  - assert (k = 2 ∨ k = 3 ∨ k = 4 ∨ k = 5)%Z as [->|[->|[->| ->]]] by lia; reflexivity.
  - assert ((2 <=? k)%Z && (k <=? 5)%Z = false) as -> by lia. repeat case_match; first [done|lia].
Qed.

Lemma times_in_cons k x l : times_in k (x :: l) = (if decide (x = k) then 1 else 0) + times_in k l.
Proof. unfold times_in. rewrite filter_cons. by case_decide. Qed.

Lemma times_in_nil k : times_in k [] = 0.
Proof. done. Qed.

Lemma request_times k b :
  k ≠ "total_requests" → k ≠ "routed_app_requests" →
  times_in k (increments (CaptureRoutingRequest b)) =
    match componentName b with Some n => if decide ("requests." +:+ n = k) then 1 else 0 | None => 0 end.
Proof.
  intros H1 H2. cbn [increments]. rewrite times_in_cons, decide_False by congruence.
  destruct (componentName b) as [n|]; [|done]. rewrite times_in_cons.
  destruct (strings_HasPrefix n "dea-"); [rewrite times_in_cons, (decide_False (P := "routed_app_requests" = k)) by congruence|];
    rewrite times_in_nil; lia.
Qed.

Lemma class_times k P `{∀ x, Decision (P x)} :
  (∀ n, "requests." +:+ n ≠ k) → k ≠ "total_requests" → k ≠ "routed_app_requests" → k ≠ "rejected_requests" →
  k ≠ "bad_gateways" → k ≠ "responses" →
  (∀ r, getResponseCounterName r = k ↔ P (status_class r)) →
  ∀ c, times_in k (increments c) = if decide (is_response P c) then 1 else 0.
Proof.
  intros Hn H1 H2 H3 H4 H5 Hr c. destruct c as [| |b|b r t d].
  1-2: cbn [increments]; rewrite times_in_cons, decide_False by congruence; by rewrite decide_False by (intros []).
  - rewrite request_times by done. rewrite (decide_False (P := is_response P _)) by (intros []).
    destruct (componentName b); [by rewrite decide_False by apply Hn|done].
  - cbn [increments is_response]. rewrite !times_in_cons, times_in_nil, (decide_False (P := "responses" = k)) by congruence.
    destruct (decide (P (status_class r))) as [Hp|Hp]; [rewrite decide_True by (by apply Hr)|rewrite decide_False by (by rewrite Hr)];
      first [done|case_decide; done].
Qed.

Lemma class_counter k j cs :
  (k, j) ∈ [("responses.2xx", 2%Z); ("responses.3xx", 3%Z); ("responses.4xx", 4%Z); ("responses.5xx", 5%Z)] →
  Z.of_nat (times_in k (cs ≫= increments)) = tally (is_response (λ x, x = j)) cs.
Proof.
  intros Hk. apply counter_tally. rewrite !elem_of_cons in Hk.
  destruct Hk as [[= -> ->]|[[= -> ->]|[[= -> ->]|[[= -> ->]|Hk%elem_of_nil]]]]; [..|done].
  all: apply class_times; try done; intros r; rewrite class_name; split; [repeat case_match; done|intros ->; done].
Qed.

Lemma xxx_counter cs : Z.of_nat (times_in "responses.xxx" (cs ≫= increments)) = tally (is_response other_class) cs.
Proof.
  apply counter_tally, class_times; try done. intros r. rewrite class_name. unfold other_class. split.
  - repeat case_match; first [done|lia].
  - intros Hk. repeat case_match; first [done|lia].
Qed.

Lemma tally_ext P Q `{∀ c, Decision (P c)} `{∀ c, Decision (Q c)} cs : (∀ c, P c ↔ Q c) → tally P cs = tally Q cs.
Proof. intros HPQ. unfold tally. do 2 f_equal. by apply list_filter_iff. Qed.

Lemma responses_sum cs m :
  counts cs m →
  tally (is_response (λ _, True)) cs
  = (Responses2xx m + Responses3xx m + Responses4xx m + Responses5xx m + ResponsesXxx m)%Z.
Proof.
  intros [_ _ -> -> -> -> -> _]. induction cs as [|c cs IH] using rev_ind; [done|]. rewrite !tally_snoc.
  repeat match goal with |- context [decide (is_response ?P ?c)] => destruct (decide (is_response P c)) end;
    destruct c as [| |b|b r t d]; cbn [is_response] in *; try done; unfold other_class in *; lia.
Qed.

Lemma request_counter n cs :
  n ≠ "" → Z.of_nat (times_in ("requests." +:+ n) (cs ≫= increments)) = tally is_request (about n cs).
Proof.
  intros Hn. rewrite (counter_tally (λ c, is_request c ∧ tag_of c = Some n)).
  - unfold tally, about. by rewrite list_filter_filter.
  - intros c. destruct c as [| |b|b r t d].
    1-2: cbn [increments]; rewrite times_in_cons, decide_False by done; by rewrite decide_False by (intros [[] _]).
    + rewrite request_times by done. unfold componentName. cbn [tag_of is_request].
      destruct (Tags b !! "component") as [n'|]; [|by rewrite decide_False by (by intros [_ ?])].
      destruct (String.eqb_spec n' "") as [->|Hn']; [rewrite decide_False; [done|by intros [_ [= <-]]]|].
      destruct (decide (n' = n)) as [->|Hne]; [by rewrite !decide_True|].
      rewrite (decide_False (P := True ∧ _)) by (intros [_ [= ?]]; done).
      rewrite decide_False; [done|]. intros Heq. by injection Heq.
    + cbn [increments]. rewrite !times_in_cons, class_name, (decide_False (P := "responses" = _)) by done.
      rewrite (decide_False (P := is_request _ ∧ _)) by (intros [[] _]).
      rewrite decide_False; [done|]. repeat case_match; done.
Qed.

(** The counters with fixed names. *)
Ltac fixed_counter :=
  intros; apply counter_tally; intros [| |b|b r t d]; cbn [increments];
  rewrite ?times_in_cons, ?times_in_nil, ?class_name; repeat case_match;
  first [reflexivity|discriminate|contradiction|exfalso; by auto].

Lemma rejected_counter cs : Z.of_nat (times_in "rejected_requests" (cs ≫= increments)) = tally bad_request cs.
Proof. fixed_counter. Qed.
Lemma gateway_counter cs : Z.of_nat (times_in "bad_gateways" (cs ≫= increments)) = tally bad_gateway cs.
Proof. fixed_counter. Qed.
Lemma total_counter cs : Z.of_nat (times_in "total_requests" (cs ≫= increments)) = tally is_request cs.
Proof. fixed_counter. Qed.
Lemma response_counter cs : Z.of_nat (times_in "responses" (cs ≫= increments)) = tally (is_response (λ _, True)) cs.
Proof. fixed_counter. Qed.

(** ** The theorems *)

(** What the status page counts.  Any sequence of fewer than [2^63] reports is
    taken without a panic; bad requests, bad gateways, requests and each
    class of responses are counted exactly, in total and for each component
    that was ever reported; the latencies reach the histograms in order; and
    the active and top applications are marked at the start of each answered
    request of an application that has an id. *)
Theorem varz_counts_reports r cs :
  (Z.of_nat (length cs) < 2 ^ 63)%Z → ∃ v, foldM report_to (NewVarz r) cs = Ok v ∧ varz_counts cs v.
Proof. apply varz_reports. Qed.

(** Both reporters agree.  Reporting to the composite reporter never
    panics, and afterwards the dropsonde counters equal the numbers of the
    status page: rejected requests, bad gateways, requests in total and of every
    named component, responses in total and by class. *)
Theorem reporters_agree r cs :
  (Z.of_nat (length cs) < 2 ^ 63)%Z →
  ∃ v s, foldM report_to (NewVarz r, NewSink) cs = Ok (v, s)
    ∧ Z.of_nat (counter "rejected_requests" s) = BadRequests v
    ∧ Z.of_nat (counter "bad_gateways" s) = BadGateways v
    ∧ Z.of_nat (counter "total_requests" s) = Requests (All v)
    ∧ (∀ n, n ≠ "" → Z.of_nat (counter ("requests." +:+ n) s) = Requests (httpMetric n (Component v)))
    ∧ Z.of_nat (counter "responses.2xx" s) = Responses2xx (All v)
    ∧ Z.of_nat (counter "responses.3xx" s) = Responses3xx (All v)
    ∧ Z.of_nat (counter "responses.4xx" s) = Responses4xx (All v)
    ∧ Z.of_nat (counter "responses.5xx" s) = Responses5xx (All v)
    ∧ Z.of_nat (counter "responses.xxx" s) = ResponsesXxx (All v)
    ∧ Z.of_nat (counter "responses" s) = (Responses2xx (All v) + Responses3xx (All v) + Responses4xx (All v)
                                          + Responses5xx (All v) + ResponsesXxx (All v))%Z.
Proof.
  intros Hlen. destruct (varz_reports r cs Hlen) as (v & Hv & Hc). destruct (sink_reports cs NewSink) as (s & Hs & Hk).
  assert (∀ k, counter k s = times_in k (cs ≫= increments)) as Hcount by (intros k; apply Hk).
  pose proof (vc_all _ _ Hc) as Ha. exists v, s. split; [by apply composite_reports|]. rewrite !Hcount.
  rewrite rejected_counter, gateway_counter, total_counter, response_counter, xxx_counter, (responses_sum cs (All v)) by done.
  rewrite (class_counter "responses.2xx" 2), (class_counter "responses.3xx" 3), (class_counter "responses.4xx" 4),
    (class_counter "responses.5xx" 5) by (rewrite !elem_of_cons; tauto).
  pose proof Hc as [-> -> _ _ _ _]. destruct Ha. split_and!; try done.
  intros n Hn. rewrite Hcount, request_counter by done. symmetry. by apply c_requests, component_counts.
Qed.

(** A refused request, one that failed on its first endpoint, and its answer. *)
Definition dea : Endpoint := ep (NewEndpoint 1 "app1" "10.0.0.1" 80 "id1" {["component" := "dea-1"]} 0 "").
Definition sample_reports : list capture :=
  [CaptureBadRequest; CaptureRoutingRequest dea; CaptureRoutingRequest dea;
   CaptureRoutingResponse dea (Some (mkResponse 204 ∅ "")) (5 * Second) (3 * Millisecond); CaptureBadGateway;
   CaptureRoutingResponse dea None (6 * Second) (4 * Millisecond)].

Lemma varz_counts_reports_witness :
  ∃ v, foldM report_to (NewVarz (NewRouteRegistry 0 0)) sample_reports = Ok v ∧ varz_counts sample_reports v
    ∧ Requests (All v) = 2%Z ∧ Responses2xx (All v) = 1%Z ∧ ResponsesXxx (All v) = 1%Z
    ∧ apps (v_activeApps v) = {["app1" := 6%Z]}.
Proof.
  destruct (varz_counts_reports (NewRouteRegistry 0 0) sample_reports) as (v & Hr & Hv); [reflexivity|].
  exists v. split_and!; [exact Hr|exact Hv|rewrite (c_requests _ _ (vc_all _ _ Hv))|rewrite (c_2xx _ _ (vc_all _ _ Hv))|
    rewrite (c_xxx _ _ (vc_all _ _ Hv))|rewrite (proj2 (vc_active _ _ Hv))]; vm_compute; reflexivity.
Defined.

Lemma reporters_agree_witness :
  ∃ v s, foldM report_to (NewVarz (NewRouteRegistry 0 0), NewSink) sample_reports = Ok (v, s)
    ∧ counter "requests.dea-1" s = 2 ∧ Z.of_nat (counter "requests.dea-1" s) = Requests (httpMetric "dea-1" (Component v))
    ∧ Z.of_nat (counter "responses" s) = (Responses2xx (All v) + Responses3xx (All v) + Responses4xx (All v)
                                          + Responses5xx (All v) + ResponsesXxx (All v))%Z.
Proof.
  destruct (reporters_agree (NewRouteRegistry 0 0) sample_reports) as (v & s & Hr & _ & _ & _ & Hn & _ & _ & _ & _ & _ & Hsum);
    [reflexivity|].
  exists v, s. split_and!; [exact Hr| |apply (Hn "dea-1"); discriminate|exact Hsum].
  vm_compute in Hr. injection Hr as _ <-. reflexivity.
Defined.
