(* ===== verification/Config.v ===== *)
(** * Configuration (src/config/config.go)

    The configuration is read from YAML over defaults and then processed:
    durations are computed from seconds, the cipher suites are parsed and
    inconsistent settings are repaired or refused with a panic.  The YAML
    decoder, the host's address, its number of processors and the loading of
    certificates are parameters. *)

From S2P Require Import Prelude GoStrings Http.

Record StatusConfig := mkStatus { st_Port : Z; st_User : string; st_Pass : string }.
Definition defaultStatusConfig : StatusConfig := mkStatus 8082 "" "".

Record NatsConfig := mkNats { nc_Host : string; nc_Port : Z; nc_User : string; nc_Pass : string }.
Definition defaultNatsConfig : NatsConfig := mkNats "localhost" 4222 "" "".

Record RoutingApiConfig := mkRoutingApi { ra_Uri : string; ra_Port : Z; ra_AuthDisabled : bool }.

Record LoggingConfig := mkLogging {
  lg_File : string;
  lg_Syslog : string;
  lg_Level : string;
  lg_LoggregatorEnabled : bool;
  lg_MetronAddress : string;
  lg_JobName : string;
}.
Definition defaultLoggingConfig : LoggingConfig := mkLogging "" "" "debug" false "localhost:3457" "".

(** [token_fetcher.OAuthConfig]. *)
Record OAuthConfig := mkOAuth { oa_TokenEndpoint : string; oa_ClientName : string; oa_ClientSecret : string; oa_Port : Z }.

(** The fields of [Config] that [Process] populates. *)
Record ProcessedConfig := mkProcessed {
  p_PruneStaleDropletsInterval : Z;
  p_DropletStaleThreshold : Z;
  p_PublishActiveAppsInterval : Z;
  p_StartResponseDelayInterval : Z;
  p_EndpointTimeout : Z;
  p_RouteServiceTimeout : Z;
  p_DrainTimeout : Z;
  p_Ip : string;
  p_RouteServiceEnabled : bool;
}.

Record Config := mkConfig {
  c_Status : StatusConfig;
  c_Nats : list NatsConfig;
  c_Logging : LoggingConfig;
  c_Port : Z;
  c_Index : Z;
  c_Zone : string;
  c_GoMaxProcs : Z;
  c_TraceKey : string;
  c_AccessLog : string;
  c_DebugAddr : string;
  c_EnableSSL : bool;
  c_SSLPort : Z;
  c_SSLCertPath : string;
  c_SSLKeyPath : string;
  c_SSLCertificate : option string;
  c_SSLSkipValidation : bool;
  c_CipherString : string;
  c_CipherSuites : list Z;
  c_PublishStartMessageIntervalInSeconds : Z;
  c_PruneStaleDropletsIntervalInSeconds : Z;
  c_DropletStaleThresholdInSeconds : Z;
  c_PublishActiveAppsIntervalInSeconds : Z;
  c_StartResponseDelayIntervalInSeconds : Z;
  c_EndpointTimeoutInSeconds : Z;
  c_RouteServiceTimeoutInSeconds : Z;
  c_DrainTimeoutInSeconds : Z;
  c_SecureCookies : bool;
  c_OAuth : OAuthConfig;
  c_RoutingApi : RoutingApiConfig;
  c_RouteServiceSecret : string;
  c_RouteServiceSecretPrev : string;
  c_ExtraHeadersToLog : list string;
  c_Processed : ProcessedConfig;
}.

Definition set_GoMaxProcs (n : Z) (c : Config) : Config :=
  mkConfig (c_Status c) (c_Nats c) (c_Logging c) (c_Port c) (c_Index c) (c_Zone c) n (c_TraceKey c)
    (c_AccessLog c) (c_DebugAddr c) (c_EnableSSL c) (c_SSLPort c) (c_SSLCertPath c) (c_SSLKeyPath c)
    (c_SSLCertificate c) (c_SSLSkipValidation c) (c_CipherString c) (c_CipherSuites c)
    (c_PublishStartMessageIntervalInSeconds c) (c_PruneStaleDropletsIntervalInSeconds c)
    (c_DropletStaleThresholdInSeconds c) (c_PublishActiveAppsIntervalInSeconds c)
    (c_StartResponseDelayIntervalInSeconds c) (c_EndpointTimeoutInSeconds c) (c_RouteServiceTimeoutInSeconds c)
    (c_DrainTimeoutInSeconds c) (c_SecureCookies c) (c_OAuth c) (c_RoutingApi c) (c_RouteServiceSecret c)
    (c_RouteServiceSecretPrev c) (c_ExtraHeadersToLog c) (c_Processed c).
Definition set_SSL (suites : list Z) (cert : option string) (c : Config) : Config :=
  mkConfig (c_Status c) (c_Nats c) (c_Logging c) (c_Port c) (c_Index c) (c_Zone c) (c_GoMaxProcs c)
    (c_TraceKey c) (c_AccessLog c) (c_DebugAddr c) (c_EnableSSL c) (c_SSLPort c) (c_SSLCertPath c)
    (c_SSLKeyPath c) cert (c_SSLSkipValidation c) (c_CipherString c) suites
    (c_PublishStartMessageIntervalInSeconds c) (c_PruneStaleDropletsIntervalInSeconds c)
    (c_DropletStaleThresholdInSeconds c) (c_PublishActiveAppsIntervalInSeconds c)
    (c_StartResponseDelayIntervalInSeconds c) (c_EndpointTimeoutInSeconds c) (c_RouteServiceTimeoutInSeconds c)
    (c_DrainTimeoutInSeconds c) (c_SecureCookies c) (c_OAuth c) (c_RoutingApi c) (c_RouteServiceSecret c)
    (c_RouteServiceSecretPrev c) (c_ExtraHeadersToLog c) (c_Processed c).
Definition set_Nats (l : list NatsConfig) (c : Config) : Config :=
  mkConfig (c_Status c) l (c_Logging c) (c_Port c) (c_Index c) (c_Zone c) (c_GoMaxProcs c) (c_TraceKey c)
    (c_AccessLog c) (c_DebugAddr c) (c_EnableSSL c) (c_SSLPort c) (c_SSLCertPath c) (c_SSLKeyPath c)
    (c_SSLCertificate c) (c_SSLSkipValidation c) (c_CipherString c) (c_CipherSuites c)
    (c_PublishStartMessageIntervalInSeconds c) (c_PruneStaleDropletsIntervalInSeconds c)
    (c_DropletStaleThresholdInSeconds c) (c_PublishActiveAppsIntervalInSeconds c)
    (c_StartResponseDelayIntervalInSeconds c) (c_EndpointTimeoutInSeconds c) (c_RouteServiceTimeoutInSeconds c)
    (c_DrainTimeoutInSeconds c) (c_SecureCookies c) (c_OAuth c) (c_RoutingApi c) (c_RouteServiceSecret c)
    (c_RouteServiceSecretPrev c) (c_ExtraHeadersToLog c) (c_Processed c).
Definition set_Processed (l : LoggingConfig) (p : ProcessedConfig) (c : Config) : Config :=
  mkConfig (c_Status c) (c_Nats c) l (c_Port c) (c_Index c) (c_Zone c) (c_GoMaxProcs c) (c_TraceKey c)
    (c_AccessLog c) (c_DebugAddr c) (c_EnableSSL c) (c_SSLPort c) (c_SSLCertPath c) (c_SSLKeyPath c)
    (c_SSLCertificate c) (c_SSLSkipValidation c) (c_CipherString c) (c_CipherSuites c)
    (c_PublishStartMessageIntervalInSeconds c) (c_PruneStaleDropletsIntervalInSeconds c)
    (c_DropletStaleThresholdInSeconds c) (c_PublishActiveAppsIntervalInSeconds c)
    (c_StartResponseDelayIntervalInSeconds c) (c_EndpointTimeoutInSeconds c) (c_RouteServiceTimeoutInSeconds c)
    (c_DrainTimeoutInSeconds c) (c_SecureCookies c) (c_OAuth c) (c_RoutingApi c) (c_RouteServiceSecret c)
    (c_RouteServiceSecretPrev c) (c_ExtraHeadersToLog c) p.

Definition defaultConfig : Config := {|
  c_Status := defaultStatusConfig;
  c_Nats := [defaultNatsConfig];
  c_Logging := defaultLoggingConfig;
  c_Port := 8081;
  c_Index := 0;
  c_Zone := "";
  c_GoMaxProcs := -1;
  c_TraceKey := "";
  c_AccessLog := "";
  c_DebugAddr := "";
  c_EnableSSL := false;
  c_SSLPort := 443;
  c_SSLCertPath := "";
  c_SSLKeyPath := "";
  c_SSLCertificate := None;
  c_SSLSkipValidation := false;
  c_CipherString := "";
  c_CipherSuites := [];
  c_PublishStartMessageIntervalInSeconds := 30;
  c_PruneStaleDropletsIntervalInSeconds := 30;
  c_DropletStaleThresholdInSeconds := 120;
  c_PublishActiveAppsIntervalInSeconds := 0;
  c_StartResponseDelayIntervalInSeconds := 5;
  c_EndpointTimeoutInSeconds := 60;
  c_RouteServiceTimeoutInSeconds := 60;
  c_DrainTimeoutInSeconds := 0;
  c_SecureCookies := false;
  c_OAuth := mkOAuth "" "" "" 0;
  c_RoutingApi := mkRoutingApi "" 0 false;
  c_RouteServiceSecret := "";
  c_RouteServiceSecretPrev := "";
  c_ExtraHeadersToLog := [];
  c_Processed := mkProcessed 0 0 0 0 0 0 0 "" false
|}.

(** The machine the router runs on. *)
Record Machine := mkMachine {
  NumCPU : Z;
  m_LocalIP : option string;
  LoadX509KeyPair : string → string → option string;
  ReadFile : string → option string;
  yaml_Unmarshal : string → Config → option Config;
}.

Definition cipherMap : gmap string Z := list_to_map
  [("TLS_RSA_WITH_AES_128_CBC_SHA", 0x002f); ("TLS_RSA_WITH_AES_256_CBC_SHA", 0x0035);
   ("TLS_ECDHE_ECDSA_WITH_AES_128_CBC_SHA", 0xc009); ("TLS_ECDHE_ECDSA_WITH_AES_256_CBC_SHA", 0xc00a);
   ("TLS_ECDHE_RSA_WITH_AES_128_CBC_SHA", 0xc013); ("TLS_ECDHE_RSA_WITH_AES_256_CBC_SHA", 0xc014);
   ("TLS_ECDHE_RSA_WITH_AES_128_GCM_SHA256", 0xc02f); ("TLS_ECDHE_ECDSA_WITH_AES_128_GCM_SHA256", 0xc02b)]%Z.

#[global] Arguments cipherMap : simpl never.

(** The list of supported suites that ends the message is left out. *)
Fixpoint convertCipherStringToInt (cipherStrs : list string) (cipherMap : gmap string Z) : res (list Z) :=
  match cipherStrs with
  | [] => Ok []
  | cipher :: rest =>
      match cipherMap !! cipher with
      | Some val => ciphers ← convertCipherStringToInt rest cipherMap; Ok (val :: ciphers)
      | None => Panic ("invalid cipher string configuration: " +:+ cipher)
      end
  end.

Definition processCipherSuites (c : Config) : res (list Z) :=
  if String.eqb (strings_TrimSpace (c_CipherString c)) ""
  then Panic "must specify list of cipher suite when ssl is enabled"
  else convertCipherStringToInt (strings_Split (c_CipherString c) ":") cipherMap.

Section machine.
Context (m : Machine).

Definition Process (c : Config) : res Config :=
  let c1 := if (c_GoMaxProcs c =? -1)%Z then set_GoMaxProcs (NumCPU m) c else c in
  let pruneInterval := seconds_to_duration (c_PruneStaleDropletsIntervalInSeconds c1) in
  let threshold := seconds_to_duration (c_DropletStaleThresholdInSeconds c1) in
  let activeApps := seconds_to_duration (c_PublishActiveAppsIntervalInSeconds c1) in
  let startDelay := seconds_to_duration (c_StartResponseDelayIntervalInSeconds c1) in
  let endpointTimeout := seconds_to_duration (c_EndpointTimeoutInSeconds c1) in
  let routeServiceTimeout := seconds_to_duration (c_RouteServiceTimeoutInSeconds c1) in
  let logging := mkLogging (lg_File (c_Logging c1)) (lg_Syslog (c_Logging c1)) (lg_Level (c_Logging c1))
    (lg_LoggregatorEnabled (c_Logging c1)) (lg_MetronAddress (c_Logging c1)) "gorouter" in
  let threshold' := if (threshold <? startDelay)%Z then startDelay else threshold in
  let drain := if (c_DrainTimeoutInSeconds c1 =? 0)%Z then c_EndpointTimeoutInSeconds c1 else c_DrainTimeoutInSeconds c1 in
  let drainTimeout := seconds_to_duration drain in
  match m_LocalIP m with
  | None => Panic "LocalIP"
  | Some ip =>
      let processed enabled := mkProcessed pruneInterval threshold' activeApps startDelay endpointTimeout
        routeServiceTimeout drainTimeout ip enabled in
      c2 ← (if c_EnableSSL c1 then
              suites ← processCipherSuites c1;
              match LoadX509KeyPair m (c_SSLCertPath c1) (c_SSLKeyPath c1) with
              | None => Panic "LoadX509KeyPair"
              | Some cert => Ok (set_SSL suites (Some cert) c1)
              end
            else Ok c1);
      let enabled := if String.eqb (c_RouteServiceSecret c2) "" then p_RouteServiceEnabled (c_Processed c2) else true in
      Ok (set_Processed logging (processed enabled) c2)
  end.

Definition DefaultConfig : res Config := Process defaultConfig.

Definition Initialize (configYAML : string) (c : Config) : option Config := yaml_Unmarshal m configYAML (set_Nats [] c).

Definition InitConfigFromFile (path : string) : res Config :=
  c ← DefaultConfig;
  b ← or_panic "ReadFile" (ReadFile m path);
  c1 ← or_panic "Unmarshal" (Initialize b c);
  Process c1.
End machine.

Definition RoutingApiEnabled (c : Config) : bool :=
  negb (String.eqb (ra_Uri (c_RoutingApi c)) "") && negb (ra_Port (c_RoutingApi c) =? 0)%Z.

(** [escape] of net/url for user names and passwords. *)
Definition hex_digit (n : nat) : ascii := ascii_of_nat (if (n <? 10)%nat then 48 + n else 55 + n).
Definition userinfo_char (c : ascii) : bool :=
  let n := nat_of_ascii c in
  (48 <=? n)%nat && (n <=? 57)%nat || (65 <=? n)%nat && (n <=? 90)%nat || (97 <=? n)%nat && (n <=? 122)%nat
  || existsb (Ascii.eqb c) ["-"; "_"; "."; "~"; "$"; "&"; "+"; ","; ";"; "="]%char.
Fixpoint url_escape (s : string) : string :=
  match s with
  | EmptyString => EmptyString
  | String c s' =>
      if userinfo_char c then String c (url_escape s')
      else let n := nat_of_ascii c in String "%" (String (hex_digit (n / 16)) (String (hex_digit (n mod 16)) (url_escape s')))
  end.

Definition NatsServers (c : Config) : list string :=
  map (λ info, "nats://" +:+ url_escape (nc_User info) +:+ ":" +:+ url_escape (nc_Pass info) +:+ "@"
                 +:+ nc_Host info +:+ ":" +:+ pretty (nc_Port info)) (c_Nats c).
