(* ===== verification/ConfigSpec.v ===== *)
(** * What processing a configuration guarantees *)

From S2P Require Import Prelude GoStrings Http Config.

#[local] Arguments strings_TrimSpace : simpl never.
#[local] Arguments strings_Split : simpl never.

(** The host has an address and, with TLS, every suite is known and the
    certificate loads. *)
Definition acceptable (m : Machine) (c : Config) : Prop :=
  is_Some (m_LocalIP m)
  ∧ (c_EnableSSL c = true →
     strings_TrimSpace (c_CipherString c) ≠ ""
     ∧ Forall (λ s, is_Some (cipherMap !! s)) (strings_Split (c_CipherString c) ":")
     ∧ is_Some (LoadX509KeyPair m (c_SSLCertPath c) (c_SSLKeyPath c))).

(** A number of seconds whose duration fits. *)
Definition seconds_fit (n : Z) : Prop := in_int64 (n * Second).

Lemma convert_spec l (mp : gmap string Z) :
  match convertCipherStringToInt l mp with
  | Ok suites => mapM (mp !!.) l = Some suites
  | Panic _ => ¬ Forall (λ s, is_Some (mp !! s)) l
  | NoFuel => False
  end.
Proof.
  induction l as [|s l IH]; cbn; [done|]. destruct (mp !! s) as [v|] eqn:Hs; cbn.
  - destruct (convertCipherStringToInt l mp); cbn in *; [by rewrite IH| |done]. by rewrite Forall_cons; intros [_ ?].
  - rewrite Forall_cons, Hs. by intros [[? ?] _].
Qed.

Lemma mapM_Forall {A B} (f : A → option B) l k : mapM f l = Some k → Forall (λ x, is_Some (f x)) l.
Proof. intros H%mapM_Some. induction H; constructor; [by eexists|done]. Qed.

(** The TLS part of [Process]. *)
Lemma process_ssl m c :
  match (if c_EnableSSL c then
           suites ← processCipherSuites c;
           match LoadX509KeyPair m (c_SSLCertPath c) (c_SSLKeyPath c) with
           | None => Panic "LoadX509KeyPair"
           | Some cert => Ok (set_SSL suites (Some cert) c)
           end
         else Ok c) with
  | Ok c2 => (is_Some (m_LocalIP m) → acceptable m c)
      ∧ (c_EnableSSL c = true → mapM (cipherMap !!.) (strings_Split (c_CipherString c) ":") = Some (c_CipherSuites c2))
      ∧ ∃ suites cert, c2 = set_SSL suites cert c
  | Panic _ => ¬ acceptable m c
  | NoFuel => False
  end.
Proof.
  unfold acceptable, processCipherSuites. destruct (c_EnableSSL c); [|cbn; split_and!; [done..|];
    exists (c_CipherSuites c), (c_SSLCertificate c); by destruct c].
  destruct (String.eqb_spec (strings_TrimSpace (c_CipherString c)) "") as [Ht|Ht]; cbn.
  { intros [_ Hs]. destruct (Hs eq_refl). done. }
  pose proof (convert_spec (strings_Split (c_CipherString c) ":") cipherMap) as Hc.
  destruct (convertCipherStringToInt _ cipherMap) as [suites| |]; cbn; [| |done].
  - destruct (LoadX509KeyPair m _ _) as [cert|] eqn:Hl.
    + cbn. split_and!; [|done|by eexists _, _]. intros Hip. split; [done|]. intros _.
      split_and!; [done|by eapply mapM_Forall|done].
    + intros [_ Hs]. destruct (Hs eq_refl) as (_ & _ & [? ?]). congruence.
  - intros [_ Hs]. destruct (Hs eq_refl) as (_ & ? & _). done.
Qed.

Lemma if_same {A} (b : bool) (x : A) : (if b then x else x) = x.
Proof. by destruct b. Qed.

(** C38: Processing a configuration.  [Process] succeeds exactly on acceptable
    configurations and panics on the others.  Then routes are not pruned
    before the start-up delay is over; the suites are the configured ones in
    their order; draining takes the endpoint timeout unless it has its own;
    a secret enables route services; and seconds that fit become the
    durations they name. *)
Theorem Process_config m c :
  ((∃ c', Process m c = Ok c') ↔ acceptable m c)
  ∧ ∀ c', Process m c = Ok c' →
      let p := c_Processed c' in
      (p_StartResponseDelayInterval p ≤ p_DropletStaleThreshold p)%Z
      ∧ (seconds_fit (c_DropletStaleThresholdInSeconds c) → seconds_fit (c_StartResponseDelayIntervalInSeconds c) →
         p_DropletStaleThreshold p
         = (Z.max (c_DropletStaleThresholdInSeconds c) (c_StartResponseDelayIntervalInSeconds c) * Second)%Z)
      ∧ (let d := if decide (c_DrainTimeoutInSeconds c = 0%Z) then c_EndpointTimeoutInSeconds c else c_DrainTimeoutInSeconds c in
         seconds_fit d → p_DrainTimeout p = (d * Second)%Z)
      ∧ (c_EnableSSL c = true → mapM (cipherMap !!.) (strings_Split (c_CipherString c) ":") = Some (c_CipherSuites c'))
      ∧ p_RouteServiceEnabled p = p_RouteServiceEnabled (c_Processed c) || negb (String.eqb (c_RouteServiceSecret c) "")
      ∧ c_GoMaxProcs c' = (if decide (c_GoMaxProcs c = (-1)%Z) then NumCPU m else c_GoMaxProcs c)
      ∧ m_LocalIP m = Some (p_Ip p).
Proof.
  set (c1 := if (c_GoMaxProcs c =? -1)%Z then set_GoMaxProcs (NumCPU m) c else c).
  assert (acceptable m c1 ↔ acceptable m c) as Hacc by (subst c1; by destruct (c_GoMaxProcs c =? -1)%Z).
  assert (c1 = set_GoMaxProcs (if decide (c_GoMaxProcs c = (-1)%Z) then NumCPU m else c_GoMaxProcs c) c) as Hc1.
  { subst c1. destruct (Z.eqb_spec (c_GoMaxProcs c) (-1)); case_decide; try done. by destruct c. }
  pose proof (process_ssl m c1) as Hssl. unfold Process. fold c1.
  destruct (m_LocalIP m) as [ip|] eqn:Hip.
  2: { split; [|done]. split; [by intros [? ?]|]. intros [[? ?] _]. congruence. }
  destruct (if c_EnableSSL c1 then _ else _) as [c2| |]; cbn [mbind res_mbind]; [| |done].
  2: { split; [|done]. rewrite <- Hacc. split; [by intros [? ?]|done]. }
  destruct Hssl as (Hok & Hsuites & suites & cert & ->). split.
  { split; [intros _; apply Hacc, Hok; by eexists|by eexists]. }
  intros c' [= <-]. rewrite Hc1 in *. clear Hc1 Hacc c1 Hok. cbn in *. split_and!.
  - destruct (Z.ltb_spec (seconds_to_duration (c_DropletStaleThresholdInSeconds c))
      (seconds_to_duration (c_StartResponseDelayIntervalInSeconds c))); lia.
  - unfold seconds_fit, seconds_to_duration. intros H1 H2. rewrite !wrap64_id by done.
    case_match eqn:Hlt; unfold Second in *; lia.
  - unfold seconds_fit, seconds_to_duration. destruct (Z.eqb_spec (c_DrainTimeoutInSeconds c) 0); case_decide; try done;
      intros; by rewrite wrap64_id.
  - done.
  - by destruct (String.eqb (c_RouteServiceSecret c) ""), (p_RouteServiceEnabled (c_Processed c)).
  - done.
  - done.
Qed.

(** Processing twice changes nothing: what [DefaultConfig] has processed is
    processed again after the file is read, without harm. *)
Theorem Process_idempotent m c c' : NumCPU m ≠ (-1)%Z → Process m c = Ok c' → Process m c' = Ok c'.
Proof.
  intros Hcpu. unfold Process.
  set (c1 := if (c_GoMaxProcs c =? -1)%Z then set_GoMaxProcs (NumCPU m) c else c).
  assert ((c_GoMaxProcs c1 =? -1)%Z = false) as Hgo.
  { subst c1. destruct (Z.eqb_spec (c_GoMaxProcs c) (-1)); cbn; lia. }
  destruct (m_LocalIP m) as [ip|]; [|done]. unfold processCipherSuites.
  destruct (c_EnableSSL c1) eqn:Hssl; cbn [mbind res_mbind].
  - destruct (String.eqb (strings_TrimSpace (c_CipherString c1)) "") eqn:Ht; [done|]. cbn [mbind res_mbind].
    destruct (convertCipherStringToInt (strings_Split (c_CipherString c1) ":") cipherMap) as [suites| |] eqn:Hc; [|done..].
    cbn [mbind res_mbind]. destruct (LoadX509KeyPair m (c_SSLCertPath c1) (c_SSLKeyPath c1)) as [cert|] eqn:Hl; [|done].
    intros [= <-]. cbn. rewrite Hgo. cbn. rewrite Hssl. cbn. rewrite Ht, Hc. cbn. rewrite Hl. cbn.
    by destruct (String.eqb (c_RouteServiceSecret c1) "").
  - intros [= <-]. cbn. rewrite Hgo. cbn. rewrite Hssl. cbn. by destruct (String.eqb (c_RouteServiceSecret c1) "").
Qed.

(** A machine and a TLS configuration. *)
Definition sample_machine : Machine :=
  mkMachine 4 (Some "10.0.0.9") (λ cert key, if String.eqb cert "router.crt" then Some "certificate" else None)
    (λ _, Some "") (λ _ c, Some c).
Definition tls_config : Config := {|
  c_Status := defaultStatusConfig; c_Nats := [defaultNatsConfig]; c_Logging := defaultLoggingConfig;
  c_Port := 8081; c_Index := 0; c_Zone := ""; c_GoMaxProcs := -1; c_TraceKey := ""; c_AccessLog := ""; c_DebugAddr := "";
  c_EnableSSL := true; c_SSLPort := 443; c_SSLCertPath := "router.crt"; c_SSLKeyPath := "router.key";
  c_SSLCertificate := None; c_SSLSkipValidation := false;
  c_CipherString := "TLS_RSA_WITH_AES_256_CBC_SHA:TLS_RSA_WITH_AES_128_CBC_SHA"; c_CipherSuites := [];
  c_PublishStartMessageIntervalInSeconds := 30; c_PruneStaleDropletsIntervalInSeconds := 30;
  c_DropletStaleThresholdInSeconds := 4; c_PublishActiveAppsIntervalInSeconds := 0;
  c_StartResponseDelayIntervalInSeconds := 5; c_EndpointTimeoutInSeconds := 60; c_RouteServiceTimeoutInSeconds := 60;
  c_DrainTimeoutInSeconds := 0; c_SecureCookies := false; c_OAuth := mkOAuth "" "" "" 0;
  c_RoutingApi := mkRoutingApi "" 0 false; c_RouteServiceSecret := "secret"; c_RouteServiceSecretPrev := "";
  c_ExtraHeadersToLog := []; c_Processed := mkProcessed 0 0 0 0 0 0 0 "" false
|}.

Lemma Process_config_witness :
  ∃ c', Process sample_machine tls_config = Ok c' ∧ c_CipherSuites c' = [0x35; 0x2f]%Z
    ∧ p_DropletStaleThreshold (c_Processed c') = (5 * Second)%Z ∧ p_DrainTimeout (c_Processed c') = (60 * Second)%Z
    ∧ p_RouteServiceEnabled (c_Processed c') = true.
Proof.
  destruct (Process_config sample_machine tls_config) as [[_ Hok] Hp]. destruct Hok as [c' Hc'].
  - split; [by eexists|]. intros _. vm_compute. split_and!; [discriminate|repeat constructor; by eexists|by eexists].
  - destruct (Hp c' Hc') as (_ & Hthr & Hdr & Hs & Hrs & _). exists c'. split_and!; [exact Hc'| |apply Hthr|apply Hdr|exact Hrs].
    + assert (mapM (cipherMap !!.) (strings_Split (c_CipherString tls_config) ":") = Some [0x35; 0x2f]%Z) as Heq
        by (vm_compute; reflexivity).
      rewrite (Hs eq_refl) in Heq. by injection Heq.
    + split; vm_compute; congruence.
    + split; vm_compute; congruence.
    + split; vm_compute; congruence.
Defined.

Lemma Process_idempotent_witness :
  ∃ c', Process sample_machine tls_config = Ok c' ∧ Process sample_machine c' = Ok c'.
Proof.
  destruct (Process sample_machine tls_config) as [c'| |] eqn:Hc; [|vm_compute in Hc; discriminate..].
  exists c'. split; [reflexivity|]. apply (Process_idempotent sample_machine tls_config); [vm_compute; discriminate|exact Hc].
Defined.
