(* ===== verification/StatusServer.v ===== *)
(** * The status server (src/common)

    The component serves [/healthz], [/varz] and [/routes] behind HTTP basic
    authentication and announces itself on the bus.  What a request does to
    the response writer is modelled.  The texts of the pages are arguments
    here, given by the marshalers of the statistics and of the registry in
    files of their own; paths the multiplexer does not know go to its own
    answer, a parameter. *)

From S2P Require Import Prelude GoStrings Base64 Floats Http LogCounter RouterMessages.

(** ** Basic authentication (common/http/basic_auth.go) *)

Abbreviation Handler := (ResponseWriter → ResponseWriter).

(** [nil] is [None]; the two fields of the slice otherwise. *)
Definition extractCredentials (h : Header) : option (string * string) :=
  match strings_Split (header_Get "Authorization" h) " " with
  | [x0; x1] =>
      if negb (String.eqb x0 "Basic") then None
      else match DecodeString StdEncoding x1 with
           | None => None
           | Some y =>
               match strings_Split y ":" with
               | [z0; z1] => Some (z0, z1)
               | _ => None
               end
           end
  | _ => None
  end.

Definition unauthorized_body : string := "401 Unauthorized" +:+ String "010" "".

Definition BasicAuth_ServeHTTP (handler : Handler) (authenticator : string → string → bool) (path : string) (h : Header)
    : Handler := λ w,
  let refused := match extractCredentials h with
                 | None => true
                 | Some (user, password) => negb (authenticator user password)
                 end in
  if negb (String.eqb path "/healthz") && refused then
    let w1 := with_rw_header (header_Set "WWW-Authenticate" "Basic" (rw_header w)) w in
    let w2 := rw_WriteHeader 401 w1 in
    snd (rw_Write unauthorized_body w2)
  else handler w.

(** ** The component (common/component.go, common/varz.go, common/healthz.go) *)

Record GenericVarz := mkGeneric {
  gv_Type : string;
  gv_Index : Z;
  gv_Host : string;
  gv_Credentials : list string;
  gv_UUID : string;
  gv_StartTime : Z;
  gv_NumCores : Z;
  gv_MemStat : Z;
  gv_Cpu : float64;
  gv_Uptime : Z;
  gv_LogCounts : LogCounter;
}.

(** [GenerateUUID] may fail each time it is asked. *)
Record StartEnv := mkStartEnv {
  se_now : Z;
  se_uuid : nat → option string;
  se_LocalIP : option string;
  se_LocalPort : option Z;
  se_NumCPU : Z;
}.

Definition set_identity (uuid : string) (start : Z) (v : GenericVarz) : GenericVarz :=
  mkGeneric (gv_Type v) (gv_Index v) (gv_Host v) (gv_Credentials v) uuid start (gv_NumCores v) (gv_MemStat v) (gv_Cpu v)
    (gv_Uptime v) (gv_LogCounts v).
Definition set_gv_Host (host : string) (v : GenericVarz) : GenericVarz :=
  mkGeneric (gv_Type v) (gv_Index v) host (gv_Credentials v) (gv_UUID v) (gv_StartTime v) (gv_NumCores v) (gv_MemStat v)
    (gv_Cpu v) (gv_Uptime v) (gv_LogCounts v).
Definition set_Credentials (l : list string) (v : GenericVarz) : GenericVarz :=
  mkGeneric (gv_Type v) (gv_Index v) (gv_Host v) l (gv_UUID v) (gv_StartTime v) (gv_NumCores v) (gv_MemStat v) (gv_Cpu v)
    (gv_Uptime v) (gv_LogCounts v).
Definition set_usage (cores mem : Z) (cpu : float64) (uptime : Z) (v : GenericVarz) : GenericVarz :=
  mkGeneric (gv_Type v) (gv_Index v) (gv_Host v) (gv_Credentials v) (gv_UUID v) (gv_StartTime v) cores mem cpu uptime
    (gv_LogCounts v).

(** An error on the left; what follows [ListenAndServe] is in [Shutdown]. *)
Definition component_Start (env : StartEnv) (v : GenericVarz) : string + GenericVarz :=
  if String.eqb (gv_Type v) "" then inl "type is required"
  else
    match se_uuid env 0 with
    | None => inl "uuid"
    | Some uuid =>
        let v1 := set_identity (pretty (gv_Index v) +:+ "-" +:+ uuid) (se_now env) v in
        let hosted :=
          if String.eqb (gv_Host v1) "" then
            match se_LocalIP env with
            | None => inl "LocalIP"
            | Some host =>
                match se_LocalPort env with
                | None => inl "LocalPort"
                | Some port => inr (set_gv_Host (host +:+ ":" +:+ pretty port) v1)
                end
            end
          else inr v1 in
        match hosted with
        | inl err => inl err
        | inr v2 =>
            let secured :=
              if bool_decide (length (gv_Credentials v2) ≠ 2) then
                match se_uuid env 1, se_uuid env 2 with
                | Some user, Some password => inr (set_Credentials [user; password] v2)
                | _, _ => inl "uuid"
                end
              else inr v2 in
            match secured with
            | inl err => inl err
            | inr v3 => inr (set_usage (se_NumCPU env) (gv_MemStat v3) (gv_Cpu v3) (gv_Uptime v3) v3)
            end
        end
    end.

(** The process statistics of the moment, and the time since the start. *)
Definition UpdateVarz (now memRss : Z) (cpuUsage : float64) (v : GenericVarz) : GenericVarz :=
  set_usage (gv_NumCores v) memRss cpuUsage (time_Sub now (gv_StartTime v)) v.

Definition Healthz_Value : string := "ok".

Definition serve_page (contentType body : string) : Handler := λ w,
  let w1 := with_rw_header (header_Set "Content-Type" contentType (header_Set "Connection" "close" (rw_header w))) w in
  snd (rw_Write body (rw_WriteHeader 200 w1)).

(** The pages: [varz_page] is the JSON of the state [UpdateVarz] left,
    [info_pages] those of the marshalers of [InfoRoutes]. *)
Record Pages := mkPages {
  varz_page : GenericVarz → string;
  info_pages : gmap string string;
  mux_fallback : string → Handler;
}.

(** The handlers [ListenAndServe] installs. *)
Definition mux (pg : Pages) (now memRss : Z) (cpuUsage : float64) (v : GenericVarz) (path : string) : Handler :=
  if String.eqb path "/healthz" then serve_page "text/plain" Healthz_Value
  else if String.eqb path "/varz" then serve_page "application/json" (varz_page pg (UpdateVarz now memRss cpuUsage v))
  else match info_pages pg !! path with
       | Some page => serve_page "application/json" page
       | None => mux_fallback pg path
       end.

(** [f] of [ListenAndServe]; [Start] leaves two credentials. *)
Definition check_credentials (v : GenericVarz) (user password : string) : bool :=
  bool_decide (gv_Credentials v = [user; password]).

Definition serve_status (pg : Pages) (now memRss : Z) (cpuUsage : float64) (v : GenericVarz) (path : string) (h : Header) : Handler :=
  BasicAuth_ServeHTTP (mux pg now memRss cpuUsage v path) (check_credentials v) path h.

(** The subscription to [vcap.component.discover]: [marshal] may fail. *)
Definition discover_reply (marshal : GenericVarz → option string) (now : Z) (v : GenericVarz) (msg : nats_Msg)
    : GenericVarz * list (string * string) :=
  if String.eqb (msg_Reply msg) "" then (v, [])
  else
    let v1 := set_usage (gv_NumCores v) (gv_MemStat v) (gv_Cpu v) (time_Sub now (gv_StartTime v)) v in
    match marshal v1 with
    | None => (v1, [])
    | Some b => (v1, [(msg_Reply msg, b)])
    end.

(** What [Register] publishes, and its error. *)
Definition component_Register (marshal : GenericVarz → option string) (v : GenericVarz) : option string * list (string * string) :=
  match marshal v with
  | None => (Some "marshal", [])
  | Some b => (None, [("vcap.component.announce", b)])
  end.

(** ** What the server guarantees *)

(** The request carries these credentials. *)
Definition presents (h : Header) (user password : string) : Prop :=
  ∃ x, header_Get "Authorization" h = "Basic " +:+ x ∧ str_in " " x = false
    ∧ DecodeString StdEncoding x = Some (user +:+ String ":" password)
    ∧ str_in ":" user = false ∧ str_in ":" password = false.

Lemma extractCredentials_spec h user password :
  extractCredentials h = Some (user, password) ↔ presents h user password.
Proof.
  unfold extractCredentials, presents. split.
  - destruct (strings_Split (header_Get "Authorization" h) " ") as [|x0 [|x1 [|]]] eqn:Hs; try done.
    apply strings_Split_pair in Hs as (Hh & _ & Hx). destruct (String.eqb_spec x0 "Basic") as [->|]; [|done]. cbn [negb].
    destruct (DecodeString StdEncoding x1) as [y|] eqn:Hd; [|done].
    destruct (strings_Split y ":") as [|z0 [|z1 [|]]] eqn:Hy; try done. apply strings_Split_pair in Hy as (-> & ? & ?).
    intros [= <- <-]. exists x1. split_and!; done.
  - intros (x & Hh & Hx & Hd & Hu & Hp).
    assert (strings_Split (header_Get "Authorization" h) " " = ["Basic"; x]) as -> by (by apply strings_Split_pair).
    cbn [negb String.eqb Ascii.eqb]. rewrite Hd.
    assert (strings_Split (user +:+ String ":" password) ":" = [user; password]) as -> by (by apply strings_Split_pair).
    done.
Qed.

Lemma component_Start_credentials env v v' :
  component_Start env v = inr v' →
  length (gv_Credentials v') = 2 ∧ gv_Type v' ≠ "" ∧ gv_Host v' ≠ "" ∧ gv_StartTime v' = se_now env
  ∧ (length (gv_Credentials v) = 2 → gv_Credentials v' = gv_Credentials v).
Proof.
  unfold component_Start. destruct (String.eqb_spec (gv_Type v) "") as [|Ht]; [done|].
  destruct (se_uuid env 0) as [uuid|]; [|done]. cbn [gv_Host set_identity].
  set (v1 := set_identity _ _ _).
  assert (∀ v2, gv_Host v2 ≠ "" → gv_Type v2 = gv_Type v → gv_StartTime v2 = se_now env → gv_Credentials v2 = gv_Credentials v →
    match (if bool_decide (length (gv_Credentials v2) ≠ 2) then
                match se_uuid env 1, se_uuid env 2 with
                | Some user, Some password => inr (set_Credentials [user; password] v2)
                | _, _ => inl "uuid"
                end
              else inr v2) with
    | inl err => inl err
    | inr v3 => inr (set_usage (se_NumCPU env) (gv_MemStat v3) (gv_Cpu v3) (gv_Uptime v3) v3)
    end = inr v' → length (gv_Credentials v') = 2 ∧ gv_Type v' ≠ "" ∧ gv_Host v' ≠ "" ∧ gv_StartTime v' = se_now env
      ∧ (length (gv_Credentials v) = 2 → gv_Credentials v' = gv_Credentials v)) as Hrest.
  { intros v2 Hh Hty Hst Hcr. case_bool_decide as Hlen.
    - destruct (se_uuid env 1), (se_uuid env 2); try done. intros [= <-]. cbn. rewrite Hty, Hst. rewrite Hcr in Hlen. split_and!; done.
    - intros [= <-]. cbn. rewrite Hty, Hst, Hcr. rewrite Hcr in Hlen. done. }
  destruct (String.eqb_spec (gv_Host v) "") as [_|Hh]; [|by apply Hrest].
  destruct (se_LocalIP env) as [ip|]; [|done]. destruct (se_LocalPort env) as [port|]; [|done].
  apply Hrest; try done. cbn. by destruct ip.
Qed.

Lemma component_Start_counts env v v' : component_Start env v = inr v' → gv_LogCounts v' = gv_LogCounts v.
Proof.
  intros Hs. unfold component_Start in Hs. cbv zeta in Hs. repeat (case_match; simplify_eq; try done).
Qed.

(** C31: The status server is closed.  Once the component has started,
    everyone may read [/healthz]; every other path, whatever the component
    holds, answers 401 with a challenge unless the request presents the two
    credentials, and then serves the page. *)
Theorem status_server_guard env v0 v pg now mem cpu path h w :
  component_Start env v0 = inr v → rw_sent w = None → rw_hijacked w = false →
  ∃ user password, gv_Credentials v = [user; password]
    ∧ (path = "/healthz" → serve_status pg now mem cpu v path h w = serve_page "text/plain" "ok" w)
    ∧ (path ≠ "/healthz" → presents h user password →
       serve_status pg now mem cpu v path h w = mux pg now mem cpu v path w)
    ∧ (path ≠ "/healthz" → ¬ presents h user password →
       let w' := serve_status pg now mem cpu v path h w in
       rw_sent w' = Some (401%Z, header_Set "WWW-Authenticate" "Basic" (rw_header w))
       ∧ rw_body w' = rw_body w +:+ unauthorized_body).
Proof.
  intros Hstart Hsent Hhij. apply component_Start_credentials in Hstart as (Hlen & _).
  destruct (gv_Credentials v) as [|user [|password [|]]] eqn:Hcr; try discriminate Hlen.
  exists user, password. split; [done|]. unfold serve_status, BasicAuth_ServeHTTP.
  assert ((match extractCredentials h with None => true | Some (u, p) => negb (check_credentials v u p) end)
          = negb (bool_decide (extractCredentials h = Some (user, password)))) as ->.
  { unfold check_credentials. rewrite Hcr. destruct (extractCredentials h) as [[u p]|]; [|done]. f_equal.
    apply bool_decide_ext. naive_solver. }
  rewrite <- extractCredentials_spec. split_and!.
  - by intros ->.
  - intros Hp Hc. rewrite bool_decide_true by done. by rewrite andb_false_r.
  - intros Hp Hc. rewrite bool_decide_false by done. destruct (String.eqb_spec path "/healthz"); [done|]. cbn [negb andb].
    unfold rw_Write, rw_WriteHeader, with_rw_header. cbn. by rewrite Hhij, Hsent.
Qed.

(** A status server with the password [pw], and what a client sends it. *)
Definition sample_component : GenericVarz :=
  mkGeneric "Router" 0 "10.0.0.9:8082" ["admin"; "pw"] "" 0 0 0 (f64_of_Z 0) 0 NewLogCounter.
Definition sample_start : StartEnv := mkStartEnv 7 (λ _, Some "uuid") None None 4.
Definition sample_pages : Pages := mkPages (λ v, gv_UUID v) {["/routes" := "{}"]} (λ _ w, rw_WriteHeader 404 w).
Definition fresh_writer : ResponseWriter := mkRW ∅ None "" true true false.
Definition login (text : string) : Header := header_Set "Authorization" ("Basic " +:+ EncodeToString StdEncoding text) ∅.

Lemma status_server_guard_witness :
  ∃ v, component_Start sample_start sample_component = inr v
    ∧ rw_body (serve_status sample_pages 9 1 (f64_of_Z 1) v "/routes" (login "admin:pw") fresh_writer) = "{}"
    ∧ fst <$> rw_sent (serve_status sample_pages 9 1 (f64_of_Z 1) v "/varz" (login "admin:x") fresh_writer) = Some 401%Z
    ∧ rw_body (serve_status sample_pages 9 1 (f64_of_Z 1) v "/healthz" ∅ fresh_writer) = "ok".
Proof.
  eexists. split; [vm_compute; reflexivity|].
  match goal with |- context [serve_status _ _ _ _ ?v "/routes"] =>
    destruct (status_server_guard sample_start sample_component v sample_pages 9 1 (f64_of_Z 1) "/routes" (login "admin:pw") fresh_writer)
      as (u1 & p1 & Hcr1 & _ & Hin & _); [reflexivity..|];
    destruct (status_server_guard sample_start sample_component v sample_pages 9 1 (f64_of_Z 1) "/varz" (login "admin:x") fresh_writer)
      as (u2 & p2 & Hcr2 & _ & _ & Hout); [reflexivity..|];
    destruct (status_server_guard sample_start sample_component v sample_pages 9 1 (f64_of_Z 1) "/healthz" ∅ fresh_writer)
      as (u3 & p3 & _ & Hopen & _); [reflexivity..|]
  end.
  injection Hcr1 as <- <-. injection Hcr2 as <- <-. split_and!.
  - rewrite Hin; [reflexivity|discriminate|]. apply extractCredentials_spec. vm_compute. reflexivity.
  - destruct Hout as [-> _]; [discriminate| |reflexivity]. rewrite <- extractCredentials_spec. vm_compute. discriminate.
  - rewrite Hopen by reflexivity. reflexivity.
Defined.
