(* ===== verification/VarzJson.v ===== *)
(** * The status page (src/varz/varz.go, src/common/varz.go)

    The page of the statistics is made by merging JSON objects: each part is
    encoded, decoded into one map of [interface{}] values, and the map is
    encoded again, so that every number of the page has gone through a
    [float64].  The rates of a meter and the percentiles of a histogram of
    go-metrics are parameters. *)

From stdpp Require Import sorting.
From S2P Require Import Prelude GoStrings Utf8 Floats Strconv Http Durations Times LogText Json JsonSpec JsonDecode JsonDecodeSpec.
From S2P Require Import FloatText Pool Registry RegistryJson LogCounter Reporters SignatureJson StatusServer.

Local Open Scope Z_scope.

(** ** Values of type [interface{}] *)

(** A map is its entries in the order of the keys, each key once. *)
Inductive value :=
| VNil
| VBool (b : bool)
| VNum (f : float64)
| VStr (s : string)
| VArr (l : list value)
| VMap (l : list (string * value)).

(** The entries of a map into which members are stored one after the other. *)
Definition store_members {A} (l : list (string * A)) (m : gmap string A) : gmap string A :=
  foldl (λ m kv, <[fst kv := snd kv]> m) m l.

(** [decodeState.valueInterface], and whether every number fitted.  The scanner
    admits no string that [unquote] refuses. *)
Fixpoint valueInterface (v : json) : value * bool :=
  match v with
  | JNull => (VNil, true)
  | JBool b => (VBool b, true)
  | JNum tok => match ParseFloat tok with Some f => (VNum f, true) | None => (VNil, false) end
  | JStr raw => match unquote raw with Some s => (VStr s, true) | None => (VNil, false) end
  | JArr l =>
      let xs := map valueInterface l in
      (VArr (map fst xs), forallb snd xs)
  | JObj l =>
      let xs := map (λ kv, (default "" (unquote (fst kv)), valueInterface (snd kv))) l in
      (VMap (sorted_entries (store_members (map (λ kv, (fst kv, fst (snd kv))) xs) ∅)), forallb (λ kv, snd (snd kv)) xs)
  end.

(** Encoding a [float64]: [None] is an [UnsupportedValueError]. *)
Definition json_float (f : float64) : option json := JNum <$> format_g f.

Fixpoint marshal_value (v : value) : option json :=
  match v with
  | VNil => Some JNull
  | VBool b => Some (JBool b)
  | VNum f => json_float f
  | VStr s => Some (json_string s)
  | VArr l => JArr <$> mapM marshal_value l
  | VMap l => JObj <$> mapM (λ kv, pair (escape (fst kv)) <$> marshal_value (snd kv)) l
  end.

Abbreviation dict := (gmap string value).

Definition marshal_dict (d : dict) : option string := print_json <$> marshal_value (VMap (sorted_entries d)).

(** [transform] of both files: the text, or the encoder's error, stored into the
    map; whether all went well.  What was stored before an error stays; [null],
    which the router does not write, empties the map. *)
Definition transform (b : option string) (y : dict) : dict * bool :=
  match b ≫= parse_json with
  | Some (JObj l) =>
      let xs := map (λ kv, (default "" (unquote (fst kv)), valueInterface (snd kv))) l in
      (store_members (map (λ kv, (fst kv, fst (snd kv))) xs) y, forallb (λ kv, snd (snd kv)) xs)
  | Some JNull => (∅, true)
  | _ => (y, false)
  end.

(** ** The statistics of the router (varz/varz.go) *)

(** The [HttpMetric]s of a [RealVarz]. *)
Inductive metric := AllMetric | ComponentMetric (tag : string).

(** What go-metrics computes: [Rate1], [Rate5] and [Rate15] of the meter, and the
    [Percentiles] of the histogram. *)
Record GoMetrics := mkGoMetrics {
  meter_rates : metric → float64 * float64 * float64;
  Percentiles : metric → list float64 → list float64;
}.

Definition set_v_r (r : RouteRegistry) (x : RealVarz) : RealVarz :=
  mkVarz r (v_activeApps x) (v_topApps x) (All x) (Component x) (Urls x) (Droplets x) (BadRequests x) (BadGateways x)
    (v_TopApps x) (MillisSinceLastRegistryUpdate x).

Section varz.
Context (gm : GoMetrics).

Definition percentages : list float64 := map (λ c, f64_of_decimal c (-2)) [50; 75; 90; 95; 99].

(** The key of a percentile, [fmt.Sprintf("%d", int(e*100))]. *)
Definition percentile_key (e : float64) : string := pretty (int64_of_f64 (f64_mul e (f64_of_Z 100))).

Definition latency_map (id : metric) : res (gmap string float64) :=
  let p := percentages in
  let z := Percentiles gm id p in
  m ← foldM (λ m '(i, e), zi ← or_panic out_of_range (z !! i);
               Ok (<[percentile_key e := f64_div zi (f64_of_Z Second)]> m)) ∅ (imap pair p);
  p0 ← or_panic out_of_range (p !! 0%nat);
  Ok (<["samples" := f64_of_Z 1]> (<["value" := f64_div p0 (f64_of_Z Millisecond)]> m)).

(** [HttpMetric.MarshalJSON], as a tree; [None] is the encoder's error. *)
Definition http_json (id : metric) (x : HttpMetric) : res (option json) :=
  latency ← latency_map id;
  let '(r1, r5, r15) := meter_rates gm id in
  Ok (rates ← mapM json_float [r1; r5; r15];
      lat ← mapM (λ kv, pair (escape (fst kv)) <$> json_float (snd kv)) (sorted_entries latency);
      Some (JObj [("requests", json_int (Requests x)); ("rate", JArr rates);
        ("responses_2xx", json_int (Responses2xx x)); ("responses_3xx", json_int (Responses3xx x));
        ("responses_4xx", json_int (Responses4xx x)); ("responses_5xx", json_int (Responses5xx x));
        ("responses_xxx", json_int (ResponsesXxx x)); ("latency", JObj lat)])).

Definition top_json (t : topEntry) : json :=
  JObj [("application_id", json_string (top_ApplicationId t)); ("rps", json_int (RequestsPerSecond t));
        ("rpm", json_int (RequestsPerMinute t))].

(** The embedded [varz] struct; the metrics of the components in the order of
    their names. *)
Definition varz_json (requestsPerSec : float64) (x : RealVarz) : res (option json) :=
  all ← http_json AllMetric (All x);
  components ← foldM (λ acc '(t, m), j ← http_json (ComponentMetric t) m; Ok (acc ++ [pair (escape t) <$> j])) []
    (sorted_entries (Component x));
  Ok (a ← all;
      c ← mapM id components;
      rps ← json_float requestsPerSec;
      Some (JObj [("all", a); ("tags", JObj [("component", JObj c)]); ("urls", json_int (Z.of_nat (Urls x)));
        ("droplets", json_int (Z.of_nat (Droplets x))); ("bad_requests", json_int (BadRequests x));
        ("bad_gateways", json_int (BadGateways x)); ("requests_per_sec", rps);
        ("top10_app_requests", JArr (map top_json (v_TopApps x)));
        ("ms_since_last_registry_update", json_int (MillisSinceLastRegistryUpdate x))])).

End varz.

(** [RealVarz.MarshalJSON], the errors of the two [transform]s being ignored.
    [rate1] is the rate it reads itself, [gm1] and [gm2] what go-metrics says
    while each of the two structs is encoded; [r] is the state of the registry,
    to which [RealVarz] has a pointer. *)
Definition RealVarz_MarshalJSON (range : gmap string positive → list (string * positive)) (gm1 gm2 : GoMetrics)
    (rate1 : float64) (now now2 : Z) (r : RouteRegistry) (x : RealVarz) : res (RealVarz * option string) :=
  x' ← varz_refresh range now now2 (set_v_r r x);
  all ← http_json gm1 AllMetric (All x');
  let d1 := fst (transform (print_json <$> all) ∅) in
  whole ← varz_json gm2 rate1 x';
  let d2 := fst (transform (print_json <$> whole) d1) in
  Ok (x', marshal_dict (delete "all" d2)).

(** ** The page of the component (common/varz.go) *)

(** [GenericVarz]; [zone] is the offset of the local time zone.  [Start] leaves
    two credentials, so that the slice is not nil. *)
Definition generic_json (zone : Z) (v : GenericVarz) : option json :=
  cpu ← json_float (gv_Cpu v);
  Some (JObj [("type", json_string (gv_Type v)); ("index", json_int (gv_Index v)); ("host", json_string (gv_Host v));
    ("credentials", JArr (map json_string (gv_Credentials v))); ("uuid", json_string (gv_UUID v));
    ("start", JStr (time_Format layout_common zone (gv_StartTime v))); ("num_cores", json_int (gv_NumCores v));
    ("mem", json_int (gv_MemStat v)); ("cpu", cpu); ("uptime", JStr (formatDuration (gv_Uptime v)));
    ("log_counts", counts_json (gv_LogCounts v))]).

(** [Varz.MarshalJSON]: the component's own statistics, over which the general
    ones are written. *)
Definition Varz_MarshalJSON (zone : Z) (unique : option string) (v : GenericVarz) : option string :=
  let '(r1, ok1) := transform unique ∅ in
  if negb ok1 then None
  else
    let '(r2, ok2) := transform (print_json <$> generic_json zone v) r1 in
    if negb ok2 then None else marshal_dict r2.
