(* ===== verification/VarzJsonSpec.v ===== *)
(** * What the status page shows *)

From stdpp Require Import sorting.
From S2P Require Import Prelude GoStrings Utf8 Floats Strconv Http Durations Times LogText Json JsonSpec JsonDecode JsonDecodeSpec.
From S2P Require Import FloatText MessageJson Pool PoolSpec Registry RegistrySpec RegistryTheorems RegistryJson LogCounter Proxy Reporters ReportersSpec.
From S2P Require Import TopApps TopAppsSpec SignatureJson StatusServer VarzJson.

Local Open Scope Z_scope.

(** ** Values that survive *)

Section value_induction.
Context (P : value → Prop) (Hnil : P VNil) (Hbool : ∀ b, P (VBool b)) (Hnum : ∀ f, P (VNum f)) (Hstr : ∀ s, P (VStr s)).
Context (Harr : ∀ l, Forall P l → P (VArr l)) (Hmap : ∀ l, Forall (λ kv, P (snd kv)) l → P (VMap l)).

Fixpoint value_tree_ind (v : value) : P v :=
  match v with
  | VNil => Hnil
  | VBool b => Hbool b
  | VNum f => Hnum f
  | VStr s => Hstr s
  | VArr l => Harr l ((fix go l := match l return Forall P l with
                                   | [] => List.Forall_nil _
                                   | v :: l' => List.Forall_cons _ _ _ (value_tree_ind v) (go l')
                                   end) l)
  | VMap l => Hmap l ((fix go l := match l return Forall (λ kv, P (snd kv)) l with
                                   | [] => List.Forall_nil _
                                   | kv :: l' => List.Forall_cons _ _ _ (value_tree_ind (snd kv)) (go l')
                                   end) l)
  end.
End value_induction.

(** Every number of the value is one the decoder reads back. *)
Fixpoint value_ok (v : value) : Prop :=
  match v with
  | VNum f => reads_back f
  | VArr l => foldr (λ v P, value_ok v ∧ P) True l
  | VMap l => foldr (λ kv P, value_ok (snd kv) ∧ P) True l
  | _ => True
  end.

(** Every number of the text reads as such a number, and every string is one. *)
Fixpoint json_fine (v : json) : Prop :=
  match v with
  | JNum tok => ∃ f, ParseFloat tok = Some f ∧ reads_back f
  | JStr raw => is_Some (unquote raw)
  | JArr l => foldr (λ v P, json_fine v ∧ P) True l
  | JObj l => foldr (λ kv P, json_fine (snd kv) ∧ P) True l
  | _ => True
  end.

Lemma foldr_and_Forall {A} (P : A → Prop) (l : list A) : foldr (λ x Q, P x ∧ Q) True l ↔ Forall P l.
Proof. induction l as [|x l IH]; cbn; [by rewrite Forall_nil|]. by rewrite Forall_cons, IH. Qed.

Lemma store_members_Forall {A} (P : string → A → Prop) l : ∀ m : gmap string A,
  Forall (λ kv, P (fst kv) (snd kv)) l → map_Forall P m → map_Forall P (store_members l m).
Proof.
  induction l as [|[k v] l IH]; intros m Hl Hm; [done|]. inversion Hl; subst. apply IH; [done|]. by apply map_Forall_insert_2.
Qed.

Lemma sorted_entries_Forall {A} (P : A → Prop) (m : gmap string A) :
  map_Forall (λ _, P) m → Forall (λ kv, P (snd kv)) (sorted_entries m).
Proof. intros H. apply Forall_forall. intros [k v] Hin%sorted_entries_elem. by apply (H k). Qed.

Definition member_value (kv : string * json) : string * value := (default "" (unquote (fst kv)), fst (valueInterface (snd kv))).

Lemma valueInterface_fine v : json_fine v → ∃ x, valueInterface v = (x, true) ∧ value_ok x.
Proof.
  induction v as [|b|tok|raw|l IH|l IH] using json_tree_ind; cbn [json_fine valueInterface]; intros Hv; try (by eexists).
  - destruct Hv as (f & -> & Hf). by eexists.
  - destruct Hv as [s ->]. by eexists.
  - apply foldr_and_Forall in Hv. eexists. cbv zeta. split.
    + f_equal. clear -IH Hv. induction IH as [|v l Hv' _ IHl]; [done|]. inversion Hv; subst. cbn.
      destruct (Hv' ltac:(done)) as (x & -> & _). by apply IHl.
    + cbn [value_ok]. apply foldr_and_Forall. clear -IH Hv. induction IH as [|v l Hv' _ IHl]; [constructor|]. inversion Hv; subst. cbn.
      destruct (Hv' ltac:(done)) as (x & -> & Hx). constructor; [done|]. by apply IHl.
  - apply foldr_and_Forall in Hv. eexists. cbv zeta. split.
    + f_equal. clear -IH Hv. induction IH as [|v l Hv' _ IHl]; [done|]. inversion Hv; subst. cbn.
      destruct (Hv' ltac:(done)) as (x & -> & _). by apply IHl.
    + cbn [value_ok]. apply (foldr_and_Forall (λ kv : string * value, value_ok (snd kv))). apply sorted_entries_Forall.
      apply (store_members_Forall (λ _, value_ok)); [|done].
      clear -IH Hv. induction IH as [|v l Hv' _ IHl]; [constructor|]. inversion Hv; subst. cbn.
      destruct (Hv' ltac:(done)) as (x & -> & Hx). constructor; [done|]. by apply IHl.
Qed.

Lemma json_string_fine s : json_ok (json_string s) = true ∧ json_fine (json_string s).
Proof. split; [apply json_ok_string|]. cbn. rewrite unquote_escape. by eexists. Qed.

Lemma json_float_fine f : reads_back f → ∃ t, format_g f = Some t ∧ json_float f = Some (JNum t) ∧ json_ok (JNum t) = true
  ∧ json_fine (JNum t) ∧ valueInterface (JNum t) = (VNum f, true).
Proof.
  intros (t & Hg & Hp). exists t. unfold json_float. rewrite Hg. split_and!; [done|done|by apply (format_g_ok f)| |].
  - exists f. split; [done|]. by exists t.
  - cbn. by rewrite Hp.
Qed.

Lemma json_int_fine z : Z.abs z < 2 ^ 53 →
  json_ok (json_int z) = true ∧ json_fine (json_int z) ∧ valueInterface (json_int z) = (VNum (float_of_int z), true).
Proof.
  intros Hz. destruct (json_int_reads z Hz) as [Hp Hr]. split_and!; [apply pretty_ok_number|by eexists|].
  cbn. by rewrite Hp.
Qed.

(** An entry of a map and what is written of it. *)
Definition written (kv : string * value) (kj : string * json) : Prop :=
  fst kj = escape (fst kv) ∧ marshal_value (snd kv) = Some (snd kj) ∧ json_ok (snd kj) = true ∧ json_fine (snd kj).

Lemma marshal_entries l :
  Forall (λ kv, ∃ j, marshal_value (snd kv) = Some j ∧ json_ok j = true ∧ json_fine j) l →
  ∃ js, mapM (λ kv : string * value, pair (escape (fst kv)) <$> marshal_value (snd kv)) l = Some js ∧ Forall2 written l js.
Proof.
  induction 1 as [|[k v] l (j & Hj & Hok & Hfine) _ (js & IH & H2)]; [by exists []|].
  exists ((escape k, j) :: js). cbn in *. rewrite Hj. cbn. rewrite IH. split; [done|]. by constructor.
Qed.

Lemma written_ok l js : Forall2 written l js → json_ok (JObj js) = true ∧ json_fine (JObj js).
Proof.
  induction 1 as [|[k v] [k' j] l js (Hk & _ & Hok & Hfine) _ [IH1 IH2]]; [done|]. cbn in *. subst k'.
  split; [|done]. by rewrite ok_raw_escape, Hok.
Qed.

Lemma marshal_value_ok v : value_ok v → ∃ j, marshal_value v = Some j ∧ json_ok j = true ∧ json_fine j.
Proof.
  induction v as [|b|f|s|l IH|l IH] using value_tree_ind; cbn [value_ok marshal_value]; intros Hv; try (by eexists).
  - destruct (json_float_fine f Hv) as (t & _ & ? & ? & ? & _). eauto.
  - eexists. split; [done|]. apply json_string_fine.
  - apply foldr_and_Forall in Hv.
    assert (∃ js, mapM marshal_value l = Some js ∧ forallb json_ok js = true ∧ Forall json_fine js) as (js & -> & Hok & Hf).
    { clear -IH Hv. induction IH as [|v l Hv' _ IHl]; [by exists []|]. inversion Hv; subst.
      destruct (Hv' ltac:(done)) as (j & Hj & Ho & Hf). destruct (IHl ltac:(done)) as (js & Hjs & Ho' & Hf').
      exists (j :: js). cbn. rewrite Hj. cbn. rewrite Hjs, Ho, Ho'. split_and!; [done..|by constructor]. }
    exists (JArr js). split_and!; [done|done|]. cbn. by apply foldr_and_Forall.
  - apply (foldr_and_Forall (λ kv : string * value, value_ok (snd kv))) in Hv.
    destruct (marshal_entries l) as (js & -> & Hw).
    { rewrite Forall_forall in IH, Hv |- *. intros kv Hin. by apply IH; [|apply Hv]. }
    exists (JObj js). split; [done|]. by apply (written_ok l).
Qed.

(** ** Merging *)

Abbreviation empty_dict := (@empty dict gmap_empty).
Abbreviation dict_ok := (map_Forall (λ (_ : string) v, value_ok v)).

Lemma transform_fine l (y : dict) :
  json_ok (JObj l) = true → json_fine (JObj l) → dict_ok y →
  transform (Some (print_json (JObj l))) y = (store_members (map member_value l) y, true)
  ∧ dict_ok (store_members (map member_value l) y).
Proof.
  intros Hok Hfine Hy. unfold transform. cbn [mbind option_bind]. rewrite parse_print by done. cbv zeta.
  cbn [json_fine] in Hfine. apply (foldr_and_Forall (λ kv : string * json, json_fine (snd kv))) in Hfine.
  assert (Forall (λ kv, value_ok (snd kv)) (map member_value l)
    ∧ forallb (λ kv : string * (value * bool), snd (snd kv)) (map (λ kv, (default "" (unquote (fst kv)), valueInterface (snd kv))) l) = true)
    as [Hvals Hall].
  { clear -Hfine. induction Hfine as [|[k v] l Hv _ [IH1 IH2]]; [by split|]. cbn in *.
    destruct (valueInterface_fine v Hv) as (x & Hx & Hxo). rewrite Hx, IH2. split; [|done].
    constructor; [|done]. cbn. by rewrite Hx. }
  rewrite Hall, map_map. split; [done|]. by apply (store_members_Forall (λ _, value_ok)).
Qed.

Lemma marshal_dict_ok (d : dict) :
  dict_ok d → ∃ js, marshal_dict d = Some (print_json (JObj js)) ∧ Forall2 written (sorted_entries d) js.
Proof.
  intros Hd. destruct (marshal_entries (sorted_entries d)) as (js & Hjs & Hw).
  { eapply Forall_impl; [by apply sorted_entries_Forall|]. intros [k v]. apply marshal_value_ok. }
  exists js. unfold marshal_dict. cbn [marshal_value]. by rewrite Hjs.
Qed.

(** ** The parts *)

Lemma mapM_id_Some {A} (l : list A) : mapM id (map Some l) = Some l.
Proof. induction l as [|x l IH]; [done|]. cbn in *. by rewrite IH. Qed.

(** What go-metrics must give: five percentiles, and numbers. *)
Record metric_numbers (gm : GoMetrics) (id : metric) : Prop := {
  mn_rates : let '(r1, r5, r15) := meter_rates gm id in reads_back r1 ∧ reads_back r5 ∧ reads_back r15;
  mn_length : length (Percentiles gm id percentages) = 5%nat;
  mn_latency : Forall (λ z, reads_back (f64_div z (f64_of_Z Second))) (Percentiles gm id percentages);
}.

Record small_metric (x : HttpMetric) : Prop := {
  sm_requests : 0 ≤ Requests x < 2 ^ 53;
  sm_2xx : 0 ≤ Responses2xx x < 2 ^ 53;
  sm_3xx : 0 ≤ Responses3xx x < 2 ^ 53;
  sm_4xx : 0 ≤ Responses4xx x < 2 ^ 53;
  sm_5xx : 0 ≤ Responses5xx x < 2 ^ 53;
  sm_xxx : 0 ≤ ResponsesXxx x < 2 ^ 53;
}.

Definition http_members (x : HttpMetric) (rates lat : json) : list (string * json) :=
  [("requests", json_int (Requests x)); ("rate", rates);
   ("responses_2xx", json_int (Responses2xx x)); ("responses_3xx", json_int (Responses3xx x));
   ("responses_4xx", json_int (Responses4xx x)); ("responses_5xx", json_int (Responses5xx x));
   ("responses_xxx", json_int (ResponsesXxx x)); ("latency", lat)].

Lemma percentile_keys : map percentile_key percentages = ["50"; "75"; "90"; "95"; "99"].
Proof. vm_compute. reflexivity. Qed.

(** The latencies: one entry per percentile, and the two for the collector. *)
Lemma latency_entries gm id z1 z2 z3 z4 z5 :
  Percentiles gm id percentages = [z1; z2; z3; z4; z5] →
  ∃ m, latency_map gm id = Ok m ∧
    sorted_entries m = let s z := f64_div z (f64_of_Z Second) in
      [("50", s z1); ("75", s z2); ("90", s z3); ("95", s z4); ("99", s z5); ("samples", f64_of_Z 1);
       ("value", f64_div (f64_of_decimal 50 (-2)) (f64_of_Z Millisecond))].
Proof.
  intros Hz. unfold latency_map. rewrite Hz. clear Hz. cbv zeta. pose proof percentile_keys as Hk.
  assert (head percentages = Some (f64_of_decimal 50 (-2))) as Hh by reflexivity.
  revert Hk Hh. generalize percentages (f64_of_decimal 50 (-2)). intros P p0 Hk Hh.
  destruct P as [|e1 [|e2 [|e3 [|e4 [|e5 [|? ?]]]]]]; try discriminate Hk. cbn [map] in Hk. injection Hk as H1 H2 H3 H4 H5.
  injection Hh as ->. unfold imap, compose. cbn [imap foldM lookup list_lookup or_panic mbind res_mbind].
  cbn -[f64_div percentile_key insert f64_of_Z]. rewrite H1, H2, H3, H4, H5.
  eexists. split; [done|].
  generalize (f64_div z1 (f64_of_Z Second)) (f64_div z2 (f64_of_Z Second)) (f64_div z3 (f64_of_Z Second))
    (f64_div z4 (f64_of_Z Second)) (f64_div z5 (f64_of_Z Second)) (f64_of_Z 1) (f64_div p0 (f64_of_Z Millisecond)).
  intros. vm_compute. reflexivity.
Qed.

(** The members of an object are in order. *)
Definition members_ok (l : list (string * json)) : Prop := json_ok (JObj l) = true ∧ json_fine (JObj l).

Lemma members_ok_cons k j l :
  ok_raw k = true → json_ok j = true → json_fine j → members_ok l → members_ok ((k, j) :: l).
Proof. intros Hk Hj Hf [H1 H2]. split; [|done]. cbn in *. by rewrite Hk, Hj. Qed.

Lemma members_ok_nil : members_ok [].
Proof. done. Qed.

Lemma floats_members l : Forall (λ kf, reads_back (snd kf)) l →
  ∃ js, mapM (λ kf : string * float64, pair (escape (fst kf)) <$> json_float (snd kf)) l = Some js ∧ members_ok js.
Proof.
  induction 1 as [|[k f] l Hf _ (js & IH & Hok)]; [by exists []|]. cbn [snd] in Hf.
  destruct (json_float_fine f Hf) as (t & _ & Hj & Ho & Hfine & _). exists ((escape k, JNum t) :: js).
  cbn in *. rewrite Hj. cbn. rewrite IH. split; [done|]. by apply members_ok_cons; [apply ok_raw_escape|..].
Qed.

Ltac int_member := apply members_ok_cons; [reflexivity|apply json_int_fine; lia|apply json_int_fine; lia|].

Lemma reads_back_samples : reads_back (f64_of_Z 1).
Proof. apply (reads_back_int false 1). lia. Qed.
Lemma reads_back_value : reads_back (f64_div (f64_of_decimal 50 (-2)) (f64_of_Z Millisecond)).
Proof. exists "5e-07". split; vm_compute; reflexivity. Qed.

Lemma http_json_fine gm id x : metric_numbers gm id → small_metric x →
  ∃ rates lat, http_json gm id x = Ok (Some (JObj (http_members x rates lat))) ∧ members_ok (http_members x rates lat).
Proof.
  intros [Hr Hl Hz] [H1 H2 H3 H4 H5 H6]. unfold http_json.
  destruct (Percentiles gm id percentages) as [|z1 [|z2 [|z3 [|z4 [|z5 [|? ?]]]]]] eqn:Hp; try discriminate Hl.
  destruct (latency_entries gm id z1 z2 z3 z4 z5 Hp) as (m & -> & Hm). cbn [mbind res_mbind]. rewrite Hm.
  destruct (meter_rates gm id) as [[r1 r5] r15]. destruct Hr as (Hr1 & Hr5 & Hr15).
  destruct (json_float_fine r1 Hr1) as (t1 & _ & E1 & Ho1 & Hf1 & _).
  destruct (json_float_fine r5 Hr5) as (t5 & _ & E5 & Ho5 & Hf5 & _).
  destruct (json_float_fine r15 Hr15) as (t15 & _ & E15 & Ho15 & Hf15 & _).
  assert (mapM json_float [r1; r5; r15] = Some [JNum t1; JNum t5; JNum t15]) as -> by (cbn; by rewrite E1, E5, E15).
  cbv zeta. destruct (floats_members [("50", f64_div z1 (f64_of_Z Second)); ("75", f64_div z2 (f64_of_Z Second));
    ("90", f64_div z3 (f64_of_Z Second)); ("95", f64_div z4 (f64_of_Z Second)); ("99", f64_div z5 (f64_of_Z Second));
    ("samples", f64_of_Z 1); ("value", f64_div (f64_of_decimal 50 (-2)) (f64_of_Z Millisecond))]) as (lat & -> & Hlat).
  { rewrite !Forall_cons in Hz. destruct Hz as (Z1 & Z2 & Z3 & Z4 & Z5 & _).
    repeat (apply List.Forall_cons; [cbn [snd]; first [eassumption|apply reads_back_samples|apply reads_back_value]|]). apply List.Forall_nil. }
  exists (JArr [JNum t1; JNum t5; JNum t15]), (JObj lat). split; [done|]. unfold http_members.
  int_member. apply members_ok_cons; [reflexivity| |by cbn|].
  { cbn [json_ok forallb] in *. by rewrite Ho1, Ho5, Ho15. }
  do 5 int_member. apply members_ok_cons; [reflexivity|apply Hlat|apply Hlat|done].
Qed.

(** The metrics of the components. *)
Lemma components_fine gm (m : list (string * HttpMetric)) :
  Forall (λ tx, metric_numbers gm (ComponentMetric (fst tx)) ∧ small_metric (snd tx)) m → ∀ l0,
  ∃ l, foldM (λ acc '(t, x), j ← http_json gm (ComponentMetric t) x; Ok (acc ++ [pair (escape t) <$> j])) l0 m
       = Ok (l0 ++ map Some l)
    ∧ members_ok l ∧ fst <$> l = escape ∘ fst <$> m.
Proof.
  induction 1 as [|[t x] m [Hg Hs] _ IH]; intros l0; [exists []; rewrite app_nil_r; done|]. cbn [foldM fst snd] in *.
  destruct (http_json_fine gm (ComponentMetric t) x Hg Hs) as (rates & lat & -> & Hok). cbn [mbind res_mbind fmap option_fmap option_map].
  destruct (IH (l0 ++ [Some (escape t, JObj (http_members x rates lat))])) as (l & -> & Hl & Hk).
  exists ((escape t, JObj (http_members x rates lat)) :: l). rewrite <- app_assoc. split_and!; [done| |cbn; by rewrite Hk].
  apply members_ok_cons; [apply ok_raw_escape|apply Hok|apply Hok|done].
Qed.

Lemma tops_fine l : Forall (λ t, Z.abs (RequestsPerSecond t) < 2 ^ 53 ∧ Z.abs (RequestsPerMinute t) < 2 ^ 53) l →
  json_ok (JArr (map top_json l)) = true ∧ json_fine (JArr (map top_json l)).
Proof.
  induction 1 as [|t l [H1 H2] _ [IH1 IH2]]; [done|].
  assert (members_ok [("application_id", json_string (top_ApplicationId t)); ("rps", json_int (RequestsPerSecond t));
    ("rpm", json_int (RequestsPerMinute t))]) as [Ho Hf].
  { apply members_ok_cons; [reflexivity|apply json_string_fine..|]. int_member. int_member. done. }
  split; [|by split]. change (json_ok (top_json t) && forallb json_ok (map top_json l) = true).
  apply andb_true_iff. by split.
Qed.

(** The numbers of a [RealVarz] are small. *)
Record small_varz (x : RealVarz) : Prop := {
  sv_all : small_metric (All x);
  sv_components : map_Forall (λ _, small_metric) (Component x);
  sv_urls : Z.of_nat (Urls x) < 2 ^ 53;
  sv_droplets : Z.of_nat (Droplets x) < 2 ^ 53;
  sv_bad_requests : 0 ≤ BadRequests x < 2 ^ 53;
  sv_bad_gateways : 0 ≤ BadGateways x < 2 ^ 53;
  sv_tops : Forall (λ t, Z.abs (RequestsPerSecond t) < 2 ^ 53 ∧ Z.abs (RequestsPerMinute t) < 2 ^ 53) (v_TopApps x);
  sv_millis : Z.abs (MillisSinceLastRegistryUpdate x) < 2 ^ 53;
}.

Definition varz_members (x : RealVarz) (all tags rps : json) : list (string * json) :=
  [("all", all); ("tags", tags); ("urls", json_int (Z.of_nat (Urls x)));
   ("droplets", json_int (Z.of_nat (Droplets x))); ("bad_requests", json_int (BadRequests x));
   ("bad_gateways", json_int (BadGateways x)); ("requests_per_sec", rps);
   ("top10_app_requests", JArr (map top_json (v_TopApps x)));
   ("ms_since_last_registry_update", json_int (MillisSinceLastRegistryUpdate x))].

Lemma varz_json_fine gm rate1 x :
  (∀ id, metric_numbers gm id) → reads_back rate1 → small_varz x →
  ∃ all tags rps, varz_json gm rate1 x = Ok (Some (JObj (varz_members x all tags rps))) ∧ members_ok (varz_members x all tags rps).
Proof.
  intros Hg Hr [H1 H2 H3 H4 H5 H6 H7 H8]. unfold varz_json.
  destruct (http_json_fine gm AllMetric (All x) (Hg _) H1) as (rates & lat & -> & Hall). cbn [mbind res_mbind].
  destruct (components_fine gm (sorted_entries (Component x))) with (l0 := @nil (option (string * json))) as (l & -> & Hl & _).
  { apply Forall_forall. intros [t y] Hin%sorted_entries_elem. split; [apply Hg|by apply (H2 t)]. }
  cbn [mbind res_mbind app]. destruct (json_float_fine rate1 Hr) as (t & _ & Hj & Ho & Hf & _).
  eexists _, _, _. split; [cbn [mbind option_bind]; rewrite mapM_id_Some; cbn [mbind option_bind]; rewrite Hj; reflexivity|].
  assert (members_ok [("component", JObj l)]) as Htags by (apply members_ok_cons; [reflexivity|apply Hl|apply Hl|done]).
  apply members_ok_cons; [reflexivity|apply Hall..|]. apply members_ok_cons; [reflexivity|apply Htags..|].
  do 4 int_member. apply members_ok_cons; [reflexivity|done|done|].
  destruct (tops_fine _ H7) as [Ht1 Ht2]. apply members_ok_cons; [reflexivity|done|done|]. int_member. done.
Qed.

(** ** The top applications

    After [k] marks no count is above [k], whatever the order of their times. *)

Definition usage_upto (k : nat) (u : usage) : Prop :=
  Forall (λ s, 1 ≤ sl_n s) (fst u) ∧ snd u = total (fst u) ∧ total (fst u) ≤ Z.of_nat k.

Lemma mark_usage_upto k t u :
  usage_upto k u → Z.of_nat k < 2 ^ 63 - 1 → usage_upto (S k) (mark_usage t u).
Proof.
  intros (Hpos & Hn & Hk) Hb. destruct u as [l n]. cbn [fst snd] in *. unfold mark_usage, usage_upto. cbn [fst snd].
  pose proof (total_nonneg l Hpos) as Hnn.
  assert (int64_inc n = total l + 1) as -> by (subst n; unfold int64_inc; apply wrap64_id; unfold in_int64; lia).
  assert (int64_inc 0 = 1) as H01 by done.
  destruct l as [|s l _] using rev_ind.
  { unfold mark_slots. simpl. rewrite H01. split_and!; [repeat constructor; simpl; lia|done|lia]. }
  rewrite total_app in *. cbn [total foldr] in *. apply Forall_app in Hpos as [Hpos Hs]. inversion Hs; subst.
  pose proof (total_nonneg l Hpos). rewrite mark_slots_snoc. destruct (sl_t s <? t).
  - rewrite H01, total_app. cbn [total foldr sl_n]. split_and!; [|lia|lia].
    apply Forall_app. split; [done|]. repeat constructor; [done|cbn; lia].
  - assert (int64_inc (sl_n s) = sl_n s + 1) as -> by (unfold int64_inc; apply wrap64_id; unfold in_int64; lia).
    rewrite total_app. cbn [total foldr sl_n]. split_and!; [|lia|lia].
    apply Forall_app. split; [done|]. repeat constructor. cbn. lia.
Qed.

Lemma trim_scan_total t l : ∀ i n, Forall (λ s, 1 ≤ sl_n s) l → 0 ≤ n → n + total l < 2 ^ 63 →
  ∃ d rest, l = d ++ rest ∧ trim_scan t l i n = ((i + length d)%nat, n + total d).
Proof.
  induction l as [|s l IH]; intros i n Hpos Hn Hb; cbn [trim_scan].
  { exists [], []. split; [done|]. cbn. f_equal; lia. }
  inversion Hpos as [|? ? H1 Hpos']; subst. cbn [total foldr] in Hb. change (foldr _ 0 l) with (total l) in Hb.
  pose proof (total_nonneg l Hpos'). destruct (t <? sl_t s).
  - exists [], (s :: l). split; [done|]. cbn. f_equal; lia.
  - rewrite wrap64_id by (unfold in_int64; lia). destruct (IH (S i) (n + sl_n s)) as (d & rest & -> & ->); [done|lia|lia|].
    exists (s :: d), rest. split; [done|]. cbn [length total foldr]. f_equal; [lia|]. change (foldr _ 0 d) with (total d). lia.
Qed.

Lemma trim_usage_upto k t u u' : usage_upto k u → Z.of_nat k < 2 ^ 63 → trim_usage t u = Some u' → 0 ≤ snd u' ≤ Z.of_nat k.
Proof.
  intros (Hpos & Hn & Hk) Hb. unfold trim_usage. pose proof (total_nonneg _ Hpos).
  destruct (t <? first_time (fst u)); [intros [= <-]; lia|].
  destruct (trim_scan_total t (fst u) 0 0) as (d & rest & Hl & ->); [done|lia|lia|].
  destruct (drop _ (fst u)) as [|s l]; [done|]. intros [= <-]. cbn [snd].
  rewrite Hl in *. apply Forall_app in Hpos as [Hd Hr]. rewrite total_app in *.
  pose proof (total_nonneg d Hd). pose proof (total_nonneg rest Hr). rewrite wrap64_id by (unfold in_int64; lia). lia.
Qed.

Lemma marks_upto ms : ∀ k m, map_Forall (λ _, usage_upto k) m → Z.of_nat (k + length ms) < 2 ^ 63 - 1 →
  map_Forall (λ _, usage_upto (k + length ms)) (foldl top_effect m ((λ m : string * Z, TopMark (fst m) (snd m)) <$> ms)).
Proof.
  induction ms as [|[id t] ms IH]; intros k m Hm Hb; cbn [fmap list_fmap foldl length].
  { by rewrite Nat.add_0_r. }
  rewrite Nat.add_succ_r. apply (IH (S k)); [|cbn in Hb; lia]. cbn [length] in Hb.
  assert (∀ u, usage_upto k u → usage_upto (S k) u) as Hmono by (intros u (H1 & H2 & H3); split_and!; [done|done|lia]).
  cbn [top_effect fst snd]. apply map_Forall_insert_2.
  - apply mark_usage_upto; [|lia]. destruct (m !! id) as [u|] eqn:Hu; [by apply (Hm id)|]. split_and!; [constructor|done|cbn; lia].
  - intros i u Hu. apply Hmono. by apply (Hm i).
Qed.

Lemma omap_length {A B} (f : A → option B) l : (length (omap f l) ≤ length l)%nat.
Proof. induction l as [|x l IH]; cbn; [done|]. destruct (f x); cbn; lia. Qed.

(** What the page lists of the top applications. *)
Lemma updateTop_small now cs v :
  varz_counts cs v → Z.of_nat (length cs) < 2 ^ 53 →
  ∃ tops t, updateTop now v = Ok (mkVarz (v_r v) (v_activeApps v) t (All v) (Component v) (Urls v) (Droplets v)
      (BadRequests v) (BadGateways v) tops (MillisSinceLastRegistryUpdate v))
    ∧ Forall (λ t, Z.abs (RequestsPerSecond t) < 2 ^ 53 ∧ Z.abs (RequestsPerMinute t) < 2 ^ 53) tops.
Proof.
  intros Hv Hb. destruct (vc_top _ _ Hv) as [Hwf Htops]. unfold updateTop.
  destruct (TopSince_spec (time_Add now (- Minute)) 10 (v_topApps v) Hwf ltac:(lia)) as (l & x' & -> & _ & Hx' & _ & _ & Hl & _).
  cbn [mbind res_mbind fst snd]. eexists _, _. split; [reflexivity|]. apply Forall_forall.
  intros te (z & -> & Hz)%list_elem_of_fmap. destruct (Hl z Hz) as [slots Hs]. rewrite Hx', Htops in Hs.
  apply lookup_omap_Some in Hs as (u & Htrim & Hu).
  pose proof (omap_length app_mark cs) as Hlen.
  pose proof (marks_upto (omap app_mark cs) 0 ∅ (map_Forall_empty _) ltac:(lia)) as Hup.
  apply (Hup (te_ApplicationId z)) in Hu. apply (trim_usage_upto _ _ _ _ Hu) in Htrim; [|lia]. cbn [snd] in Htrim.
  cbn [RequestsPerSecond RequestsPerMinute]. split; [|lia]. change (Z.quot TopAppsEntryLifetime Second) with 60.
  pose proof (Z.quot_pos (te_Requests z) 60 ltac:(lia) ltac:(lia)). pose proof (Z.quot_le_upper_bound (te_Requests z) 60 (te_Requests z)).
  lia.
Qed.

Lemma counts_small cs m : counts cs m → Z.of_nat (length cs) < 2 ^ 53 → small_metric m.
Proof.
  intros [H1 _ H2 H3 H4 H5 H6 _] Hb.
  pose proof (tally_bound is_request cs). pose proof (tally_bound (is_response (λ k, k = 2)) cs).
  pose proof (tally_bound (is_response (λ k, k = 3)) cs). pose proof (tally_bound (is_response (λ k, k = 4)) cs).
  pose proof (tally_bound (is_response (λ k, k = 5)) cs). pose proof (tally_bound (is_response other_class) cs).
  split; [rewrite H1|rewrite H2|rewrite H3|rewrite H4|rewrite H5|rewrite H6]; lia.
Qed.

(** ** The page *)

Lemma store_members_list_to_map {A} (l : list (string * A)) : ∀ m,
  NoDup (fst <$> l) → store_members l m = list_to_map l ∪ m.
Proof.
  induction l as [|[k v] l IH]; intros m Hnd; cbn [store_members foldl list_to_map foldr fst snd].
  { by rewrite (left_id_L ∅ (∪)). }
  cbn in Hnd. apply NoDup_cons in Hnd as [Hk Hnd]. change (foldl _ (<[k:=v]> m) l) with (store_members l (<[k := v]> m)).
  rewrite IH by done. change (foldr _ ∅ l) with (list_to_map l : gmap string A). cbn [uncurry].
  rewrite <- insert_union_l. symmetry. apply insert_union_r. by apply not_elem_of_list_to_map_1.
Qed.

(** The value after it was written and read once more. *)
Definition reread (v : value) : value := fst (valueInterface (default JNull (marshal_value v))).

Lemma reread_num f : reads_back f → reread (VNum f) = VNum f.
Proof. intros Hf. destruct (json_float_fine f Hf) as (t & _ & Hj & _ & _ & Hv). unfold reread. cbn [marshal_value]. rewrite Hj. change (default JNull (Some ?x)) with x. by rewrite Hv. Qed.

Lemma transform_marshal (d : dict) :
  dict_ok d → (∀ k, is_Some (d !! k) → valid_utf8 k = true) →
  transform (marshal_dict d) empty_dict = (reread <$> d, true) ∧ dict_ok (reread <$> d).
Proof.
  intros Hd Hk. destruct (marshal_dict_ok d Hd) as (js & -> & Hw). destruct (written_ok _ _ Hw) as [Hok Hfine].
  destruct (transform_fine js empty_dict Hok Hfine (map_Forall_empty _)) as [Ht Hdo]. rewrite Ht.
  assert (store_members (map member_value js) empty_dict = reread <$> d) as Heq; [|by rewrite <- Heq].
  assert (map member_value js = prod_map id reread <$> sorted_entries d) as ->.
  { assert (Forall (λ kv : string * value, valid_utf8 (fst kv) = true) (sorted_entries d)) as Hkeys.
    { apply Forall_forall. intros [k v] Hin%sorted_entries_elem. apply Hk. by exists v. }
    clear -Hw Hkeys. induction Hw as [|[k v] [k' j] l js (Hkj & Hm & _) _ IH]; [done|]. inversion Hkeys; subst.
    cbn in *. subst k'. rewrite IH by done. f_equal. unfold member_value, prod_map, reread. cbn [fst snd]. rewrite Hm.
    by rewrite unquote_escape, sanitize_valid. }
  destruct (sorted_entries_keys d) as [Hnd _].
  assert (fst <$> (prod_map id reread <$> sorted_entries d) = fst <$> sorted_entries d) as Hf.
  { rewrite <- list_fmap_compose. apply list_fmap_ext. by intros i [k v] _. }
  rewrite store_members_list_to_map by (by rewrite Hf). rewrite (right_id_L ∅ (∪)).
  apply map_eq. intros k. apply option_eq. intros v. rewrite <- elem_of_list_to_map by (by rewrite Hf).
  rewrite lookup_fmap, fmap_Some, list_elem_of_fmap. split.
  - intros ([k' v'] & [= -> ->] & Hin%sorted_entries_elem). eauto.
  - intros (v' & Hin & ->). exists (k, v'). split; [done|]. by apply sorted_entries_elem.
Qed.

(** The general statistics. *)
Definition generic_members (zone : Z) (v : GenericVarz) (cpu : json) : list (string * json) :=
  [("type", json_string (gv_Type v)); ("index", json_int (gv_Index v)); ("host", json_string (gv_Host v));
    ("credentials", JArr (map json_string (gv_Credentials v))); ("uuid", json_string (gv_UUID v));
    ("start", JStr (time_Format layout_common zone (gv_StartTime v))); ("num_cores", json_int (gv_NumCores v));
    ("mem", json_int (gv_MemStat v)); ("cpu", cpu); ("uptime", JStr (formatDuration (gv_Uptime v)));
    ("log_counts", counts_json (gv_LogCounts v))].

Record small_generic (v : GenericVarz) : Prop := {
  sg_index : Z.abs (gv_Index v) < 2 ^ 53;
  sg_cores : Z.abs (gv_NumCores v) < 2 ^ 53;
  sg_mem : Z.abs (gv_MemStat v) < 2 ^ 53;
  sg_cpu : reads_back (gv_Cpu v);
  sg_counts : map_Forall (λ _ n, Z.abs n < 2 ^ 53) (gv_LogCounts v);
}.

Lemma plain_pretty (z : Z) : plain_text (pretty z) = true.
Proof.
  destruct (Z.le_gt_cases 0 z) as [Hz|Hz].
  - rewrite pretty_nonneg by done. apply plain_text_digits. apply pretty_digits.
  - destruct z as [|p|p]; [lia|lia|]. change (pretty (Z.neg p)) with (String "-" (pretty (N.pos p))).
    apply (plain_text_app "-"); [done|]. apply plain_text_digits. apply pretty_digits.
Qed.

Lemma plain_duration d : plain_text (formatDuration d) = true.
Proof. unfold formatDuration. cbv zeta. by repeat first [apply plain_text_app|apply plain_pretty]. Qed.

Lemma plain_fine s : plain_text s = true → json_ok (JStr s) = true ∧ json_fine (JStr s).
Proof. intros Hs. destruct (plain_raw s Hs) as [Ho Hu]. split; [done|]. cbn. rewrite Hu. by eexists. Qed.

Lemma generic_json_fine zone v : small_generic v →
  ∃ cpu, generic_json zone v = Some (JObj (generic_members zone v cpu)) ∧ members_ok (generic_members zone v cpu).
Proof.
  intros [H1 H2 H3 H4 H5]. unfold generic_json. destruct (json_float_fine (gv_Cpu v) H4) as (t & _ & -> & Ho & Hf & _).
  cbn [mbind option_bind]. exists (JNum t). split; [done|].
  assert (json_ok (JArr (map json_string (gv_Credentials v))) = true ∧ json_fine (JArr (map json_string (gv_Credentials v)))) as [Hc1 Hc2].
  { induction (gv_Credentials v) as [|s l [IH1 IH2]]; [done|]. destruct (json_string_fine s) as [Hs1 Hs2].
    split; [|by split]. change (json_ok (json_string s) && forallb json_ok (map json_string l) = true). apply andb_true_iff. by split. }
  destruct (plain_fine (time_Format layout_common zone (gv_StartTime v))) as [Ht1 Ht2]; [by apply plain_Format|].
  destruct (plain_fine (formatDuration (gv_Uptime v)) (plain_duration _)) as [Hd1 Hd2].
  assert (json_fine (counts_json (gv_LogCounts v))) as Hcounts.
  { unfold counts_json. cbn [json_fine]. apply (foldr_and_Forall (λ kv : string * json, json_fine (snd kv))).
    apply (sorted_entries_Forall (λ n, Z.abs n < 2 ^ 53)) in H5.
    induction H5 as [|[k n] l Hn _ IH]; [constructor|]. cbn [map fst snd] in *. constructor; [|done]. by apply json_int_fine. }
  unfold generic_members.
  repeat first [int_member|apply members_ok_cons; [reflexivity|by (apply json_string_fine || assumption)|by (apply json_string_fine || assumption)|]
    |apply members_ok_cons; [reflexivity|apply counts_json_ok|assumption|]]. apply members_ok_nil.
Qed.

(** The keys of the page, in order. *)
Definition page_keys : list string :=
  ["bad_gateways"; "bad_requests"; "cpu"; "credentials"; "droplets"; "host"; "index"; "latency"; "log_counts"; "mem";
   "ms_since_last_registry_update"; "num_cores"; "rate"; "requests"; "requests_per_sec"; "responses_2xx"; "responses_3xx";
   "responses_4xx"; "responses_5xx"; "responses_xxx"; "start"; "tags"; "top10_app_requests"; "type"; "uptime"; "urls"; "uuid"].

(** The merged map, with whatever values. *)
Definition merged (f : value → value) (A W G : list (string * value)) : dict :=
  store_members G (f <$> delete "all" (store_members W (store_members A empty_dict))).

Lemma merged_entries f a1 a2 a3 a4 a5 a6 a7 a8 w0 w1 w2 w3 w4 w5 w6 w7 w8 g1 g2 g3 g4 g5 g6 g7 g8 g9 g10 g11 :
  sorted_entries (merged f
    [("requests", a1); ("rate", a2); ("responses_2xx", a3); ("responses_3xx", a4); ("responses_4xx", a5); ("responses_5xx", a6);
     ("responses_xxx", a7); ("latency", a8)]
    [("all", w0); ("tags", w1); ("urls", w2); ("droplets", w3); ("bad_requests", w4); ("bad_gateways", w5); ("requests_per_sec", w6);
     ("top10_app_requests", w7); ("ms_since_last_registry_update", w8)]
    [("type", g1); ("index", g2); ("host", g3); ("credentials", g4); ("uuid", g5); ("start", g6); ("num_cores", g7); ("mem", g8);
     ("cpu", g9); ("uptime", g10); ("log_counts", g11)])
  = zip page_keys [f w5; f w4; g9; g4; f w3; g3; g2; f a8; g11; g8; f w8; g7; f a2; f a1; f w6; f a3; f a4; f a5; f a6; f a7;
      g6; f w1; f w7; g1; g10; f w2; g5].
Proof. vm_compute. reflexivity. Qed.

(** A counter as the page shows it. *)
Definition shows (l : list (string * json)) (k : string) (n : Z) : Prop :=
  ∃ tok, (k, JNum tok) ∈ l ∧ ParseFloat tok = Some (f64_of_Z n).

Lemma shows_entry E l k n :
  Forall2 written E l → (k, VNum (float_of_int n)) ∈ E → 0 ≤ n < 2 ^ 53 → escape k = k → shows l k n.
Proof.
  intros Hw Hin Hn Hk. apply list_elem_of_lookup in Hin as (i & Hi).
  destruct (Forall2_lookup_l _ _ _ _ _ Hw Hi) as ([k' j] & Hj & Hkj & Hm & _). cbn [fst snd] in *. subst k'.
  assert (float_of_int n = f64_of_Z n) as Hf.
  { unfold float_of_int. rewrite (proj2 (Z.ltb_ge n 0)) by lia. by rewrite Z.abs_eq by lia. }
  rewrite Hf in Hm. destruct (reads_back_int false n Hn) as (t & Hg & Hp). cbn [signed marshal_value] in *.
  unfold json_float in Hm. rewrite Hg in Hm. injection Hm as <-. exists t. split; [|done]. rewrite <- Hk. by eapply list_elem_of_lookup_2.
Qed.

Lemma page_keys_plain : map escape page_keys = page_keys.
Proof. vm_compute. reflexivity. Qed.

Lemma written_keys E l : Forall2 written E l → fst <$> l = escape ∘ fst <$> E.
Proof. induction 1 as [|[k v] [k' j] E l (Hk & _) _ IH]; [done|]. cbn in *. by rewrite Hk, IH. Qed.

Lemma value_of_int n : Z.abs n < 2 ^ 53 → fst (valueInterface (json_int n)) = VNum (float_of_int n).
Proof. intros Hn. destruct (json_int_fine n Hn) as (_ & _ & ->). done. Qed.

Lemma reread_int n : Z.abs n < 2 ^ 53 → reread (VNum (float_of_int n)) = VNum (float_of_int n).
Proof. intros Hn. apply reread_num. by apply json_int_reads. Qed.

(** The two texts, from the parts: the page is a JSON object with the keys
    above, and its entries are those of the merged map. *)
Lemma page_of_parts zone A W G g :
  members_ok A → members_ok W → members_ok G →
  Forall (λ kv, valid_utf8 (fst kv) = true) (map member_value A) → Forall (λ kv, valid_utf8 (fst kv) = true) (map member_value W) →
  generic_json zone g = Some (JObj G) →
  ∃ unique l, marshal_dict (delete "all" (fst (transform (Some (print_json (JObj W))) (fst (transform (Some (print_json (JObj A))) empty_dict)))))
      = Some unique
    ∧ Varz_MarshalJSON zone (Some unique) g = Some (print_json (JObj l)) ∧ parse_json (print_json (JObj l)) = Some (JObj l)
    ∧ Forall2 written (sorted_entries (merged reread (map member_value A) (map member_value W) (map member_value G))) l.
Proof.
  intros [HA1 HA2] [HW1 HW2] [HG1 HG2] KA KW HG.
  destruct (transform_fine A empty_dict HA1 HA2 (map_Forall_empty _)) as [-> HdA]. cbn [fst].
  destruct (transform_fine W _ HW1 HW2 HdA) as [-> HdW]. cbn [fst].
  set (d := delete "all" _) in *. assert (dict_ok d) as Hd by (by apply map_Forall_delete).
  assert (∀ k, is_Some (d !! k) → valid_utf8 k = true) as Hkeys.
  { intros k [v Hv]. apply (map_Forall_lookup_1 (λ k _, valid_utf8 k = true) d k v); [|done].
    apply map_Forall_delete, store_members_Forall; [done|]. apply store_members_Forall; [done|apply map_Forall_empty]. }
  destruct (marshal_dict_ok d Hd) as (js & Hjs & _). destruct (transform_marshal d Hd Hkeys) as [Ht Hr]. rewrite Hjs in Ht |- *.
  destruct (transform_fine G (reread <$> d) HG1 HG2 Hr) as [HtG HdG].
  destruct (marshal_dict_ok _ HdG) as (l & Hl & Hw). exists (print_json (JObj js)), l. split; [done|].
  unfold Varz_MarshalJSON. rewrite Ht, HG. cbn [negb fmap option_fmap option_map]. rewrite HtG. cbn [negb].
  split_and!; [done| |done]. apply parse_print. by apply (written_ok _ _ Hw).
Qed.

Abbreviation value_of j := (fst (valueInterface j)).

Lemma http_values x rates lat : small_metric x →
  map member_value (http_members x rates lat) =
  [("requests", VNum (float_of_int (Requests x))); ("rate", value_of rates); ("responses_2xx", VNum (float_of_int (Responses2xx x)));
   ("responses_3xx", VNum (float_of_int (Responses3xx x))); ("responses_4xx", VNum (float_of_int (Responses4xx x)));
   ("responses_5xx", VNum (float_of_int (Responses5xx x))); ("responses_xxx", VNum (float_of_int (ResponsesXxx x)));
   ("latency", value_of lat)].
Proof. intros [H1 H2 H3 H4 H5 H6]. unfold http_members, member_value. cbn [map fst snd]. rewrite !value_of_int by lia. reflexivity. Qed.

Lemma varz_values x all tags rps : small_varz x →
  map member_value (varz_members x all tags rps) =
  [("all", value_of all); ("tags", value_of tags); ("urls", VNum (float_of_int (Z.of_nat (Urls x))));
   ("droplets", VNum (float_of_int (Z.of_nat (Droplets x)))); ("bad_requests", VNum (float_of_int (BadRequests x)));
   ("bad_gateways", VNum (float_of_int (BadGateways x))); ("requests_per_sec", value_of rps);
   ("top10_app_requests", value_of (JArr (map top_json (v_TopApps x))));
   ("ms_since_last_registry_update", VNum (float_of_int (MillisSinceLastRegistryUpdate x)))].
Proof.
  intros [_ _ H3 H4 H5 H6 _ H8]. unfold varz_members, member_value. cbn [map fst snd]. rewrite !value_of_int by lia. reflexivity.
Qed.

Lemma generic_values zone g cpu :
  map member_value (generic_members zone g cpu) =
  map (λ kv, (fst kv, value_of (snd kv))) (generic_members zone g cpu).
Proof. reflexivity. Qed.

(** What [MarshalJSON] brings up to date. *)
Lemma varz_refresh_small range now now2 cs r v :
  (∀ m, range m ≡ₚ map_to_list m) → registry_wf r →
  (∀ n, NumUris range r = Ok n ∨ NumEndpoints range r = Ok n → Z.of_nat n < 2 ^ 53) →
  varz_counts cs v → Z.of_nat (length cs) < 2 ^ 53 →
  ∃ v' (L : list (list string)) (A : gset string), varz_refresh range now now2 (set_v_r r v) = Ok v' ∧ small_varz v'
    ∧ All v' = All v ∧ Component v' = Component v ∧ BadRequests v' = BadRequests v ∧ BadGateways v' = BadGateways v
    ∧ Urls v' = length L ∧ Droplets v' = size A ∧ NoDup L ∧ (∀ q, q ∈ L ↔ is_Some (pool_ref r q))
    ∧ (∀ a, a ∈ A ↔ ∃ q, is_Some (routes r q !! a)).
Proof.
  intros Hrange Hwf Hsmall Hv Hb. destruct (registry_counts range r Hrange Hwf) as [(L & HL & HLn & HLq) (A & HA & HAa)].
  unfold varz_refresh. cbn [v_r set_v_r]. rewrite HL, HA. cbn [mbind res_mbind]. set (x0 := mkVarz _ _ _ _ _ _ _ _ _ _ _).
  assert (varz_counts cs x0) as Hx0 by (destruct Hv; by split).
  destruct (updateTop_small now2 cs x0 Hx0 Hb) as (tops & t & -> & Htops).
  exists (mkVarz (v_r x0) (v_activeApps x0) t (All x0) (Component x0) (Urls x0) (Droplets x0) (BadRequests x0) (BadGateways x0)
    tops (MillisSinceLastRegistryUpdate x0)), L, A.
  split; [done|]. split; [|by split_and!]. split; cbn [x0 All Component Urls Droplets BadRequests BadGateways v_TopApps
    MillisSinceLastRegistryUpdate set_v_r v_r].
  - eapply counts_small; [apply (vc_all _ _ Hv)|done].
  - intros tag m Hm. pose proof (vc_component _ _ Hv tag) as Hc. rewrite Hm in Hc. eapply counts_small; [done|].
    pose proof (about_length tag cs). lia.
  - apply Hsmall. by left.
  - apply Hsmall. by right.
  - rewrite (vc_bad_requests _ _ Hv). pose proof (tally_bound bad_request cs). lia.
  - rewrite (vc_bad_gateways _ _ Hv). pose proof (tally_bound bad_gateway cs). lia.
  - done.
  - unfold time_Sub, min_int64, max_int64. Z.to_euclidean_division_equations. lia.
Qed.

(** The entry at place [i] of the page. *)
Ltac shown i Hw := eapply shows_entry; [exact Hw|apply (list_elem_of_lookup_2 _ i); reflexivity|lia|reflexivity].

(** C26: The status page.  After any sequence of fewer than [2^53] reports, with
    the registry in any well-formed state, the router's statistics are encoded
    and merged with the general ones without a panic or an error; the page is a
    JSON object with exactly the keys of both, in order; and the numbers it shows
    for bad requests, bad gateways, requests and each class of responses are the
    numbers of these reports, for [urls] the number of registered paths, and for
    [droplets] the number of distinct addresses in the table. *)
Theorem status_page range gm1 gm2 rate1 zone now now2 r0 r cs g :
  (∀ m, range m ≡ₚ map_to_list m) → registry_wf r →
  (∀ n, NumUris range r = Ok n ∨ NumEndpoints range r = Ok n → Z.of_nat n < 2 ^ 53) →
  Z.of_nat (length cs) < 2 ^ 53 →
  (∀ id, metric_numbers gm1 id) → (∀ id, metric_numbers gm2 id) → reads_back rate1 → small_generic g →
  ∃ v v' unique page l,
    foldM report_to (NewVarz r0) cs = Ok v
    ∧ RealVarz_MarshalJSON range gm1 gm2 rate1 now now2 r v = Ok (v', Some unique)
    ∧ Varz_MarshalJSON zone (Some unique) g = Some page ∧ parse_json page = Some (JObj l) ∧ fst <$> l = page_keys
    ∧ shows l "bad_requests" (tally bad_request cs) ∧ shows l "bad_gateways" (tally bad_gateway cs)
    ∧ shows l "requests" (tally is_request cs)
    ∧ shows l "responses_2xx" (tally (is_response (λ k, k = 2)) cs) ∧ shows l "responses_3xx" (tally (is_response (λ k, k = 3)) cs)
    ∧ shows l "responses_4xx" (tally (is_response (λ k, k = 4)) cs) ∧ shows l "responses_5xx" (tally (is_response (λ k, k = 5)) cs)
    ∧ shows l "responses_xxx" (tally (is_response other_class) cs)
    ∧ (∃ L : list (list string), NoDup L ∧ (∀ q, q ∈ L ↔ is_Some (pool_ref r q)) ∧ shows l "urls" (Z.of_nat (length L)))
    ∧ (∃ A : gset string, (∀ a, a ∈ A ↔ ∃ q, is_Some (routes r q !! a)) ∧ shows l "droplets" (Z.of_nat (size A))).
Proof.
  intros Hrange Hwf Hsmall Hcs Hg1 Hg2 Hrate Hg.
  destruct (varz_reports r0 cs ltac:(lia)) as (v & Hv & Hc).
  destruct (varz_refresh_small range now now2 cs r v Hrange Hwf Hsmall Hc Hcs)
    as (v' & L & A & Hrf & Hsv & Eall & Ecomp & Ebr & Ebg & EL & EA & HLn & HLq & HAa).
  destruct (http_json_fine gm1 AllMetric (All v') (Hg1 _) (sv_all _ Hsv)) as (rates & lat & Hhttp & Hhok).
  destruct (varz_json_fine gm2 rate1 v' Hg2 Hrate Hsv) as (all & tags & rps & Hvz & Hvok).
  destruct (generic_json_fine zone g Hg) as (cpu & Hgen & Hgok).
  destruct (page_of_parts zone _ _ _ g Hhok Hvok Hgok) as (unique & l & Hu & Hp & Hparse & Hw); [|
    |done|].
  { rewrite http_values by apply Hsv. by repeat constructor. }
  { rewrite varz_values by done. by repeat constructor. }
  exists v, v', unique, (print_json (JObj l)), l. split; [done|]. split.
  { unfold RealVarz_MarshalJSON. rewrite Hrf. cbn [mbind res_mbind]. rewrite Hhttp. cbn [mbind res_mbind].
    rewrite Hvz. cbn [mbind res_mbind fmap option_fmap option_map]. by rewrite Hu. }
  split; [done|]. split; [done|].
  rewrite http_values, varz_values in Hw by (done || apply Hsv). rewrite generic_values in Hw. cbn [map generic_members fst snd] in Hw.
  rewrite merged_entries in Hw. pose proof (sv_all _ Hsv) as [S1 S2 S3 S4 S5 S6]. pose proof Hsv as [_ _ S7 S8 S9 S10 _ S11].
  rewrite !reread_int in Hw by lia. split.
  { rewrite (written_keys _ _ Hw). etransitivity; [|apply page_keys_plain]. reflexivity. }
  pose proof (vc_all _ _ Hc) as [C1 _ C2 C3 C4 C5 C6 _]. rewrite <- Eall in C1, C2, C3, C4, C5, C6.
  pose proof (vc_bad_requests _ _ Hc) as C7. pose proof (vc_bad_gateways _ _ Hc) as C8. rewrite <- Ebr in C7. rewrite <- Ebg in C8.
  split_and!.
  - rewrite <- C7. shown 1%nat Hw.
  - rewrite <- C8. shown 0%nat Hw.
  - rewrite <- C1. shown 13%nat Hw.
  - rewrite <- C2. shown 15%nat Hw.
  - rewrite <- C3. shown 16%nat Hw.
  - rewrite <- C4. shown 17%nat Hw.
  - rewrite <- C5. shown 18%nat Hw.
  - rewrite <- C6. shown 19%nat Hw.
  - exists L. split_and!; [done|done|]. rewrite <- EL. shown 25%nat Hw.
  - exists A. split; [done|]. rewrite <- EA. shown 4%nat Hw.
Qed.

(** ** A concrete page *)

Definition sample_metrics : GoMetrics := {|
  meter_rates _ := (f64_div (f64_of_Z 1) (f64_of_Z 3), f64_of_Z 2, f64_of_Z 0);
  Percentiles _ _ := map f64_of_Z [1000000; 2000000; 3000000; 40000000; 1500000000]
|}.

Lemma sample_metrics_ok id : metric_numbers sample_metrics id.
Proof.
  split; cbn [meter_rates sample_metrics Percentiles].
  - split_and!; [by exists "0.3333333333333333"; split; vm_compute|by exists "2"; split; vm_compute|by exists "0"; split; vm_compute].
  - done.
  - rewrite Forall_map.
    apply List.Forall_cons; [exists "0.001"; split; vm_compute; reflexivity|].
    apply List.Forall_cons; [exists "0.002"; split; vm_compute; reflexivity|].
    apply List.Forall_cons; [exists "0.003"; split; vm_compute; reflexivity|].
    apply List.Forall_cons; [exists "0.04"; split; vm_compute; reflexivity|].
    apply List.Forall_cons; [exists "1.5"; split; vm_compute; reflexivity|apply List.Forall_nil].
Qed.

Definition sample_generic : GenericVarz :=
  mkGeneric "Router" 1 "10.0.0.9:8081" ["user"; "pass"] "1-uuid" 0 4 2048 (f64_div (f64_of_Z 1) (f64_of_Z 8)) (90 * Second)
    {["info" := 1200000]}.

Lemma sample_generic_small : small_generic sample_generic.
Proof.
  split; [done|done|done|by exists "0.125"; split; vm_compute|]. apply map_Forall_singleton. done.
Qed.

(** The text of the page; a number of a million or more has an exponent. *)
Example sample_status_page :
  match foldM report_to (NewVarz sample) sample_reports with
  | Ok v => x ← RealVarz_MarshalJSON map_to_list sample_metrics sample_metrics (f64_of_Z 2) 0 0 sample v;
            Ok (snd x ≫= λ u, Varz_MarshalJSON 0 (Some u) sample_generic)
  | _ => Panic ""
  end = Ok (Some (json_text
    ["{"; "bad_gateways"; ":1,"; "bad_requests"; ":1,"; "cpu"; ":0.125,"; "credentials"; ":["; "user"; ","; "pass"; "],";
     "droplets"; ":3,"; "host"; ":"; "10.0.0.9:8081"; ","; "index"; ":1,"; "latency"; ":{"; "50"; ":0.001,"; "75";
     ":0.002,"; "90"; ":0.003,"; "95"; ":0.04,"; "99"; ":1.5,"; "samples"; ":1,"; "value"; ":5e-07},"; "log_counts"; ":{";
     "info"; ":1.2e+06},"; "mem"; ":2048,"; "ms_since_last_registry_update"; ":0,"; "num_cores"; ":4,"; "rate";
     ":[0.3333333333333333,2,0],"; "requests"; ":2,"; "requests_per_sec"; ":2,"; "responses_2xx"; ":1,"; "responses_3xx";
     ":0,"; "responses_4xx"; ":0,"; "responses_5xx"; ":0,"; "responses_xxx"; ":1,"; "start"; ":";
     "1970-01-01 00:00:00 +0000"; ","; "tags"; ":{"; "component"; ":{"; "dea-1"; ":{"; "latency"; ":{"; "50"; ":0.001,";
     "75"; ":0.002,"; "90"; ":0.003,"; "95"; ":0.04,"; "99"; ":1.5,"; "samples"; ":1,"; "value"; ":5e-07},"; "rate";
     ":[0.3333333333333333,2,0],"; "requests"; ":2,"; "responses_2xx"; ":1,"; "responses_3xx"; ":0,"; "responses_4xx";
     ":0,"; "responses_5xx"; ":0,"; "responses_xxx"; ":1}}},"; "top10_app_requests"; ":[{"; "application_id"; ":"; "app1";
     ","; "rpm"; ":2,"; "rps"; ":0}],"; "type"; ":"; "Router"; ","; "uptime"; ":"; "0d:0h:1m:30s"; ","; "urls"; ":3,";
     "uuid"; ":"; "1-uuid"; "}"])).
Proof. vm_compute. reflexivity. Qed.

Lemma status_page_witness :
  ∃ v v' unique page l,
    foldM report_to (NewVarz sample) sample_reports = Ok v
    ∧ RealVarz_MarshalJSON map_to_list sample_metrics sample_metrics (f64_of_Z 2) 0 0 sample v = Ok (v', Some unique)
    ∧ Varz_MarshalJSON 0 (Some unique) sample_generic = Some page ∧ parse_json page = Some (JObj l)
    ∧ shows l "requests" 2 ∧ shows l "responses_2xx" 1.
Proof.
  destruct (status_page map_to_list sample_metrics sample_metrics (f64_of_Z 2) 0 0 0 sample sample sample_reports sample_generic)
    as (v & v' & unique & page & l & H1 & H2 & H3 & H4 & _ & _ & _ & H5 & H6 & _).
  - exact map_to_list_range.
  - exact sample_wf.
  - assert (NumUris map_to_list sample = Ok 3%nat ∧ NumEndpoints map_to_list sample = Ok 3%nat) as [-> ->] by (vm_compute; done).
    by intros n [[= <-]|[= <-]].
  - reflexivity.
  - apply sample_metrics_ok.
  - apply sample_metrics_ok.
  - apply (reads_back_int false 2). lia.
  - exact sample_generic_small.
  - exists v, v', unique, page, l. by split_and!.
Defined.
