(* ===== verification/AccessLogger.v ===== *)
(** * Writing the access log (src/access_log)

    The text of a record and the goroutine that writes records to the log file
    and to the application's log.  The zone of the clock and the table of
    printable runes above U+00FF are parameters. *)

From S2P Require Import Prelude GoStrings Utf8 Floats Http Times LogText Pool AccessLog Config.

Record Locale := mkLocale {
  zone : Z → Z;
  IsPrint_table : Z → bool;
}.

Section record_text.
Context (fmt : Locale) (st : store).

Definition FormatStartedAt (r : AccessLogRecord) : string := time_Format layout_access (zone fmt (StartedAt r)) (StartedAt r).

Definition FormatRequestHeader (r : AccessLogRecord) (k : string) : res string :=
  h ← get_header (r_Header (al_Request r)) st;
  let v := header_Get k h in
  Ok (if String.eqb v "" then "-" else v).

(** [UnixNano] wraps for the zero time of a request that was not finished. *)
Definition UnixNano (t : Z) : Z := wrap64 t.
Definition ResponseTime (r : AccessLogRecord) : float64 :=
  f64_div (f64_of_Z (wrap64 (UnixNano (FinishedAt r) - UnixNano (StartedAt r)))) (f64_of_Z Second).

Definition ExtraHeaders (r : AccessLogRecord) : res string :=
  l ← foldM (λ acc header,
         let headerName := strings_ReplaceByte (strings_ToLower header) "-" "_" in
         v ← FormatRequestHeader r header;
         let headerValue := Quote (IsPrint_table fmt) v in
         Ok (acc ++ [" "; headerName; ":"; headerValue])) [] (ExtraHeadersToLog r);
  Ok (strings_Join l "").

(** [Request.Proto] of a request that was read from a connection. *)
Definition request_Proto (q : Request) : string := "HTTP/" +:+ pretty (ProtoMajor q) +:+ "." +:+ pretty (ProtoMinor q).

Definition quoted (s : string) : string := String dquote (s +:+ String dquote "").
Definition newline : ascii := "010".

Definition makeRecord (r : AccessLogRecord) : res string :=
  let q := al_Request r in
  let statusCode := if (al_StatusCode r =? 0)%Z then "-" else pretty (al_StatusCode r) in
  let responseTime := if SFleb (f64_of_Z 0) (ResponseTime r) then FormatFloat (ResponseTime r) else "-" in
  let appId := match al_RouteEndpoint r with Some e => ApplicationId e | None => "-" end in
  extraHeaders ← (match ExtraHeadersToLog r with [] => Ok "" | _ => ExtraHeaders r end);
  u ← get_url (r_URL q) st;
  referer ← FormatRequestHeader r "Referer";
  userAgent ← FormatRequestHeader r "User-Agent";
  forwardedFor ← FormatRequestHeader r "X-Forwarded-For";
  forwardedProto ← FormatRequestHeader r "X-Forwarded-Proto";
  requestId ← FormatRequestHeader r "X-Vcap-Request-Id";
  Ok (strings_Join
        [Host q; " - ["; FormatStartedAt r; "] ";
         quoted (Method q +:+ " " +:+ url_RequestURI u +:+ " " +:+ request_Proto q); " "; statusCode; " ";
         pretty (RequestBytesReceived r); " "; pretty (BodyBytesSent r); " "; quoted referer; " "; quoted userAgent; " ";
         RemoteAddr q; " x_forwarded_for:"; quoted forwardedFor; " x_forwarded_proto:"; quoted forwardedProto;
         " vcap_request_id:"; requestId; " response_time:"; responseTime; " app_id:"; appId; extraHeaders;
         String newline ""] "").

(** Made once and kept in the record. *)
Definition getRecord (r : AccessLogRecord) : res (string * AccessLogRecord) :=
  if String.eqb (record r) "" then s ← makeRecord r; Ok (s, set_record s r) else Ok (record r, r).

(** What is appended to the writer. *)
Definition WriteTo (file : string) (r : AccessLogRecord) : res (string * AccessLogRecord) :=
  sr ← getRecord r; Ok (file +:+ fst sr, snd sr).

Definition record_ApplicationId (r : AccessLogRecord) : string :=
  match al_RouteEndpoint r with
  | None => ""
  | Some e => if String.eqb (ApplicationId e) "" then "" else ApplicationId e
  end.

Definition LogMessage (r : AccessLogRecord) : res (string * AccessLogRecord) :=
  if String.eqb (record_ApplicationId r) "" then Ok ("", r) else getRecord r.
End record_text.

(** ** The logger *)

Record AccessLogger := mkLogger {
  dropsondeSourceInstance : string;
  channel : list AccessLogRecord;
  stopCh : bool;
  running : bool;
  writer : option string;
  app_logs : list (string * string * string);
}.

Definition channel_cap : nat := 128.

Definition NewFileAndLoggregatorAccessLogger (f : option string) (source : string) : AccessLogger :=
  mkLogger source [] false true f [].

(** [OpenFile] gives the content of the log file.  [None] is the null logger,
    which does nothing; a failure is on the left. *)
Definition CreateRunningAccessLogger (open : string → option string) (c : Config) : string + option AccessLogger :=
  if String.eqb (c_AccessLog c) "" && negb (lg_LoggregatorEnabled (c_Logging c)) then inr None
  else
    let source := if lg_LoggregatorEnabled (c_Logging c) then pretty (c_Index c) else "" in
    if String.eqb (c_AccessLog c) "" then inr (Some (NewFileAndLoggregatorAccessLogger None source))
    else match open (c_AccessLog c) with
         | None => inl "OpenFile"
         | Some file => inr (Some (NewFileAndLoggregatorAccessLogger (Some file) source))
         end.

Section logger.
Context (fmt : Locale) (st : store).

(** One record taken from the channel. *)
Definition handle_record (record : AccessLogRecord) (x : AccessLogger) : res AccessLogger :=
  wr ← (match writer x with
        | Some file => fr ← WriteTo fmt st file record; Ok (Some (fst fr), snd fr)
        | None => Ok (None, record)
        end);
  let '(file, record) := wr in
  if negb (String.eqb (dropsondeSourceInstance x) "") && negb (String.eqb (record_ApplicationId record) "") then
    mr ← LogMessage fmt st record;
    Ok (mkLogger (dropsondeSourceInstance x) (channel x) (stopCh x) (running x) file
          (app_logs x ++ [(record_ApplicationId record, fst mr, dropsondeSourceInstance x)]))
  else Ok (mkLogger (dropsondeSourceInstance x) (channel x) (stopCh x) (running x) file (app_logs x)).

Inductive log_op :=
| OpLog (r : AccessLogRecord)
| OpReceive
| OpStop
| OpStopped.

(** [None] when the operation blocks: [Log] on a full channel, the two cases of
    the loop's [select]. *)
Definition log_step (x : AccessLogger) (op : log_op) : option (res AccessLogger) :=
  match op with
  | OpLog r =>
      if decide (length (channel x) < channel_cap)
      then Some (Ok (mkLogger (dropsondeSourceInstance x) (channel x ++ [r]) (stopCh x) (running x) (writer x) (app_logs x)))
      else None
  | OpReceive =>
      match running x, channel x with
      | true, r :: rest =>
          Some (handle_record r (mkLogger (dropsondeSourceInstance x) rest (stopCh x) (running x) (writer x) (app_logs x)))
      | _, _ => None
      end
  | OpStop =>
      if stopCh x then Some (Panic "close of closed channel")
      else Some (Ok (mkLogger (dropsondeSourceInstance x) (channel x) true (running x) (writer x) (app_logs x)))
  | OpStopped =>
      if running x && stopCh x
      then Some (Ok (mkLogger (dropsondeSourceInstance x) (channel x) (stopCh x) false (writer x) (app_logs x)))
      else None
  end.
End logger.
