(* ===== verification/AccessLoggerSpec.v ===== *)
(** * What the access log guarantees

    A record is one line, and records are written in the order in which they
    were logged, each once. *)

From S2P Require Import Prelude GoStrings Utf8 Floats Strconv Http Times TimeTheorems Json JsonSpec JsonDecodeSpec LogText Pool.
From S2P Require Import SignatureJson AccessLog AccessLogger.

(** ** One line per record *)

Definition plain (s : string) : Prop := str_in newline s = false.

Lemma plain_app s t : plain (s +:+ t) ↔ plain s ∧ plain t.
Proof. unfold plain. rewrite str_in_app. apply orb_false_iff. Qed.

Lemma plain_N x : ∀ s, plain s → plain (pretty_N_go x s).
Proof.
  induction (N.lt_wf_0 x) as [x _ IH]; intros s Hs. assert (x = 0 ∨ 0 < x)%N as [->|?] by lia; [done|].
  rewrite pretty_N_go_step by done. apply IH; [by apply N.div_lt|]. unfold plain in *. cbn. rewrite Hs.
  unfold pretty_N_char. by repeat case_match.
Qed.

Lemma plain_Z (z : Z) : plain (pretty z).
Proof.
  assert (∀ n : N, plain (pretty n)) as HN by (intros n; unfold pretty, pretty_N; case_decide; [done|by apply plain_N]).
  destruct z; [done|apply (HN (N.pos _))|]. change (plain ("-" +:+ pretty (N.pos p))). rewrite plain_app. split; [done|apply HN].
Qed.

Lemma plain_lower s : plain s → plain (strings_ToLower s).
Proof.
  unfold plain. induction s as [|c s IH]; [done|]. cbn. intros [Hc Hs]%orb_false_iff. rewrite IH by done.
  rewrite orb_false_r. destruct c as [[] [] [] [] [] [] [] []]; vm_compute in Hc |- *; done.
Qed.

Lemma plain_replace s : plain s → plain (strings_ReplaceByte s "-" "_").
Proof.
  unfold plain. induction s as [|c s IH]; [done|]. cbn. intros [Hc Hs]%orb_false_iff. rewrite IH by done.
  destruct (Ascii.eqb c "-"); [done|]. by rewrite Hc.
Qed.

Lemma plain_Join l : Forall plain l → plain (strings_Join l "").
Proof.
  induction 1 as [|s l Hs Hl IH]; [done|]. destruct l as [|t l]; [done|].
  change (plain (s +:+ ("" +:+ strings_Join (t :: l) ""))). rewrite !plain_app. done.
Qed.

Lemma Join_snoc l s : strings_Join (l ++ [s]) "" = strings_Join l "" +:+ s.
Proof.
  induction l as [|t l IH]; [done|]. destruct l as [|t' l]; [done|].
  change ((t :: t' :: l) ++ [s]) with (t :: (t' :: l) ++ [s]).
  change (t +:+ ("" +:+ strings_Join ((t' :: l) ++ [s]) "") = (t +:+ ("" +:+ strings_Join (t' :: l) "")) +:+ s).
  rewrite IH. cbn [String.append]. by rewrite str_app_assoc.
Qed.

Lemma plain_digits s : all_digits s = true → plain s.
Proof.
  induction s as [|c s IH]; [done|]. cbn [all_digits]. intros [Hc Hs]%andb_true_iff. unfold plain in *. cbn [str_in].
  rewrite IH by done. destruct (Ascii.eqb_spec c newline) as [->|]; [done|done].
Qed.

(** Printable ASCII has no line break. *)
Lemma plain_printable s : plain_text s = true → plain s.
Proof.
  induction s as [|c s IH]; [done|]. cbn [str_forall]. intros [Hc Hs]%andb_true_iff. unfold plain in *. cbn [str_in].
  rewrite IH by done. by destruct (Ascii.eqb_spec c newline) as [->|].
Qed.

Lemma plain_time zone t : plain (time_Format layout_access zone t).
Proof. by apply plain_printable, plain_Format. Qed.

Lemma plain_fixed c x : plain (format_fixed c x).
Proof.
  unfold format_fixed. destruct (0 <=? x)%Z; [apply plain_Z|]. cbv zeta.
  assert (plain (trim_zeros (fixed_digits (Z.to_nat (- x)) (c `mod` 10 ^ (- x))%Z ""))) as Ht
    by (by apply plain_printable, plain_trim, plain_fixed_digits).
  destruct (trim_zeros _); [apply plain_Z|]. rewrite plain_app. split; [apply plain_Z|].
  by change (plain ("." +:+ String a s)); rewrite plain_app.
Qed.

Lemma plain_float f : plain (FormatFloat f).
Proof.
  destruct f as [| | |[] m e]; try done. unfold FormatFloat. destruct (shortest m e). apply plain_fixed.
Qed.

Lemma hex_digit_plain n s : plain s → plain (String (hex_digit (n `mod` 16)) s).
Proof.
  intros Hs. unfold plain in *. cbn [str_in]. rewrite Hs, orb_false_r.
  pose proof (Z.mod_pos_bound n 16 ltac:(lia)) as Hn. generalize dependent (n `mod` 16)%Z. intros k Hk.
  assert (k = 0 ∨ k = 1 ∨ k = 2 ∨ k = 3 ∨ k = 4 ∨ k = 5 ∨ k = 6 ∨ k = 7 ∨ k = 8 ∨ k = 9 ∨ k = 10 ∨ k = 11 ∨ k = 12 ∨ k = 13
    ∨ k = 14 ∨ k = 15)%Z as Hc by lia.
  repeat destruct Hc as [->|Hc]; [done..|by subst].
Qed.

Lemma hex_digits_plain n : ∀ r s, plain s → plain (hex_digits n r s).
Proof. induction n as [|n IH]; intros r s Hs; cbn [hex_digits]; [done|]. by apply IH, hex_digit_plain. Qed.

Lemma plain_cons c s : c ≠ newline → plain s → plain (String c s).
Proof. intros Hc Hs. unfold plain in *. cbn [str_in]. rewrite Hs. by destruct (Ascii.eqb_spec c newline). Qed.

Lemma high_plain s : high_bytes s = true → plain s.
Proof.
  unfold high_bytes. induction s as [|c s IH]; [done|]. cbn [str_forall]. intros [Hc Hs]%andb_true_iff.
  apply plain_cons; [by intros ->|by apply IH].
Qed.

Lemma plain_quote table s : plain (Quote table s).
Proof.
  unfold Quote. apply plain_cons; [done|].
  induction s as [|a s Hd IH|r n s Hd Hn Hr H1 IH] using utf8_ind; [done| |].
  - rewrite rune_fold_bad by done. do 2 (apply plain_cons; [done|]). by apply hex_digits_plain.
  - rewrite (rune_fold_rune _ _ _ r n) by done. apply plain_app. split; [|done]. unfold quote_rune.
    destruct (Z.eqb_spec r (byte_val dquote)) as [->|]; [done|]. destruct (Z.eqb_spec r (byte_val backslash)) as [->|]; [done|]. cbn [orb].
    destruct (IsPrint table r) eqn:Hp.
    + destruct (decide (r < 0x80)%Z) as [Hlow|]; [|apply high_plain, EncodeRune_high; lia].
      rewrite <- (byte_val_of r) by lia. rewrite EncodeRune_1 by (rewrite byte_val_of; lia).
      apply plain_cons; [|done]. intros Heq. unfold IsPrint in Hp. rewrite <- (byte_val_of r) in Hp by lia. rewrite Heq in Hp. discriminate Hp.
    + destruct (short_escape r) eqn:He.
      * apply plain_cons; [done|]. apply plain_cons; [|done]. unfold short_escape in He. repeat case_match; by simplify_eq.
      * repeat case_match; apply plain_cons; try done; apply plain_cons; try done; by apply hex_digits_plain.
Qed.

Section text.
Context (fmt : Locale) (st : store).

(** A record as the proxy hands it over: the request's objects exist, and its
    text has not been made yet. *)
Record record_there (r : AccessLogRecord) : Prop := {
  rt_header : is_Some (headers st !! r_Header (al_Request r));
  rt_url : is_Some (urls st !! r_URL (al_Request r));
  rt_new : record r = "";
}.

(** No line break where the text is printed as it is: in the request line, the
    address and the headers, of which the server makes sure, in the names of the
    configured headers, and in the application's id, which nobody checks. *)
Record one_line (r : AccessLogRecord) : Prop := {
  ol_Host : plain (Host (al_Request r));
  ol_Method : plain (Method (al_Request r));
  ol_RemoteAddr : plain (RemoteAddr (al_Request r));
  ol_header : ∀ h, headers st !! r_Header (al_Request r) = Some h → ∀ k, plain (header_Get k h);
  ol_url : ∀ u, urls st !! r_URL (al_Request r) = Some u → plain (url_RequestURI u);
  ol_app : ∀ e : EndpointRef, al_RouteEndpoint r = Some e → plain (ApplicationId e);
  ol_headers : Forall plain (ExtraHeadersToLog r);
}.

Lemma FormatRequestHeader_there r k :
  record_there r → ∃ v, FormatRequestHeader st r k = Ok v ∧ (one_line r → plain v).
Proof.
  intros [[h Hh] _ _]. unfold FormatRequestHeader, get_header. rewrite Hh. cbn.
  eexists. split; [done|]. intros Ho. destruct (String.eqb (header_Get k h) ""); [done|by apply (ol_header _ Ho)].
Qed.

Lemma ExtraHeaders_there r :
  record_there r → ∃ s, ExtraHeaders fmt st r = Ok s ∧ (one_line r → plain s).
Proof.
  intros Hr. unfold ExtraHeaders.
  match goal with |- context [foldM ?f [] ?l] =>
    assert (∃ acc, foldM f [] l = Ok acc ∧ (one_line r → Forall plain acc)) as (acc & -> & Hacc); [|exists (strings_Join acc "")] end.
  { apply (foldM_inv (λ acc, one_line r → Forall plain acc)); [done|]. intros acc header Hin Hacc.
    destruct (FormatRequestHeader_there r header Hr) as (v & -> & _). cbn [mbind res_mbind]. eexists. split; [done|].
    intros Ho. apply Forall_app. split; [by apply Hacc|]. pose proof (ol_headers _ Ho) as Hx. rewrite Forall_forall in Hx.
    repeat constructor; try done; [by apply plain_replace, plain_lower, Hx|apply plain_quote]. }
  split; [done|]. intros Ho. by apply plain_Join, Hacc.
Qed.

Lemma makeRecord_line r :
  record_there r → ∃ body, makeRecord fmt st r = Ok (body +:+ String newline "") ∧ (one_line r → plain body).
Proof.
  intros Hr. unfold makeRecord.
  assert (∃ s, (match ExtraHeadersToLog r with [] => Ok "" | _ => ExtraHeaders fmt st r end) = Ok s ∧ (one_line r → plain s)) as (x & -> & Hpx).
  { destruct (ExtraHeadersToLog r) eqn:He; [by eexists|]. by apply ExtraHeaders_there. }
  cbn [mbind res_mbind]. destruct (rt_url _ Hr) as [u Hu]. unfold get_url. rewrite Hu. cbn [mbind res_mbind or_panic].
  destruct (FormatRequestHeader_there r "Referer" Hr) as (h1 & -> & H1).
  destruct (FormatRequestHeader_there r "User-Agent" Hr) as (h2 & -> & H2).
  destruct (FormatRequestHeader_there r "X-Forwarded-For" Hr) as (h3 & -> & H3).
  destruct (FormatRequestHeader_there r "X-Forwarded-Proto" Hr) as (h4 & -> & H4).
  destruct (FormatRequestHeader_there r "X-Vcap-Request-Id" Hr) as (h5 & -> & H5). cbn [mbind res_mbind].
  assert (∀ s, plain s → plain (quoted s)) as Hquo.
  { intros s Hs. change (plain (String dquote "" +:+ (s +:+ String dquote ""))). rewrite !plain_app. done. }
  match goal with |- context [Ok (strings_Join ?l "")] =>
    change l with (removelast l ++ [String newline ""]); exists (strings_Join (removelast l) "") end.
  rewrite Join_snoc. split; [done|]. intros Ho. apply plain_Join. cbn [removelast].
  pose proof (ol_url _ Ho u Hu) as Hpu. specialize (Hpx Ho). specialize (H1 Ho). specialize (H2 Ho). specialize (H3 Ho).
  specialize (H4 Ho). specialize (H5 Ho).
  repeat (constructor; [try done|]); try constructor; auto using plain_Z.
  all: try apply plain_time; try (by apply Ho); try (by apply Hquo).
  - apply Hquo. unfold request_Proto. rewrite !plain_app. split_and!; try done; [by apply Ho|apply plain_Z..].
  - destruct (al_StatusCode r =? 0)%Z; [done|apply plain_Z].
  - case_match; [apply plain_float|done].
  - destruct (al_RouteEndpoint r) as [e|] eqn:He; [by apply (ol_app _ Ho)|done].
Qed.
End text.

(** ** The order of the log *)

Section delivery.
Context (fmt : Locale) (st : store).

Definition line (r : AccessLogRecord) : string := match makeRecord fmt st r with Ok s => s | _ => "" end.

Lemma line_spec r : record_there st r →
  makeRecord fmt st r = Ok (line r) ∧ ∃ body, line r = body +:+ String newline "" ∧ (one_line st r → plain body).
Proof.
  intros Hr. destruct (makeRecord_line fmt st r Hr) as (body & Hm & Hp). unfold line. rewrite Hm. eauto.
Qed.

(** What the application's log gets of a record. *)
Definition app_line (source : string) (r : AccessLogRecord) : option (string * string * string) :=
  if decide (source ≠ "" ∧ record_ApplicationId r ≠ "") then Some (record_ApplicationId r, line r, source) else None.

Lemma getRecord_new r : record_there st r → getRecord fmt st r = Ok (line r, set_record (line r) r).
Proof.
  intros Hr. unfold getRecord. rewrite (rt_new _ _ Hr). cbn. by rewrite (proj1 (line_spec r Hr)).
Qed.

Lemma getRecord_again r : record_there st r →
  getRecord fmt st (set_record (line r) r) = Ok (line r, set_record (line r) r).
Proof.
  intros Hr. unfold getRecord. cbn [record set_record].
  destruct (String.eqb_spec (line r) "") as [He|]; [|done].
  destruct (line_spec r Hr) as (_ & body & Hl & _). rewrite He in Hl. by destruct body.
Qed.

Lemma handle_record_spec r x :
  record_there st r →
  handle_record fmt st r x = Ok (mkLogger (dropsondeSourceInstance x) (channel x) (stopCh x) (running x)
    ((λ f, f +:+ line r) <$> writer x) (app_logs x ++ option_list (app_line (dropsondeSourceInstance x) r))).
Proof.
  intros Hr. unfold handle_record, app_line.
  assert (∃ r', (match writer x with Some file => fr ← WriteTo fmt st file r; Ok (Some (fst fr), snd fr) | None => Ok (None, r) end)
    = Ok ((λ f, f +:+ line r) <$> writer x, r') ∧ record_ApplicationId r' = record_ApplicationId r
    ∧ getRecord fmt st r' = Ok (line r, set_record (line r) r)) as (r' & -> & Happ & Hget).
  { destruct (writer x) as [f|].
    - exists (set_record (line r) r). unfold WriteTo. rewrite getRecord_new by done. cbn. split_and!; [done..|].
      by apply getRecord_again.
    - exists r. split_and!; [done..|]. by apply getRecord_new. }
  cbn [mbind res_mbind]. rewrite Happ. unfold LogMessage. rewrite Happ.
  destruct (String.eqb_spec (dropsondeSourceInstance x) ""), (String.eqb_spec (record_ApplicationId r) ""); cbn [negb andb].
  1-3: rewrite decide_False by tauto; by rewrite app_nil_r.
  rewrite decide_True by done. by rewrite Hget.
Qed.

Inductive log_run : AccessLogger → list log_op → AccessLogger → Prop :=
| log_run_nil x : log_run x [] x
| log_run_snoc x ops x1 op x2 : log_run x ops x1 → log_step fmt st x1 op = Some (Ok x2) → log_run x (ops ++ [op]) x2.

Lemma log_run_cons x op x1 ops x2 :
  log_step fmt st x op = Some (Ok x1) → log_run x1 ops x2 → log_run x (op :: ops) x2.
Proof.
  intros Hs Hrun. induction Hrun as [x1|x1 ops x3 op' x2 Hrun IH Hs'].
  - apply (log_run_snoc x [] x op x1); [constructor|done].
  - apply (log_run_snoc x (op :: ops) x3 op' x2); auto.
Qed.

Definition logged (ops : list log_op) : list AccessLogRecord :=
  omap (λ op, match op with OpLog r => Some r | _ => None end) ops.

Lemma logged_snoc ops op : logged (ops ++ [op]) = logged ops ++ logged [op].
Proof. apply omap_app. Qed.

(** The log after the records [hs]. *)
Record delivered (f0 : option string) (source : string) (hs : list AccessLogRecord) (x : AccessLogger) : Prop := {
  de_source : dropsondeSourceInstance x = source;
  de_file : writer x = (λ f, f +:+ strings_Join (line <$> hs) "") <$> f0;
  de_apps : app_logs x = omap (app_line source) hs;
  de_room : length (channel x) ≤ channel_cap;
}.

Lemma log_run_delivered f0 source ops x :
  log_run (NewFileAndLoggregatorAccessLogger f0 source) ops x → Forall (record_there st) (logged ops) →
  ∃ hs, logged ops = hs ++ channel x ∧ delivered f0 source hs x.
Proof.
  remember (NewFileAndLoggregatorAccessLogger f0 source) as x0 eqn:Hx0.
  induction 1 as [x|x ops x1 op x2 Hrun IH Hs]; intros Hall; subst.
  { exists []. split; [done|]. split; cbn; try done; [|unfold channel_cap; lia].
    destruct f0; cbn; by rewrite ?str_app_nil_r. }
  rewrite logged_snoc in Hall. apply Forall_app in Hall as [Hall Hop].
  destruct (IH eq_refl Hall) as (hs & Hl & [Hsrc Hfile Happs Hroom]). rewrite logged_snoc, Hl.
  destruct op as [r| | |]; cbn [log_step] in Hs.
  - case_decide; [|done]. injection Hs as <-. exists hs. cbn. rewrite <- app_assoc. split; [done|].
    split; cbn; try done. rewrite length_app. cbn. lia.
  - destruct (running x1); [|done]. destruct (channel x1) as [|r rest] eqn:Hch; [done|].
    rewrite Hl in Hall. apply Forall_app in Hall as [_ Hr]. inversion Hr; subst.
    rewrite handle_record_spec in Hs by done. injection Hs as <-. exists (hs ++ [r]). cbn. rewrite app_nil_r.
    split; [by rewrite <- app_assoc|]. split; cbn; try done.
    + rewrite Hfile, fmap_app. cbn [fmap list_fmap]. rewrite Join_snoc. destruct f0; cbn; [|done]. by rewrite str_app_assoc.
    + rewrite Happs, omap_app. cbn. by destruct (app_line _ r).
    + cbn in Hroom. lia.
  - destruct (stopCh x1); [done|]. injection Hs as <-. exists hs. cbn. by rewrite app_nil_r.
  - destruct (running x1 && stopCh x1); [|done]. injection Hs as <-. exists hs. cbn. by rewrite app_nil_r.
Qed.

(** C30: The access log.  In every interleaving of requests that log, of the
    writing goroutine and of [Stop], the records written so far followed by
    those waiting are the logged ones, in order and each once; each is text that
    ends with a line break, and has no other one if there is none in the request,
    in the names of the headers to log and in the application's id ([one_line]; an
    id with a line break is printed as it is, see [app_id_splits_line]); the
    application's log gets the same line for requests that
    reached an application; at most 128 records wait; and only a second [Stop]
    can panic. *)
Theorem access_log_delivery f0 source ops x :
  log_run (NewFileAndLoggregatorAccessLogger f0 source) ops x → Forall (record_there st) (logged ops) →
  ∃ hs, logged ops = hs ++ channel x
    ∧ writer x = (λ f, f +:+ strings_Join (line <$> hs) "") <$> f0
    ∧ Forall (λ r, ∃ body, line r = body +:+ String newline "" ∧ (one_line st r → plain body)) hs
    ∧ app_logs x = omap (app_line source) hs
    ∧ length (channel x) ≤ channel_cap
    ∧ (∀ op y, log_step fmt st x op = Some y → (∃ x', y = Ok x') ∨ op = OpStop ∧ stopCh x = true).
Proof.
  intros Hrun Hall. destruct (log_run_delivered f0 source ops x Hrun Hall) as (hs & Hl & [Hsrc Hfile Happs Hroom]).
  rewrite Hl in Hall. apply Forall_app in Hall as [Hhs Hch]. exists hs. split_and!; try done.
  - eapply Forall_impl; [exact Hhs|]. intros r Hr. by apply line_spec.
  - intros op y Hs. destruct op as [r| | |]; cbn [log_step] in Hs.
    + case_decide; [|done]. injection Hs as <-. eauto.
    + destruct (running x); [|done]. destruct (channel x) as [|r rest]; [done|]. inversion Hch; subst.
      rewrite handle_record_spec in Hs by done. injection Hs as <-. eauto.
    + destruct (stopCh x); injection Hs as <-; eauto.
    + destruct (running x && stopCh x); [|done]. injection Hs as <-. eauto.
Qed.
End delivery.

(** ** A short log *)

Definition sample_formats : Locale := mkLocale (λ _, 3600%Z) (λ _, true).
Definition log_store : store := mkStore {[1%positive := {["User-Agent" := ["curl"]]}]} {[1%positive := mkURL "" "" "" "/a" "q=1"]}.
Definition log_record (app : option EndpointRef) : AccessLogRecord :=
  mkALR (mkRequest "GET" 1 1 1 1 false "a.example.com" "192.0.2.1:5555" "/a") 200 app 0 1 2 10 0 ["X-Trace"] "".
Definition log_back : EndpointRef := NewEndpoint 1 "app1" "10.0.0.1" 80 "id1" ∅ 0 "".

Lemma header_Get_plain (h : Header) k :
  map_Forall (λ _ l, Forall plain l) h → plain (header_Get k h).
Proof.
  intros Hh. unfold header_Get. destruct (h !! CanonicalHeaderKey k) as [[|v l]|] eqn:Hk; try done.
  specialize (Hh _ _ Hk). by inversion Hh.
Qed.

Lemma log_record_there app : record_there log_store (log_record app).
Proof. by split; cbn; [eexists|eexists|]. Qed.

Lemma log_record_one_line : one_line log_store (log_record (Some log_back)).
Proof.
  split; cbn; try done.
  - intros h [= <-] k. apply header_Get_plain. apply map_Forall_singleton. by repeat constructor.
  - by intros u [= <-].
  - by intros e [= <-].
  - by repeat constructor.
Qed.

Definition sample_log_ops : list log_op :=
  [OpLog (log_record None); OpLog (log_record (Some log_back)); OpReceive; OpStop; OpReceive; OpStopped].

Lemma access_log_delivery_witness :
  ∃ x, log_run sample_formats log_store (NewFileAndLoggregatorAccessLogger (Some "") "0") sample_log_ops x
    ∧ channel x = [] ∧ length (app_logs x) = 1
    ∧ app_logs x = omap (app_line sample_formats log_store "0") [log_record None; log_record (Some log_back)]
    ∧ ∃ body, line sample_formats log_store (log_record (Some log_back)) = body +:+ String newline "" ∧ plain body.
Proof.
  eexists. split; [repeat (eapply log_run_cons; [vm_compute; reflexivity|]); apply log_run_nil|].
  match goal with |- channel ?x = _ ∧ _ =>
    assert (log_run sample_formats log_store (NewFileAndLoggregatorAccessLogger (Some "") "0") sample_log_ops x) as Hrun
      by (repeat (eapply log_run_cons; [vm_compute; reflexivity|]); apply log_run_nil) end.
  destruct (access_log_delivery sample_formats log_store _ _ _ _ Hrun) as (hs & Hl & _ & Hlines & Ha & _).
  - change (Forall (record_there log_store) [log_record None; log_record (Some log_back)]).
    repeat (constructor; [apply log_record_there|]). constructor.
  - cbn [channel] in Hl. rewrite app_nil_r in Hl. change (logged sample_log_ops) with [log_record None; log_record (Some log_back)] in Hl.
    rewrite <- Hl in *. split_and!; [reflexivity|reflexivity|exact Ha|].
    rewrite !Forall_cons in Hlines. destruct Hlines as (_ & (body & Hb & Hp) & _). exists body. split; [exact Hb|].
    apply Hp, log_record_one_line.
Defined.

Example sample_line : line sample_formats log_store (log_record (Some log_back)) = strings_Join
    ["a.example.com - [01/01/1970:01:00:00 +0100] "; "GET /a?q=1 HTTP/1.1"; " 200 0 10 "; "-"; " "; "curl";
      " 192.0.2.1:5555 x_forwarded_for:"; "-"; " x_forwarded_proto:"; "-";
      " vcap_request_id:- response_time:0.000000002 app_id:app1 x_trace:"; "-"; ""] (String dquote "") +:+ String newline "".
Proof. vm_compute. reflexivity. Qed.

(** The id of an application comes from the bus as a JSON string: with a line
    break in it, one request makes two lines, the second of its own choice. *)
Example app_id_splits_line :
  let id := "app1" +:+ String newline "forged line" in
  strings_Contains (line sample_formats log_store (log_record (Some (NewEndpoint 1 id "10.0.0.1" 80 "id1" ∅ 0 ""))))
    (String newline "forged line x_trace:") = true.
Proof. vm_compute. reflexivity. Qed.
