(* ===== verification/System.v ===== *)
(** * The router at work

    The parts that share the routing table, put together: the subscriptions of
    the bus, the route fetcher, the pruning cycle and the request handler take
    turns on one registry.  An occurrence runs to its end before the next one
    starts; the program's locks make this so for the single accesses to the
    registry that an occurrence consists of, whose interleaving has a file of
    its own.  The result follows traffic back to
    its cause: a request only reaches endpoints that were announced for its URI
    and have not been withdrawn since. *)

From S2P Require Import Prelude GoStrings Uris Pool PoolSpec PoolTheorems Trie TrieSpec Registry RegistrySpec PruneSpec.
From S2P Require Import RegistryTheorems Http RouteService Proxy ProxyServe ProxySpec ProxyUpgrade ProxyServeSpec.
From S2P Require Import ProxyTheorems RegistryInterface MessageJson RouterMessages RouteFetcher RouteFetcherSpec RouteServiceTheorems ProxyExamples.

(** The fetcher, whose registry is everybody's, and what was published. *)
Record router_state := mkRouterState {
  rs_fetcher : RouteFetcher RouteRegistry;
  rs_published : list (string * string);
}.

Definition rs_client (s : router_state) : client RouteRegistry := RouteRegistry_of (rs_fetcher s).
Definition rs_registry (s : router_state) : RouteRegistry := cl_registry (rs_client s).
Definition put_registry (r : RouteRegistry) (s : router_state) : router_state :=
  mkRouterState (set_registry (mkClient r (cl_next (rs_client s))) (rs_fetcher s)) (rs_published s).

Inductive occurrence :=
| OnMessage (clk : clock) (msg : nats_Msg)
| OnFetch (op : fetch_op)
| OnPrune (now : positive → Z)
| OnRequest (env : Env) (w : ResponseWriter) (request : Request) (st : store).

Abbreviation tables := (list string → gmap string (Endpoint * Z)).

Section system.
Context (renv : RouterEnv) (p : proxy) (range : gmap string positive → list (string * positive)).
Context (Hrange : ∀ m, range m ≡ₚ map_to_list m).

(** [ServeHTTP] runs under the server, which recovers from its panics. *)
Definition router_step (s : router_state) (o : occurrence) : res router_state :=
  match o with
  | OnMessage clk msg =>
      b ← deliver renv clk (mkBus (rs_client s) (rs_published s)) msg;
      Ok (mkRouterState (set_registry (bus_client b) (rs_fetcher s)) (bus_published b))
  | OnFetch op => f ← fetch_step (rs_fetcher s) op; Ok (mkRouterState f (rs_published s))
  | OnPrune now => r ← pruneStaleDroplets range now (rs_registry s); Ok (put_registry r s)
  | OnRequest env w request st =>
      x ← ServeHTTP env p w request st (rs_registry s); Ok (put_registry (ps_registry (fst x)) s)
  end.

(** What is asked of an occurrence: ids without a colon, and requests as the
    server makes them. *)
Definition sound (o : occurrence) : Prop :=
  match o with
  | OnMessage _ msg => plain_ids msg
  | OnFetch op => op_plain op
  | OnPrune _ => True
  | OnRequest env w request st => new_writer w ∧ ∃ h u0,
      headers st !! r_Header request = Some h ∧ urls st !! r_URL request = Some u0
  end.

(** ** Announcements and withdrawals *)

(** The occurrence puts [e] on path [q] at time [t]. *)
Definition announces (o : occurrence) (q : list string) (e : Endpoint) (t : Z) : Prop :=
  match o with
  | OnMessage clk msg => msg_Subject msg = router_register ∧
      ∃ rm i, accepted msg = Some rm ∧ keys_of rm !! i = Some q ∧ e = endpoint_of rm ∧ t = snd (clk i)
  | OnFetch (OpFetch clk (inr _) (inr l)) => ∃ i r, l !! i = Some r ∧ key_of r = q ∧ e = ep_of r ∧ t = snd (clk i)
  | OnFetch (OpEvents clk (inr _) (Some es)) => ∃ i ev, es !! i = Some ev ∧ ev_Action ev = "Upsert"
      ∧ key_of (ev_Route ev) = q ∧ e = ep_of (ev_Route ev) ∧ t = snd (clk i)
  | _ => False
  end.

(** The event is about address [a] on path [q]. *)
Definition concerns (q : list string) (a : string) (ev : Event) : Prop :=
  routes_to q a (ev_Route ev) ∧ (ev_Action ev = "Delete" ∨ ev_Action ev = "Upsert").

#[local] Instance concerns_dec q a ev : Decision (concerns q a ev).
Proof. unfold concerns. apply _. Defined.

(** What the last poll that succeeded was answered. *)
Definition poll_answer (o : occurrence) : option (list Route) :=
  match o with
  | OnFetch op => snd <$> answered op
  | _ => None
  end.
Definition known (os : list occurrence) : list Route := default [] (last (omap poll_answer os)).

(** The occurrence takes [e], announced at [t], off path [q]: an accepted
    unregistration, a poll without the route after one with it (which answered
    [old]), a stream of events whose last word on it is a deletion, or a pruning
    pass by all of whose clock readings it is stale. *)
Definition withdraws (thr : Z) (old : list Route) (o : occurrence) (q : list string) (e : Endpoint) (t : Z) : Prop :=
  match o with
  | OnMessage _ msg => msg_Subject msg = router_unregister ∧
      ∃ rm, accepted msg = Some rm ∧ q ∈ keys_of rm ∧ addr (endpoint_of rm) = addr e
  | OnFetch (OpFetch _ (inr _) (inr l)) =>
      Exists (routes_to q (addr e)) old ∧ ¬ Exists (routes_to q (addr e)) l
  | OnFetch (OpEvents _ (inr _) (Some es)) =>
      ∃ ev, last (filter (concerns q (addr e)) es) = Some ev ∧ ev_Action ev = "Delete"
  | OnPrune now => ∀ v, view_stale (now v) thr (mkRef 1 e, t, None) = true
  | _ => False
  end.

(** [e] was announced for [q] at [t], and nothing after that withdraws it. *)
Definition announced (thr : Z) (os : list occurrence) (q : list string) (e : Endpoint) (t : Z) : Prop :=
  ∃ os1 o os2, os = os1 ++ o :: os2 ∧ announces o q e t ∧
    ∀ os3 o' os4, os2 = os3 ++ o' :: os4 → ¬ withdraws thr (known (os1 ++ o :: os3)) o' q e t.

(** What an occurrence leaves in the table was there and is not withdrawn, or is announced. *)
Definition accounted (thr : Z) (old : list Route) (o : occurrence) (T T' : tables) : Prop :=
  ∀ q a e t, T' q !! a = Some (e, t) →
    (addr e = a ∧ announces o q e t) ∨ (T q !! a = Some (e, t) ∧ (addr e = a → ¬ withdraws thr old o q e t)).

Lemma message_accounted thr old clk msg T T' : message_effect clk msg T T' → accounted thr old (OnMessage clk msg) T T'.
Proof.
  unfold message_effect. intros He q a e t.
  destruct (accepted msg) as [rm|] eqn:Ha.
  2: { rewrite He. intros Hq. right. split; [done|]. intros _ (_ & rm & Hr & _). by rewrite Ha in Hr. }
  destruct (String.eqb_spec (msg_Subject msg) router_register) as [Hs|Hreg];
    [|destruct (String.eqb_spec (msg_Subject msg) router_unregister) as [Hs|Hun]].
  - specialize (He q). destruct (decide (q ∈ keys_of rm)).
    + destruct He as (i & Hi & ->). intros [[<- [= <- <-]]|[_ Hq]]%lookup_insert_Some.
      * left. split; [done|]. split; [done|]. by exists rm, i.
      * right. split; [done|]. intros _ [Hw _]. by rewrite Hs in Hw.
    + rewrite He. intros Hq. right. split; [done|]. intros _ [Hw _]. by rewrite Hs in Hw.
  - rewrite He. destruct (decide (q ∈ keys_of rm)) as [Hin|Hout].
    + intros [Hne Hq]%lookup_delete_Some. right. split; [done|]. intros <- (_ & rm' & Hr & _ & Had). congruence.
    + intros Hq. right. split; [done|]. intros _ (_ & rm' & Hr & Hin & _). congruence.
  - rewrite He. intros Hq. right. split; [done|]. by intros _ [Hw _].
Qed.

Lemma poll_accounted thr clk tok old valid T T' :
  refreshed clk old valid T T' → accounted thr old (OnFetch (OpFetch clk (inr tok) (inr valid))) T T'.
Proof.
  intros He q a e t. rewrite He. destruct (listed (timed clk valid) q a) as [v|] eqn:Hl.
  - intros [= ->]. left. unfold listed in Hl. apply fmap_Some in Hl as ([now r] & Hl & [= -> ->]).
    apply last_Some_elem_of, list_elem_of_filter in Hl as [[Hk Ha] Hin]. cbn [fst snd] in *. split; [done|].
    unfold timed in Hin. apply list_elem_of_lookup in Hin as (i & Hi). rewrite list_lookup_imap in Hi.
    apply fmap_Some in Hi as (r' & Hr & [= -> ->]). by exists i, r'.
  - destruct (decide (Exists _ _)) as [|Hno]; [done|]. intros Hq. right. split; [done|]. by intros <- [? _].
Qed.

(** The last event about an address decides what a stream leaves there. *)
Lemma events_lookup clk q a m es :
  let m' := foldl (event_effect clk q) m (imap pair es) in
  match last (filter (concerns q a) es) with
  | None => m' !! a = m !! a
  | Some ev =>
      (ev_Action ev = "Delete" ∧ m' !! a = None) ∨
      (ev_Action ev = "Upsert" ∧ routes_to q a (ev_Route ev)
       ∧ ∃ i, es !! i = Some ev ∧ m' !! a = Some (ep_of (ev_Route ev), snd (clk i)))
  end.
Proof.
  induction es as [|ev es IH] using rev_ind; [done|]. cbv zeta in *.
  rewrite imap_app, foldl_app, filter_app, filter_cons, filter_nil. cbn [imap foldl]. set (m1 := foldl _ m _) in *.
  assert (∀ j ev', es !! j = Some ev' → (es ++ [ev]) !! j = Some ev') as Hold by (intros; by apply lookup_app_l_Some).
  unfold event_effect, drop_route, put_route. cbn [fst snd].
  destruct (decide (concerns q a ev)) as [[[Hk Ha] Hact]|Hno].
  - rewrite last_snoc. destruct (String.eqb_spec (ev_Action ev) "Delete") as [Hd|Hd].
    + left. split; [done|]. rewrite decide_True by done. rewrite Ha. apply lookup_delete_eq.
    + destruct Hact as [|Hu]; [done|]. right. split; [done|]. split; [done|]. exists (length es).
      rewrite lookup_app_r, Nat.sub_diag by lia. split; [done|]. rewrite Hu, String.eqb_refl.
      rewrite decide_True by done. rewrite Ha, Nat.add_0_r. apply lookup_insert_eq.
  - rewrite app_nil_r.
    assert ((if String.eqb (ev_Action ev) "Delete"
             then if decide (key_of (ev_Route ev) = q) then delete (addr (ep_of (ev_Route ev))) m1 else m1
             else if String.eqb (ev_Action ev) "Upsert"
                  then if decide (key_of (ev_Route ev) = q)
                       then <[addr (ep_of (ev_Route ev)) := (ep_of (ev_Route ev), snd (clk (length es + 0)))]> m1 else m1
                  else m1) !! a = m1 !! a) as ->.
    { unfold concerns, routes_to in Hno. destruct (String.eqb_spec (ev_Action ev) "Delete"); [|destruct (String.eqb_spec (ev_Action ev) "Upsert"); [|done]].
      - case_decide; [|done]. apply lookup_delete_ne. tauto.
      - case_decide; [|done]. apply lookup_insert_ne. tauto. }
    destruct (last (filter (concerns q a) es)) as [ev'|]; [|done].
    destruct IH as [?|(Hu & Hr & i & Hi & Hm)]; [by left|right]. split_and!; [done|done|]. eauto.
Qed.

Lemma events_accounted thr old clk tok es T T' :
  (∀ q, T' q = foldl (event_effect clk q) (T q) (imap pair es)) →
  accounted thr old (OnFetch (OpEvents clk (inr tok) (Some es))) T T'.
Proof.
  intros He q a e t. rewrite He. pose proof (events_lookup clk q a (T q) es) as Hl. cbv zeta in Hl.
  destruct (last (filter (concerns q a) es)) as [ev|] eqn:Hlast.
  - destruct Hl as [[_ ->]|(Hu & [Hk Ha] & i & Hi & ->)]; [done|]. intros [= <- <-]. left. split; [done|]. by exists i, ev.
  - rewrite Hl. intros Hq. right. split; [done|]. intros <- (ev & Hev & _). congruence.
Qed.

Lemma fetch_accounted thr op old T T' : op_effect op old T T' → accounted thr old (OnFetch op) T T'.
Proof.
  destruct op as [clk [err|tok] [err2|valid]|clk [err|tok] [es|]]; cbn [op_effect]; intros He.
  4: by eapply poll_accounted.
  6: by eapply events_accounted.
  all: intros q a e t Hq; right; rewrite <- He; by split; [|intros _ []].
Qed.

(** ** The table under pruning and requests *)

Lemma pruned_table old now c r' :
  client_ok c → pruneStaleDroplets range now (cl_registry c) = Ok r' → pruned now (λ _, True) (cl_registry c) r' →
  client_ok (mkClient r' (cl_next c))
  ∧ accounted (dropletStaleThreshold (cl_registry c)) old (OnPrune now) (cl_table c) (cl_table (mkClient r' (cl_next c))).
Proof.
  intros [Hok Hnext] Hr HP.
  assert (∀ q a w, routes r' q !! a = Some w → routes (cl_registry c) q !! a = Some w
    ∧ ∃ v, view_stale (now v) (dropletStaleThreshold (cl_registry c)) w = false) as Hsub.
  { intros q a w. rewrite (pr_in _ _ _ _ HP) by done. unfold prune_route.
    destruct (pool_ref (cl_registry c) q) as [v|]; [|done]. intros [Hq Hs]%map_lookup_filter_Some. eauto. }
  split.
  - split; [apply HP|]. intros q a e u f Hq. apply (Hnext q a e u f). by apply Hsub.
  - intros q a e t. unfold cl_table, listing. cbn [cl_registry reg_table RouteRegistry_interface]. rewrite !lookup_fmap.
    intros ([[e' t'] f] & Hq & [= -> ->])%fmap_Some. apply Hsub in Hq as [-> [v Hv]]. right. split; [done|].
    intros _ Hw. specialize (Hw v). unfold view_stale, staleTime in *. cbn in *. congruence.
Qed.

Lemma listing_unfailed (m m' : gmap string view) : unfailed m = unfailed m' → listing m = listing m'.
Proof.
  intros H. assert (∀ x, listing x = (λ v, (ep (fst v), snd v)) <$> unfailed x) as Hx; [|by rewrite !Hx, H].
  intros x. unfold listing, unfailed. rewrite <- map_fmap_compose. apply map_fmap_ext. by intros i [[? ?] ?] _.
Qed.

Lemma same_table c r' :
  client_ok c → registry_wf r' → same_endpoints (cl_registry c) r' →
  client_ok (mkClient r' (cl_next c)) ∧ ∀ q, cl_table (mkClient r' (cl_next c)) q = cl_table c q.
Proof.
  intros [Hok Hnext] Hwf Hs. split.
  - split; [done|]. intros q a e u f Hq. cbn [cl_registry cl_next] in *. destruct (Hs q) as [_ Hu].
    assert (unfailed (routes r' q) !! a = Some (e, u)) as Ha.
    { unfold unfailed. rewrite lookup_fmap. cbn [reg_table RouteRegistry_interface] in Hq. by rewrite Hq. }
    rewrite Hu in Ha. unfold unfailed in Ha. rewrite lookup_fmap in Ha.
    apply fmap_Some in Ha as ([[e' u'] f'] & Hf & [= -> ->]). by eapply Hnext.
  - intros q. apply listing_unfailed, Hs.
Qed.

(** ** The threshold stays *)

Definition threshold (c : client RouteRegistry) : Z := dropletStaleThreshold (cl_registry c).

Lemma register_threshold t now uri mk c c' : register t now uri mk c = Ok c' → threshold c' = threshold c.
Proof.
  unfold register, threshold. cbn [reg_Register RouteRegistry_ops]. unfold Register. intros H. res_inv. cbn [cl_registry].
  destruct x0 as [pool|]; res_inv; res_inv; reflexivity.
Qed.

Lemma unregister_threshold uri mk c c' : unregister uri mk c = Ok c' → threshold c' = threshold c.
Proof.
  unfold unregister, threshold. cbn [reg_Unregister RouteRegistry_ops]. unfold Unregister. intros H. res_inv. cbn [cl_registry].
  destruct x0 as [pool|]; res_inv; [|done]. destruct (IsEmpty _); res_inv; reflexivity.
Qed.

Lemma deliver_threshold clk b msg b' : deliver renv clk b msg = Ok b' → threshold (bus_client b') = threshold (bus_client b).
Proof.
  unfold deliver, subscribeRegistry_callback.
  destruct (String.eqb _ router_register); [|destruct (String.eqb _ router_unregister); [|destruct (String.eqb _ router_greet)]].
  - intros H. res_inv. cbn [bus_client]. destruct (UnmarshalMessage (msg_Data msg)) as [rm|]; [|by res_inv].
    destruct (negb (ValidateMessage rm)); [by res_inv|]. eapply (foldM_keeps threshold); [|done].
    intros c [i uri] c'. apply register_threshold.
  - intros H. res_inv. cbn [bus_client]. destruct (UnmarshalMessage (msg_Data msg)) as [rm|]; [|by res_inv].
    destruct (negb (ValidateMessage rm)); [by res_inv|]. eapply (foldM_keeps threshold); [|done].
    intros c uri c' Hu. exact (unregister_threshold uri _ c c' Hu).
  - intros [= <-]. unfold HandleGreetings_callback. by destruct (String.eqb _ _).
  - by intros [= <-].
Qed.

Definition fetcher_threshold (f : RouteFetcher RouteRegistry) : Z := threshold (RouteRegistry_of f).

Lemma fetch_threshold f op f' : fetch_step f op = Ok f' → fetcher_threshold f' = fetcher_threshold f.
Proof.
  unfold fetcher_threshold. destruct op as [clk [err|tok] [err2|valid]|clk [err|tok] [es|]]; cbn.
  all: try (by intros [= <-]).
  - unfold refreshEndpoints, deleteEndpoints. intros H. res_inv. cbn [set_registry set_endpoints set_token RouteRegistry_of snd] in *.
    etransitivity; [eapply (foldM_keeps threshold); [|done]; intros c [i r] c'; apply register_threshold|].
    eapply (foldM_keeps threshold); [|done]. intros c r c' Hu. exact (unregister_threshold _ _ c c' Hu).
  - apply (foldM_keeps fetcher_threshold). intros f0 [i ev] f1. unfold HandleEvent, fetcher_threshold.
    destruct (String.eqb _ "Delete"); [|destruct (String.eqb _ "Upsert")]; intros H; res_inv; cbn [set_registry RouteRegistry_of].
    + by eapply unregister_threshold.
    + by eapply register_threshold.
    + done.
Qed.

(** ** The invariant of the run *)

Definition rs_table (s : router_state) : tables := rf_table (rs_fetcher s).

Record in_order (thr : Z) (os : list occurrence) (s : router_state) : Prop := {
  io_fetcher : rf_ok (rs_fetcher s);
  io_known : rf_endpoints (rs_fetcher s) = known os;
  io_threshold : fetcher_threshold (rs_fetcher s) = thr;
  io_announced : ∀ q a e t, rs_table s q !! a = Some (e, t) → addr e = a ∧ announced thr os q e t;
}.

Lemma known_snoc os o : known (os ++ [o]) = default (known os) (poll_answer o).
Proof.
  unfold known. rewrite omap_app. cbn [omap list_omap]. destruct (poll_answer o); [by rewrite last_snoc|by rewrite app_nil_r].
Qed.

Lemma accounted_announced thr os o T T' :
  (∀ q a e t, T q !! a = Some (e, t) → addr e = a ∧ announced thr os q e t) → accounted thr (known os) o T T' →
  ∀ q a e t, T' q !! a = Some (e, t) → addr e = a ∧ announced thr (os ++ [o]) q e t.
Proof.
  intros HT Hacc q a e t [[Ha Hann]|[Hq Hw]]%Hacc.
  - split; [done|]. exists os, o, []. split_and!; [done..|]. by intros [].
  - destruct (HT q a e t Hq) as (Ha & os1 & o1 & os2 & -> & Hann & Hall). split; [done|].
    exists os1, o1, (os2 ++ [o]). rewrite <- app_assoc. split_and!; [done..|]. intros os3 o' os4 Heq.
    destruct os4 as [|x os4 _] using rev_ind.
    + apply app_inj_tail in Heq as [-> ->]. by apply Hw.
    + rewrite app_comm_cons, app_assoc in Heq. apply app_inj_tail in Heq as [-> _]. by apply (Hall os3 o' os4).
Qed.

Lemma unchanged_accounted thr old o (T T' : tables) :
  (∀ q, T' q = T q) → (∀ q e t, ¬ withdraws thr old o q e t) → accounted thr old o T T'.
Proof. intros HT Hw q a e t. rewrite HT. intros Hq. right. split; [done|]. intros _. apply Hw. Qed.

Lemma request_ended env w request st reg :
  sound (OnRequest env w request st) → registry_wf reg →
  ∃ s1 r, ServeHTTP env p w request st reg = Ok (log_request s1, r)
    ∧ (registry_wf (ps_registry s1) ∧ same_endpoints reg (ps_registry s1)
       ∧ ∃ evs, ps_conns s1 = evs ∧ Forall (destined env (start_state env p w request st reg)) evs)
    ∧ fixed s1 = ([], dropletStaleThreshold reg).
Proof.
  intros (Hw & h & u0 & Hh & Hu) Hreg.
  destruct (ServeHTTP_ended env p w request st reg h u0 Hw Hreg Hh Hu) as (s1 & r & Hs & Hend & Hfix).
  destruct (ended_safe env p h (start_state env p w request st reg) r s1 Hreg Hend) as (H1 & H2 & evs & Hc & _ & Hd).
  exists s1, r. split_and!; [done|done|done| |done]. exists evs. split; [exact Hc|done].
Qed.

Lemma router_step_spec thr os s o :
  in_order thr os s → sound o → ∃ s', router_step s o = Ok s' ∧ in_order thr (os ++ [o]) s'.
Proof.
  intros [[Hc Hold] Hkn Hthr Hann] Ho. destruct o as [clk msg|op|now|env w request st]; cbn [router_step].
  - destruct (deliver_spec renv clk (mkBus (rs_client s) (rs_published s)) msg Hc Ho) as (b & Hd & Hc' & He & _).
    rewrite Hd. eexists. split; [done|]. split; [by split|by rewrite known_snoc| |].
    + etransitivity; [apply (deliver_threshold _ _ _ _ Hd)|exact Hthr].
    + eapply accounted_announced; [done|]. by apply message_accounted.
  - destruct (fetch_step_spec (rs_fetcher s) op (conj Hc Hold) Ho) as (f & Hf & Hf' & Hkn' & He).
    rewrite Hf. eexists. split; [done|]. split; [done| | |].
    + cbn [rs_fetcher]. rewrite known_snoc, Hkn', Hkn. cbn [poll_answer]. by destruct (answered op).
    + etransitivity; [apply (fetch_threshold _ _ _ Hf)|exact Hthr].
    + eapply accounted_announced; [done|]. rewrite <- Hkn. by eapply fetch_accounted.
  - destruct (pruneStaleDroplets_pruned range now (rs_registry s) Hrange (proj1 Hc)) as (r' & Hr & HP).
    destruct (pruned_table (known os) now (rs_client s) r' Hc Hr HP) as [Hc' Hacc]. rewrite Hr. eexists. split; [done|].
    split; [by split|by rewrite known_snoc| |].
    + rewrite <- Hthr. apply (pr_thr _ _ _ _ HP).
    + eapply accounted_announced; [done|]. rewrite <- Hthr. exact Hacc.
  - destruct (request_ended env w request st (rs_registry s) Ho (proj1 Hc)) as (s1 & r & -> & (Hreg & Hs & _) & Hfix).
    destruct (same_table (rs_client s) (ps_registry s1) Hc Hreg Hs) as [Hc' HT]. eexists. split; [done|].
    split; [by split|by rewrite known_snoc| |].
    + rewrite <- Hthr. by injection Hfix.
    + eapply accounted_announced; [done|]. by apply unchanged_accounted; [|intros ? ? ? []].
Qed.

Lemma router_run_spec thr os : ∀ os0 s,
  in_order thr os0 s → Forall sound os → ∃ s', foldM router_step s os = Ok s' ∧ in_order thr (os0 ++ os) s'.
Proof.
  induction os as [|o os IH]; intros os0 s Hs Hos; [exists s; by rewrite app_nil_r|]. inversion Hos; subst.
  destruct (router_step_spec thr os0 s o) as (s1 & Hr & Hs1); [done..|].
  destruct (IH (os0 ++ [o]) s1) as (s2 & Hr2 & Hs2); [done..|]. exists s2. cbn [foldM]. rewrite Hr. split; [done|].
  by rewrite <- app_assoc in Hs2.
Qed.

(** ** Traffic *)

(** The event contacts the endpoint [e], or its route service. *)
Definition contacts (env : Env) (e : Endpoint) (ev : conn_event) : Prop :=
  match ev with
  | RoundTripTo u _ h =>
      (u_Host u = addr e ∧ header_Get "X-CF-ApplicationID" h = ApplicationId e)
      ∨ (RouteServiceUrl e ≠ "" ∧ env_url_Parse env (RouteServiceUrl e) = Some u)
  | DialTo a _ | WriteRequest a _ _ | ForwardIO a => a = addr e
  | _ => False
  end.

Definition is_contact (ev : conn_event) : bool :=
  match ev with
  | RoundTripTo _ _ _ | DialTo _ _ | WriteRequest _ _ _ | ForwardIO _ => true
  | _ => false
  end.

(** The request's URI is routed to path [q]: [q] is a prefix of the URI or of
    one of the wildcards that cover it. *)
Definition covers_request (q : list string) (request : Request) : Prop :=
  covers_uri q (request_uri request).

Lemma goes_to_contacts env m ev :
  goes_to env m ev → is_contact ev = true → ∃ e : EndpointRef, routed m e ∧ contacts env e ev.
Proof.
  destruct ev as [u host h|a ok|a host h|a| | |]; try done; cbn [goes_to contacts].
  - intros [(e & He & ? & ?)|(e & He & ? & ?)] _; exists e; auto.
  - intros (e & He & <-) _. by exists e.
  - intros (e & He & <-) _. by exists e.
  - intros (e & He & <-) _. by exists e.
Qed.

Definition started (s : router_state) : Prop :=
  rf_ok (rs_fetcher s) ∧ rf_endpoints (rs_fetcher s) = [] ∧ ∀ q, rs_table s q = ∅.

Lemma announced_target thr os s q (e : EndpointRef) :
  in_order thr os s → routed (routes (rs_registry s) q) e → ∃ t, announced thr os q e t.
Proof.
  intros Hs (t & f & He). exists t. apply (io_announced _ _ _ Hs q (addr e)).
  unfold rs_table, rf_table, cl_table, listing. rewrite lookup_fmap. cbn [reg_table RouteRegistry_interface].
  unfold rs_registry, rs_client in He. by rewrite He.
Qed.

End system.

(** ** A concrete run

    Two routes of an application and two of the routing API are announced, one
    of each is withdrawn, and a pass prunes nothing of what is left. *)

Definition shop_run : list occurrence :=
  [OnMessage sample_clock (mkMsg router_register "" (sample_message ["Shop.example.com/"; "shop.example.com/cart"] ""));
   OnFetch (OpFetch sample_fetch_clock (inr "t") (inr [route_a; route_b]));
   OnMessage sample_clock (mkMsg router_unregister "" (sample_message ["shop.example.com/cart"] "https://rs"));
   OnFetch (OpFetch sample_fetch_clock (inr "t") (inr [route_b]));
   OnFetch (OpEvents sample_fetch_clock (inr "t") (Some [mkEvent route_a "Delete"]));
   OnPrune (λ _, 30 * Second)%Z;
   OnRequest shop_env shop_writer (shop_request "b.example.com" "/api/x") (shop_store ∅)].

Definition shop_start : router_state := mkRouterState sample_fetcher [].

(** The hosts of the round trips made for a request after a run. *)
Definition hosts_after (run : res router_state) (host path : string) : list string :=
  match run with
  | Ok s =>
      match ServeHTTP shop_env shop_proxy shop_writer (shop_request host path) (shop_store ∅) (rs_registry s) with
      | Ok (ps, _) => omap (λ ev, match ev with RoundTripTo u _ _ => Some (u_Host u) | _ => None end) (ps_conns ps)
      | _ => []
      end
  | _ => []
  end.

Abbreviation shop_hosts := (hosts_after (foldM (router_step sample_router shop_proxy map_to_list) shop_start shop_run)).

(** The withdrawn route of the routing API is unknown, the other is reached. *)
Example shop_hosts_run :
  shop_hosts "shop.example.com" "/" = ["10.0.0.7:8080"] ∧ shop_hosts "B.example.com" "/api/x" = ["rs.example.com"]
  ∧ shop_hosts "a.example.com" "/" = [].
Proof. vm_compute. auto. Qed.

Lemma shop_sound host path : sound (OnRequest shop_env shop_writer (shop_request host path) (shop_store ∅)).
Proof.
  split; [apply shop_writer_new|]. exists ∅, (mkURL "" "" "" "/" ""). split; reflexivity.
Qed.

Lemma shop_run_sound : Forall (sound) shop_run.
Proof.
  repeat constructor; try (apply plain_idsb_spec; vm_compute; reflexivity). apply shop_sound.
Qed.

Lemma shop_cart_hosts : shop_hosts "Shop.example.com:80" "/cart" = ["10.0.0.7:8080"].
Proof. vm_compute. reflexivity. Qed.

Lemma hosts_after_contact run s' ps r host path h :
  hosts_after run host path = [h] → run = Ok s' →
  ServeHTTP shop_env shop_proxy shop_writer (shop_request host path) (shop_store ∅) (rs_registry s') = Ok (ps, r) →
  ∃ u h host, RoundTripTo u host h ∈ ps_conns ps.
Proof.
  intros Hh -> Hs. unfold hosts_after in Hh. rewrite Hs in Hh.
  assert (h ∈ [h]) as Hin by (by left). rewrite <- Hh in Hin.
  apply list_elem_of_omap in Hin as (ev & Hin & Hu). destruct ev as [u g k| | | | | |]; [by exists u, k, g|discriminate..].
Qed.

