(* ===== verification/ProcessGroup.v ===== *)
(** * The process group of the router ([launchRouter] of src/main.go, package [ifrit])

    [main] runs the router as the only member of an ordered group, under a
    monitor that passes the signals of the operating system on.  The group meets
    its members and its signals only in [select] statements; what each of them
    chooses is an argument, in order.  A list of choices that is too short leaves
    the group waiting. *)

From S2P Require Import Prelude.

Abbreviation signal := string.
Abbreviation member := string.

Inductive choice :=
| Ready
| Exits (m : member) (err : option string)
| Signalled (s : signal).

(** [ExitEvent] *)
Record exit_event := mkExit { ex_Member : member; ex_Err : option string }.

(** What the group tells its members, and whom it has seen exit. *)
Inductive group_act :=
| Starts (m : member)
| Sends (m : member) (s : signal)
| Sees (e : exit_event).

(** What the group ends with: the names that occur twice, or the trace of exits. *)
Inductive group_error :=
| ErrDuplicateNames (names : list member)
| ErrorTrace (trace : list exit_event).

(** ** Names *)

Fixpoint duplicates (foundNames members : list member) : list member :=
  match members with
  | [] => []
  | m :: members' =>
      if bool_decide (m ∈ foundNames) then m :: duplicates foundNames members'
      else duplicates (m :: foundNames) members'
  end.

Definition Validate (members : list member) : option group_error :=
  match duplicates [] members with [] => None | names => Some (ErrDuplicateNames names) end.

(** ** Starting *)

Inductive started :=
| AllStarted (pool : list member) (cs : list choice)
| StartFailed (pool : list member) (e : exit_event) (cs : list choice)
| StartSignalled (pool : list member) (s : signal) (cs : list choice).

(** A member that exits, or that a signal overtakes, is not in the pool. *)
Fixpoint orderedStart (members pool : list member) (cs : list choice) : option started * list group_act :=
  match members with
  | [] => (Some (AllStarted pool cs), [])
  | m :: members' =>
      match cs with
      | Ready :: cs' => let '(r, acts) := orderedStart members' (pool ++ [m]) cs' in (r, Starts m :: acts)
      | Exits m' err :: cs' =>
          if bool_decide (m' = m) then (Some (StartFailed pool (mkExit m err) cs'), [Starts m; Sees (mkExit m err)])
          else (None, [Starts m])
      | Signalled s :: cs' => (Some (StartSignalled pool s cs'), [Starts m])
      | [] => (None, [Starts m])
      end
  end.

(** ** Stopping *)

(** The members of the pool in reverse order.  A member that has been told to
    stop is waited for, but only until the next signal. *)
Fixpoint stop_loop (signal0 : signal) (rev_pool : list member) (trace : list exit_event) (cs : list choice)
    : option (list exit_event) * list group_act :=
  match rev_pool with
  | [] => (Some trace, [])
  | m :: rest =>
      if bool_decide (m ∈ ex_Member <$> trace) then stop_loop signal0 rest trace cs
      else
        match cs with
        | Exits m' err :: cs' =>
            if bool_decide (m' = m) then
              let '(r, acts) := stop_loop signal0 rest (trace ++ [mkExit m err]) cs' in
              (r, Sends m signal0 :: Sees (mkExit m err) :: acts)
            else (None, [Sends m signal0])
        | Signalled s :: cs' =>
            let '(r, acts) := stop_loop signal0 rest trace cs' in (r, Sends m signal0 :: Sends m s :: acts)
        | _ => (None, [Sends m signal0])
        end
  end.

Definition errOccurred (trace : list exit_event) : bool :=
  existsb (λ e, match ex_Err e with Some _ => true | None => false end) trace.

(** The error of the group is its trace. *)
Definition stop (signal0 : signal) (pool : list member) (trace : list exit_event) (cs : list choice)
    : option (option group_error) * list group_act :=
  let '(r, acts) := stop_loop signal0 (reverse pool) trace cs in
  ((λ trace', if errOccurred trace' then Some (ErrorTrace trace') else None) <$> r, acts).

(** ** Running *)

Definition waitForSignal (terminationSignal : signal) (pool : list member) (trace : list exit_event) (cs : list choice)
    : option (signal * list exit_event * list choice) :=
  match cs with
  | Signalled s :: cs' => Some (s, trace, cs')
  | Exits m err :: cs' => if bool_decide (m ∈ pool) then Some (terminationSignal, trace ++ [mkExit m err], cs') else None
  | _ => None
  end.

Definition group_Run (terminationSignal : signal) (members : list member) (cs : list choice)
    : option (option group_error) * list group_act :=
  match Validate members with
  | Some err => (Some (Some err), [])
  | None =>
      match orderedStart members [] cs with
      | (None, acts) => (None, acts)
      | (Some (StartFailed pool e cs1), acts) =>
          let '(r, acts') := stop terminationSignal pool [e] cs1 in (r, acts ++ acts')
      | (Some (StartSignalled pool s cs1), acts) => let '(r, acts') := stop s pool [] cs1 in (r, acts ++ acts')
      | (Some (AllStarted pool cs1), acts) =>
          match waitForSignal terminationSignal pool [] cs1 with
          | None => (None, acts)
          | Some (s, trace, cs2) =>
              let '(r, acts') := stop s pool trace cs2 in
              (r, acts ++ (Sees <$> trace) ++ acts')
          end
      end
  end.

Definition router_member : member := "router".
Definition os_Interrupt : signal := "interrupt".

(** What the monitor that [launchRouter] waits for returns, and the exit code
    of the process: the monitor passes signals on and returns what the group
    returns. *)
Definition launchRouter (cs : list choice) : option Z * list group_act :=
  let '(r, acts) := group_Run os_Interrupt [router_member] cs in
  ((λ err, match err with Some _ => 1 | None => 0 end)%Z <$> r, acts).

(** ** What happens to a member that is told to stop *)

(** It exits, or the next signal comes first. *)
Definition ending : Type := member * (option string + signal).

Definition ending_choice (d : ending) : choice :=
  match d with (m, inl err) => Exits m err | (m, inr s) => Signalled s end.

Definition ending_acts (signal0 : signal) (d : ending) : list group_act :=
  match d with
  | (m, inl err) => [Sends m signal0; Sees (mkExit m err)]
  | (m, inr s) => [Sends m signal0; Sends m s]
  end.

Definition ending_event (d : ending) : option exit_event :=
  match d with (m, inl err) => Some (mkExit m err) | (m, inr _) => None end.

(** What ends the running of a group whose members are all ready. *)
Inductive wake := WokenBy (s : signal) | MemberExits (m : member) (err : option string).

Definition wake_choice (w : wake) : choice := match w with WokenBy s => Signalled s | MemberExits m err => Exits m err end.
Definition wake_signal (terminationSignal : signal) (w : wake) : signal :=
  match w with WokenBy s => s | MemberExits _ _ => terminationSignal end.
Definition wake_trace (w : wake) : list exit_event :=
  match w with WokenBy _ => [] | MemberExits m err => [mkExit m err] end.

Definition group_result (trace : list exit_event) : option group_error :=
  if errOccurred trace then Some (ErrorTrace trace) else None.

(** ** Lemmas *)

Lemma duplicates_nil members : ∀ found, duplicates found members = [] ↔ NoDup members ∧ (∀ m, m ∈ members → m ∉ found).
Proof.
  induction members as [|m members IH]; intros found; cbn [duplicates].
  - split; [|done]. intros _. split; [constructor|]. intros m Hm. by apply elem_of_nil in Hm.
  - rewrite NoDup_cons. case_bool_decide as Hm.
    + split; [done|]. intros [_ H]. destruct (H m ltac:(by left) Hm).
    + rewrite IH. split.
      * intros [Hnd Hf]. split_and!; [|done|].
        -- intros Hin. apply (Hf _ Hin). by left.
        -- intros x [->|Hx]%elem_of_cons; [done|]. intros Hin. apply (Hf _ Hx). by right.
      * intros [[Hni Hnd] Hf]. split; [done|]. intros x Hx [->|Hin]%elem_of_cons; [done|]. by apply (Hf x ltac:(by right)).
Qed.

Lemma Validate_ok members : Validate members = None ↔ NoDup members.
Proof.
  unfold Validate. pose proof (duplicates_nil members []) as H.
  destruct (duplicates [] members) as [|d ds] eqn:E.
  - split; [|done]. intros _. by apply H.
  - split; [done|]. intros Hnd. assert (d :: ds = []) as Hbad; [|done].
    apply H. split; [done|]. intros m _. apply not_elem_of_nil.
Qed.

Lemma orderedStart_ready members : ∀ pool cs,
  orderedStart members pool ((const Ready <$> members) ++ cs) = (Some (AllStarted (pool ++ members) cs), Starts <$> members).
Proof.
  induction members as [|m members IH]; intros pool cs; cbn; [by rewrite app_nil_r|].
  by rewrite IH, <- app_assoc.
Qed.

Lemma filter_ext_in {A} (P Q : A → Prop) `{∀ x, Decision (P x), ∀ x, Decision (Q x)} (l : list A) :
  (∀ x, x ∈ l → P x ↔ Q x) → filter P l = filter Q l.
Proof.
  induction l as [|x l IH]; intros HPQ; [done|].
  rewrite !filter_cons, IH by (intros y Hy; apply HPQ; by right). pose proof (HPQ x ltac:(by left)). repeat case_decide; naive_solver.
Qed.

Lemma filter_all {A} (P : A → Prop) `{∀ x, Decision (P x)} (l : list A) : (∀ x, x ∈ l → P x) → filter P l = l.
Proof.
  induction l as [|x l IH]; intros HP; [done|]. rewrite filter_cons_True by (apply HP; by left).
  f_equal. apply IH. intros y Hy. apply HP. by right.
Qed.

Lemma stop_loop_endings signal0 ms : ∀ trace (ds : list ending) cs,
  NoDup ms → ds.*1 = filter (.∉ ex_Member <$> trace) ms →
  stop_loop signal0 ms trace ((ending_choice <$> ds) ++ cs)
  = (Some (trace ++ omap ending_event ds), ds ≫= ending_acts signal0).
Proof.
  induction ms as [|m ms IH]; intros trace ds cs Hnd Hds.
  - apply fmap_nil_inv in Hds as ->. cbn. by rewrite app_nil_r.
  - apply NoDup_cons in Hnd as [Hm Hnd]. cbn [stop_loop]. case_bool_decide as Hin.
    + apply IH; [done|]. rewrite Hds, filter_cons_False; [done|]. intros H. by apply H.
    + rewrite filter_cons_True in Hds by done. destruct ds as [|[m' [err|s]] ds]; [done|..];
        cbn in Hds; injection Hds as -> Hds.
      * cbn [fmap list_fmap app ending_choice]. rewrite bool_decide_true by done.
        rewrite IH; [cbn; by rewrite <- app_assoc|done|]. rewrite Hds. apply filter_ext_in.
        intros x Hx. rewrite fmap_app, not_elem_of_app. cbn. rewrite list_elem_of_singleton.
        split; [|by intros [? _]]. intros Hni. split; [done|]. by intros ->.
      * cbn [fmap list_fmap app ending_choice]. rewrite IH by done. done.
Qed.

Lemma group_Run_stop terminationSignal members w (ds : list ending) cs :
  NoDup members → match w with WokenBy _ => True | MemberExits m _ => m ∈ members end →
  ds.*1 = reverse (filter (.∉ ex_Member <$> wake_trace w) members) →
  group_Run terminationSignal members ((const Ready <$> members) ++ wake_choice w :: (ending_choice <$> ds) ++ cs)
  = (Some (group_result (wake_trace w ++ omap ending_event ds)),
     (Starts <$> members) ++ (Sees <$> wake_trace w) ++ (ds ≫= ending_acts (wake_signal terminationSignal w))).
Proof.
  intros Hnd Hw Hds. unfold group_Run. rewrite (proj2 (Validate_ok _) Hnd), orderedStart_ready. cbn [app].
  assert (waitForSignal terminationSignal members [] (wake_choice w :: (ending_choice <$> ds) ++ cs)
          = Some (wake_signal terminationSignal w, wake_trace w, (ending_choice <$> ds) ++ cs)) as ->.
  { destruct w as [s|m err]; cbn; [done|]. by rewrite bool_decide_true. }
  unfold stop. rewrite stop_loop_endings; [done|by rewrite reverse_Permutation|by rewrite filter_reverse].
Qed.

Lemma exited_members (ds : list ending) :
  Forall (λ d : ending, ∃ err, d.2 = inl err) ds → ex_Member <$> omap ending_event ds = ds.*1.
Proof.
  induction 1 as [|[m o] ds [err Herr] _ IH]; [done|]. cbn in Herr. subst o. cbn. by f_equal.
Qed.

Lemma filter_absent_delete (m : member) ms :
  NoDup ms → m ∈ ms → m :: filter (.∉ [m]) ms ≡ₚ ms.
Proof.
  induction ms as [|x ms IH]; intros Hnd Hm; [by apply elem_of_nil in Hm|]. apply NoDup_cons in Hnd as [Hx Hnd].
  destruct (decide (x = m)) as [->|Hne].
  - rewrite filter_cons_False by (rewrite list_elem_of_singleton; tauto). f_equiv.
    rewrite filter_all; [done|]. intros y Hy. rewrite list_elem_of_singleton. by intros ->.
  - apply elem_of_cons in Hm as [->|Hm]; [done|]. rewrite filter_cons_True by (by rewrite list_elem_of_singleton).
    rewrite Permutation_swap. f_equiv. by apply IH.
Qed.

Lemma all_exit members w (ds : list ending) :
  NoDup members → match w with WokenBy _ => True | MemberExits m _ => m ∈ members end →
  ds.*1 = reverse (filter (.∉ ex_Member <$> wake_trace w) members) →
  Forall (λ d : ending, ∃ err, d.2 = inl err) ds →
  ex_Member <$> (wake_trace w ++ omap ending_event ds) ≡ₚ members.
Proof.
  intros Hnd Hw Hds Hall. rewrite fmap_app, (exited_members _ Hall), Hds, reverse_Permutation.
  destruct w as [s|m err]; cbn [wake_trace fmap list_fmap app ex_Member].
  - rewrite filter_all; [done|]. intros x _. apply not_elem_of_nil.
  - by apply filter_absent_delete.
Qed.

(** ** The shutdown of a group *)

(** C40: The shutdown of an ordered group.  Of a group whose members have
    different names and have all become ready, whatever wakes it - a signal, or
    the exit of a member - and however the waits of its shutdown end, the group
    returns: every member that has not exited is sent the signal in the reverse
    of the order of starting, and is waited for before the next one is told; a
    further signal is handed to the member being waited for, whose wait it ends.
    The group fails exactly when an exit it has seen was a failure, with all the
    exits seen, in order.  If no further signal comes, the exits of all the
    members have been seen when the group returns, each once. *)
Theorem group_shutdown terminationSignal members w (ds : list ending) cs :
  NoDup members → match w with WokenBy _ => True | MemberExits m _ => m ∈ members end →
  ds.*1 = reverse (filter (.∉ ex_Member <$> wake_trace w) members) →
  group_Run terminationSignal members ((const Ready <$> members) ++ wake_choice w :: (ending_choice <$> ds) ++ cs)
  = (Some (group_result (wake_trace w ++ omap ending_event ds)),
     (Starts <$> members) ++ (Sees <$> wake_trace w) ++ (ds ≫= ending_acts (wake_signal terminationSignal w)))
  ∧ (Forall (λ d : ending, ∃ err, d.2 = inl err) ds →
     ex_Member <$> (wake_trace w ++ omap ending_event ds) ≡ₚ members).
Proof. intros Hnd Hw Hds. split; [by apply group_Run_stop|by apply all_exit]. Qed.

(** Three members; the second exits with an error, the others exit when told. *)
Lemma group_shutdown_witness :
  group_Run os_Interrupt ["a"; "b"; "c"]
    [Ready; Ready; Ready; Exits "b" (Some "lost"); Exits "c" None; Exits "a" None]
  = (Some (Some (ErrorTrace [mkExit "b" (Some "lost"); mkExit "c" None; mkExit "a" None])),
     [Starts "a"; Starts "b"; Starts "c"; Sees (mkExit "b" (Some "lost")); Sends "c" os_Interrupt;
      Sees (mkExit "c" None); Sends "a" os_Interrupt; Sees (mkExit "a" None)]).
Proof.
  apply (group_shutdown os_Interrupt ["a"; "b"; "c"] (MemberExits "b" (Some "lost")) [("c", inl None); ("a", inl None)] []).
  - by apply (bool_decide_unpack _).
  - by apply (bool_decide_unpack _).
  - reflexivity.
Defined.

(** ** The router *)

(** The exit code of a router that is told once to stop is the router's own verdict. *)
Lemma router_stops s err cs :
  launchRouter (Ready :: Signalled s :: Exits router_member err :: cs)
  = (Some (match err with Some _ => 1 | None => 0 end)%Z,
     [Starts router_member; Sends router_member s; Sees (mkExit router_member err)]).
Proof. by destruct err. Qed.

(** A router that fails while it starts ends the process with code 1. *)
Lemma router_fails err cs :
  launchRouter (Exits router_member (Some err) :: cs)
  = (Some 1%Z, [Starts router_member; Sees (mkExit router_member (Some err))]).
Proof. done. Qed.

(** A second signal ends the process with code 0 while the router is still
    draining: the group does not wait again. *)
Lemma second_signal_ends s1 s2 cs :
  launchRouter (Ready :: Signalled s1 :: Signalled s2 :: cs)
  = (Some 0%Z, [Starts router_member; Sends router_member s1; Sends router_member s2]).
Proof. done. Qed.

(** A signal that arrives before the router is ready ends the process at once,
    and the router is not told. *)
Lemma early_signal_ends s cs : launchRouter (Signalled s :: cs) = (Some 0%Z, [Starts router_member]).
Proof. done. Qed.
