(* ===== verification/Main.v ===== *)
(** * Putting the router together (src/main.go, [NewRouter] and [flushApps] of src/router/router.go)

    [main] reads the configuration, connects to the bus and builds registry,
    route fetcher, statistics, proxy and status component from it.  The bus,
    the key derivation and the ciphers are parameters; the router runs in the
    process group of [ProcessGroup]. *)

From S2P Require Import Prelude ProcessGroup GoStrings Uris Pool PoolSpec Trie TrieSpec Registry RegistrySpec RegistryInterface.
From S2P Require Import Floats Utf8 Json LogCounter Http RouteService AccessLog AccessLogger Proxy ActiveApps Config StatusServer RouteFetcher Reporters.

(** ** The proxy's arguments *)

(** A method called on a nil interface. *)
Definition nil_Crypto : Crypto := mkCrypto (λ _ _, Panic nil_deref) (λ _ _, Panic nil_deref).

Record ProxyArgs := mkProxyArgs {
  pa_EndpointTimeout : Z;
  pa_Ip : string;
  pa_TraceKey : string;
  pa_SecureCookies : bool;
  pa_CipherSuites : list Z;
  pa_InsecureSkipVerify : bool;
  pa_RouteServiceEnabled : bool;
  pa_RouteServiceTimeout : Z;
  pa_Crypto : option Crypto;
  pa_CryptoPrev : option Crypto;
  pa_ExtraHeadersToLog : list string;
}.

(** The transport is part of the environment of [Proxy]. *)
Definition NewProxy (args : ProxyArgs) : proxy :=
  let routeServiceConfig := NewRouteServiceConfig (pa_RouteServiceEnabled args) (pa_RouteServiceTimeout args)
    (default nil_Crypto (pa_Crypto args)) (pa_CryptoPrev args) in
  mkProxy (pa_Ip args) (pa_TraceKey args) (pa_SecureCookies args) routeServiceConfig (pa_ExtraHeadersToLog args).

Definition buildProxy (c : Config) (crypto cryptoPrev : option Crypto) : proxy :=
  NewProxy {|
    pa_EndpointTimeout := p_EndpointTimeout (c_Processed c);
    pa_Ip := p_Ip (c_Processed c);
    pa_TraceKey := c_TraceKey c;
    pa_SecureCookies := c_SecureCookies c;
    pa_CipherSuites := c_CipherSuites c;
    pa_InsecureSkipVerify := c_SSLSkipValidation c;
    pa_RouteServiceEnabled := p_RouteServiceEnabled (c_Processed c);
    pa_RouteServiceTimeout := p_RouteServiceTimeout (c_Processed c);
    pa_Crypto := crypto;
    pa_CryptoPrev := cryptoPrev;
    pa_ExtraHeadersToLog := c_ExtraHeadersToLog c
  |}.

(** ** The surroundings of [main] *)

Record Outside := mkOutside {
  yagnats_Connect : nat → list string → bool;
  ciphers : Ciphers;
  dropsonde_Initialize : string → string → bool;
  OpenFile : string → option string;
}.

(** [main] ends the process with this message. *)
Abbreviation exit := string.

Section main.
Context (out : Outside).

Definition createCrypto (secret : string) : exit + Crypto :=
  let secretPbkdf2 := NewPbkdf2 (ciphers out) secret 16 in
  match NewAesGCM (ciphers out) secretPbkdf2 with
  | None => inl "Error creating route service crypto"
  | Some aead => inr (AesGCM aead)
  end.

(** ** Logging *)

Inductive log_sink :=
| FileSink (path : string)
| StdoutSink
| SyslogSink (namespace : string)
| CounterSink.

(** The sinks and the level; an unknown level is a panic. *)
Definition InitLoggerFromConfig (c : Config) : res (list log_sink * LogLevel) :=
  let lg := c_Logging c in
  l ← or_panic "GetLogLevel" (GetLogLevel (lg_Level lg));
  let s := if String.eqb (lg_File lg) "" then [StdoutSink] else [FileSink (lg_File lg)] in
  let s := if String.eqb (lg_Syslog lg) "" then s else s ++ [SyslogSink (lg_Syslog lg)] in
  Ok (s ++ [CounterSink], l).

(** Three attempts, numbered from [k]; the number of the one that succeeds. *)
Fixpoint connect_loop (attempts k : nat) (natsServers : list string) : option nat :=
  match attempts with
  | O => None
  | S attempts' => if yagnats_Connect out k natsServers then Some k else connect_loop attempts' (S k) natsServers
  end.

Definition connectToNatsServer (c : Config) : exit + nat :=
  match connect_loop 3 0 (NatsServers c) with
  | None => inl "Error connecting to NATS"
  | Some k => inr k
  end.

(** Where the tokens for the routing API come from. *)
Inductive token_fetcher :=
| NoOpTokenFetcher
| TokenFetcher (oauth : OAuthConfig).

Definition newTokenFetcher (c : Config) : token_fetcher :=
  if ra_AuthDisabled (c_RoutingApi c) then NoOpTokenFetcher else TokenFetcher (c_OAuth c).

Definition setupRouteFetcher (c : Config) (r : client RouteRegistry) : option (RouteFetcher RouteRegistry) :=
  if RoutingApiEnabled c
  then Some (StartFetchCycle (NewRouteFetcher r (p_PruneStaleDropletsInterval (c_Processed c)) 1))
  else None.

(** The component [NewRouter] starts. *)
Definition router_component (c : Config) (logCounter : LogCounter) : GenericVarz :=
  let host := if (st_Port (c_Status c) =? 0)%Z then "" else p_Ip (c_Processed c) +:+ ":" +:+ pretty (st_Port (c_Status c)) in
  mkGeneric "Router" (c_Index c) host [st_User (c_Status c); st_Pass (c_Status c)] "" zero_time 0 0 (f64_of_Z 0) 0 logCounter.

(** What [main] has for an access logger: [nil] when creating it failed. *)
Inductive access_logger :=
| NilLogger
| NullAccessLogger
| RunningLogger (x : AccessLogger).

Record System := mkSystem {
  sy_sinks : list log_sink;
  sy_registry : client RouteRegistry;
  sy_fetcher : option (RouteFetcher RouteRegistry);
  sy_tokens : option token_fetcher;
  sy_varz : RealVarz;
  sy_sink : Sink;
  sy_access : access_logger;
  sy_proxy : proxy;
  sy_component : GenericVarz;
  sy_procs : option Z;
  sy_debug : option string;
}.

(** The argument of [runtime.GOMAXPROCS], where it is called. *)
Definition main_procs (c : Config) : option Z := if (c_GoMaxProcs c =? 0)%Z then None else Some (c_GoMaxProcs c).
(** The address of the debug server, where it is run. *)
Definition main_debug (c : Config) : option string := if String.eqb (c_DebugAddr c) "" then None else Some (c_DebugAddr c).

(** [Fatalf] panics, unless logging is switched off: [main] then goes on with
    the nil logger that comes with the error. *)
Definition main_access_logger (level : LogLevel) (c : Config) : res access_logger :=
  match CreateRunningAccessLogger (OpenFile out) c with
  | inl err => _ ← Fatal level ("Error creating access logger: " +:+ err +:+ String "010" ""); Ok NilLogger
  | inr None => Ok NullAccessLogger
  | inr (Some x) => Ok (RunningLogger x)
  end.

Definition main_cryptos (c : Config) : exit + (option Crypto * option Crypto) :=
  if p_RouteServiceEnabled (c_Processed c) then
    match createCrypto (c_RouteServiceSecret c) with
    | inl e => inl e
    | inr crypto =>
        if String.eqb (c_RouteServiceSecretPrev c) "" then inr (Some crypto, None)
        else match createCrypto (c_RouteServiceSecretPrev c) with
             | inl e => inl e
             | inr cryptoPrev => inr (Some crypto, Some cryptoPrev)
             end
    end
  else inr (None, None).

(** [main] up to [launchRouter]. *)
Definition assemble (env : StartEnv) (c : Config) : res (exit + System) :=
  sl ← InitLoggerFromConfig c;
  if negb (dropsonde_Initialize out (lg_MetronAddress (c_Logging c)) (lg_JobName (c_Logging c)))
  then Ok (inl "Dropsonde failed to initialize")
  else
    match connectToNatsServer c with
    | inl e => Ok (inl e)
    | inr _ =>
        let registry := mkClient (NewRouteRegistry (p_PruneStaleDropletsInterval (c_Processed c))
          (p_DropletStaleThreshold (c_Processed c))) 1%positive in
        let fetcher := setupRouteFetcher c registry in
        let tokens := if RoutingApiEnabled c then Some (newTokenFetcher c) else None in
        let varz := NewVarz (cl_registry registry) in
        accessLogger ← main_access_logger (snd sl) c;
        match main_cryptos c with
        | inl e => Ok (inl e)
        | inr (crypto, cryptoPrev) =>
            let proxy := buildProxy c crypto cryptoPrev in
            match component_Start env (router_component c NewLogCounter) with
            | inl e => Ok (inl e)
            | inr component =>
                Ok (inr (mkSystem (fst sl) registry fetcher tokens varz NewSink accessLogger proxy component
                  (main_procs c) (main_debug c)))
            end
        end
    end.

(** The code the process exits with, [None] while it runs; [life] is what the
    process group of the router that is launched meets. *)
Definition main (m : Machine) (configFile : string) (env : StartEnv) (life : System → list choice)
    : res (option Z) :=
  d ← DefaultConfig m;
  c ← (if String.eqb configFile "" then Ok d else InitConfigFromFile m configFile);
  r ← assemble env c;
  Ok (match r with
      | inl _ => Some 1%Z
      | inr s => fst (launchRouter (life s))
      end).

(** ** Publishing active applications *)

(** [compress] is zlib.  Encoding strings as JSON does not fail. *)
Definition flushApps (compress : string → string) (t : Z) (x : ActiveApps) : res (list (string * string)) :=
  x ← ActiveSince t x;
  let y := print_json (JArr (map json_string x)) in
  Ok [("router.active_apps", compress y)].

(** A tick of [ScheduleFlushApps] at time [y]: what is published, and the time
    the next one starts from. *)
Definition flush_tick (compress : string → string) (y x : Z) (a : ActiveApps) : res (list (string * string) * Z) :=
  msgs ← flushApps compress x a; Ok (msgs, y).
End main.

(** ** The assembled router *)

Lemma connect_loop_spec out n : ∀ k l,
  match connect_loop out n k l with
  | Some j => k ≤ j < k + n ∧ yagnats_Connect out j l = true ∧ ∀ i, k ≤ i < j → yagnats_Connect out i l = false
  | None => ∀ i, k ≤ i < k + n → yagnats_Connect out i l = false
  end.
Proof.
  induction n as [|n IH]; intros k l; cbn; [lia|]. destruct (yagnats_Connect out k l) eqn:Hk.
  - split_and!; [lia..|done|lia].
  - specialize (IH (S k) l). destruct (connect_loop out n (S k) l) as [j|].
    + destruct IH as (? & ? & Hi). split_and!; [lia..|done|]. intros i Hik. destruct (decide (i = k)) as [->|]; [done|].
      apply Hi. lia.
    + intros i Hik. destruct (decide (i = k)) as [->|]; [done|]. apply IH. lia.
Qed.

(** What holds of the system when the router is launched. *)
Record system_ok (out : Outside) (c : Config) (s : System) : Prop := {
  so_registry : client_ok (sy_registry s) ∧ (∀ q, routes (cl_registry (sy_registry s)) q = ∅)
    ∧ dropletStaleThreshold (cl_registry (sy_registry s)) = p_DropletStaleThreshold (c_Processed c)
    ∧ pruneStaleDropletsInterval (cl_registry (sy_registry s)) = p_PruneStaleDropletsInterval (c_Processed c);
  so_fetcher : match sy_fetcher s with
    | Some f => RoutingApiEnabled c = true ∧ RouteRegistry_of f = sy_registry s ∧ rf_endpoints f = []
        ∧ FetchRoutesInterval f = Z.quot (p_PruneStaleDropletsInterval (c_Processed c)) 2
    | None => RoutingApiEnabled c = false
    end;
  so_proxy : RouteServiceEnabled (px_routeServiceConfig (sy_proxy s)) = p_RouteServiceEnabled (c_Processed c)
    ∧ (p_RouteServiceEnabled (c_Processed c) = true → ∃ g, NewAesGCM (ciphers out) (NewPbkdf2 (ciphers out) (c_RouteServiceSecret c) 16) = Some g
        ∧ crypto (px_routeServiceConfig (sy_proxy s)) = AesGCM g)
    ∧ (c_RouteServiceSecretPrev c = "" → cryptoPrev (px_routeServiceConfig (sy_proxy s)) = None);
  so_component : gv_Credentials (sy_component s) = [st_User (c_Status c); st_Pass (c_Status c)]
    ∧ gv_Host (sy_component s) ≠ "" ∧ gv_LogCounts (sy_component s) = NewLogCounter ∧ CounterSink ∈ sy_sinks s;
  so_tokens : is_Some (sy_tokens s) ↔ is_Some (sy_fetcher s);
  so_procs : ∀ n, sy_procs s = Some n ↔ n = c_GoMaxProcs c ∧ n ≠ 0%Z;
  so_debug : ∀ a, sy_debug s = Some a ↔ a = c_DebugAddr c ∧ a ≠ "";
  so_access : sy_access s = NilLogger ↔ c_AccessLog c ≠ "" ∧ OpenFile out (c_AccessLog c) = None;
  so_log_file : c_AccessLog c ≠ "" → lg_Level (c_Logging c) ≠ "off" → is_Some (OpenFile out (c_AccessLog c));
}.

(** With a key derivation that gives keys of the length asked for, there is
    always a cipher. *)
Lemma createCrypto_ok out secret :
  (∀ input salt iter n, String.length (pbkdf2_Key (ciphers out) input salt iter n) = n) →
  createCrypto out secret = inr (AesGCM (aes_gcm (ciphers out) (NewPbkdf2 (ciphers out) secret 16))).
Proof.
  intros Hlen. unfold createCrypto, NewAesGCM. rewrite bool_decide_true; [done|]. unfold NewPbkdf2. rewrite Hlen. by left.
Qed.

Lemma main_access_logger_cases out level c :
  (∃ x, main_access_logger out level c = Ok x
     ∧ (x = NilLogger ↔ c_AccessLog c ≠ "" ∧ OpenFile out (c_AccessLog c) = None)
     ∧ (x = NilLogger → (Priority level < 1)%Z))
  ∨ (c_AccessLog c ≠ "" ∧ OpenFile out (c_AccessLog c) = None ∧ (1 ≤ Priority level)%Z
     ∧ ∃ m, main_access_logger out level c = Panic m).
Proof.
  unfold main_access_logger, CreateRunningAccessLogger. destruct (String.eqb_spec (c_AccessLog c) "") as [->|Hne].
  - cbn [andb]. left. destruct (negb _); eexists; (split; [reflexivity|]); naive_solver.
  - cbn [andb]. destruct (OpenFile out (c_AccessLog c)) as [f|] eqn:Ho.
    + left. eexists. split; [reflexivity|]. naive_solver.
    + destruct (decide (Priority level < 1)%Z) as [Hl|Hl].
      * left. rewrite Fatal_silent by done. eexists. split; [reflexivity|]. naive_solver.
      * right. rewrite Fatal_panics by lia. split_and!; [done|done|lia|by eexists].
Qed.

(** A log file that cannot be opened ends [main] in a panic. *)
Lemma log_file_panics out env c sl k :
  InitLoggerFromConfig c = Ok sl → lg_Level (c_Logging c) ≠ "off" →
  dropsonde_Initialize out (lg_MetronAddress (c_Logging c)) (lg_JobName (c_Logging c)) = true → connectToNatsServer out c = inr k →
  c_AccessLog c ≠ "" → OpenFile out (c_AccessLog c) = None → ∃ m, assemble out env c = Panic m.
Proof.
  intros Hlog Hoff Hd Hn Hne Ho. unfold assemble. rewrite Hlog. cbn [mbind res_mbind]. rewrite Hd, Hn. cbn [negb].
  destruct (main_access_logger_cases out (snd sl) c) as [(x & -> & [_ Hx] & Hl)|(_ & _ & _ & m & ->)]; [|by exists m].
  destruct Hoff. unfold InitLoggerFromConfig in Hlog. destruct (GetLogLevel _) as [level|] eqn:Hlv; [|done].
  injection Hlog as <-. eapply GetLogLevel_off; [done|]. apply Hl. by apply Hx.
Qed.


(** The process exits with success exactly when it had a configuration, the
    router was assembled from it, and the group of the router ended without an
    error. *)
Lemma main_exit out m configFile env life :
  main out m configFile env life = Ok (Some 0%Z) ↔
  ∃ d c s, DefaultConfig m = Ok d
    ∧ (if String.eqb configFile "" then c = d else InitConfigFromFile m configFile = Ok c)
    ∧ assemble out env c = Ok (inr s)
    ∧ fst (group_Run os_Interrupt [router_member] (life s)) = Some None.
Proof.
  assert (∀ cs, fst (launchRouter cs) = Some 0%Z
    ↔ fst (group_Run os_Interrupt [router_member] cs) = Some None) as Hlaunch.
  { intros cs. unfold launchRouter. destruct (group_Run _ _ cs) as [[[e|]|] acts]; cbn; naive_solver. }
  unfold main. split.
  - intros H. apply bind_Ok in H as (d & Hd & H). apply bind_Ok in H as (c & Hc & H). apply bind_Ok in H as ([e|s] & Ha & H); [done|].
    exists d, c, s. injection H as H. apply Hlaunch in H. split_and!; [done| |done..].
    by destruct (String.eqb configFile ""); [injection Hc|].
  - intros (d & c & s & -> & Hc & Ha & Hm). apply Hlaunch in Hm. cbn [mbind res_mbind].
    destruct (String.eqb configFile ""); [subst c|rewrite Hc]; cbn [mbind res_mbind]; rewrite Ha; cbn [mbind res_mbind]; by rewrite Hm.
Qed.

(** The default configuration. *)
Definition sample_ciphers : Ciphers := mkCiphers (λ k, mkAEAD 12 (λ n p, p) (λ n c, Some c)) (λ _ _ _ n, String.concat "" (repeat "k" n)).
Definition sample_outside : Outside :=
  mkOutside (λ k _, bool_decide (k = 1)) sample_ciphers (λ _ _, true) (λ _, None).

